(* ===== verification/_CoqProject ===== *)
-Q . S2P
Prelude.v
PyDict.v
PyDecimal.v
TimeUtils.v
Timestamps.v
KeyIndex.v
Storage.v
Message.v
Partition.v
Network.v
Window.v
Stats.v
Operators.v
Dataflow.v
Keyed.v
Sources.v
Functions.v
Chains.v
Callables.v
JobGraph.v
Execution.v
Sinks.v
Workers.v
Tasks.v
Deployment.v
Master.v
Lifecycle.v
Schema.v
Declarations.v
Events.v
Client.v
Features.v
Pipelines.v
Serving.v
Online.v
Codec.v
Buffers.v
Reliable.v
Metrics.v
Transfer.v
IoLoop.v
Legacy.v
Singletons.v
