(* ===== verification/Prelude.v ===== *)
(** * Volga verification library

    Volga is a feature engine: datasets and operators over them are declared in
    Python ([volga/api]), turned into streams ([volga/streaming/api]) and run as a
    distributed job on Ray actors ([volga/streaming/runtime]), with the results in a
    store of features ([volga/storage]).  This library is a shallow embedding of that
    program: Python functions are Rocq functions, objects that are mutated are
    explicit state, exceptions are values.

    ** The program and the files

    - {b Shared.}  [Prelude] has the results with exceptions ([res]), the state monad
      that keeps the state when an exception escapes ([M]), loops, [bisect], stable
      sorting, strings and the automation; [PyDict] the insertion-ordered dictionaries;
      [PyDecimal] decimal arithmetic at 28 digits.
    - {b From a dataset to a job.}  [Schema] and [Declarations] ([api/dataset/schema.py],
      [dataset.py], [pipeline.py], [api/consts.py]) declare datasets and pipelines; [Events] ([api/dataset/operators.py],
      [aggregate.py]) are the functions operators run on events; [Client]
      ([client/client.py], [api/source/source.py]) turns a pipeline into streams;
      [JobGraph] ([streaming/api/stream/*.py], [context], [job_graph/*.py]) builds
      and optimizes the job graph.
    - {b From a job to running workers.}  [Execution] ([execution_graph.py],
      [resource_manager/*.py]) expands the graph and assigns nodes; [Workers]
      ([worker_lifecycle_controller.py], [transfer_controller.py], [network/channel.py])
      creates and wires the workers; [Tasks] ([worker/task/stream_task.py],
      [job_worker.py]) makes their tasks; [Master] ([job_master.py],
      [scheduler/job_scheduler.py]) submits the job and waits for its sources;
      [Lifecycle] ([network/io_loop.py], [transfer_io_handlers.py], [transfer_actor.py],
      [stream_task.py], [job_worker.py], [job_client.py]) starts and closes everything
      that has a thread.
    - {b What a task does.}  [Message] ([message.py]) are the records; [Sources] and
      [Functions] ([operators.py], [function.py], [sources/*.py]) emit them;
      [Operators] and [Chains] ([operators.py], [chained.py], [collector.py],
      [processor.py]) process them; [Callables] ([function.py], [data_stream.py]) are the
      function interfaces and what the API makes of plain callables; [Window] ([window_operator.py], [aggregate_function.py]) aggregates
      them; [Partition] ([partition.py], [output_collector.py]) sends them on; [Sinks]
      ([function.py], [sink_cache_actor.py]) collect them; [Stats] ([stats/*.py])
      counts them.
    - {b The running job.}  [Dataflow] is the concurrent job: task threads, flushers and
      channels in any interleaving; [Keyed] are the exchanges between parallel
      instances, with those that share the keys by hash; [Deployment] makes the tasks of a
      submitted job graph.
      [Features] runs the multi-window operator there, [Pipelines]
      ([api/dataset/operators.py]) follows events through a feature pipeline, and
      [Serving] ([client/client.py], [storage/hot], [storage/cold]) through the store to
      the client that reads them; [Online] is the pipeline as the job the client submits,
      whose sources give their records [Decimal] times.
    - {b Between tasks.}  [Network] ([network/local/*.py]) is the writer and reader over
      the Rust channels.  The former Python network layer ([network_deprecated]) is
      modelled bottom up: [Codec] ([buffer/serialization/*.py], [buffer.py]) is the
      wire format, [Buffers] ([buffer_queues.py], [buffer_memory_tracker.py]) the queues
      of unacknowledged buffers and their memory, [Reliable]
      ([transfer/local/data_writer.py], [data_reader.py]) the protocol with
      acknowledgements, [Transfer] ([socket_utils.py], [local_data_handler.py],
      [remote_transfer_handler.py]) the sockets and the relay between nodes, [IoLoop]
      ([io_loop.py], [transfer_actor.py]) the loop that calls them; [Metrics]
      ([metrics.py] of both layers) the counters they share, [Singletons]
      ([buffer_memory_tracker.py], [metrics.py]) the objects a process has one of, and
      [Legacy] ([deprecated/*.py], [socket_utils.py], [config.py]) the first writer and
      reader.
    - {b The store.}  [KeyIndex] and [Storage] ([storage/common/*.py]) keep the results;
      [TimeUtils] and [Timestamps] ([common/time_utils.py]) parse durations and convert
      times.

    Components meet at interfaces: a sink is proved against a class of buffers
    ([Sinks.SinkBuffer]), the store against a class of values, the buffer queues and
    the protocol against a class of wire formats ([Buffers.BufferFormat] with its laws,
    of which [Codec] is an instance), the loop against a class of handlers
    ([IoLoop.IOHandler], of which the transfer handlers are an instance), the running job
    against a class of channels ([Dataflow.Transport], with the law [FifoTransport]), the
    client against its storages ([Serving.HotStorage], [ColdStorage]).  Where
    components call each other the model calls the other component's definition:
    [Client] ends in [JobGraph], [Master] runs [Execution], [Workers] and [Tasks],
    [Deployment] puts the operators, partitions, writers and readers of the other files
    into one job, [Serving] joins [Pipelines], [Sinks] and [Storage], [Online] joins these
    with [Deployment], [Transfer] uses the channels of [Workers] and the headers of [Codec].

    ** What the theorems show

    - {b Whole programs.}  Whatever the schedule, the batching and the back-pressure, a
      running job processes between its tasks a prefix of what was sent, and at rest all
      of it ([Dataflow.job_dataflow], [job_at_rest_complete]); the parallel instances of
      a keyed reduce, join or window aggregation compute together what one instance
      would, in every job graph that can be submitted ([Deployment.deployed_reduce],
      [deployed_join], [Features.deployed_windows]), and between any two operators every
      record is processed exactly once ([Deployment.deployed_exactly_once]).  A feature pipeline produces for
      every event let through the aggregates over exactly the events of its key within
      the window ([Pipelines.feature_pipeline]), and run operator by operator this is what a
      client reads from the store ([Serving.served_feature]).  As a job with several tasks
      the pipeline serves nothing: its records have [Decimal] times, which [msgpack] does not
      encode ([Online.online_never_served]).  Starting and closing follow their protocol
      ([Lifecycle.worker_protocol], [job_lifecycle], [failed_launch_leaks]).
    - {b Results.}  Every output of the multi-window operator is the aggregate over
      exactly the records of the window ([Window.multi_window_refines], [apply_computes]);
      a join emits every matching pair once ([Operators.join_all_pairs_once]); chaining
      operators does not change what they send ([chaining_transparent], and
      [Chains.chained_source], [chained_join] for chains with another head); the forms of
      user functions mean the same ([Callables.flat_map_forms]); event times a microsecond
      apart stay apart and in order ([Timestamps.datetime_ts_ordered]); a key lookup
      refines a search over all stored keys ([KeyIndex.key_index_refines]) and the store
      gives back what was put ([Storage.put_get_roundtrip], [get_values_range]).
    - {b Types.}  Schemas and the events that flow agree ([Declarations.object_schema],
      [Events.join_event_typed], [output_event_complete]).
    - {b Construction.}  A pipeline becomes a well-formed, optimized job graph
      ([Client.materialize_succeeds], [JobGraph.build_well_formed], [optimize_partitions]);
      the execution graph has every instance and channel once, the assignment never
      overdraws a node and says why when it fails, every channel is wired with its ports and
      every task gets its collectors ([Execution], [Workers], [Tasks]); a submitted job runs
      or raises what the assignment raised ([Master.submit_outcome]), and ends when all
      sources are done.
    - {b Delivery.}  Records pass the network exactly once and in order: over the Rust
      channels whatever the schedule, the back-pressure and the clocks
      ([Network.writer_reader_fifo]); in the former layer over a network that loses, repeats and
      reorders ([Reliable.reliable_in_order], [reliable_no_loss],
      [transfer_never_raises]); through the relay, where one connection carries many
      channels ([Transfer.channel_multiplexing], [transfer_sockets_complete]); and only
      after everything is connected ([IoLoop.loop_waits_for_connections]).  Sinks hand
      over every value once when their threads do not overlap ([Sinks.sink_exactly_once]).
      The wire format round-trips ([Codec.buffer_roundtrip]) and no count is lost
      ([Metrics.metrics_conserved], [Stats.throughput_conserved]).
    - {b Errors.}  Where the code misbehaves, a theorem says precisely when: features that
      are never served ([Online.online_never_served]), the race of
      the sinks ([sink_race_loses_and_repeats]), inputs of a join swapped by set order
      ([Tasks.join_sides_depend_on_set_order]), a join that loses its key
      ([Events.join_on_drops_key]), fields that hide methods
      ([Declarations.dataset_object]), datasets usable once ([Client.dataset_single_use]),
      buffers a reader never hands out ([Reliable.reader_holds_back]), a reader that cannot
      be made ([Legacy.legacy_reader_never_reads]), instances that ignore their arguments
      ([Singletons.tracker_instance]), a source chain that raises
      ([Chains.chained_source_raises]) and others next to the definitions they are about.

    ** Conventions, bounds and fuel

    Integers of Python are unbounded [Z]; floats and decimals are rationals, decimals
    rounded to 28 digits and the floats of [datetime.timestamp] to 53 bits, other floats
    (resources, clock readings) exact; bytes are [Z] from 0 to 255; strings are [string], or
    lists of ASCII characters where the code works on characters, so that nothing is said of
    text with characters from 128 on.  An event time is a [Decimal] or an integer
    ([Message.stamp]); an amount of memory may be a text, which the scheduler then fails to
    compare ([Execution.mem]).  Loops that are not over a
    list have fuel, always enough by a lemma: [bisect] and the window eviction use the
    length of the list, the reader's ordering loop the number of buffers it holds
    ([Reliable.consecutive_keys] shows that this is enough), [encode_int] one round per
    bit, decoding the length of the input, a file its text, the word count enumerator the
    bound of [wordcount_splits_exact].  Threads are interleavings of the accesses between
    their locks.  Clocks, hashes, set iteration order, user functions, the answers of Ray,
    of ZeroMQ and of the Rust channels, [isoparse], and the codecs [msgpack] and JSON are
    parameters.  Clock readings are any sequence of numbers, which may repeat or go back.  What
    is assumed of the codecs is that they decode what they encoded and, in [Online], that
    [msgpack] encodes no [Decimal]; the codec of the witnesses refuses them too.
    [Blocked] marks a thread that waits on a lock nobody will release.

    ** What is not modelled

    Ray itself and the Rust extension (only called); connectors that read Kafka or MySQL,
    the scripts under [samples] and the tests with their utilities (I/O); the records of
    [network_config.py] and the pictures [gen_digraph] draws (constants and output); and the
    variants of the network layer under [network_deprecated/experimental], whose writers and
    readers cannot be imported: they use functions of [buffer_queues.py] that are gone and
    call [BufferMemoryTracker.instance] without its job name. *)

From stdpp Require Export base list list_numbers strings numbers sorting gmap.
From Stdlib Require Export QArith Qcanon Lia.

#[global] Open Scope nat_scope.

(** ** Exceptions and results *)

(** The Python exceptions the modelled code raises or lets escape.  A message is
    the constant part of the f-string in the source.  [Blocked] is not an
    exception: it marks a thread that waits on a lock nobody will release. *)
Inductive exn :=
| KeyError
| IndexError
| TypeError
| AssertionError
| AttributeError
| NotImplementedError
| ZeroDivisionError
| InvalidOperation
| Blocked
| ValueError (msg : string)
| Exception (msg : string)
| RuntimeError (msg : string).

#[global] Instance exn_eq_dec : EqDecision exn.
Proof. solve_decision. Defined.

Inductive res (A : Type) :=
| Ok (a : A)
| Raise (e : exn).
Arguments Ok {A} _.
Arguments Raise {A} _.

#[global] Instance res_eq_dec `{EqDecision A} : EqDecision (res A).
Proof. solve_decision. Defined.

#[global] Instance res_ret : MRet res := λ A a, Ok a.
#[global] Instance res_bind : MBind res := λ A B f m,
  match m with Ok a => f a | Raise e => Raise e end.
#[global] Instance res_fmap : FMap res := λ A B f m,
  match m with Ok a => Ok (f a) | Raise e => Raise e end.

Definition is_ok {A} (r : res A) : bool :=
  match r with Ok _ => true | Raise _ => false end.

(** [x[k]] on a container: a missing entry raises [e]. *)
Definition from_option_exn {A} (e : exn) (o : option A) : res A :=
  match o with Some a => Ok a | None => Raise e end.

(** ** A state monad that keeps the state when an exception escapes *)

Definition M (St A : Type) : Type := St → res A * St.
#[global] Instance M_ret {St} : MRet (M St) := λ A a s, (Ok a, s).
#[global] Instance M_bind {St} : MBind (M St) := λ A B f m s,
  match m s with
  | (Ok a, s') => f a s'
  | (Raise e, s') => (Raise e, s')
  end.
Definition raise {St A} (e : exn) : M St A := λ s, (Raise e, s).
Definition getS {St} : M St St := λ s, (Ok s, s).
Definition putS {St} (s : St) : M St () := λ _, (Ok (), s).
Definition modS {St} (f : St → St) : M St () := λ s, (Ok (), f s).
Definition liftR {St A} (r : res A) : M St A := λ s, (r, s).

(** [for x in l: body x] with an early exit on an exception. *)
Fixpoint for_each {St A} (l : list A) (body : A → M St ()) : M St () :=
  match l with
  | [] => mret ()
  | x :: l' => body x ≫= λ _, for_each l' body
  end.

(** [[f x for x in l]] when [f] can raise. *)
Fixpoint mapR {A B} (f : A → res B) (l : list A) : res (list B) :=
  match l with
  | [] => Ok []
  | x :: l' => y ← f x; ys ← mapR f l'; Ok (y :: ys)
  end.

(** A left fold whose step can raise. *)
Fixpoint foldR {A B} (f : B → A → res B) (b : B) (l : list A) : res B :=
  match l with
  | [] => Ok b
  | x :: l' => b' ← f b x; foldR f b' l'
  end.

(** ** Python list helpers *)

(** [l[i]] for an integer index: a negative index counts from the end. *)
Definition py_index {A} (l : list A) (i : Z) : res A :=
  let n := Z.of_nat (length l) in
  if bool_decide (0 ≤ i < n)%Z then from_option_exn IndexError (l !! Z.to_nat i)
  else if bool_decide (- n ≤ i < 0)%Z
       then from_option_exn IndexError (l !! Z.to_nat (n + i))
       else Raise IndexError.

(** [l[i:j]] for non-negative bounds. *)
Definition py_slice {A} (l : list A) (i j : nat) : list A := take (j - i) (drop i l).

(** ** [bisect.insort_right]

    The comparison is [x < key(a[mid])]; it is a function of the list element
    and it can raise. *)
Section bisect.
Context {A : Type} (ltx : A → res bool).

Fixpoint bisect_right_loop (fuel : nat) (a : list A) (lo hi : nat) : res nat :=
  match fuel with
  | O => Ok lo
  | S fuel' =>
      if bool_decide (lo < hi) then
        let mid := (lo + hi) / 2 in
        y ← from_option_exn IndexError (a !! mid);
        b ← ltx y;
        if (b : bool) then bisect_right_loop fuel' a lo mid
        else bisect_right_loop fuel' a (mid + 1) hi
      else Ok lo
  end.

(** [hi - lo] halves in every round, so [length a] rounds are enough. *)
Definition bisect_right (a : list A) : res nat :=
  bisect_right_loop (length a) a 0 (length a).

Definition insort_right (x : A) (a : list A) : res (list A) :=
  i ← bisect_right a; Ok (take i a ++ x :: drop i a).
End bisect.

(** Stable sort by a key ([list.sort(key=...)]). *)
Section stable.
Context {A K : Type} (key : A → K) (R : relation K) `{!RelDecision R}.

Fixpoint insert_right (x : A) (l : list A) : list A :=
  match l with
  | [] => [x]
  | y :: l' => if decide (R (key y) (key x)) then y :: insert_right x l'
               else x :: y :: l'
  end.

Definition stable_sort (l : list A) : list A :=
  foldl (λ acc x, insert_right x acc) [] l.

Definition key_sorted (l : list A) : Prop :=
  StronglySorted (λ x y, R (key x) (key y)) l.
End stable.

(** ** Automation *)

Create HintDb volga.
Create Rewrite HintDb volga.
#[export] Hint Constructors StronglySorted Forall : volga.

Ltac case_match_res :=
  repeat match goal with
  | H : context [match ?x with Ok _ => _ | Raise _ => _ end] |- _ =>
      destruct x eqn:?; simplify_eq/=
  | |- context [match ?x with Ok _ => _ | Raise _ => _ end] =>
      destruct x eqn:?; simplify_eq/=
  end.

(** Inverts a successful monadic computation [x ← m; k = Ok r]. *)
Ltac inv_res :=
  repeat match goal with
  | H : (_ ≫= _) = Ok _ |- _ => unfold mbind, res_bind in H; simpl in H
  | H : (match ?x with Ok _ => _ | Raise _ => Raise _ end) = Ok _ |- _ =>
      let E := fresh "E" in destruct x eqn:E; [|discriminate H]; simpl in H
  | H : from_option_exn _ ?o = Ok _ |- _ =>
      let E := fresh "E" in destruct o eqn:E; simpl in H; [|discriminate H]
  | H : Ok _ = Ok _ |- _ => injection H; clear H; intros; subst
  | H : Raise _ = Ok _ |- _ => discriminate H
  end.

Ltac done_or_lia := try solve [done | lia].

(** ** Lemmas *)

Lemma for_each_inv {St A} (P : St → Prop) (f : A → M St ()) l s :
  (∀ x s, P s → P (f x s).2) → P s → P (for_each l f s).2.
Proof.
  intros Hf. revert s. induction l as [|x l IH]; intros s Hs; simpl; [done|].
  unfold mbind, M_bind. specialize (Hf x s Hs). destruct (f x s) as [[u|e] s']; simpl in *; auto.
Qed.

Lemma for_each_app {St A} (f : A → M St ()) l1 l2 s :
  for_each (l1 ++ l2) f s =
  match for_each l1 f s with (Ok _, s1) => for_each l2 f s1 | (Raise e, s1) => (Raise e, s1) end.
Proof.
  revert s. induction l1 as [|x l1 IH]; intros s; simpl; [done|]. unfold mbind, M_bind.
  destruct (f x s) as [[u|e] s']; [apply IH|done].
Qed.

Lemma Ok_inj {A} (a b : A) : Ok a = Ok b → a = b.
Proof. by intros [= ->]. Qed.

Lemma mapR_ok {A B} (f : A → res B) (g : A → B) l :
  (∀ x, x ∈ l → f x = Ok (g x)) → mapR f l = Ok (map g l).
Proof.
  induction l as [|x l IH]; intros Hf; simpl; [done|].
  rewrite Hf by set_solver. simpl. rewrite IH by set_solver. done.
Qed.

Lemma mapR_app {A B} (f : A → res B) l1 l2 :
  mapR f (l1 ++ l2) = (ys1 ← mapR f l1; ys2 ← mapR f l2; Ok (ys1 ++ ys2)).
Proof.
  induction l1 as [|x l1 IH]; cbn; [by destruct (mapR f l2)|]. destruct (f x); [|done]. cbn. rewrite IH.
  destruct (mapR f l1); [|done]. cbn. by destruct (mapR f l2).
Qed.

Lemma mapR_raise {A B} (f : A → res B) e l :
  (∀ x, x ∈ l → f x = Raise e ∨ is_ok (f x) = true) →
  (∃ x, x ∈ l ∧ f x = Raise e) → mapR f l = Raise e.
Proof.
  induction l as [|x l IH]; intros Hf (y & Hy & Ey); simpl; [by apply elem_of_nil in Hy|].
  destruct (Hf x) as [->|Hok]; [set_solver|done|].
  destruct (f x) as [b|] eqn:Ex; [|done]. simpl. rewrite IH; [done|set_solver|].
  apply elem_of_cons in Hy as [->|Hy]; [congruence|eauto].
Qed.

Lemma elem_of_concat {A} (x : A) (ls : list (list A)) :
  x ∈ concat ls ↔ ∃ l, x ∈ l ∧ l ∈ ls.
Proof.
  induction ls as [|l ls IH]; simpl; [set_solver|]. rewrite elem_of_app, IH. set_solver.
Qed.

Lemma sublist_map {A B} (f : A → B) l1 l2 :
  l1 `sublist_of` l2 → map f l1 `sublist_of` map f l2.
Proof. induction 1; simpl; by constructor. Qed.

Section filter_lemmas.
Context {A : Type} (P : A → Prop) `{!∀ x, Decision (P x)}.

Lemma filter_all l : Forall P l → filter P l = l.
Proof.
  induction 1 as [|x l Hx Hl IH]; [done|].
  rewrite filter_cons, decide_True by done. by rewrite IH.
Qed.

Lemma filter_none l : Forall (λ x, ¬ P x) l → filter P l = [].
Proof.
  induction 1 as [|x l Hx Hl IH]; [done|]. by rewrite filter_cons, decide_False by done.
Qed.

End filter_lemmas.

(** A list cut where a predicate turns false. *)
Lemma take_drop_filter {A} (P : A → Prop) `{!∀ x, Decision (P x)} (l : list A) k :
  (∀ i y, i < k → l !! i = Some y → P y) →
  (∀ i y, k ≤ i → l !! i = Some y → ¬ P y) →
  take k l = filter P l ∧ drop k l = filter (λ y, ¬ P y) l.
Proof.
  revert k. induction l as [|z l IH]; intros k H1 H2; [by rewrite take_nil, drop_nil|].
  destruct k as [|k].
  - assert (Forall (λ y, ¬ P y) (z :: l)) as Hn.
    { apply Forall_lookup. intros i y Hi. apply (H2 i); [lia|done]. }
    split; simpl; symmetry; [by apply filter_none|by apply filter_all].
  - assert (P z) by (apply (H1 0 z); [lia|done]).
    rewrite filter_cons_True, filter_cons_False by tauto. simpl.
    destruct (IH k) as [-> ->]; [..|done].
    + intros i y ?. apply (H1 (S i)); lia.
    + intros i y ?. apply (H2 (S i)); lia.
Qed.
Section bisect_lemmas.
Context {A : Type} (ltx : A → res bool) (p : A → bool).

(** The loop keeps everything left of [lo] at [false] and everything from [hi]
    on at [true]. *)
Lemma bisect_right_loop_spec fuel a lo hi :
  (∀ y, y ∈ a → ltx y = Ok (p y)) →
  hi - lo ≤ fuel → lo ≤ hi ≤ length a →
  (∀ i y, i < lo → a !! i = Some y → p y = false) →
  (∀ i y, hi ≤ i → a !! i = Some y → p y = true) →
  (∀ i j y z, i ≤ j → a !! i = Some y → a !! j = Some z → p y = true → p z = true) →
  ∃ k, bisect_right_loop ltx fuel a lo hi = Ok k ∧ k ≤ length a ∧
    (∀ i y, i < k → a !! i = Some y → p y = false) ∧
    (∀ i y, k ≤ i → a !! i = Some y → p y = true).
Proof.
  intros ltx_p.
  revert lo hi; induction fuel as [|fuel IH]; intros lo hi Hf Hb Hlo Hhi Hm;
    cbn [bisect_right_loop].
  - exists lo. replace hi with lo in * by lia. eauto with lia.
  - case_bool_decide as Hlt; last first.
    { exists lo. replace hi with lo in * by lia. eauto with lia. }
    assert (lo ≤ (lo + hi) / 2 < hi) as Hmid.
    { split; [apply Nat.div_le_lower_bound; lia|apply Nat.Div0.div_lt_upper_bound; lia]. }
    set (mid := (lo + hi) / 2) in *. clearbody mid.
    destruct (lookup_lt_is_Some_2 a mid) as [y Hy]; [lia|].
    rewrite Hy; simpl. rewrite ltx_p by (by eapply list_elem_of_lookup_2); simpl.
    destruct (p y) eqn:Ep.
    + apply IH; [lia|lia|done| |done]. intros i z Hi Hz. by eapply (Hm mid i).
    + apply IH; [lia|lia| |done|done]. intros i z Hi Hz.
      destruct (p z) eqn:Ez; [|done]. rewrite <- Ep. symmetry.
      apply (Hm i mid z y); [lia|done..].
Qed.
End bisect_lemmas.

Section sorted_lemmas.
Context {A K : Type} (key : A → K) (R : relation K) `{!RelDecision R}.
Context `{!Transitive R, !Total R}.
Local Abbreviation sorted := (key_sorted key R).
Local Abbreviation ins := (insert_right key R).

Lemma insert_right_perm x l : ins x l ≡ₚ x :: l.
Proof.
  induction l as [|y l IH]; simpl; [done|]. case_decide; [|done].
  rewrite IH. apply Permutation_swap.
Qed.

Lemma insert_right_sorted x l : sorted l → sorted (ins x l).
Proof.
  unfold key_sorted. induction 1 as [|y l Hl IH Hy]; simpl; [by repeat constructor|].
  case_decide as Hd.
  - constructor; [done|]. rewrite insert_right_perm. by constructor.
  - assert (R (key x) (key y)) by (destruct (total R (key x) (key y)); done).
    constructor; [by constructor|]. constructor; [done|].
    eapply Forall_impl; [exact Hy|]. intros z ?. by transitivity (key y).
Qed.

Lemma key_sorted_sublist l k : l `sublist_of` k → sorted k → sorted l.
Proof.
  unfold key_sorted. induction 1 as [|x l k Hlk IH|x l k Hlk IH]; intros Hk; [done|..];
    apply StronglySorted_inv in Hk as [Hk Hx]; [|auto].
  constructor; [auto|]. rewrite Forall_forall in *. intros y Hy. apply Hx.
  by eapply elem_of_sublist.
Qed.

Lemma key_sorted_lookup l i j x y :
  sorted l → i ≤ j → i ≠ j → l !! i = Some x → l !! j = Some y → R (key x) (key y).
Proof.
  intros Hs Hij Hne Hi Hj. revert i j Hij Hne Hi Hj.
  induction Hs as [|z l Hl IH Hz]; intros i j Hij Hne Hi Hj; [done|].
  destruct i as [|i], j as [|j]; simplify_eq/=; try lia.
  - rewrite Forall_forall in Hz. apply Hz, list_elem_of_lookup. eauto.
  - apply (IH i j); auto with lia.
Qed.

(** [insert_right] places [x] behind everything not greater than it. *)
Lemma insert_right_split x l :
  sorted l →
  ins x l = filter (λ y, R (key y) (key x)) l
            ++ x :: filter (λ y, ¬ R (key y) (key x)) l.
Proof.
  unfold key_sorted. induction 1 as [|y l Hl IH Hy]; simpl; [done|].
  case_decide as Hd.
  - rewrite filter_cons_True, filter_cons_False by tauto. simpl. by rewrite IH.
  - rewrite filter_cons_False, filter_cons_True by tauto.
    assert (Forall (λ z, ¬ R (key z) (key x)) l) as Hall.
    { eapply Forall_impl; [exact Hy|]. intros z Hz Hzx. apply Hd.
      by transitivity (key z). }
    rewrite (filter_all _ l Hall). rewrite filter_none by done. reflexivity.
Qed.

(** The binary search lands where the linear insertion does. *)
Lemma insort_right_spec (ltx : A → res bool) x l :
  (∀ y, y ∈ l → ltx y = Ok (negb (bool_decide (R (key y) (key x))))) →
  sorted l → insort_right ltx x l = Ok (ins x l).
Proof.
  intros Hlt Hs. unfold insort_right, bisect_right.
  destruct (bisect_right_loop_spec ltx _ (length l) l 0 (length l) Hlt)
    as (k & -> & Hk & H1 & H2); [lia|lia|lia|..].
  - intros i y Hi Hy. apply lookup_lt_Some in Hy. lia.
  - intros i j y z Hij Hi Hj Hy. destruct (decide (i = j)) as [->|Hne]; [by simplify_eq|].
    apply negb_true_iff, bool_decide_eq_false in Hy.
    apply negb_true_iff, bool_decide_eq_false. intros Hz. apply Hy.
    etrans; [|exact Hz]. by eapply key_sorted_lookup.
  - simpl. rewrite insert_right_split by done. f_equal.
    destruct (take_drop_filter (λ y, R (key y) (key x)) l k) as [-> ->]; [..|done].
    + intros i y Hi Hy. specialize (H1 _ _ Hi Hy). apply negb_false_iff in H1.
      by apply bool_decide_eq_true in H1.
    + intros i y Hi Hy. specialize (H2 _ _ Hi Hy). apply negb_true_iff in H2.
      by apply bool_decide_eq_false in H2.
Qed.

(** Wherever the search lands, the result stays sorted, provided each answer
    agrees with the keys; answers on equal keys are free. *)
Lemma bisect_right_loop_bounds (ltx : A → res bool) x fuel a lo hi k :
  sorted a →
  (∀ y b, y ∈ a → ltx y = Ok b → if b : bool then R (key x) (key y) else R (key y) (key x)) →
  hi - lo ≤ fuel → lo ≤ hi ≤ length a →
  (∀ i y, i < lo → a !! i = Some y → R (key y) (key x)) →
  (∀ i y, hi ≤ i → a !! i = Some y → R (key x) (key y)) →
  bisect_right_loop ltx fuel a lo hi = Ok k →
  (∀ i y, i < k → a !! i = Some y → R (key y) (key x)) ∧
  (∀ i y, k ≤ i → a !! i = Some y → R (key x) (key y)).
Proof.
  intros Hs Hlt. revert lo hi; induction fuel as [|fuel IH]; intros lo hi Hf Hb Hlo Hhi;
    cbn [bisect_right_loop].
  - intros [= <-]. replace hi with lo in * by lia. done.
  - case_bool_decide as Hlh; last first.
    { intros [= <-]. replace hi with lo in * by lia. done. }
    assert (lo ≤ (lo + hi) / 2 < hi) as Hmid.
    { split; [apply Nat.div_le_lower_bound; lia|apply Nat.Div0.div_lt_upper_bound; lia]. }
    set (mid := (lo + hi) / 2) in *. clearbody mid.
    destruct (lookup_lt_is_Some_2 a mid) as [y Hy]; [lia|]. rewrite Hy; simpl.
    destruct (ltx y) as [b|] eqn:Eb; simpl; [|done].
    apply Hlt in Eb; [|by eapply list_elem_of_lookup_2]. destruct b.
    + apply IH; [lia|lia|done|]. intros i z Hi Hz.
      destruct (decide (mid = i)) as [->|]; [by simplify_eq|].
      transitivity (key y); [done|]. by eapply (key_sorted_lookup a mid i).
    + apply IH; [lia|lia| |done]. intros i z Hi Hz.
      destruct (decide (i = mid)) as [->|]; [by simplify_eq|].
      transitivity (key y); [|done]. eapply (key_sorted_lookup a i mid); eauto with lia.
Qed.

Lemma insort_right_sorted (ltx : A → res bool) x a a' :
  sorted a →
  (∀ y b, y ∈ a → ltx y = Ok b → if b : bool then R (key x) (key y) else R (key y) (key x)) →
  insort_right ltx x a = Ok a' → sorted a' ∧ a' ≡ₚ x :: a.
Proof.
  intros Hs Hlt. unfold insort_right, bisect_right.
  destruct (bisect_right_loop ltx (length a) a 0 (length a)) as [k|] eqn:E; simpl; [|done].
  intros [= <-].
  apply (bisect_right_loop_bounds ltx x) in E as [H1 H2]; [|done|done|lia|lia|lia|].
  2: { intros i y Hi Hy. apply lookup_lt_Some in Hy. lia. }
  split; [|by rewrite <- Permutation_middle, take_drop].
  unfold key_sorted in *. rewrite <- (take_drop k a), StronglySorted_app in Hs.
  destruct Hs as (H12 & Ht & Hd). apply StronglySorted_app. split_and!; [|done|].
  - intros y z Hy [->|Hz]%elem_of_cons; [|by apply H12].
    apply elem_of_take in Hy as (i & Hi & ?). by eapply H1.
  - constructor; [done|]. apply Forall_forall. intros y Hy.
    apply list_elem_of_lookup in Hy as [i Hi]. rewrite lookup_drop in Hi.
    eapply (H2 (k + i)); [lia|done].
Qed.

Lemma stable_sort_sorted l : sorted (stable_sort key R l).
Proof.
  unfold stable_sort. cut (∀ acc, sorted acc → sorted (foldl (λ acc x, ins x acc) acc l)).
  { intros H. apply H. constructor. }
  induction l as [|x l IH]; intros acc Hacc; simpl; [done|]. apply IH.
  by apply insert_right_sorted.
Qed.

Lemma stable_sort_perm l : stable_sort key R l ≡ₚ l.
Proof.
  unfold stable_sort. cut (∀ acc, foldl (λ acc x, ins x acc) acc l ≡ₚ acc ++ l).
  { intros H. apply H. }
  induction l as [|x l IH]; intros acc; simpl; [by rewrite app_nil_r|].
  rewrite IH, insert_right_perm. simpl. apply Permutation_middle.
Qed.
End sorted_lemmas.

#[export] Hint Resolve insert_right_sorted stable_sort_sorted : volga.

(** ** Prefixes and concatenations *)

Lemma mapR_length {A B} (f : A → res B) l ys : mapR f l = Ok ys → length ys = length l.
Proof.
  revert ys. induction l as [|x l IH]; intros ys E; simpl in E; [by injection E as <-|]. destruct (f x); [|done]. cbn in E.
  destruct (mapR f l) as [zs|]; [|done]. injection E as <-. simpl. by rewrite (IH zs).
Qed.

Lemma mapR_map {A B C} (f : B → res C) (h : A → B) l : mapR f (map h l) = mapR (λ x, f (h x)) l.
Proof. induction l as [|x l IH]; simpl; [done|]. by rewrite IH. Qed.

Lemma prefix_map {A B} (f : A → B) l1 l2 : l1 `prefix_of` l2 → map f l1 `prefix_of` map f l2.
Proof. intros [k ->]. rewrite map_app. by eexists. Qed.

Lemma prefix_elem {A} (l k : list A) x : l `prefix_of` k → x ∈ l → x ∈ k.
Proof. intros [m ->]. set_solver. Qed.

Lemma NoDup_concat_elem {A} (ls : list (list A)) l : NoDup (concat ls) → l ∈ ls → NoDup l.
Proof.
  induction ls as [|k ls IH]; cbn; [set_solver|]. intros (H1 & _ & H3)%NoDup_app [->|?]%elem_of_cons; auto.
Qed.

(** The elements of a duplicate-free concatenation have one place. *)
Lemma concat_NoDup_unique {A B} (f : A → list B) l i k x y b : NoDup (concat (map f l)) →
  l !! i = Some x → l !! k = Some y → b ∈ f x → b ∈ f y → i = k.
Proof.
  revert i k. induction l as [|z l IH]; intros i k Hnd Hi Hk Hx Hy; [done|].
  cbn [map concat] in Hnd. apply NoDup_app in Hnd as (_ & Hd & Hnd).
  assert (∀ k y, l !! k = Some y → b ∈ f y → b ∈ concat (map f l)) as Hin.
  { intros k' y' Hk' Hy'. apply elem_of_concat. exists (f y'). split; [done|].
    apply list_elem_of_fmap_2. by eapply list_elem_of_lookup_2. }
  destruct i as [|i], k as [|k]; simplify_eq/=; [done| | |f_equal; by eapply IH].
  - destruct (Hd b); eauto.
  - destruct (Hd b); eauto.
Qed.

(** ** Strings *)

Lemma string_app_cons c (a b : string) : String.String c a +:+ b = String.String c (a +:+ b).
Proof. done. Qed.
Lemma string_app_assoc (a b c : string) : (a +:+ b) +:+ c = a +:+ (b +:+ c).
Proof. induction a as [|x a IH]; [done|]. by rewrite !string_app_cons, IH. Qed.
Lemma string_app_length (a b : string) : String.length (a +:+ b) = String.length a + String.length b.
Proof. induction a as [|x a IH]; [done|]. rewrite string_app_cons. cbn. by rewrite IH. Qed.
Lemma substring_app_l (a b : string) : String.substring 0 (String.length a) (a +:+ b) = a.
Proof. induction a as [|x a IH]; [by destruct b|]. rewrite string_app_cons. cbn. by rewrite IH. Qed.
Lemma substring_app_r (a b : string) : String.substring (String.length a) (String.length b) (a +:+ b) = b.
Proof.
  induction a as [|x a IH]; [|by rewrite string_app_cons].
  induction b as [|x b IH]; [done|]. change (String.String x (String.substring 0 (String.length b) b) = String.String x b). f_equal. exact IH.
Qed.
