(* ===== verification/PyDict.v ===== *)
(** * Python dictionaries

    A [dict] (and [collections.OrderedDict]) is an association list in insertion
    order: assigning an existing key keeps its position, a new key goes to the
    end.  The order is observable in the modelled code (loops over a dict,
    [list(d.values())[0]], the last key of an [OrderedDict]), so a finite map
    would not do. *)

From S2P Require Import Prelude.

Abbreviation dict K V := (list (K * V)).

Section pydict.
Context {K V : Type} `{!EqDecision K}.
Implicit Types (d : dict K V) (k : K) (v : V).

(** [d.get(k)] *)
Fixpoint dget d k : option V :=
  match d with
  | [] => None
  | (k', v) :: d' => if decide (k = k') then Some v else dget d' k
  end.

(** [d[k]] *)
Definition dgetitem d k : res V := from_option_exn KeyError (dget d k).

(** [k in d] *)
Definition dmem k d : bool := match dget d k with Some _ => true | None => false end.

(** [d[k] = v] *)
Fixpoint dset d k v : dict K V :=
  match d with
  | [] => [(k, v)]
  | (k', v') :: d' => if decide (k = k') then (k', v) :: d' else (k', v') :: dset d' k v
  end.

(** [del d[k]] on a present key; an absent key raises [KeyError] in [ddelitem]. *)
Fixpoint ddel d k : dict K V :=
  match d with
  | [] => []
  | (k', v') :: d' => if decide (k = k') then d' else (k', v') :: ddel d' k
  end.

Definition ddelitem d k : res (dict K V) :=
  if dmem k d then Ok (ddel d k) else Raise KeyError.

Definition dkeys d : list K := d.*1.
Definition dvalues d : list V := d.*2.

(** [{**d1, **d2}] *)
Definition dmerge d1 d2 : dict K V := foldl (λ d kv, dset d kv.1 kv.2) d1 d2.

(** A dict literal or comprehension evaluated in order. *)
Definition dict_of (l : list (K * V)) : dict K V := dmerge [] l.

(** Every association list that comes from dict operations has distinct keys. *)
Definition dict_wf d : Prop := NoDup (dkeys d).

(** ** Lemmas *)

Lemma dget_dset d k k' v :
  dget (dset d k v) k' = if decide (k' = k) then Some v else dget d k'.
Proof.
  induction d as [|[k0 v0] d IH]; simpl.
  - case_decide; done.
  - repeat (case_decide; simplify_eq/=); try done.
Qed.

Lemma dget_dset_eq d k v : dget (dset d k v) k = Some v.
Proof. rewrite dget_dset. by rewrite decide_True. Qed.

Lemma dget_dset_ne d k k' v : k' ≠ k → dget (dset d k v) k' = dget d k'.
Proof. intros. rewrite dget_dset. by rewrite decide_False. Qed.

Lemma dget_Some_elem d k v : dget d k = Some v → (k, v) ∈ d.
Proof.
  induction d as [|[k0 v0] d IH]; simpl; [done|].
  case_decide; intros; simplify_eq; set_solver.
Qed.

Lemma dget_elem_wf d k v : dict_wf d → (k, v) ∈ d → dget d k = Some v.
Proof.
  unfold dict_wf, dkeys. induction d as [|[k0 v0] d IH]; simpl; [set_solver|].
  rewrite NoDup_cons, elem_of_cons. intros [Hk Hd] [?|Hin]; simplify_eq.
  - by rewrite decide_True.
  - rewrite decide_False; [by apply IH|]. intros ->. apply Hk.
    apply list_elem_of_fmap. by exists (k0, v).
Qed.

Lemma dmem_elem d k : dmem k d = true ↔ k ∈ dkeys d.
Proof.
  unfold dmem, dkeys. induction d as [|[k0 v0] d IH]; simpl; [set_solver|].
  case_decide as Hk; rewrite elem_of_cons; [tauto|]. rewrite IH. tauto.
Qed.

Lemma dget_None d k : dget d k = None ↔ k ∉ dkeys d.
Proof.
  rewrite <- dmem_elem. unfold dmem. destruct (dget d k); split; congruence.
Qed.

Lemma dmem_false d k : dmem k d = false ↔ k ∉ dkeys d.
Proof. rewrite <- dget_None. unfold dmem. destruct (dget d k); split; congruence. Qed.

Lemma dkeys_dset d k v :
  dkeys (dset d k v) = if dmem k d then dkeys d else dkeys d ++ [k].
Proof.
  unfold dkeys, dmem. induction d as [|[k0 v0] d IH]; simpl; [done|].
  case_decide; simplify_eq/=; [done|]. rewrite IH. by destruct (dget d k).
Qed.

Lemma dset_wf d k v : dict_wf d → dict_wf (dset d k v).
Proof.
  unfold dict_wf. rewrite dkeys_dset. intros Hd. destruct (dmem k d) eqn:E; [done|].
  apply NoDup_app. split; [done|]. split; [|apply NoDup_singleton].
  intros x Hx Hk%list_elem_of_singleton. subst x.
  apply dmem_elem in Hx. congruence.
Qed.

Lemma dkeys_ddel_sublist d k : dkeys (ddel d k) `sublist_of` dkeys d.
Proof.
  unfold dkeys. induction d as [|[k0 v0] d IH]; simpl; [done|].
  case_decide; simpl; by constructor.
Qed.

Lemma ddel_wf d k : dict_wf d → dict_wf (ddel d k).
Proof. unfold dict_wf. eauto using sublist_NoDup, dkeys_ddel_sublist. Qed.

Lemma dget_ddel d k k' :
  dict_wf d → dget (ddel d k) k' = if decide (k' = k) then None else dget d k'.
Proof.
  unfold dict_wf, dkeys. induction d as [|[k0 v0] d IH]; simpl; [by case_decide|].
  rewrite NoDup_cons. intros [Hn Hd]. specialize (IH Hd).
  repeat (case_decide; simplify_eq/=); try done.
  apply dget_None. done.
Qed.

Lemma elem_dkeys_dget d k : k ∈ dkeys d ↔ is_Some (dget d k).
Proof. rewrite <- dmem_elem. unfold dmem. destruct (dget d k); split; try done; by intros []. Qed.

Lemma elem_dkeys_ddel d k i : dict_wf d → i ∈ dkeys (ddel d k) ↔ i ∈ dkeys d ∧ i ≠ k.
Proof.
  intros Hd. rewrite !elem_dkeys_dget, dget_ddel by done. case_decide; [|tauto]. split; [by intros []|tauto].
Qed.

Lemma dkeys_dset_new d k v : k ∉ dkeys d → dkeys (dset d k v) = dkeys d ++ [k].
Proof. intros H. by rewrite dkeys_dset, (proj2 (dmem_false _ _) H). Qed.

Lemma is_Some_dset d k v k' : is_Some (dget d k') → is_Some (dget (dset d k v) k').
Proof. rewrite dget_dset. by case_decide. Qed.

Lemma dset_length d k v :
  length (dset d k v) = if dmem k d then length d else S (length d).
Proof.
  rewrite <- !(length_fmap fst). change (length (dkeys (dset d k v)) =
    if dmem k d then length (dkeys d) else S (length (dkeys d))).
  rewrite dkeys_dset. destruct (dmem k d); [done|]. rewrite length_app. simpl. lia.
Qed.

Lemma dmerge_wf d1 d2 : dict_wf d1 → dict_wf (dmerge d1 d2).
Proof.
  unfold dmerge. revert d1. induction d2 as [|[k v] d2 IH]; intros d1 H; simpl; [done|].
  apply IH. by apply dset_wf.
Qed.

(** The right operand wins. *)
Lemma dget_dmerge d1 d2 k :
  dict_wf d2 →
  dget (dmerge d1 d2) k = match dget d2 k with Some v => Some v | None => dget d1 k end.
Proof.
  unfold dmerge, dict_wf, dkeys. revert d1.
  induction d2 as [|[k0 v0] d2 IH]; intros d1; simpl; [done|].
  rewrite NoDup_cons. intros [Hn Hd]. rewrite IH by done.
  case_decide as Hk; simplify_eq.
  - rewrite (proj2 (dget_None d2 k0)) by done. apply dget_dset_eq.
  - destruct (dget d2 k); [done|]. by apply dget_dset_ne.
Qed.

Lemma dict_of_wf l : dict_wf (dict_of l).
Proof. apply dmerge_wf. constructor. Qed.

Lemma dset_app_new d k v : k ∉ dkeys d → dset d k v = d ++ [(k, v)].
Proof.
  unfold dkeys. induction d as [|[k0 v0] d IH]; simpl; [done|].
  rewrite not_elem_of_cons. intros [??]. rewrite decide_False by done. by rewrite IH.
Qed.

(** Merging in fresh keys appends. *)
Lemma dmerge_app d1 d2 : dict_wf (d1 ++ d2) → dmerge d1 d2 = d1 ++ d2.
Proof.
  unfold dmerge. revert d1. induction d2 as [|[k v] d2 IH]; intros d1 H; simpl; [by rewrite app_nil_r|].
  assert (d1 ++ (k, v) :: d2 = (d1 ++ [(k, v)]) ++ d2) as E by (by rewrite <- app_assoc).
  rewrite dset_app_new, IH, E; [done|by rewrite <- E|].
  unfold dict_wf, dkeys in *. rewrite fmap_app in H. apply NoDup_app in H as (_ & H & _).
  intros Hk. apply (H k Hk). set_solver.
Qed.

Lemma dict_of_id l : dict_wf l → dict_of l = l.
Proof. apply (dmerge_app []). Qed.

Lemma dset_dset d k v v' : dset (dset d k v) k v' = dset d k v'.
Proof.
  induction d as [|[k0 v0] d IH]; simpl; [by rewrite decide_True|].
  case_decide; simplify_eq/=; [by rewrite decide_True|].
  rewrite decide_False by done. by rewrite IH.
Qed.

Lemma dset_id d k v : dget d k = Some v → dset d k v = d.
Proof.
  induction d as [|[k0 v0] d IH]; simpl; [done|].
  case_decide; intros; simplify_eq/=; [done|]. by rewrite IH.
Qed.
End pydict.

#[export] Hint Resolve dset_wf ddel_wf dmerge_wf dict_of_wf : volga.
#[export] Hint Rewrite @dget_dset_eq : volga.

Lemma dict_wf_nil {K V} : dict_wf (K:=K) (V:=V) [].
Proof. constructor. Qed.
#[export] Hint Resolve dict_wf_nil : volga.

(** A comprehension that gives every key the same value. *)
Lemma dget_dict_of_const {K V} `{!EqDecision K} (l : list K) (v : V) k :
  k ∈ l → dget (dict_of (map (λ c, (c, v)) l)) k = Some v.
Proof.
  unfold dict_of, dmerge.
  cut (∀ d, k ∈ l ∨ dget d k = Some v →
    dget (foldl (λ d kv, dset d kv.1 kv.2) d (map (λ c, (c, v)) l)) k = Some v); [eauto|].
  induction l as [|c l IH]; intros d [Hk|Hd]; simpl; [by apply elem_of_nil in Hk|done| |].
  - apply IH. rewrite dget_dset. case_decide; [by right|].
    apply elem_of_cons in Hk as [?|?]; [done|by left].
  - apply IH. right. rewrite dget_dset. by case_decide.
Qed.
