(* ===== verification/PyDecimal.v ===== *)
(** * Python's [decimal.Decimal]

    A finite [Decimal] is modelled by the rational it denotes ([Qc], so equality
    is numeric equality as in Python).  Construction from an int, a float or a
    numeral is exact; [+], [-], [*] and [/] compute the exact result and round it
    to the 28 significant digits of the default context, half to even.  NaN,
    infinities and the exponent limits of the context are outside the model. *)

From S2P Require Import Prelude.
From Stdlib Require Import Qround Lqa Qpower.

Abbreviation dec := Qc.
#[local] Open Scope Q_scope.

Definition pow10 (e : Z) : Q := Qpower 10 e.

(** [ilog10 n] is the largest [k] with [10^k <= n], for [n >= 1]. *)
Fixpoint ilog10_loop (fuel : nat) (n : Z) : Z :=
  match fuel with
  | O => 0%Z
  | S fuel' => if (n <? 10)%Z then 0%Z else (1 + ilog10_loop fuel' (n / 10))%Z
  end.

(** [n / 10] at least halves [n], so [log2 n + 1] rounds are enough. *)
Definition ilog10 (n : Z) : Z := ilog10_loop (S (Z.to_nat (Z.log2 n))) n.

(** The position of the leading digit of a positive rational. *)
Definition qlog10 (q : Q) : Z :=
  let k := (ilog10 (Qnum q) - ilog10 (Zpos (Qden q)))%Z in
  if Qle_bool (pow10 k) q then k else (k - 1)%Z.

Definition round_half_even (q : Q) : Z :=
  let f := Qfloor q in
  match Qcompare (q - inject_Z f) (1#2) with
  | Lt => f
  | Gt => (f + 1)%Z
  | Eq => if Z.even f then f else (f + 1)%Z
  end.

Definition prec : Z := 28.

(** Rounding of a positive rational to [prec] significant digits. *)
Definition round_pos (q : Q) : Q :=
  let e := (qlog10 q - (prec - 1))%Z in
  inject_Z (round_half_even (q * pow10 (- e))) * pow10 e.

Definition round_ctx (q : Q) : Q :=
  match Qnum q with
  | Z0 => 0
  | Zpos _ => round_pos q
  | Zneg _ => - round_pos (- q)
  end.

#[local] Open Scope Qc_scope.

Definition round28 (q : Qc) : Qc := Q2Qc (round_ctx q).
Definition dec_of_Z (z : Z) : dec := Q2Qc (inject_Z z).
Definition dec_add (a b : dec) : dec := round28 (a + b).
Definition dec_sub (a b : dec) : dec := round28 (a - b).
Definition dec_mul (a b : dec) : dec := round28 (a * b).
(** [x / 0] raises [DivisionByZero] and [0 / 0] raises [InvalidOperation]. *)
Definition dec_div (a b : dec) : res dec :=
  if decide (b = Q2Qc 0) then
    Raise (if decide (a = Q2Qc 0) then InvalidOperation else ZeroDivisionError)
  else Ok (round28 (a / b)).

Definition dec_leb (a b : dec) : bool := Qle_bool a b.
Definition dec_ltb (a b : dec) : bool := negb (Qle_bool b a).

(** ** Powers of ten and digit counts *)

#[local] Open Scope Q_scope.

Lemma ten_nz : ~ 10 == 0.
Proof. by intros H. Qed.

Lemma pow10_pos e : 0 < pow10 e.
Proof. apply Qpower_0_lt. reflexivity. Qed.

Lemma pow10_add a b : pow10 (a + b) == pow10 a * pow10 b.
Proof. apply Qpower_plus, ten_nz. Qed.

Lemma pow10_le a b : (a ≤ b)%Z → pow10 a <= pow10 b.
Proof. intros. apply Qpower_le_compat_l; [done|]. lra. Qed.

Lemma pow10_lt_inv a b : pow10 a < pow10 b → (a < b)%Z.
Proof. intros. by apply (Qpower_lt_compat_l_inv 10). Qed.

Lemma pow10_Z e : (0 ≤ e)%Z → pow10 e == inject_Z (10 ^ e).
Proof. intros. symmetry. by apply Zpower_Qpower. Qed.

Lemma ilog10_loop_spec fuel n :
  (1 ≤ n < 2 ^ Z.of_nat fuel)%Z →
  (0 ≤ ilog10_loop fuel n)%Z ∧
  (10 ^ ilog10_loop fuel n ≤ n < 10 ^ (ilog10_loop fuel n + 1))%Z.
Proof.
  revert n. induction fuel as [|fuel IH]; intros n Hn; [simpl in Hn; lia|].
  cbn [ilog10_loop]. destruct (Z.ltb_spec n 10) as [|H10]; [simpl; lia|].
  assert (1 ≤ n / 10 < 2 ^ Z.of_nat fuel)%Z as Hq.
  { split; [by apply Z.div_le_lower_bound; lia|].
    apply Z.div_lt_upper_bound; [lia|]. rewrite Nat2Z.inj_succ, Z.pow_succ_r in Hn; lia. }
  destruct (IH _ Hq) as (H0 & H1 & H2). set (k := ilog10_loop fuel (n / 10)) in *.
  pose proof (Z.div_mod n 10 ltac:(lia)). pose proof (Z.mod_pos_bound n 10 ltac:(lia)).
  replace (1 + k + 1)%Z with (Z.succ (k + 1)) by lia. replace (1 + k)%Z with (Z.succ k) by lia.
  rewrite !Z.pow_succ_r by lia. lia.
Qed.

Lemma ilog10_spec n :
  (1 ≤ n)%Z → (0 ≤ ilog10 n)%Z ∧ (10 ^ ilog10 n ≤ n < 10 ^ (ilog10 n + 1))%Z.
Proof.
  intros Hn. unfold ilog10. apply ilog10_loop_spec.
  rewrite Nat2Z.inj_succ, Z2Nat.id by apply Z.log2_nonneg.
  pose proof (Z.log2_spec n ltac:(lia)). lia.
Qed.

Lemma ilog10_Q n :
  (1 ≤ n)%Z → pow10 (ilog10 n) <= inject_Z n ∧ inject_Z n < pow10 (ilog10 n + 1).
Proof.
  intros Hn. destruct (ilog10_spec n Hn) as (H0 & H1 & H2).
  rewrite !pow10_Z by lia. rewrite <- Zle_Qle, <- Zlt_Qlt. lia.
Qed.

Lemma Q_num_den q : q * inject_Z (Zpos (Qden q)) == inject_Z (Qnum q).
Proof. destruct q as [n d]. unfold Qeq, inject_Z, Qmult; simpl. lia. Qed.

Lemma qlog10_spec q : 0 < q → pow10 (qlog10 q) <= q ∧ q < pow10 (qlog10 q + 1).
Proof.
  intros Hq. assert (1 ≤ Qnum q)%Z by (unfold Qlt in Hq; simpl in Hq; lia).
  destruct (ilog10_Q (Qnum q)) as [Hn1 Hn2]; [lia|].
  destruct (ilog10_Q (Zpos (Qden q))) as [Hd1 Hd2]; [lia|].
  pose proof (Q_num_den q) as Heq. unfold qlog10.
  set (a := ilog10 (Qnum q)) in *. set (b := ilog10 (Zpos (Qden q))) in *.
  set (d := inject_Z (Zpos (Qden q))) in *. set (n := inject_Z (Qnum q)) in *.
  assert (0 < d) by (unfold d, Qlt; simpl; lia).
  pose proof (pow10_pos b). pose proof (pow10_pos (a - b)). pose proof (pow10_pos (a - b - 1)).
  assert (pow10 a == pow10 (a - b) * pow10 b) as Ea.
  { rewrite <- pow10_add. by replace (a - b + b)%Z with a by lia. }
  assert (pow10 (a + 1) == pow10 (a - b + 1) * pow10 b) as Ea1.
  { rewrite <- pow10_add. by replace (a - b + 1 + b)%Z with (a + 1)%Z by lia. }
  assert (pow10 a == pow10 (a - b - 1) * pow10 (b + 1)) as Eb1.
  { rewrite <- pow10_add. by replace (a - b - 1 + (b + 1))%Z with a by lia. }
  destruct (Qle_bool (pow10 (a - b)) q) eqn:E.
  - apply Qle_bool_iff in E. split; [done|]. nra.
  - assert (q < pow10 (a - b)) by (apply Qnot_le_lt; rewrite <- Qle_bool_iff; congruence).
    replace (a - b - 1 + 1)%Z with (a - b)%Z by lia. split; [|done]. nra.
Qed.

Lemma qlog10_mono p q : 0 < p → p <= q → (qlog10 p ≤ qlog10 q)%Z.
Proof.
  intros Hp Hpq. destruct (qlog10_spec p Hp) as [H1 H2].
  destruct (qlog10_spec q) as [H3 H4]; [lra|].
  assert (pow10 (qlog10 p) < pow10 (qlog10 q + 1)) as H by lra.
  apply pow10_lt_inv in H. lia.
Qed.

(** ** Rounding is monotone *)

Lemma round_half_even_bounds q :
  inject_Z (round_half_even q) <= inject_Z (Qfloor q + 1) ∧
  inject_Z (Qfloor q) <= inject_Z (round_half_even q).
Proof.
  rewrite <- !Zle_Qle. unfold round_half_even.
  destruct (Qcompare _ _); [destruct (Z.even _)|..]; lia.
Qed.

Lemma round_half_even_mono p q : p <= q → (round_half_even p ≤ round_half_even q)%Z.
Proof.
  intros H. pose proof (Qfloor_resp_le _ _ H) as Hf.
  destruct (Z.eq_dec (Qfloor p) (Qfloor q)) as [E|E].
  - unfold round_half_even. rewrite E. set (f := Qfloor q).
    destruct (Qcompare_spec (p - inject_Z f) (1#2)), (Qcompare_spec (q - inject_Z f) (1#2));
      try destruct (Z.even f); try lia; exfalso; lra.
  - destruct (round_half_even_bounds p) as [H1 _], (round_half_even_bounds q) as [_ H2].
    rewrite <- Zle_Qle in H1, H2. lia.
Qed.

Lemma round_half_even_Z z : round_half_even (inject_Z z) = z.
Proof.
  unfold round_half_even. rewrite Qfloor_Z.
  destruct (Qcompare_spec (inject_Z z - inject_Z z) (1#2)); [exfalso; lra|done|exfalso; lra].
Qed.

#[global] Instance round_half_even_proper : Proper (Qeq ==> eq) round_half_even.
Proof.
  intros p q H. apply Z.le_antisymm; apply round_half_even_mono; rewrite H; apply Qle_refl.
Qed.

(** The scaled coefficient has exactly [prec] digits. *)
Lemma round_pos_scaled q :
  0 < q →
  let e := (qlog10 q - (prec - 1))%Z in
  pow10 (prec - 1) <= q * pow10 (- e) ∧ q * pow10 (- e) < pow10 prec.
Proof.
  intros Hq e. destruct (qlog10_spec q Hq) as [H1 H2].
  assert (pow10 (prec - 1) == pow10 (qlog10 q) * pow10 (- e)) as ->.
  { rewrite <- pow10_add. unfold e. by replace (qlog10 q + - (qlog10 q - (prec - 1)))%Z
      with (prec - 1)%Z by lia. }
  assert (pow10 prec == pow10 (qlog10 q + 1) * pow10 (- e)) as ->.
  { rewrite <- pow10_add. unfold e. by replace (qlog10 q + 1 + - (qlog10 q - (prec - 1)))%Z
      with prec by lia. }
  pose proof (pow10_pos (- e)). split; [apply Qmult_le_compat_r; lra|apply Qmult_lt_r; lra].
Qed.

Lemma round_pos_range q :
  0 < q → pow10 (qlog10 q) <= round_pos q ∧ round_pos q <= pow10 (qlog10 q + 1).
Proof.
  intros Hq. destruct (round_pos_scaled q Hq) as [H1 H2]. unfold round_pos.
  set (e := (qlog10 q - (prec - 1))%Z) in *. set (s := q * pow10 (- e)) in *.
  pose proof (pow10_pos e).
  assert (10 ^ (prec - 1) ≤ round_half_even s)%Z as L.
  { rewrite <- (round_half_even_Z (10 ^ (prec - 1))). apply round_half_even_mono.
    rewrite <- pow10_Z by (unfold prec; lia). done. }
  assert (round_half_even s ≤ 10 ^ prec)%Z as U.
  { rewrite <- (round_half_even_Z (10 ^ prec)). apply round_half_even_mono.
    rewrite <- pow10_Z by (unfold prec; lia). lra. }
  rewrite Zle_Qle in L, U. rewrite <- pow10_Z in L, U by (unfold prec; lia).
  assert (pow10 (qlog10 q) == pow10 (prec - 1) * pow10 e) as ->.
  { rewrite <- pow10_add. unfold e. by replace (prec - 1 + (qlog10 q - (prec - 1)))%Z
      with (qlog10 q) by lia. }
  assert (pow10 (qlog10 q + 1) == pow10 prec * pow10 e) as ->.
  { rewrite <- pow10_add. unfold e. by replace (prec + (qlog10 q - (prec - 1)))%Z
      with (qlog10 q + 1)%Z by lia. }
  split; apply Qmult_le_compat_r; lra.
Qed.

Lemma round_pos_mono p q : 0 < p → p <= q → round_pos p <= round_pos q.
Proof.
  intros Hp Hpq. assert (0 < q) as Hq by lra.
  destruct (Z.eq_dec (qlog10 p) (qlog10 q)) as [E|E].
  - unfold round_pos. rewrite E. set (e := (qlog10 q - (prec - 1))%Z).
    pose proof (pow10_pos e). pose proof (pow10_pos (- e)).
    apply Qmult_le_compat_r; [|lra]. rewrite <- Zle_Qle. apply round_half_even_mono.
    apply Qmult_le_compat_r; lra.
  - pose proof (qlog10_mono p q Hp Hpq).
    destruct (round_pos_range p Hp) as [_ H1], (round_pos_range q Hq) as [H2 _].
    pose proof (pow10_le (qlog10 p + 1) (qlog10 q) ltac:(lia)). lra.
Qed.

Lemma round_pos_pos q : 0 < q → 0 < round_pos q.
Proof. intros Hq. destruct (round_pos_range q Hq). pose proof (pow10_pos (qlog10 q)). lra. Qed.

Lemma round_ctx_cases q :
  (0 < q ∧ round_ctx q = round_pos q) ∨ (q == 0 ∧ round_ctx q = 0) ∨
  (q < 0 ∧ round_ctx q = - round_pos (- q)).
Proof.
  destruct q as [[|n|n] d]; unfold round_ctx; simpl; [right; left|left|right; right];
    (split; [|done]); unfold Qlt, Qeq; simpl; lia.
Qed.

Lemma round_ctx_mono p q : p <= q → round_ctx p <= round_ctx q.
Proof.
  intros H.
  destruct (round_ctx_cases p) as [[Hp ->]|[[Hp ->]|[Hp ->]]],
    (round_ctx_cases q) as [[Hq ->]|[[Hq ->]|[Hq ->]]]; try (exfalso; lra).
  - by apply round_pos_mono.
  - pose proof (round_pos_pos q Hq). lra.
  - lra.
  - pose proof (round_pos_pos q Hq). pose proof (round_pos_pos (- p) ltac:(lra)). lra.
  - pose proof (round_pos_pos (- p) ltac:(lra)). lra.
  - pose proof (round_pos_mono (- q) (- p) ltac:(lra) ltac:(lra)). lra.
Qed.

(** ** Exact results *)

Lemma round_pos_exact q c k :
  (0 < c < 10 ^ prec)%Z → q == inject_Z c * pow10 k → round_pos q == q.
Proof.
  intros Hc Eq. assert (0 < q) as Hq.
  { rewrite Eq. apply Qmult_lt_0_compat; [|apply pow10_pos].
    rewrite Zlt_Qlt in Hc. by destruct Hc. }
  destruct (qlog10_spec q Hq) as [HL _]. unfold round_pos.
  set (e := (qlog10 q - (prec - 1))%Z).
  assert (qlog10 q < prec + k)%Z as Hk.
  { apply pow10_lt_inv. eapply Qle_lt_trans; [exact HL|]. rewrite Eq, pow10_add.
    apply Qmult_lt_r; [apply pow10_pos|]. rewrite pow10_Z by (unfold prec; lia).
    rewrite <- Zlt_Qlt. lia. }
  assert (q * pow10 (- e) == inject_Z (c * 10 ^ (k - e))) as ->.
  { rewrite Eq, inject_Z_mult, <- pow10_Z by (unfold e; lia).
    rewrite <- Qmult_assoc, <- pow10_add. by replace (k + - e)%Z with (k - e)%Z by lia. }
  rewrite round_half_even_Z, inject_Z_mult, <- pow10_Z by (unfold e; lia).
  rewrite <- Qmult_assoc, <- pow10_add, Eq. by replace (k - e + e)%Z with k by lia.
Qed.

Lemma round_ctx_exact q c k :
  (Z.abs c < 10 ^ prec)%Z → q == inject_Z c * pow10 k → round_ctx q == q.
Proof.
  intros Hc Eq. pose proof (pow10_pos k) as Hk.
  destruct (round_ctx_cases q) as [[Hq ->]|[[Hq ->]|[Hq ->]]].
  - assert (inject_Z 0 < inject_Z c) as H by (change (inject_Z 0) with 0; nra). rewrite <- (Zlt_Qlt 0 c) in H.
    apply (round_pos_exact q c k); [lia|done].
  - by rewrite Hq.
  - assert (inject_Z c < inject_Z 0) as H by (change (inject_Z 0) with 0; nra). rewrite <- (Zlt_Qlt c 0) in H.
    rewrite (round_pos_exact (- q) (- c) k); [ring|lia|].
    rewrite Eq, inject_Z_opp. ring.
Qed.

(** ** The interface the components use *)

#[local] Open Scope Qc_scope.

#[global] Instance Qcle_total : Total Qcle.
Proof. intros x y. destruct (Qclt_le_dec x y); [left; by apply Qclt_le_weak|by right]. Qed.

Lemma round28_mono a b : a <= b → round28 a <= round28 b.
Proof.
  intros H. unfold round28, Qcle. simpl. rewrite !Qred_correct. by apply round_ctx_mono.
Qed.

Lemma Qc_sub_le_mono_r a b c : b <= c → a - c <= a - b.
Proof.
  intros H. unfold Qcminus. apply (proj1 (Qcplus_le_mono_l _ _ a)). by apply Qcopp_le_compat.
Qed.

(** Subtraction is antitone in its second argument in spite of rounding. *)
Lemma dec_sub_antitone a b c : b <= c → dec_sub a c <= dec_sub a b.
Proof. intros H. by apply round28_mono, Qc_sub_le_mono_r. Qed.

Lemma dec_sub_mono a b c : a <= b → dec_sub a c <= dec_sub b c.
Proof. intros H. apply round28_mono. by apply (proj1 (Qcplus_le_mono_r _ _ (- c))). Qed.

Lemma round28_0 : round28 (Q2Qc 0) = Q2Qc 0.
Proof. reflexivity. Qed.

Lemma dec_sub_diag a : dec_sub a a = Q2Qc 0.
Proof. unfold dec_sub, Qcminus. rewrite Qcplus_opp_r. apply round28_0. Qed.

Lemma round28_exact z k :
  (Z.abs z < 10 ^ prec)%Z →
  round28 (Q2Qc (inject_Z z * pow10 k)) = Q2Qc (inject_Z z * pow10 k).
Proof.
  intros Hz. unfold round28. apply Qc_is_canon. simpl. rewrite !Qred_correct.
  rewrite (round_ctx_exact _ z k); rewrite ?Qred_correct; done.
Qed.

Lemma round28_of_Z z : (Z.abs z < 10 ^ prec)%Z → round28 (dec_of_Z z) = dec_of_Z z.
Proof.
  intros Hz. pose proof (round28_exact z 0 Hz) as H.
  assert (Q2Qc (inject_Z z * pow10 0) = dec_of_Z z) as E; [|by rewrite E in H].
  apply Qc_is_canon. simpl. rewrite !Qred_correct. unfold pow10. simpl. ring.
Qed.

Lemma dec_of_Z_add a b : dec_of_Z a + dec_of_Z b = dec_of_Z (a + b).
Proof.
  apply Qc_is_canon. simpl. rewrite !Qred_correct. by rewrite inject_Z_plus.
Qed.

Lemma dec_of_Z_mul a b : dec_of_Z a * dec_of_Z b = dec_of_Z (a * b).
Proof.
  apply Qc_is_canon. simpl. rewrite !Qred_correct. by rewrite inject_Z_mult.
Qed.

(** Integer arithmetic below [10^28] is exact. *)
Lemma dec_add_Z a b :
  (Z.abs (a + b) < 10 ^ prec)%Z → dec_add (dec_of_Z a) (dec_of_Z b) = dec_of_Z (a + b).
Proof. intros. unfold dec_add. rewrite dec_of_Z_add. by apply round28_of_Z. Qed.

Lemma dec_sub_Z a b : (Z.abs (a - b) < 10 ^ prec)%Z → dec_sub (dec_of_Z a) (dec_of_Z b) = dec_of_Z (a - b).
Proof.
  intros H. unfold dec_sub. rewrite <- (round28_of_Z (a - b)) by done. f_equal.
  assert (dec_of_Z a = dec_of_Z (a - b) + dec_of_Z b) as -> by (rewrite dec_of_Z_add; f_equal; lia). ring.
Qed.

Lemma dec_mul_Z a b :
  (Z.abs (a * b) < 10 ^ prec)%Z → dec_mul (dec_of_Z a) (dec_of_Z b) = dec_of_Z (a * b).
Proof. intros. unfold dec_mul. rewrite dec_of_Z_mul. by apply round28_of_Z. Qed.

Lemma dec_of_Z_inj a b : dec_of_Z a = dec_of_Z b → a = b.
Proof.
  intros H. apply (f_equal this) in H. simpl in H. apply Qred_eq_iff in H.
  by apply inject_Z_injective.
Qed.

Lemma dec_ltb_lt a b : dec_ltb a b = true ↔ a < b.
Proof.
  unfold dec_ltb. rewrite negb_true_iff. split.
  - intros H. apply Qcnot_le_lt. intros Hle. unfold Qcle in Hle.
    apply Qle_bool_iff in Hle. congruence.
  - intros H. apply not_true_is_false. rewrite Qle_bool_iff. apply Qclt_not_le in H. done.
Qed.

Lemma dec_ltb_ge a b : dec_ltb a b = negb (bool_decide (b <= a)).
Proof.
  unfold dec_ltb. f_equal. apply Bool.eq_iff_eq_true.
  rewrite bool_decide_eq_true, Qle_bool_iff. done.
Qed.

Lemma dec_div_pos a n : (0 < n)%Z → ∃ q, dec_div a (dec_of_Z n) = Ok q.
Proof.
  intros Hn. unfold dec_div. case_decide as E; [|by eexists].
  exfalso. apply (dec_of_Z_inj n 0) in E. lia.
Qed.
