(* ===== verification/TimeUtils.v ===== *)
(** * Durations ([volga/common/time_utils.py])

    [duration_to_s] parses strings such as ["1d 12h"].  A string is its list of
    characters; the model covers ASCII strings, where [str.isalpha] holds of the
    letters and [str.isnumeric] of the digits. *)

From S2P Require Import Prelude PyDecimal.
From Stdlib Require Import Ascii.

(** ** Characters and numerals *)

Definition is_upper (c : ascii) : bool :=
  let n := nat_of_ascii c in (65 <=? n) && (n <=? 90).
Definition is_lower (c : ascii) : bool :=
  let n := nat_of_ascii c in (97 <=? n) && (n <=? 122).
(** [character.isalpha()] *)
Definition isalpha (c : ascii) : bool := is_upper c || is_lower c.
(** [character.isnumeric()] *)
Definition isnumeric (c : ascii) : bool :=
  let n := nat_of_ascii c in (48 <=? n) && (n <=? 57).

Definition digit_val (c : ascii) : Z := Z.of_nat (nat_of_ascii c) - 48.
Definition digits_val (l : list ascii) : Z := foldl (λ z c, (z * 10 + digit_val c)%Z) 0%Z l.

(** The digits up to the first point, and what follows it. *)
Fixpoint split_point (l : list ascii) : list ascii * option (list ascii) :=
  match l with
  | [] => ([], None)
  | c :: l' =>
      if decide (c = "."%char) then ([], Some l')
      else let '(a, b) := split_point l' in (c :: a, b)
  end.

(** [Decimal(s)] on a string of digits and points: one digit at least and one
    point at most, otherwise [decimal.InvalidOperation]. *)
Definition parse_decimal (l : list ascii) : res dec :=
  let '(ip, fp) := split_point l in
  let fr := default [] fp in
  if forallb isnumeric fr && bool_decide (ip ++ fr ≠ []) then
    Ok (Q2Qc (inject_Z (digits_val (ip ++ fr)) * pow10 (- Z.of_nat (length fr))))
  else Raise InvalidOperation.

(** ** [duration_to_s] *)

Definition D (z : Z) : dec := dec_of_Z z.

(** The [if character == ...] chain: [num * 365 * 24 * 60 * 60] and so on, each
    product rounded by the context. *)
Definition unit_amount (character : ascii) (num : dec) : res dec :=
  if decide (character = "y"%char) then
    Ok (dec_mul (dec_mul (dec_mul (dec_mul num (D 365)) (D 24)) (D 60)) (D 60))
  else if decide (character = "w"%char) then
    Ok (dec_mul (dec_mul (dec_mul (dec_mul num (D 7)) (D 24)) (D 60)) (D 60))
  else if decide (character = "d"%char) then
    Ok (dec_mul (dec_mul (dec_mul num (D 60)) (D 60)) (D 24))
  else if decide (character = "h"%char) then Ok (dec_mul (dec_mul num (D 60)) (D 60))
  else if decide (character = "m"%char) then Ok (dec_mul num (D 60))
  else if decide (character = "s"%char) then Ok num
  else Raise (ValueError "Invalid character").

(** One round of the loop on [(total_seconds, prev_num)]. *)
Definition duration_step (st : dec * list ascii) (character : ascii)
    : res (dec * list ascii) :=
  let '(total_seconds, prev_num) := st in
  if isalpha character then
    if decide (prev_num ≠ []) then
      num ← parse_decimal prev_num;
      amount ← unit_amount character num;
      Ok (dec_add total_seconds amount, [])
    else if decide (character ≠ " "%char) then Raise (ValueError "Invalid character")
    else Ok st
  else if isnumeric character || bool_decide (character = "."%char) then
    Ok (total_seconds, prev_num ++ [character])
  else if decide (character ≠ " "%char) then Raise (ValueError "Invalid character")
  else Ok st.

Definition duration_to_s (duration_string : string) : res dec :=
  st ← foldR duration_step (D 0, []) (String.list_ascii_of_string duration_string);
  Ok st.1.

(** ** Reference semantics: a list of terms [digits][unit] *)

Definition unit_seconds (character : ascii) : option Z :=
  if decide (character = "y"%char) then Some (365 * 24 * 60 * 60)%Z
  else if decide (character = "w"%char) then Some (7 * 24 * 60 * 60)%Z
  else if decide (character = "d"%char) then Some (24 * 60 * 60)%Z
  else if decide (character = "h"%char) then Some (60 * 60)%Z
  else if decide (character = "m"%char) then Some 60%Z
  else if decide (character = "s"%char) then Some 1%Z
  else None.

Record term := Term { t_digits : list ascii; t_unit : ascii }.

Definition term_wf (t : term) : Prop :=
  t_digits t ≠ [] ∧ Forall (λ c, isnumeric c = true) (t_digits t) ∧
  is_Some (unit_seconds (t_unit t)).

Definition term_seconds (t : term) : Z :=
  (digits_val (t_digits t) * default 0 (unit_seconds (t_unit t)))%Z.

Definition terms_seconds (ts : list term) : Z := foldr (λ t z, term_seconds t + z)%Z 0%Z ts.

Definition terms_chars (ts : list term) : list ascii :=
  concat (map (λ t, t_digits t ++ [t_unit t]) ts).

(** ** Lemmas *)

Lemma foldR_app {A B} (f : B → A → res B) b l1 l2 :
  foldR f b (l1 ++ l2) = (b' ← foldR f b l1; foldR f b' l2).
Proof.
  revert b. induction l1 as [|x l1 IH]; intros b; simpl; [done|].
  destruct (f b x); simpl; [apply IH|done].
Qed.

Lemma digits_val_nonneg l : Forall (λ c, isnumeric c = true) l → (0 ≤ digits_val l)%Z.
Proof.
  intros Hl. unfold digits_val.
  cut (∀ z, (0 ≤ z)%Z → (0 ≤ foldl (λ z c, z * 10 + digit_val c) z l)%Z); [eauto with lia|].
  induction Hl as [|c l Hc Hl IH]; intros z Hz; simpl; [done|].
  apply IH. unfold isnumeric in Hc. apply andb_prop in Hc as [H1 H2].
  apply Nat.leb_le in H1. unfold digit_val. lia.
Qed.

Lemma isnumeric_not_alpha c : isnumeric c = true → isalpha c = false.
Proof.
  unfold isnumeric, isalpha, is_upper, is_lower. set (n := nat_of_ascii c). clearbody n.
  rewrite andb_true_iff, !Nat.leb_le. intros [??].
  apply orb_false_iff; split; apply andb_false_iff; rewrite !Nat.leb_gt; lia.
Qed.

Lemma isnumeric_not_point c : isnumeric c = true → c ≠ "."%char.
Proof. intros H ->. discriminate. Qed.

Lemma split_point_digits l :
  Forall (λ c, isnumeric c = true) l → split_point l = (l, None).
Proof.
  induction 1 as [|c l Hc Hl IH]; simpl; [done|].
  rewrite decide_False by (by apply isnumeric_not_point). by rewrite IH.
Qed.

Lemma parse_decimal_digits l :
  l ≠ [] → Forall (λ c, isnumeric c = true) l →
  parse_decimal l = Ok (dec_of_Z (digits_val l)).
Proof.
  intros Hne Hl. unfold parse_decimal. rewrite split_point_digits by done. simpl.
  rewrite app_nil_r. rewrite bool_decide_eq_true_2 by done. f_equal.
  apply Qc_is_canon. simpl. rewrite !Qred_correct. unfold pow10. simpl. ring.
Qed.

(** The digits of a number accumulate in [prev_num]. *)
Lemma duration_digits total prev l :
  Forall (λ c, isnumeric c = true) l →
  foldR duration_step (total, prev) l = Ok (total, prev ++ l).
Proof.
  intros Hl. revert prev. induction Hl as [|c l Hc Hl IH]; intros prev; simpl.
  - by rewrite app_nil_r.
  - rewrite isnumeric_not_alpha, Hc by done. simpl. rewrite IH.
    by rewrite <- (assoc_L (++)).
Qed.

Ltac unit_cases :=
  repeat match goal with
  | H : context [decide (?a = ?b)] |- _ => destruct (decide (a = b)); simplify_eq/=
  | |- context [decide (?a = ?b)] => destruct (decide (a = b)); simplify_eq/=
  end.

Lemma unit_amount_Z u k z :
  unit_seconds u = Some k → (0 ≤ z)%Z → (z * k < 10 ^ prec)%Z →
  unit_amount u (dec_of_Z z) = Ok (dec_of_Z (z * k)).
Proof.
  unfold unit_seconds, unit_amount, D. intros Hu Hz Hb.
  unit_cases; repeat (rewrite dec_mul_Z; [|lia]); f_equal; f_equal; lia.
Qed.

Lemma unit_seconds_alpha u : is_Some (unit_seconds u) → isalpha u = true.
Proof. unfold unit_seconds. intros [k Hk]. unit_cases; done. Qed.

Lemma unit_seconds_pos u k : unit_seconds u = Some k → (0 < k)%Z.
Proof. unfold unit_seconds. intros. unit_cases; lia. Qed.

Lemma term_seconds_nonneg t : term_wf t → (0 ≤ term_seconds t)%Z.
Proof.
  intros (Hne & Hd & [k Hk]). unfold term_seconds. rewrite Hk. simpl.
  pose proof (digits_val_nonneg _ Hd). pose proof (unit_seconds_pos _ _ Hk). nia.
Qed.

Lemma terms_seconds_nonneg ts : Forall term_wf ts → (0 ≤ terms_seconds ts)%Z.
Proof.
  induction 1 as [|t ts Ht Hts IH]; simpl; [lia|].
  pose proof (term_seconds_nonneg t Ht). lia.
Qed.

Lemma duration_term total t :
  term_wf t → (0 ≤ total)%Z → (total + term_seconds t < 10 ^ prec)%Z →
  foldR duration_step (dec_of_Z total, []) (t_digits t ++ [t_unit t])
  = Ok (dec_of_Z (total + term_seconds t), []).
Proof.
  intros Ht H0 Hb. pose proof (term_seconds_nonneg t Ht) as Hs.
  destruct Ht as (Hne & Hd & [k Hk]). unfold term_seconds in *. rewrite Hk in *. simpl in Hs, Hb.
  rewrite foldR_app, duration_digits by done. simpl.
  rewrite unit_seconds_alpha by (by rewrite Hk). rewrite decide_True by done.
  rewrite parse_decimal_digits by done. simpl.
  pose proof (digits_val_nonneg _ Hd).
  rewrite (unit_amount_Z _ k) by (done || lia). simpl. rewrite dec_add_Z by lia. done.
Qed.

Lemma duration_terms total ts :
  Forall term_wf ts → (0 ≤ total)%Z → (total + terms_seconds ts < 10 ^ prec)%Z →
  foldR duration_step (dec_of_Z total, []) (terms_chars ts)
  = Ok (dec_of_Z (total + terms_seconds ts), []).
Proof.
  intros Hts. revert total. induction Hts as [|t ts Ht Hts IH]; intros total H0 Hb.
  - simpl. by rewrite Z.add_0_r.
  - unfold terms_chars in *. cbn [map concat]. simpl terms_seconds in *.
    pose proof (term_seconds_nonneg t Ht). pose proof (terms_seconds_nonneg ts Hts).
    rewrite foldR_app, duration_term by (done || lia). cbn [mbind res_bind].
    rewrite IH by lia. by rewrite Z.add_assoc.
Qed.

(** ** Properties *)

(** A parsed duration is never negative. *)

Lemma digits_fold_nonneg l z :
  Forall (λ c, isnumeric c = true) l → (0 ≤ z)%Z →
  (0 ≤ foldl (λ z c, (z * 10 + digit_val c)%Z) z l)%Z.
Proof.
  intros Hl. revert z. induction Hl as [|c l Hc Hl IH]; intros z Hz; simpl; [done|].
  apply IH. unfold isnumeric in Hc. unfold digit_val. apply andb_true_iff in Hc as [H1 H2].
  apply Nat.leb_le in H1. lia.
Qed.

Definition digit_or_point (c : ascii) : Prop := isnumeric c = true ∨ c = "."%char.

Lemma split_point_left_digits l :
  Forall digit_or_point l → Forall (λ c, isnumeric c = true) (split_point l).1.
Proof.
  induction 1 as [|c l Hc Hl IH]; simpl; [done|]. case_decide as Hd; [done|].
  destruct (split_point l) as [a b]. simpl in *. constructor; [|done]. by destruct Hc.
Qed.

Lemma Qc_nonneg_scale z k : (0 ≤ z)%Z → (Q2Qc 0 <= Q2Qc (inject_Z z * pow10 k))%Qc.
Proof.
  intros Hz. unfold Qcle. simpl. rewrite !Qred_correct.
  apply Qmult_le_0_compat; [by rewrite <- (Zle_Qle 0)|]. apply Qlt_le_weak, pow10_pos.
Qed.

Lemma parse_decimal_nonneg l d :
  Forall digit_or_point l → parse_decimal l = Ok d → (Q2Qc 0 <= d)%Qc.
Proof.
  intros Hl. pose proof (split_point_left_digits l Hl) as Hip. unfold parse_decimal.
  destruct (split_point l) as [ip fp]. simpl in Hip.
  destruct (forallb isnumeric (default [] fp)) eqn:Ef; simpl; [|done].
  case_bool_decide; [|done]. intros [= <-]. apply Qc_nonneg_scale. unfold digits_val.
  apply digits_fold_nonneg; [|lia]. apply Forall_app. split; [done|].
  apply Forall_forall. intros c Hc. rewrite forallb_forall in Ef. apply Ef.
  by apply list_elem_of_In.
Qed.

Lemma dec_mul_nonneg a b : (Q2Qc 0 <= a)%Qc → (Q2Qc 0 <= b)%Qc → (Q2Qc 0 <= dec_mul a b)%Qc.
Proof.
  intros Ha Hb. rewrite <- round28_0. apply round28_mono. rewrite <- (Qcmult_0_l b).
  by apply Qcmult_le_compat_r.
Qed.

Lemma dec_add_nonneg a b : (Q2Qc 0 <= a)%Qc → (Q2Qc 0 <= b)%Qc → (Q2Qc 0 <= dec_add a b)%Qc.
Proof.
  intros Ha Hb. rewrite <- round28_0. apply round28_mono. rewrite <- (Qcplus_0_l (Q2Qc 0)).
  by apply Qcplus_le_compat.
Qed.

Lemma unit_amount_nonneg c num a :
  (Q2Qc 0 <= num)%Qc → unit_amount c num = Ok a → (Q2Qc 0 <= a)%Qc.
Proof.
  intros Hn. unfold unit_amount.
  repeat case_decide; intros [= <-]; try done; repeat (apply dec_mul_nonneg; [|by vm_compute]); done.
Qed.

Lemma duration_step_nonneg st c st' :
  (Q2Qc 0 <= st.1)%Qc → Forall digit_or_point st.2 → duration_step st c = Ok st' →
  (Q2Qc 0 <= st'.1)%Qc ∧ Forall digit_or_point st'.2.
Proof.
  destruct st as [t p]. simpl. intros Ht Hp. unfold duration_step.
  destruct (isalpha c); [case_decide|].
  - intros E. inv_res. simpl. split; [|done].
    apply dec_add_nonneg; [done|]. eapply unit_amount_nonneg; [|done]. by eapply parse_decimal_nonneg.
  - case_decide; intros ?; by simplify_eq/=.
  - destruct (isnumeric c || bool_decide (c = "."%char)) eqn:E.
    + intros [= <-]. simpl. split; [done|]. apply Forall_app. split; [done|]. constructor; [|done].
      apply orb_true_iff in E as [E|E]; [by left|right]. by apply bool_decide_eq_true in E.
    + destruct (decide (c ≠ " "%char)); intros H'; [discriminate H'|]. by injection H' as <-.
Qed.

Lemma duration_to_s_nonneg s d : duration_to_s s = Ok d → (Q2Qc 0 <= d)%Qc.
Proof.
  unfold duration_to_s. generalize (String.list_ascii_of_string s) as l. intros l E. inv_res.
  match goal with H : foldR _ _ _ = Ok _ |- _ => revert H end.
  cut (∀ st st', (Q2Qc 0 <= st.1)%Qc → Forall digit_or_point st.2 →
    foldR duration_step st l = Ok st' → (Q2Qc 0 <= st'.1)%Qc).
  { intros H E. refine (H (D 0, []) _ _ _ E); [apply Qcle_refl|constructor]. }
  induction l as [|c l IH]; intros st st' Ht Hp E; cbn [foldR] in E; [by simplify_eq|].
  inv_res. match goal with H : duration_step _ _ = Ok _ |- _ =>
    apply duration_step_nonneg in H as [??]; [|done..] end. by eapply IH.
Qed.

(** A duration written as a sequence of terms, each a run of digits followed
    by one of the units y, w, d, h, m, s, denotes the sum of the terms in
    seconds (for totals below the context precision of 28 digits), and an
    unfinished number behind the last unit contributes nothing: it is dropped
    without an error. *)
Theorem duration_to_s_terms (ts : list term) (rest : list ascii) :
  Forall term_wf ts → Forall (λ c, isnumeric c = true) rest →
  (terms_seconds ts < 10 ^ prec)%Z →
  duration_to_s (String.string_of_list_ascii (terms_chars ts ++ rest)) = Ok (dec_of_Z (terms_seconds ts)).
Proof.
  intros Hts Hr Hb. unfold duration_to_s. rewrite String.list_ascii_of_string_of_list_ascii, foldR_app.
  unfold D. rewrite (duration_terms 0) by (done || lia). cbn [mbind res_bind].
  rewrite duration_digits by done. reflexivity.
Qed.

Lemma duration_to_s_terms_witness :
  duration_to_s "1d12h30" = Ok (dec_of_Z 129600).
Proof.
  apply (duration_to_s_terms [Term ["1"%char] "d"%char; Term ["1"%char; "2"%char] "h"%char]
    ["3"%char; "0"%char]); [|by repeat constructor|reflexivity].
  repeat constructor; try done; by eexists.
Defined.
