(* ===== verification/Timestamps.v ===== *)
(** * Timestamps of events
    ([datetime_str_to_ts], [datetime_to_ts] and [is_time_str] of [volga/common/time_utils.py])

    An event time is the [Decimal] of the float a [datetime] converts to.  The float is rounded to
    53 bits, the [Decimal] is exact; that events keep their order and stay apart is a matter of
    the bits left for the fraction of a second. *)

From S2P Require Import Prelude PyDecimal.
From Stdlib Require Import Qabs Qround Lqa.
Local Open Scope Z_scope.

(** ** Floats *)

(** The quotient rounded to the nearest integer, ties to even. *)
Definition div_rne (a b : Z) : Z :=
  let q := a / b in
  let r := a mod b in
  if 2 * r <? b then q else if b <? 2 * r then q + 1 else if Z.even q then q else q + 1.

(** The position of the leading bit of [a / b], for positive [a] and [b]. *)
Definition ratio_log2 (a b : Z) : Z :=
  let t := Z.log2 a - Z.log2 b in
  let below := if 0 <=? t then b * 2 ^ t <=? a else b <=? a * 2 ^ (- t) in
  if below then t else t - 1.

(** The float nearest to a rational that is not negative: 53 bits from the leading one on. *)
Definition float_of (q : Q) : Q :=
  let a := Qnum q in
  let b := QDen q in
  if a =? 0 then 0%Q
  else let k := ratio_log2 a b - 52 in
       if 0 <=? k then inject_Z (div_rne a (b * 2 ^ k) * 2 ^ k)
       else Qmake (div_rne (a * 2 ^ (- k)) b) (Z.to_pos (2 ^ (- k))).

(** ** [datetime] *)

(** The seconds since the epoch, from 1970 on, and the microseconds of a time; [isoparse] makes a time with an offset when its text
    has one, otherwise a naive time, whose seconds are those the local time zone gives it; how it does, which around a change
    to or from daylight saving is not one to one, is not modelled. *)
Inductive datetime := Aware (seconds micros : Z) | Naive (seconds micros : Z).
Definition dt_seconds (dt : datetime) : Z := match dt with Aware s _ => s | Naive s _ => s end.
Definition dt_micros (dt : datetime) : Z := match dt with Aware _ u => u | Naive _ u => u end.

(** [datetime.timestamp]: an aware time divides its microseconds by a million, a naive one adds the fraction to its seconds. *)
Definition timestamp (dt : datetime) : Q :=
  match dt with
  | Aware s u => float_of (Qmake (s * 1000000 + u) 1000000)
  | Naive s u => float_of (inject_Z s + float_of (Qmake u 1000000))%Q
  end.

Definition datetime_to_ts (dt : datetime) : dec := Q2Qc (timestamp dt).

(** [dateutil.parser.isoparse] is a parameter. *)
Section parser.
Context (isoparse : string → res datetime).
Definition datetime_str_to_ts (dt_str : string) : res dec := dt ← isoparse dt_str; Ok (datetime_to_ts dt).
Definition is_time_str (s : string) : bool := is_ok (isoparse s).
End parser.

(** ** Rounding *)

Lemma div_rne_error a b : 0 < b → 2 * Z.abs (div_rne a b * b - a) <= b.
Proof.
  intros Hb. unfold div_rne. pose proof (Z.div_mod a b ltac:(lia)) as E. pose proof (Z.mod_pos_bound a b Hb) as Hr.
  set (q := a / b) in *. set (r := a mod b) in *.
  destruct (Z.ltb_spec (2 * r) b); [nia|]. destruct (Z.ltb_spec b (2 * r)); [nia|]. destruct (Z.even q); nia.
Qed.

Lemma ratio_log2_bound a b n : 0 < a → 0 < b → 0 <= n → a < b * 2 ^ n → ratio_log2 a b < n.
Proof.
  intros Ha Hb Hn Hlt. unfold ratio_log2. pose proof (Z.log2_spec a Ha) as [La _]. pose proof (Z.log2_spec b Hb) as [_ Lb].
  pose proof (Z.log2_nonneg a). pose proof (Z.log2_nonneg b). set (t := Z.log2 a - Z.log2 b).
  assert (Z.log2 a < Z.log2 b + 1 + n) as Hl.
  { apply (Z.pow_lt_mono_r_iff 2); [lia..|]. rewrite Z.pow_add_r by lia. replace (Z.log2 b + 1) with (Z.succ (Z.log2 b)) by lia.
    eapply Z.le_lt_trans; [exact La|]. eapply Z.lt_le_trans; [exact Hlt|]. apply Z.mul_le_mono_nonneg_r; [apply Z.pow_nonneg|]; lia. }
  destruct (Z.leb_spec 0 t) as [Ht|Ht].
  - destruct (Z.leb_spec (b * 2 ^ t) a) as [Hle|Hle]; [|lia].
    assert (2 ^ t < 2 ^ n) as Hp by nia. apply Z.pow_lt_mono_r_iff in Hp; lia.
  - destruct (b <=? a * 2 ^ (- t)); lia.
Qed.

(** Below [2 ^ n] a float is off by at most [2 ^ (n - 54)]. *)
Lemma float_of_error n q : 0 <= n <= 33 → (0 <= q)%Q → (q < inject_Z (2 ^ n))%Q → (Qabs (float_of q - q) <= 1 # Z.to_pos (2 ^ (54 - n)))%Q.
Proof.
  intros Hn. destruct q as [a b]. unfold Qle, Qlt. cbn [Qnum Qden inject_Z]. rewrite Z.mul_0_l, !Z.mul_1_r. intros Ha Hlt. unfold float_of. cbn [Qnum Qden].
  assert (0 < 2 ^ (54 - n)) as HB by (apply Z.pow_pos_nonneg; lia).
  destruct (Z.eqb_spec a 0) as [->|Hne]; [apply Qabs_case; intros; unfold Qle, Qminus, Qplus, Qopp; cbn; lia|].
  pose proof (ratio_log2_bound a (Zpos b) n ltac:(lia) ltac:(lia) ltac:(lia) ltac:(lia)) as Hlog.
  set (k := ratio_log2 a (Zpos b) - 52). destruct (Z.leb_spec 0 k); [lia|].
  set (s := - k). assert (53 - n <= s) as Hs by lia. pose proof (div_rne_error (a * 2 ^ s) (Zpos b) ltac:(lia)) as He.
  assert (0 < 2 ^ s) as Hp by (apply Z.pow_pos_nonneg; lia).
  assert (2 ^ (54 - n) <= 2 * 2 ^ s) as Hps.
  { replace (54 - n) with (Z.succ (53 - n)) by lia. rewrite Z.pow_succ_r by lia. pose proof (Z.pow_le_mono_r 2 (53 - n) s ltac:(lia) Hs). lia. }
  set (m := div_rne (a * 2 ^ s) (Zpos b)) in *. set (P := 2 ^ s) in *. set (B := 2 ^ (54 - n)) in *. clearbody m P B.
  assert (Zpos (Z.to_pos P) = P) as HP by (apply Z2Pos.id; lia). assert (Zpos (Z.to_pos B) = B) as HB' by (apply Z2Pos.id; lia).
  unfold Qabs, Qminus, Qplus, Qopp, Qle. cbn [Qnum Qden]. rewrite Pos2Z.inj_mul, HP, HB'. nia.
Qed.

Lemma float_of_nonneg q : (0 <= q)%Q → (0 <= float_of q)%Q.
Proof.
  destruct q as [a b]. unfold Qle. cbn [Qnum Qden]. rewrite Z.mul_0_l, Z.mul_1_r. intros Ha. unfold float_of. cbn [Qnum Qden].
  assert (∀ x y, 0 <= x → 0 < y → 0 <= div_rne x y) as Hd.
  { intros x y Hx Hy. pose proof (Z.div_pos x y Hx Hy). unfold div_rne. repeat (case_match; try lia). }
  destruct (a =? 0); [cbn; lia|]. destruct (Z.leb_spec 0 (ratio_log2 a (Zpos b) - 52)) as [Hk|Hk]; cbn [Qnum Qden inject_Z].
  - assert (0 < 2 ^ (ratio_log2 a (Zpos b) - 52)) by (apply Z.pow_pos_nonneg; lia).
    pose proof (Hd a (Zpos b * 2 ^ (ratio_log2 a (Zpos b) - 52)) Ha ltac:(lia)). nia.
  - assert (0 < 2 ^ (- (ratio_log2 a (Zpos b) - 52))) by (apply Z.pow_pos_nonneg; lia).
    pose proof (Hd (a * 2 ^ (- (ratio_log2 a (Zpos b) - 52))) (Zpos b) ltac:(nia) ltac:(lia)). lia.
Qed.

(** ** Times *)

(** The exact time in microseconds, and times from 1970 to 2242. *)
Definition micros_of (dt : datetime) : Z := dt_seconds dt * 1000000 + dt_micros dt.
Definition representable (dt : datetime) : Prop := 0 <= dt_seconds dt < 2 ^ 33 ∧ 0 <= dt_micros dt < 1000000.

Lemma timestamp_error dt : representable dt → (Qabs (timestamp dt - Qmake (micros_of dt) 1000000) <= (1 # 2097152) + (1 # 18014398509481984))%Q.
Proof.
  intros [Hs Hu]. assert (∀ q, (0 <= q)%Q → (q < inject_Z (2 ^ 33))%Q → (Qabs (float_of q - q) <= 1 # 2097152)%Q) as H33
    by (intros q; exact (float_of_error 33 q ltac:(lia))).
  destruct dt as [s u|s u]; cbn [dt_seconds dt_micros micros_of timestamp] in *; unfold micros_of; cbn [dt_seconds dt_micros].
  - eapply Qle_trans; [apply H33|]; unfold Qle, Qlt; cbn; lia.
  - pose proof (float_of_error 0 (Qmake u 1000000) ltac:(lia)) as He. change (Z.to_pos (2 ^ (54 - 0))) with 18014398509481984%positive in He.
    pose proof (float_of_nonneg (Qmake u 1000000) ltac:(unfold Qle; cbn; lia)) as Hx. set (x := float_of (Qmake u 1000000)) in *.
    apply Qabs_Qle_condition in He as [He1 He2]; [|unfold Qle, Qlt; cbn; lia..].
    assert ((Qmake u 1000000 <= 999999 # 1000000)%Q) as Hu1 by (unfold Qle; cbn; lia).
    assert ((inject_Z s + 1 <= inject_Z (2 ^ 33))%Q) as Hs1 by (unfold Qle, Qplus; cbn; lia).
    assert ((0 <= inject_Z s)%Q) as Hs0 by (unfold Qle; cbn; lia).
    assert (Qmake (s * 1000000 + u) 1000000 == inject_Z s + Qmake u 1000000)%Q as Eq by (unfold Qeq, Qplus; cbn; lia).
    assert ((Qabs (float_of (inject_Z s + x) - (inject_Z s + x)) <= 1 # 2097152)%Q) as Hf by (apply H33; lra).
    apply Qabs_Qle_condition in Hf as [Hf1 Hf2]. apply Qabs_Qle_condition. rewrite Eq. split; lra.
Qed.

(** C40. Event times keep apart.  From 1970 to the year 2242 two times that differ, even by a single microsecond, aware or naive
    (a naive time taken by the seconds its local zone gives it), become different [Decimal]s in the same order, although they go through a float of 53 bits. *)
Theorem datetime_ts_ordered dt dt' : representable dt → representable dt' →
  (micros_of dt < micros_of dt' → (datetime_to_ts dt < datetime_to_ts dt')%Qc).
Proof.
  intros H H' Hlt. pose proof (timestamp_error dt H) as E. pose proof (timestamp_error dt' H') as E'.
  apply Qabs_Qle_condition in E as [_ E]. apply Qabs_Qle_condition in E' as [E' _].
  assert ((Qmake (micros_of dt) 1000000 + (1 # 1000000) <= Qmake (micros_of dt') 1000000)%Q) as Hd by (unfold Qle, Qplus; cbn; lia).
  unfold datetime_to_ts, Qclt. cbn [this Q2Qc]. rewrite !Qred_correct. lra.
Qed.

(** Later, with fewer bits left for the fraction, they need not. *)
Example later_times_collide : timestamp (Aware (2 ^ 34) 0) = timestamp (Aware (2 ^ 34) 1).
Proof. vm_compute. reflexivity. Qed.

Lemma datetime_ts_ordered_witness : (datetime_to_ts (Aware 1715090906 519626) < datetime_to_ts (Naive 1715090906 519627))%Qc.
Proof. apply (datetime_ts_ordered (Aware 1715090906 519626) (Naive 1715090906 519627)); [unfold representable; cbn [dt_seconds dt_micros]; lia..|reflexivity]. Defined.
