(* ===== verification/KeyIndex.v ===== *)
(** * The key index of the feature store ([volga/storage/common/key_index.py])

    A record is stored under the {e main key} of its key fields; the index maps
    the string of every partial key to the main keys it occurs in.

    [str(v)] of a key value is a parameter (values are arbitrary objects), and so
    is the iteration order of a Python [set], of which nothing is known but that
    it lists the elements once each. *)

From S2P Require Import Prelude PyDict.
From Stdlib Require Import Ascii.

(** [list(s)] for a [set] of strings. *)
Class SetOrder := set_list : gset string → list string.
Class SetOrderOk `{SetOrder} := set_list_perm : ∀ s, set_list s ≡ₚ elements s.

#[export] Instance set_order_elements : SetOrder := elements.
#[export] Instance set_order_elements_ok : SetOrderOk.
Proof. by intros s. Qed.

Definition DEFAULT_KV_SEPARATOR : string := "=".
Definition DEFAULT_KEYS_SEPARATOR : string := "-".

(** [sep.join(l)] *)
Fixpoint join (sep : string) (l : list string) : string :=
  match l with
  | [] => ""
  | [x] => x
  | x :: l' => x +:+ sep +:+ join sep l'
  end.

(** [l.sort()] on strings, by code points. *)
Definition sort_strings (l : list string) : list string := stable_sort id String.le l.

(** [itertools.combinations(l, n)] *)
Fixpoint combinations {A} (l : list A) (n : nat) : list (list A) :=
  match n, l with
  | O, _ => [[]]
  | S n', [] => []
  | S n', x :: l' => map (cons x) (combinations l' n') ++ combinations l' (S n')
  end.

Section key_index.
Context {V : Type} (py_str : V → string) `{SetOrder}.
Implicit Types d : dict string V.

Definition _kv_strings d : list string :=
  map (λ kv, kv.1 +:+ DEFAULT_KV_SEPARATOR +:+ py_str kv.2) d.

Definition compose_main_key d : string :=
  join DEFAULT_KEYS_SEPARATOR (sort_strings (_kv_strings d)).

(** The keys of all combinations of [2 .. depth - 1] entries. *)
Definition combination_keys (kv_strings : list string) (depth : nat) : list string :=
  concat (map (λ dd, map (λ comb, join DEFAULT_KEYS_SEPARATOR (sort_strings comb))
                         (combinations kv_strings dd))
              (seq 2 (depth - 2))).

Definition compose_possible_keys d : list string :=
  let kv_strings := _kv_strings d in
  let depth := length d in
  if decide (depth < 2) then kv_strings
  else set_list (list_to_set (kv_strings ++ combination_keys kv_strings depth)).

Record KeyIndex := mkKeyIndex { index : gmap string (gset string) }.

Definition new_key_index : KeyIndex := mkKeyIndex ∅.

(** The loop body of [put]. *)
Definition put_key (main_key : string) (idx : gmap string (gset string)) (k : string) :=
  match idx !! k with
  | Some keys => <[k := {[main_key]} ∪ keys]> idx
  | None => <[k := {[main_key]}]> idx
  end.

Definition put (self : KeyIndex) (keys_dict : dict string V) : KeyIndex :=
  let main_key := compose_main_key keys_dict in
  let possible_keys := compose_possible_keys keys_dict in
  mkKeyIndex (foldl (put_key main_key) (index self) possible_keys).

Definition get (self : KeyIndex) (keys_dict : dict string V) : list string :=
  let main_key := compose_main_key keys_dict in
  set_list (default ∅ (index self !! main_key)).

(** The index after a sequence of [put]s. *)
Definition put_all (self : KeyIndex) (ds : list (dict string V)) : KeyIndex :=
  foldl put self ds.
End key_index.

(** ** Sorting strings *)

#[global] Instance String_le_trans : Transitive String.le.
Proof. apply _. Qed.

Lemma sort_strings_perm l1 l2 : l1 ≡ₚ l2 → sort_strings l1 = sort_strings l2.
Proof.
  intros Hp. apply (StronglySorted_unique String.le).
  - apply (stable_sort_sorted id String.le).
  - apply (stable_sort_sorted id String.le).
  - unfold sort_strings. by rewrite !stable_sort_perm.
Qed.

(** ** Combinations *)

Lemma elem_of_combinations {A} (l s : list A) :
  s `sublist_of` l → s ∈ combinations l (length s).
Proof.
  induction 1 as [|x s l Hs IH|x s l Hs IH]; simpl.
  - by constructor.
  - apply elem_of_app. left. apply list_elem_of_fmap. eauto.
  - destruct s as [|y s]; simpl in *; [by destruct l; constructor|].
    apply elem_of_app. by right.
Qed.

Lemma combinations_length {A} (l s : list A) n : s ∈ combinations l n → length s = n.
Proof.
  revert n s. induction l as [|x l IH]; intros [|n] s; simpl.
  - by intros ->%list_elem_of_singleton.
  - by intros ?%elem_of_nil.
  - by intros ->%list_elem_of_singleton.
  - rewrite elem_of_app, list_elem_of_fmap. intros [(s' & -> & Hs)|Hs]; simpl; eauto.
Qed.

Lemma combinations_elem {A} (l s : list A) n : s ∈ combinations l n → s `sublist_of` l.
Proof.
  revert n s. induction l as [|x l IH]; intros [|n] s; simpl.
  - by intros ->%list_elem_of_singleton.
  - by intros ?%elem_of_nil.
  - intros ->%list_elem_of_singleton. apply sublist_nil_l.
  - rewrite elem_of_app, list_elem_of_fmap. intros [(s' & -> & Hs)|Hs].
    + constructor. eauto.
    + constructor. eauto.
Qed.

Section key_index_lemmas.
Context {V : Type} (py_str : V → string) `{SetOrderOk}.
Implicit Types d : dict string V.

Lemma kv_strings_perm d1 d2 : d1 ≡ₚ d2 → _kv_strings py_str d1 ≡ₚ _kv_strings py_str d2.
Proof. intros Hp. unfold _kv_strings. by apply Permutation_map. Qed.

Lemma main_key_perm d1 d2 :
  d1 ≡ₚ d2 → compose_main_key py_str d1 = compose_main_key py_str d2.
Proof.
  intros Hp. unfold compose_main_key. f_equal. by apply sort_strings_perm, kv_strings_perm.
Qed.

Lemma elem_of_set_list x s : x ∈ set_list s ↔ x ∈ s.
Proof. rewrite set_list_perm. apply elem_of_elements. Qed.

Lemma elem_of_possible_keys d k :
  k ∈ compose_possible_keys py_str d ↔
  k ∈ _kv_strings py_str d ∨
  (∃ s, s `sublist_of` _kv_strings py_str d ∧ 2 ≤ length s < length d ∧
        k = join DEFAULT_KEYS_SEPARATOR (sort_strings s)).
Proof.
  unfold compose_possible_keys. case_decide as Hd.
  { split; [by left|]. intros [?|(s & _ & ? & _)]; [done|lia]. }
  rewrite elem_of_set_list, elem_of_list_to_set, elem_of_app. apply or_iff_compat_l.
  unfold combination_keys. rewrite elem_of_concat. split.
  - intros (ks & Hk & (n & -> & Hn)%list_elem_of_fmap). apply elem_of_seq in Hn.
    apply list_elem_of_fmap in Hk as (s & -> & Hs).
    pose proof (combinations_length _ _ _ Hs) as Hlen. exists s.
    split_and!; [by eapply combinations_elem|lia|lia|done].
  - intros (s & Hs & Hlen & ->). eexists. split; last first.
    { apply list_elem_of_fmap. exists (length s). split; [done|]. apply elem_of_seq. lia. }
    apply list_elem_of_fmap. exists s. split; [done|]. by apply elem_of_combinations.
Qed.

Lemma put_keys_lookup m idx ks k x :
  x ∈ default ∅ (foldl (put_key m) idx ks !! k) ↔
  x ∈ default ∅ (idx !! k) ∨ (k ∈ ks ∧ x = m).
Proof.
  revert idx. induction ks as [|k' ks IH]; intros idx; simpl; [set_solver|].
  rewrite IH, elem_of_cons. unfold put_key.
  destruct (decide (k' = k)) as [->|Hne].
  - destruct (idx !! k) eqn:E; rewrite lookup_insert_eq; simpl; set_solver.
  - destruct (idx !! k') eqn:E; rewrite lookup_insert_ne by done; set_solver.
Qed.

Lemma put_lookup idx d k x :
  x ∈ default ∅ (index (put py_str idx d) !! k) ↔
  x ∈ default ∅ (index idx !! k) ∨
  (k ∈ compose_possible_keys py_str d ∧ x = compose_main_key py_str d).
Proof. apply put_keys_lookup. Qed.

Lemma put_all_lookup idx ds k x :
  x ∈ default ∅ (index (put_all py_str idx ds) !! k) ↔
  x ∈ default ∅ (index idx !! k) ∨
  (∃ d, d ∈ ds ∧ k ∈ compose_possible_keys py_str d ∧ x = compose_main_key py_str d).
Proof.
  unfold put_all. revert idx. induction ds as [|d ds IH]; intros idx; simpl; [set_solver|].
  rewrite IH, put_lookup. set_solver.
Qed.

(** The key of a non-empty proper part of [d] is one of its possible keys. *)
Lemma possible_key_part d q :
  q ⊆+ d → q ≠ [] → length q < length d →
  compose_main_key py_str q ∈ compose_possible_keys py_str d.
Proof.
  intros (q' & Hq & Hs)%submseteq_sublist_r Hne Hlen.
  rewrite (main_key_perm _ _ Hq). apply elem_of_possible_keys.
  assert (length q = length q') as El by (by rewrite Hq).
  assert (_kv_strings py_str q' `sublist_of` _kv_strings py_str d) as Hkv.
  { unfold _kv_strings. by apply sublist_map. }
  destruct (decide (length q' = 1)) as [E1|E1].
  - left. destruct q' as [|x [|]]; try done. eapply elem_of_sublist; [|exact Hkv].
    unfold compose_main_key, _kv_strings, sort_strings. simpl. by constructor.
  - right. exists (_kv_strings py_str q'). split_and!; [done|..].
    + unfold _kv_strings. rewrite length_map. destruct q, q'; simpl in *; try done; lia.
    + unfold _kv_strings. rewrite length_map. lia.
    + done.
Qed.
End key_index_lemmas.

(** ** Separators in a composed key *)

Fixpoint count_char (c : ascii) (s : string) : nat :=
  match s with
  | EmptyString => 0
  | String c' s' => (if decide (c = c') then 1 else 0) + count_char c s'
  end.

Lemma count_char_app c s1 s2 : count_char c (s1 +:+ s2) = count_char c s1 + count_char c s2.
Proof. induction s1 as [|c' s1 IH]; simpl; [done|]. rewrite IH. lia. Qed.

Lemma count_char_join c l :
  Forall (λ s, count_char c s = 0) l →
  count_char c (join (String c EmptyString) l) = length l - 1.
Proof.
  induction 1 as [|x l Hx Hl IH]; simpl; [done|]. destruct l as [|y l]; simpl in *; [done|].
  rewrite !count_char_app, Hx. simpl. rewrite decide_True by done. rewrite IH. lia.
Qed.

Lemma count_split c s1 s2 t1 t2 : count_char c s1 = 0 → count_char c s2 = 0 →
  s1 +:+ String c t1 = s2 +:+ String c t2 → s1 = s2 ∧ t1 = t2.
Proof.
  revert s2. induction s1 as [|x s1 IH]; intros [|y s2] H1 H2 E; simpl in *.
  - by injection E.
  - injection E as <- _. by rewrite decide_True in H2 by done.
  - injection E as -> _. by rewrite decide_True in H1 by done.
  - injection E as <- E. destruct (IH s2) as [-> ->]; [lia|lia|done|done].
Qed.

Lemma join_inj c l : ∀ l', Forall (λ s, count_char c s = 0) l → Forall (λ s, count_char c s = 0) l' → l ≠ [] → l' ≠ [] →
  join (String c EmptyString) l = join (String c EmptyString) l' → l = l'.
Proof.
  assert (∀ x y l, count_char c x = 0 → x = y +:+ String c (join (String c EmptyString) l) → False) as Hno.
  { intros x y k Hx ->. rewrite count_char_app in Hx. simpl in Hx. rewrite decide_True in Hx by done. lia. }
  induction l as [|x [|x2 l] IH]; intros [|y [|y2 l']] Hl Hl' Hne Hne' E; try done;
    apply Forall_cons in Hl as [Hx Hl], Hl' as [Hy Hl'].
  - simpl in E. by subst.
  - exfalso. exact (Hno x y (y2 :: l') Hx E).
  - exfalso. exact (Hno y x (x2 :: l) Hy (eq_sym E)).
  - apply (count_split c x y (join (String c EmptyString) (x2 :: l)) (join (String c EmptyString) (y2 :: l'))) in E as [-> E]; [|done..].
    f_equal. by apply IH.
Qed.

Section separators.
Context {V : Type} (py_str : V → string) `{SetOrderOk}.
Implicit Types d : dict string V.

Definition no_dash d : Prop :=
  Forall (λ s, count_char "-"%char s = 0) (_kv_strings py_str d).

Lemma count_dash_sorted s :
  Forall (λ x, count_char "-"%char x = 0) s →
  count_char "-"%char (join DEFAULT_KEYS_SEPARATOR (sort_strings s)) = length s - 1.
Proof.
  intros Hs. unfold DEFAULT_KEYS_SEPARATOR. rewrite count_char_join.
  - unfold sort_strings. by rewrite stable_sort_perm.
  - unfold sort_strings. by rewrite stable_sort_perm.
Qed.

(** The key made of all entries of a composite key is not among the possible
    keys: it has one separator more than any of them. *)
Lemma full_key_not_possible d :
  no_dash d → 2 ≤ length d →
  compose_main_key py_str d ∉ compose_possible_keys py_str d.
Proof.
  intros Hnd Hlen. rewrite (elem_of_possible_keys py_str d).
  assert (count_char "-"%char (compose_main_key py_str d) = length d - 1) as Hc.
  { unfold compose_main_key. rewrite count_dash_sorted by done.
    unfold _kv_strings. by rewrite length_map. }
  intros [Hk|(s & Hs & Hl & Hk)].
  - unfold no_dash in Hnd. rewrite Forall_forall in Hnd. specialize (Hnd _ Hk). lia.
  - rewrite Hk in Hc. rewrite count_dash_sorted in Hc; [lia|].
    apply Forall_forall. intros x Hx. unfold no_dash in Hnd. rewrite Forall_forall in Hnd.
    apply Hnd. by eapply elem_of_sublist.
Qed.

(** *** Asking for one field of a key *)

(** The entries of a composite key can be told apart: field names without [=], and no entry with a [-]. *)
Definition distinguishable (kos : list string) d : Prop :=
  length kos = 1 ∨ (Forall (λ f, count_char "="%char f = 0) kos ∧ no_dash d).
Definition separable (kos : list string) d : Prop := map fst d = kos ∧ distinguishable kos d.

Context (Hinj : Inj (=) (=) py_str).

Lemma kv_string_inj (f f' : string) v v' : f = f' ∨ (count_char "="%char f = 0 ∧ count_char "="%char f' = 0) →
  f +:+ "=" +:+ py_str v = f' +:+ "=" +:+ py_str v' → f = f' ∧ v = v'.
Proof using Hinj.
  intros [->|[H1 H2]] E.
  - split; [done|]. apply Hinj. induction f' as [|c f' IH]; simpl in E; injection E as E; auto.
  - apply (count_split "="%char f f' (py_str v) (py_str v')) in E as [-> E]; [|done..]. split; [done|]. by apply Hinj.
Qed.

Lemma kv_string_field kos d kf k : NoDup kos → kf ∈ kos → separable kos d →
  kf +:+ "=" +:+ py_str k ∈ _kv_strings py_str d ↔ dget d kf = Some k.
Proof using Hinj.
  intros Hnd Hkf [Hk Hsep]. assert (dict_wf d) as Hwf by (change (NoDup (map fst d)); by rewrite Hk). split.
  - intros ([f v] & E & Hin)%list_elem_of_fmap. assert (f ∈ kos) as Hf by (rewrite <- Hk; by apply (list_elem_of_fmap_2 fst _ (f, v))).
    apply kv_string_inj in E as [-> ->]; [by apply dget_elem_wf|]. destruct Hsep as [H1|[Hs _]].
    + left. destruct kos as [|x [|]]; try done. apply list_elem_of_singleton in Hkf, Hf. cbn. congruence.
    + right. rewrite Forall_forall in Hs. auto.
  - intros E%dget_Some_elem. apply list_elem_of_fmap. by exists (kf, k).
Qed.

(** The index knows a record under each single field of its key. *)
Lemma part_possible kos d kf k : NoDup kos → kf ∈ kos → separable kos d →
  (length kos ≠ 1 → count_char "-"%char (kf +:+ "=" +:+ py_str k) = 0) →
  kf +:+ "=" +:+ py_str k ∈ compose_possible_keys py_str d ↔ dget d kf = Some k.
Proof using Hinj H H0.
  intros Hnd Hkf Hs Hq. rewrite elem_of_possible_keys by apply _. rewrite (kv_string_field kos) by done. split; [|by left].
  intros [?|(s & Hsub & Hl & E)]; [done|exfalso]. destruct Hs as [Hk [H1|[_ Hd]]].
  - apply (f_equal length) in Hk. rewrite length_map in Hk. lia.
  - assert (count_char "-"%char (kf +:+ "=" +:+ py_str k) = length s - 1) as Hc.
    { rewrite E. apply count_dash_sorted. apply Forall_forall. intros x Hx. unfold no_dash in Hd. rewrite Forall_forall in Hd.
      apply Hd. by eapply elem_of_sublist. }
    rewrite Hq in Hc; [lia|]. apply (f_equal length) in Hk. rewrite length_map in Hk. lia.
Qed.

Lemma sort_strings_nil l : l ≠ [] → sort_strings l ≠ [].
Proof. intros Hl E. apply Hl. pose proof (stable_sort_perm id String.le l) as Hp. unfold sort_strings in E. rewrite E in Hp. by apply Permutation_nil_l in Hp. Qed.

(** One main key has the same entries in every record stored under it. *)
Lemma main_key_entries kos d d' : kos ≠ [] → separable kos d → separable kos d' →
  compose_main_key py_str d = compose_main_key py_str d' → _kv_strings py_str d ≡ₚ _kv_strings py_str d'.
Proof.
  intros Hkos [Hk Hc] [Hk' Hc'] E. unfold compose_main_key in E. destruct (decide (length kos = 1)) as [H1|Hlen].
  - pose proof (f_equal length Hk) as El. pose proof (f_equal length Hk') as El'. rewrite length_map in El, El'.
    destruct d as [|x [|]], d' as [|y [|]]; cbn in El, El'; try lia. cbn in E. cbn. by rewrite E.
  - destruct Hc as [?|[_ Hd]], Hc' as [?|[_ Hd']]; [done..|]. apply join_inj in E.
    + unfold sort_strings in E. rewrite <- (stable_sort_perm id String.le (_kv_strings py_str d)), E. apply stable_sort_perm.
    + unfold sort_strings. by rewrite stable_sort_perm.
    + unfold sort_strings. by rewrite stable_sort_perm.
    + apply sort_strings_nil. intros En. apply Hkos. rewrite <- Hk. by destruct d.
    + apply sort_strings_nil. intros En. apply Hkos. rewrite <- Hk'. by destruct d'.
Qed.

(** Records stored under one main key agree on every field. *)
Lemma part_main kos d d' kf : NoDup kos → kf ∈ kos → separable kos d → separable kos d' →
  compose_main_key py_str d = compose_main_key py_str d' → dget d kf = dget d' kf.
Proof using Hinj.
  intros Hnd Hkf Hs Hs' E. assert (kos ≠ []) as Hne by (intros ->; by apply elem_of_nil in Hkf). apply option_eq. intros k.
  rewrite <- (kv_string_field kos d kf k), <- (kv_string_field kos d' kf k) by done. by rewrite (main_key_entries kos d d').
Qed.
End separators.

(** ** Properties *)

Section key_index_properties.
Context {V : Type} (py_str : V → string) `{SetOrderOk}.
Implicit Types d q : dict string V.


(** A stored composite key is found by every non-empty proper part of it,
    given in any order of its entries, whatever else was stored before or after. *)
Theorem key_index_partial_lookup (ds1 ds2 : list (dict string V)) d q :
  q ⊆+ d → q ≠ [] → length q < length d →
  compose_main_key py_str d ∈
    get py_str (put_all py_str new_key_index (ds1 ++ d :: ds2)) q.
Proof.
  intros Hq Hne Hlen. unfold get. rewrite elem_of_set_list, put_all_lookup by apply _.
  right. exists d. split_and!; [set_solver| |done]. by apply possible_key_part.
Qed.

(** A composite key of two or more fields is not found by itself: [put] does
    not index the combination of all fields, so looking up the complete key of
    the only stored record returns nothing (keys and values without the
    separator). *)
Theorem key_index_full_lookup_misses d :
  no_dash py_str d → 2 ≤ length d →
  get py_str (put_all py_str new_key_index [d]) d = [].
Proof.
  intros Hnd Hlen. apply elem_of_nil_inv. intros m. unfold get.
  rewrite elem_of_set_list, put_all_lookup by apply _. simpl. rewrite lookup_empty. simpl.
  intros [?|(d' & ->%list_elem_of_singleton & Hk & _)]; [set_solver|].
  by eapply full_key_not_possible.
Qed.
End key_index_properties.

(** The dict of [test_key_index.py]. *)
Definition example_keys : dict string string := [("k1", "1"); ("k2", "2"); ("k3", "3")].

Lemma key_index_partial_lookup_witness :
  "k1=1-k2=2-k3=3" ∈
    get id (put_all id new_key_index [example_keys]) [("k3", "3"); ("k1", "1")].
Proof.
  apply (key_index_partial_lookup id [] [] example_keys [("k3", "3"); ("k1", "1")]).
  - apply submseteq_sublist_r. exists [("k1", "1"); ("k3", "3")].
    split; [apply Permutation_swap|]. by repeat constructor.
  - done.
  - simpl. lia.
Defined.

Lemma key_index_full_lookup_misses_witness :
  get id (put_all id new_key_index [example_keys]) example_keys = [].
Proof.
  apply (key_index_full_lookup_misses id example_keys); [by repeat constructor|].
  simpl. lia.
Defined.

