(* ===== verification/Storage.v ===== *)
(** * The in-memory feature store
    ([volga/storage/common/simple_in_memory_actor_storage.py])

    The cache actor keeps, per dataset and main key, the stored values in a list
    sorted by timestamp, next to a {!KeyIndex}.  Values are compared by Python's
    [==] and [<] when two timestamps coincide; both are an interface of the value
    type, since [<] raises on dictionaries. *)

From S2P Require Import Prelude PyDict PyDecimal KeyIndex.

(** Rich comparison of stored values. *)
Class PyCompare (V : Type) := {
  py_eq : V → V → bool;
  py_lt : V → V → res bool;
}.

(** [(ts1, v1) < (ts2, v2)]: tuples compare by the first component that differs. *)
Definition tuple_lt `{PyCompare V} (x y : dec * V) : res bool :=
  if decide (x.1 = y.1) then
    if py_eq x.2 y.2 then Ok false else py_lt x.2 y.2
  else Ok (dec_ltb x.1 y.1).

Section storage.
Context {V : Type} `{PyCompare V} {KV : Type} (py_str : KV → string) `{SetOrder}.

Abbreviation ts_list := (list (dec * V)).
Abbreviation key_dict := (dict string KV).

Record CacheActor := mkCacheActor {
  per_dataset_per_key : gmap string (dict string ts_list);
  key_index_per_dataset : gmap string KeyIndex;
}.

Definition new_cache_actor : CacheActor := mkCacheActor ∅ ∅.

Definition set_per_key (dataset_name : string) (p : dict string ts_list) (s : CacheActor) :=
  mkCacheActor (<[dataset_name := p]> (per_dataset_per_key s)) (key_index_per_dataset s).

Definition set_key_index (dataset_name : string) (i : KeyIndex) (s : CacheActor) :=
  mkCacheActor (per_dataset_per_key s) (<[dataset_name := i]> (key_index_per_dataset s)).

(** The lookup-or-create block at the top of [put_records]. *)
Definition ensure_dataset (dataset_name : string) : M CacheActor () := λ s,
  match per_dataset_per_key s !! dataset_name with
  | Some _ =>
      match key_index_per_dataset s !! dataset_name with
      | Some _ => (Ok (), s)
      | None => (Raise KeyError, s)
      end
  | None => (Ok (), set_key_index dataset_name new_key_index (set_per_key dataset_name [] s))
  end.

(** The loop body of [put_records]: index the key, then insert [(ts, value)]. *)
Definition put_record (dataset_name : string) (record : key_dict * dec * V)
    : M CacheActor () :=
  let '(keys_dict, ts, value) := record in
  let key := compose_main_key py_str keys_dict in
  s ← getS;
  key_index ← liftR (from_option_exn KeyError (key_index_per_dataset s !! dataset_name));
  per_key ← liftR (from_option_exn KeyError (per_dataset_per_key s !! dataset_name));
  modS (set_key_index dataset_name (put py_str key_index keys_dict)) ≫= λ _,
  let ts_vals := default [] (dget per_key key) in
  let per_key := dset per_key key ts_vals in
  modS (set_per_key dataset_name per_key) ≫= λ _,
  ts_vals' ← liftR (insort_right (tuple_lt (ts, value)) (ts, value) ts_vals);
  modS (set_per_key dataset_name (dset per_key key ts_vals')).

Definition put_records (dataset_name : string) (records : list (key_dict * dec * V))
    : M CacheActor () :=
  ensure_dataset dataset_name ≫= λ _, for_each records (put_record dataset_name).

(** [first = 0; while start is not None and timestamped_values[first][0] < start:
    first += 1] *)
Fixpoint scan_first (start : dec) (rest : ts_list) (first : nat) : res nat :=
  match rest with
  | [] => Raise IndexError
  | e :: rest' => if dec_ltb e.1 start then scan_first start rest' (S first) else Ok first
  end.

(** [last = len - 1; while end is not None and timestamped_values[last][0] > end:
    last -= 1].  Negative indices wrap around, so the loop ends at [-len - 1] at
    the latest. *)
Fixpoint scan_last (fuel : nat) (l : ts_list) (end_ : dec) (last : Z) : res Z :=
  match fuel with
  | O => Raise IndexError
  | S fuel' =>
      e ← py_index l last;
      if dec_ltb end_ e.1 then scan_last fuel' l end_ (last - 1) else Ok last
  end.

Definition range_of_key (start end_ : option dec) (timestamped_values : ts_list)
    : res ts_list :=
  first ← match start with
          | None => Ok 0
          | Some st => scan_first st timestamped_values 0
          end;
  let len := Z.of_nat (length timestamped_values) in
  last ← match end_ with
         | None => Ok (len - 1)%Z
         | Some en => scan_last (S (2 * length timestamped_values)) timestamped_values en (len - 1)
         end;
  Ok (py_slice timestamped_values first (Z.to_nat (last + 1))).

(** [get_values(..., with_timestamps=True)] *)
Definition get_values_ts (s : CacheActor) (dataset_name : string)
    (keys_dict : option key_dict) (start end_ : option dec) : res ts_list :=
  match per_dataset_per_key s !! dataset_name with
  | None => Raise (RuntimeError "No dataset")
  | Some per_key =>
      possible_keys ← match keys_dict with
        | Some q =>
            i ← from_option_exn KeyError (key_index_per_dataset s !! dataset_name);
            Ok (get py_str i q)
        | None => Ok (dkeys per_key)
        end;
      parts ← mapR (λ key, l ← dgetitem per_key key; range_of_key start end_ l) possible_keys;
      Ok (stable_sort fst Qcle (concat parts))
  end.

(** [get_values(..., with_timestamps=False)] *)
Definition get_values (s : CacheActor) (dataset_name : string)
    (keys_dict : option key_dict) (start end_ : option dec) : res (list V) :=
  r ← get_values_ts s dataset_name keys_dict start end_; Ok (r.*2).

(** The backwards loop of [get_latest], on the reversed list. *)
Fixpoint take_equal_ts (last_ts : dec) (rev_vals : ts_list) : list V :=
  match rev_vals with
  | [] => []
  | e :: rest => if decide (e.1 = last_ts) then e.2 :: take_equal_ts last_ts rest else []
  end.

Definition get_latest (s : CacheActor) (dataset_name : string) (keys_dict : option key_dict)
    : res (option (list V)) :=
  vals ← get_values_ts s dataset_name keys_dict None None;
  match reverse vals with
  | [] => Ok None
  | e :: rest => Ok (Some (take_equal_ts e.1 (e :: rest)))
  end.

(** ** The storage facade *)

(** The methods of the cache actor that a remote call can name. *)
Inductive actor_method := Put_records | Get_values | Get_latest.

(** [self.cache_actor.<name>]: a Ray handle has the methods of the class. *)
Definition actor_attr (name : string) : res actor_method :=
  if decide (name = "put_records") then Ok Put_records
  else if decide (name = "get_values") then Ok Get_values
  else if decide (name = "get_latest") then Ok Get_latest
  else Raise AttributeError.

(** The block both lookups start with. *)
Definition single_keys_dict (keys : option (list key_dict)) : res (option key_dict) :=
  match keys with
  | Some ks =>
      if decide (1 < length ks) then
        Raise (ValueError "Multiple key lookup is not supported yet")
      else k ← py_index ks 0; Ok (Some k)
  | None => Ok None
  end.

Definition get_data (s : CacheActor) (dataset_name : string)
    (keys : option (list key_dict)) (start_ts end_ts : option dec) : res (list V) :=
  keys_dict ← single_keys_dict keys;
  m ← actor_attr "get_list";
  match m with
  | Get_values => get_values s dataset_name keys_dict start_ts end_ts
  | _ => Raise TypeError
  end.

Definition get_latest_data (s : CacheActor) (dataset_name : string)
    (keys : option (list key_dict)) : res (option (list V)) :=
  keys_dict ← single_keys_dict keys;
  m ← actor_attr "get_latest";
  match m with
  | Get_latest => get_latest s dataset_name keys_dict
  | _ => Raise TypeError
  end.

(** ** Invariant *)

Definition ts_sorted (l : ts_list) : Prop := key_sorted fst Qcle l.

Record dataset_inv (per_key : dict string ts_list) (idx : KeyIndex) : Prop := {
  di_wf : dict_wf per_key;
  di_lists : ∀ k l, dget per_key k = Some l → ts_sorted l ∧ l ≠ [];
  di_index : ∀ k m, m ∈ default ∅ (index idx !! k) → is_Some (dget per_key m);
}.

Definition actor_inv (s : CacheActor) : Prop :=
  ∀ name, match per_dataset_per_key s !! name, key_index_per_dataset s !! name with
          | Some per_key, Some idx => dataset_inv per_key idx
          | None, None => True
          | _, _ => False
          end.
End storage.

Arguments CacheActor : clear implicits.
Arguments put_record : simpl never.

(** ** Range scans *)

Section scans.
Context {V : Type}.
Implicit Types (l : list (dec * V)) (st en : dec).
Local Open Scope Qc_scope.

Definition in_range (start end_ : option dec) (e : dec * V) : Prop :=
  match start with Some st => st <= e.1 | None => True end ∧
  match end_ with Some en => e.1 <= en | None => True end.
#[global] Instance in_range_dec start end_ e : Decision (in_range start end_ e).
Proof. unfold in_range. destruct start, end_; apply _. Defined.

(** The scans stay inside the list: some record is not before [start] and some
    record is not after [end]. *)
Definition range_ok (start end_ : option dec) l : Prop :=
  match start with Some st => Exists (λ e, st <= e.1) l | None => True end ∧
  match end_ with Some en => Exists (λ e, e.1 <= en) l | None => True end.
#[global] Instance range_ok_dec start end_ l : Decision (range_ok start end_ l).
Proof. unfold range_ok. destruct start, end_; apply _. Defined.

Lemma scan_first_ok st l first :
  Exists (λ e, st <= e.1) l →
  ∃ n, scan_first st l first = Ok (first + n)%nat ∧ (n < length l)%nat ∧
    (∀ i e, (i < n)%nat → l !! i = Some e → ¬ st <= e.1) ∧
    (∀ e, l !! n = Some e → st <= e.1).
Proof.
  revert first. induction l as [|e l IH]; intros first; rewrite ?Exists_nil, ?Exists_cons; [done|].
  intros Hex. simpl. destruct (dec_ltb e.1 st) eqn:E.
  - apply dec_ltb_lt in E. destruct Hex as [Hle|Hex]; [by apply Qcle_not_lt in Hle|].
    destruct (IH (S first) Hex) as (n & -> & Hn & H1 & H2). exists (S n).
    split_and!; [f_equal; lia|lia| |done].
    intros [|i] e' Hi He'; simplify_eq/=; [by apply Qclt_not_le|]. apply (H1 i); [lia|done].
  - exists 0%nat. split_and!; [f_equal; lia|lia|intros; lia|]. intros e' ?; simplify_eq/=.
    apply Qcnot_lt_le. rewrite <- dec_ltb_lt. congruence.
Qed.

Lemma scan_first_err st l first :
  ¬ Exists (λ e, st <= e.1) l → scan_first st l first = Raise IndexError.
Proof.
  revert first. induction l as [|e l IH]; intros first; simpl; [done|].
  rewrite Exists_cons. intros Hn. rewrite (proj2 (dec_ltb_lt e.1 st)).
  - apply IH. tauto.
  - apply Qcnot_le_lt. tauto.
Qed.

Lemma scan_last_ok fuel l en k :
  (k ≤ length l)%nat → (k ≤ fuel)%nat →
  (∀ i e, (k ≤ i)%nat → l !! i = Some e → ¬ e.1 <= en) →
  Exists (λ e, e.1 <= en) l →
  ∃ n, scan_last fuel l en (Z.of_nat k - 1) = Ok (Z.of_nat n - 1)%Z ∧ (n ≤ k)%nat ∧
    (∀ i e, (n ≤ i)%nat → l !! i = Some e → ¬ e.1 <= en) ∧
    (∃ e, l !! (n - 1)%nat = Some e ∧ e.1 <= en).
Proof.
  intros Hk Hf Hgt Hex. revert k Hk Hf Hgt. induction fuel as [|fuel IH]; intros k Hk Hf Hgt.
  - assert (k = 0%nat) as -> by lia. exfalso. apply Exists_exists in Hex as (e & He & Hle).
    apply list_elem_of_lookup in He as [i Hi]. apply (Hgt i e); [lia|done|done].
  - destruct k as [|k].
    { exfalso. apply Exists_exists in Hex as (e & He & Hle).
      apply list_elem_of_lookup in He as [i Hi]. apply (Hgt i e); [lia|done|done]. }
    destruct (lookup_lt_is_Some_2 l k) as [e He]; [lia|].
    cbn [scan_last]. replace (Z.of_nat (S k) - 1)%Z with (Z.of_nat k) by lia.
    unfold py_index. rewrite bool_decide_eq_true_2 by lia. rewrite Nat2Z.id, He. simpl.
    destruct (dec_ltb en e.1) eqn:E.
    + apply dec_ltb_lt in E. destruct (IH k) as (n & -> & ? & ? & ?); [lia|lia| |eauto with lia].
      intros i e' Hi He'. destruct (decide (i = k)) as [->|]; simplify_eq.
      * by apply Qclt_not_le.
      * apply (Hgt i); [lia|done].
    + exists (S k). split_and!; [f_equal; lia|lia|done|].
      exists e. replace (S k - 1)%nat with k by lia. split; [done|].
      apply Qcnot_lt_le. rewrite <- dec_ltb_lt. congruence.
Qed.

Lemma scan_last_err fuel l en z :
  ¬ Exists (λ e, e.1 <= en) l → scan_last fuel l en z = Raise IndexError.
Proof.
  intros Hn. revert z. induction fuel as [|fuel IH]; intros z; [done|]. cbn [scan_last].
  assert (∀ o e, o = Some e → (∃ i, l !! i = o) → dec_ltb en e.1 = true) as Hlt.
  { intros o e -> [i Hi]. apply dec_ltb_lt, Qcnot_le_lt. intros Hle. apply Hn.
    apply Exists_exists. exists e. split; [by eapply list_elem_of_lookup_2|done]. }
  unfold py_index. repeat case_bool_decide; [..|done];
    match goal with |- context [l !! ?i] => destruct (l !! i) as [e|] eqn:E end; simpl;
    try done; by rewrite (Hlt _ _ E) by eauto.
Qed.

Lemma py_slice_drop_take {A} (l : list A) i j : py_slice l i j = drop i (take j l).
Proof.
  unfold py_slice. destruct (decide (i ≤ j)%nat).
  - rewrite take_drop_commute. f_equal. f_equal. lia.
  - replace (j - i)%nat with 0%nat by lia. rewrite take_0. symmetry. apply drop_ge.
    rewrite length_take. lia.
Qed.

(** The end of the list up to which the second scan keeps records. *)
Lemma take_until_end l en n :
  ts_sorted l → (n ≤ length l)%nat →
  (∀ i e, (n ≤ i)%nat → l !! i = Some e → ¬ e.1 <= en) →
  (∃ e, l !! (n - 1)%nat = Some e ∧ e.1 <= en) →
  take n l = filter (λ e, e.1 <= en) l.
Proof.
  intros Hs Hn Hgt (e & He & Hle).
  apply (take_drop_filter (λ e, e.1 <= en) l n); [|done].
  intros i e' Hi He'. destruct (decide (i = n - 1)%nat) as [->|]; [by simplify_eq|].
  transitivity e.1; [|done].
  apply (key_sorted_lookup fst Qcle l i (n - 1)); auto with lia.
Qed.

Lemma drop_until_start l st n :
  ts_sorted l →
  (∀ i e, (i < n)%nat → l !! i = Some e → ¬ st <= e.1) →
  (∀ e, l !! n = Some e → st <= e.1) → (n < length l)%nat →
  ∀ m, drop n (take m l) = filter (λ e, st <= e.1) (take m l).
Proof.
  intros Hs Hlt Hge Hn m. destruct (lookup_lt_is_Some_2 l n Hn) as [e0 He0].
  pose proof (Hge _ He0) as Hst.
  rewrite (list_filter_iff _ (λ e, ¬ ¬ st <= e.1)).
  2: { intros x. destruct (decide (st <= x.1)); tauto. }
  apply (take_drop_filter (λ e, ¬ st <= e.1) (take m l) n).
  - intros i e Hi He. apply lookup_take_Some in He as [He _]. by eapply Hlt.
  - intros i e Hi [He _]%lookup_take_Some Hn'. apply Hn'.
    destruct (decide (i = n)) as [->|]; [by simplify_eq|].
    transitivity e0.1; [done|]. by eapply (key_sorted_lookup fst Qcle l n i).
Qed.

Lemma range_of_key_ok start end_ l :
  ts_sorted l → range_ok start end_ l →
  range_of_key start end_ l = Ok (filter (in_range start end_) l).
Proof.
  intros Hs [Hst Hen]. unfold range_of_key.
  assert (∃ n, match end_ with
               | None => Ok (Z.of_nat (length l) - 1)%Z
               | Some en => scan_last (S (2 * length l)) l en (Z.of_nat (length l) - 1)
               end = Ok (Z.of_nat n - 1)%Z ∧
               take n l = filter (λ e, in_range None end_ e) l) as (n2 & E2 & T2).
  { destruct end_ as [en|].
    - destruct (scan_last_ok (S (2 * length l)) l en (length l)) as (n & -> & Hn & H1 & H2);
        [lia|lia| |done|].
      { intros i e Hi He. apply lookup_lt_Some in He. lia. }
      exists n. split; [done|]. rewrite (take_until_end l en n) by done.
      apply list_filter_iff. intros e. unfold in_range. tauto.
    - exists (length l). split; [done|]. rewrite take_ge by lia.
      symmetry. apply filter_all. by apply Forall_true. }
  assert (∃ n, match start with
               | None => Ok 0%nat | Some st => scan_first st l 0
               end = Ok n ∧
               ∀ m, drop n (take m l) = filter (λ e, in_range start None e) (take m l))
    as (n1 & E1 & T1).
  { destruct start as [st|].
    - destruct (scan_first_ok st l 0 Hst) as (n & -> & Hn & H1 & H2). exists n.
      split; [done|]. intros m. rewrite (drop_until_start l st n) by done.
      apply list_filter_iff. intros e. unfold in_range. tauto.
    - exists 0%nat. split; [done|]. intros m. rewrite drop_0. symmetry.
      apply filter_all. by apply Forall_true. }
  rewrite E1, E2. simpl. replace (Z.to_nat (Z.of_nat n2 - 1 + 1)) with n2 by lia.
  rewrite py_slice_drop_take, T1, T2, list_filter_filter. f_equal.
  apply list_filter_iff. intros e. unfold in_range. tauto.
Qed.

Lemma range_of_key_err start end_ l :
  ¬ range_ok start end_ l → range_of_key start end_ l = Raise IndexError.
Proof.
  intros Hn. unfold range_of_key, range_ok in *. destruct start as [st|].
  - destruct (decide (Exists (λ e, st <= e.1) l)) as [Hex|Hex].
    + destruct (scan_first_ok st l 0 Hex) as (n & -> & _). cbn [mbind res_bind].
      destruct end_ as [en|]; [|tauto]. rewrite scan_last_err by tauto. done.
    + by rewrite scan_first_err.
  - cbn [mbind res_bind]. destruct end_ as [en|]; [|tauto]. rewrite scan_last_err by tauto. done.
Qed.
End scans.

(** ** Insertion keeps the invariant *)

Section put_lemmas.
Context {V : Type} `{PyCompare V} {KV : Type} (py_str : KV → string) `{SetOrderOk}.
Local Abbreviation state := (CacheActor V).
Implicit Types (s : state) (per_key : dict string (list (dec * V))).

Lemma tuple_lt_ts (x y : dec * V) b :
  tuple_lt x y = Ok b → if b : bool then (x.1 <= y.1)%Qc else (y.1 <= x.1)%Qc.
Proof.
  unfold tuple_lt. case_decide as Heq.
  - intros _. rewrite Heq. destruct b; apply Qcle_refl.
  - intros [= <-]. destruct (dec_ltb x.1 y.1) eqn:E.
    + by apply Qclt_le_weak, dec_ltb_lt.
    + apply Qcnot_lt_le. rewrite <- dec_ltb_lt. congruence.
Qed.

Lemma insort_ts_sorted (x : dec * V) l l' :
  ts_sorted l → insort_right (tuple_lt x) x l = Ok l' → ts_sorted l' ∧ l' ≡ₚ x :: l.
Proof.
  intros Hs. apply (insort_right_sorted fst Qcle); [done|].
  intros y b _ Hb. by apply tuple_lt_ts in Hb.
Qed.

(** What one round of the loop does, as a function of the stored list. *)
Lemma put_record_run name kd ts v s per_key idx :
  per_dataset_per_key s !! name = Some per_key →
  key_index_per_dataset s !! name = Some idx →
  let key := compose_main_key py_str kd in
  let l := default [] (dget per_key key) in
  put_record py_str name (kd, ts, v) s =
  match insort_right (tuple_lt (ts, v)) (ts, v) l with
  | Ok l' => (Ok (), set_per_key name (dset per_key key l')
                       (set_key_index name (put py_str idx kd) s))
  | Raise e => (Raise e, set_per_key name (dset per_key key l)
                           (set_key_index name (put py_str idx kd) s))
  end.
Proof.
  intros Hp Hi key l. unfold put_record, mbind, M_bind, getS, liftR, modS. fold key. simpl.
  rewrite Hi, Hp. simpl. fold l.
  destruct (insort_right _ _ _) as [l'|e]; simpl; [|done].
  f_equal. unfold set_per_key. simpl. f_equal. by rewrite insert_insert_eq, dset_dset.
Qed.

Lemma dataset_inv_put per_key idx kd l' :
  dataset_inv per_key idx → ts_sorted l' → l' ≠ [] →
  dataset_inv (dset per_key (compose_main_key py_str kd) l') (put py_str idx kd).
Proof.
  intros [Hwf Hl Hi] Hs Hne. split.
  - by apply dset_wf.
  - intros k l. rewrite dget_dset. case_decide; intros; simplify_eq; [done|]. by eapply Hl.
  - intros k m Hm. rewrite dget_dset. case_decide as Hk; [eauto|].
    destruct (proj1 (put_lookup py_str _ _ _ _) Hm) as [?|[_ ->]]; [eauto|done].
Qed.

Lemma actor_inv_set s name per_key idx :
  actor_inv s → dataset_inv per_key idx →
  actor_inv (set_per_key name per_key (set_key_index name idx s)).
Proof.
  intros Hs Hd n. unfold set_per_key, set_key_index. simpl.
  destruct (decide (name = n)) as [->|Hne].
  - by rewrite !lookup_insert_eq.
  - rewrite !lookup_insert_ne by done. apply Hs.
Qed.

Definition has_dataset name s : Prop := is_Some (per_dataset_per_key s !! name).

Lemma actor_inv_lookup s name :
  actor_inv s → has_dataset name s →
  ∃ per_key idx, per_dataset_per_key s !! name = Some per_key ∧
    key_index_per_dataset s !! name = Some idx ∧ dataset_inv per_key idx.
Proof.
  intros Hs [p Hp]. specialize (Hs name). rewrite Hp in Hs.
  destruct (key_index_per_dataset s !! name) as [i|] eqn:Hi; [|done]. eauto.
Qed.

Lemma put_record_inv name rec s :
  actor_inv s → has_dataset name s →
  actor_inv (put_record py_str name rec s).2 ∧
  has_dataset name (put_record py_str name rec s).2.
Proof.
  intros Hs Hd. destruct (actor_inv_lookup _ _ Hs Hd) as (pk & idx & Hp & Hi & Hinv).
  destruct rec as [[kd ts] v]. rewrite (put_record_run name kd ts v s pk idx Hp Hi).
  set (key := compose_main_key py_str kd). set (l := default [] (dget pk key)).
  assert (ts_sorted l) as Hsl.
  { unfold l. destruct (dget pk key) as [l0|] eqn:El; simpl; [by eapply di_lists|constructor]. }
  destruct (insort_right _ _ _) as [l'|e] eqn:E; simpl.
  - apply insort_ts_sorted in E as [Hl' Hp']; [|done]. split.
    + apply actor_inv_set; [done|]. apply dataset_inv_put; [done..|].
      intros ->. by apply Permutation_nil_cons in Hp'.
    + unfold has_dataset, set_per_key. simpl. rewrite lookup_insert_eq. eauto.
  - split; [|unfold has_dataset, set_per_key; simpl; rewrite lookup_insert_eq; eauto].
    apply actor_inv_set; [done|]. apply dataset_inv_put; [done..|].
    intros Hnil. by rewrite Hnil in E.
Qed.

Lemma ensure_dataset_inv name s :
  actor_inv s →
  ensure_dataset name s = (Ok (), (ensure_dataset name s).2) ∧
  actor_inv (ensure_dataset name s).2 ∧ has_dataset name (ensure_dataset name s).2.
Proof.
  intros Hs. unfold ensure_dataset. pose proof (Hs name) as Hn.
  destruct (per_dataset_per_key s !! name) eqn:Hp.
  - destruct (key_index_per_dataset s !! name) eqn:Hi; [|done].
    split_and!; [done|done|]. by exists l.
  - split_and!; [done| |].
    + intros n. unfold set_per_key, set_key_index. simpl.
      destruct (decide (name = n)) as [->|Hne].
      * rewrite !lookup_insert_eq. split; [apply dict_wf_nil|done|].
        intros k m. simpl. rewrite lookup_empty. set_solver.
      * rewrite !lookup_insert_ne by done. apply Hs.
    + unfold has_dataset. simpl. rewrite lookup_insert_eq. eauto.
Qed.

Lemma put_records_inv name recs s :
  actor_inv s → actor_inv (put_records py_str name recs s).2.
Proof.
  intros Hs. unfold put_records, mbind, M_bind.
  destruct (ensure_dataset_inv name s Hs) as (-> & ? & ?).
  apply (for_each_inv (λ s, actor_inv s ∧ has_dataset name s)); [|done].
  intros x s' [??]. by apply put_record_inv.
Qed.
End put_lemmas.

(** ** Contents of a dataset *)

Section contents.
Context {V : Type} `{PyCompare V} {KV : Type} (py_str : KV → string) `{SetOrderOk}.
Local Abbreviation state := (CacheActor V).
Implicit Types (s : state) (per_key : dict string (list (dec * V))).

(** All stored entries with their main key. *)
Definition contents per_key : list (string * (dec * V)) :=
  concat (map (λ kl, map (pair kl.1) kl.2) per_key).

Definition rec_entry (r : dict string KV * dec * V) : string * (dec * V) :=
  (compose_main_key py_str r.1.1, (r.1.2, r.2)).

Lemma elem_of_contents per_key k e :
  dict_wf per_key → (k, e) ∈ contents per_key ↔ ∃ l, dget per_key k = Some l ∧ e ∈ l.
Proof.
  intros Hwf. unfold contents. rewrite elem_of_concat. split.
  - intros (l & Hl & ([k0 l0] & -> & Hin)%list_elem_of_fmap).
    apply list_elem_of_fmap in Hl as (e' & ? & He). simplify_eq/=. exists l0.
    split; [|done]. by apply dget_elem_wf.
  - intros (l & Hl & He). exists (map (pair k) l). split.
    + apply list_elem_of_fmap. eauto.
    + apply list_elem_of_fmap. exists (k, l). split; [done|]. by apply dget_Some_elem.
Qed.

Lemma contents_dset per_key k e l' :
  l' ≡ₚ e :: default [] (dget per_key k) →
  contents (dset per_key k l') ≡ₚ (k, e) :: contents per_key.
Proof.
  unfold contents. intros Hp.
  induction per_key as [|[k0 l0] per_key IH]; simpl in *.
  - rewrite Hp. done.
  - case_decide; simplify_eq/=.
    + rewrite Hp. done.
    + rewrite IH by done. by rewrite Permutation_middle.
Qed.

Lemma insort_fresh (x : dec * V) l :
  ts_sorted l → (∀ y, y ∈ l → y.1 ≠ x.1) →
  insort_right (tuple_lt x) x l = Ok (insert_right fst Qcle x l).
Proof.
  intros Hs Hf. apply (insort_right_spec fst Qcle); [|done].
  intros y Hy. unfold tuple_lt. rewrite decide_False by (apply not_eq_sym; auto).
  by rewrite dec_ltb_ge.
Qed.

Lemma put_record_fresh name kd ts v s per_key idx :
  per_dataset_per_key s !! name = Some per_key →
  key_index_per_dataset s !! name = Some idx →
  dataset_inv per_key idx →
  (∀ v', (compose_main_key py_str kd, (ts, v')) ∉ contents per_key) →
  ∃ per_key', put_record py_str name (kd, ts, v) s =
      (Ok (), set_per_key name per_key' (set_key_index name (put py_str idx kd) s)) ∧
    dataset_inv per_key' (put py_str idx kd) ∧
    contents per_key' ≡ₚ (compose_main_key py_str kd, (ts, v)) :: contents per_key.
Proof.
  intros Hp Hi Hinv Hfresh. rewrite (put_record_run py_str name kd ts v s _ _ Hp Hi).
  set (key := compose_main_key py_str kd) in *. set (l := default [] (dget per_key key)).
  assert (ts_sorted l ∧ ∀ y, y ∈ l → y.1 ≠ ts) as [Hsl Hne].
  { unfold l. destruct (dget per_key key) as [l0|] eqn:El; simpl.
    - split; [by eapply di_lists|]. intros [t w] Hy Ht. simpl in Ht. subst t. apply (Hfresh w).
      apply elem_of_contents; [by eapply di_wf|]. eauto.
    - split; [constructor|]. set_solver. }
  rewrite insort_fresh by done.
  exists (dset per_key key (insert_right fst Qcle (ts, v) l)). split_and!; [done| |].
  - refine (dataset_inv_put py_str per_key idx kd _ Hinv _ _); [by apply (insert_right_sorted fst Qcle)|].
    intros Hnil. pose proof (insert_right_perm fst Qcle (ts, v) l) as Hpm.
    rewrite Hnil in Hpm. by apply Permutation_nil_cons in Hpm.
  - apply contents_dset, insert_right_perm.
Qed.

Lemma put_records_loop_fresh name recs s per_key idx :
  per_dataset_per_key s !! name = Some per_key →
  key_index_per_dataset s !! name = Some idx →
  dataset_inv per_key idx →
  NoDup (map (λ x, (x.1, x.2.1)) (map rec_entry recs ++ contents per_key)) →
  ∃ s' per_key', for_each recs (put_record py_str name) s = (Ok (), s') ∧
    per_dataset_per_key s' !! name = Some per_key' ∧
    key_index_per_dataset s' !! name = Some (put_all py_str idx (map (λ r, r.1.1) recs)) ∧
    dataset_inv per_key' (put_all py_str idx (map (λ r, r.1.1) recs)) ∧
    contents per_key' ≡ₚ map rec_entry recs ++ contents per_key.
Proof.
  revert s per_key idx. induction recs as [|[[kd ts] v] recs IH]; intros s per_key idx Hp Hi Hinv.
  { intros _. exists s, per_key. done. }
  simpl. rewrite NoDup_cons. intros [Hn Hnd].
  destruct (put_record_fresh name kd ts v s per_key idx) as (pk & E & Hinv' & Hc); [done..| |].
  { intros v' Hv. apply Hn, list_elem_of_fmap.
    exists (compose_main_key py_str kd, (ts, v')). split; [done|]. set_solver. }
  unfold mbind, M_bind. rewrite E.
  destruct (IH (set_per_key name pk (set_key_index name (put py_str idx kd) s)) pk
              (put py_str idx kd)) as (s' & pk' & E' & Hp' & Hi' & Hinv'' & Hc').
  { unfold set_per_key. simpl. apply lookup_insert_eq. }
  { unfold set_per_key, set_key_index. simpl. apply lookup_insert_eq. }
  { done. }
  { rewrite Hc, <- Permutation_middle. simpl. by apply NoDup_cons. }
  exists s', pk'. split_and!; [done|done|done|done|].
  rewrite Hc', Hc. by rewrite <- Permutation_middle.
Qed.

(** Reading a key without bounds returns its whole list. *)
Lemma range_all (l : list (dec * V)) : ts_sorted l → range_of_key None None l = Ok l.
Proof.
  intros Hs. rewrite range_of_key_ok by done. f_equal. apply filter_all. by apply Forall_true.
Qed.

Definition selected_keys per_key idx (kd : option (dict string KV)) : list string :=
  match kd with Some q => get py_str idx q | None => dkeys per_key end.

Definition stored per_key (key : string) : list (dec * V) := default [] (dget per_key key).

Lemma selected_keys_stored per_key idx kd key :
  dataset_inv per_key idx → key ∈ selected_keys per_key idx kd →
  dget per_key key = Some (stored per_key key) ∧ ts_sorted (stored per_key key).
Proof.
  intros Hinv Hk. assert (is_Some (dget per_key key)) as [l Hl].
  { destruct kd as [q|]; simpl in Hk.
    - unfold get in Hk. apply elem_of_set_list in Hk. by eapply di_index.
    - apply dmem_elem in Hk. unfold dmem in Hk. destruct (dget per_key key); eauto. done. }
  unfold stored. rewrite Hl. simpl. split; [done|]. by eapply di_lists.
Qed.

Lemma get_values_ts_unfold s name per_key idx kd start end_ :
  per_dataset_per_key s !! name = Some per_key →
  key_index_per_dataset s !! name = Some idx →
  get_values_ts py_str s name kd start end_ =
  (parts ← mapR (λ key, l ← dgetitem per_key key; range_of_key start end_ l)
                (selected_keys per_key idx kd);
   Ok (stable_sort fst Qcle (concat parts))).
Proof. intros Hp Hi. unfold get_values_ts. rewrite Hp, Hi. by destruct kd. Qed.

(** Without bounds every selected list is read in full. *)
Lemma get_values_unbounded s name per_key idx kd :
  per_dataset_per_key s !! name = Some per_key →
  key_index_per_dataset s !! name = Some idx →
  dataset_inv per_key idx →
  get_values_ts py_str s name kd None None =
  Ok (stable_sort fst Qcle (concat (map (stored per_key) (selected_keys per_key idx kd)))).
Proof.
  intros Hp Hi Hinv. rewrite (get_values_ts_unfold s name per_key idx) by done.
  rewrite (mapR_ok _ (stored per_key)); [done|]. intros k Hk.
  destruct (selected_keys_stored per_key idx kd k Hinv Hk) as [Hl Hsl].
  unfold dgetitem. rewrite Hl. simpl. by apply range_all.
Qed.

Lemma contents_stored per_key :
  dict_wf per_key → concat (map (stored per_key) (dkeys per_key)) = map snd (contents per_key).
Proof.
  intros Hwf. unfold contents. rewrite concat_map, map_map. f_equal.
  unfold dkeys. rewrite map_map. apply map_ext_in. intros [k l] Hin%list_elem_of_In.
  simpl. rewrite map_map, map_id. unfold stored. by erewrite dget_elem_wf.
Qed.

(** The backwards loop of [get_latest] collects the entries at the last timestamp. *)
Lemma take_equal_ts_spec ts (l : list (dec * V)) :
  ts_sorted l → (∀ e, e ∈ l → (e.1 <= ts)%Qc) →
  take_equal_ts ts (reverse l) = reverse ((filter (λ e, e.1 = ts) l).*2).
Proof.
  induction l as [|x l IH] using rev_ind; intros Hs Hle; [done|].
  rewrite reverse_snoc, filter_app, fmap_app. simpl.
  unfold ts_sorted, key_sorted in Hs. apply StronglySorted_app in Hs as (H12 & Hl & _).
  case_decide as Hx.
  - rewrite filter_cons_True by done. simpl. rewrite reverse_snoc, IH; [done|done|].
    intros e He. apply Hle. set_solver.
  - rewrite filter_cons_False by done. rewrite filter_nil. simpl. rewrite app_nil_r.
    rewrite filter_none; [done|]. apply Forall_forall. intros e He Heq. apply Hx.
    apply Qcle_antisym; [apply Hle; set_solver|]. rewrite <- Heq. apply H12; set_solver.
Qed.
End contents.

(** ** Properties *)

Section storage_properties.
Context {V : Type} `{PyCompare V} {KV : Type} (py_str : KV → string) `{SetOrderOk}.
Implicit Types (s : CacheActor V) (q : dict string KV).

(** The store keeps its invariant under every batch of records, also when a
    batch is abandoned in the middle by an exception of a value comparison: each
    list is non-empty and sorted by timestamp, keys are distinct, and the index
    only names stored keys. *)
Theorem put_records_preserves_inv name recs s :
  actor_inv s → actor_inv (put_records py_str name recs s).2.
Proof. exact (put_records_inv py_str name recs s). Qed.

(** C39. A range query on a dataset of a well-formed store returns exactly the
    records of the selected keys with [start <= ts <= end], sorted by timestamp,
    when every selected key has a record not before [start] and one not after
    [end]; it raises [IndexError] as soon as some selected key does not. *)
Theorem get_values_range name s per_key idx kd start end_ :
  actor_inv s →
  per_dataset_per_key s !! name = Some per_key →
  key_index_per_dataset s !! name = Some idx →
  let keys := selected_keys py_str per_key idx kd in
  if bool_decide (Forall (λ k, range_ok start end_ (stored per_key k)) keys) then
    ∃ r, get_values_ts py_str s name kd start end_ = Ok r ∧ ts_sorted r ∧
         r ≡ₚ filter (in_range start end_) (concat (map (stored per_key) keys))
  else get_values_ts py_str s name kd start end_ = Raise IndexError.
Proof.
  intros Hs Hp Hi keys. pose proof (Hs name) as Hinv. rewrite Hp, Hi in Hinv.
  rewrite (get_values_ts_unfold py_str s name per_key idx) by done. fold keys.
  assert (∀ k, k ∈ keys → (l ← dgetitem per_key k; range_of_key start end_ l) =
    range_of_key start end_ (stored per_key k) ∧ ts_sorted (stored per_key k)) as Hk.
  { intros k Hk. destruct (selected_keys_stored py_str per_key idx kd k Hinv Hk) as [Hl Hsl].
    unfold dgetitem. by rewrite Hl. }
  case_bool_decide as Hall.
  - rewrite (mapR_ok _ (λ k, filter (in_range start end_) (stored per_key k))).
    + eexists. split; [reflexivity|]. split; [apply (stable_sort_sorted fst Qcle)|].
      rewrite (stable_sort_perm fst Qcle). clear Hk Hall. induction keys as [|k keys IH]; simpl; [done|].
      by rewrite filter_app, IH.
    + intros k Hin. destruct (Hk k Hin) as [-> ?]. apply range_of_key_ok; [done|].
      rewrite Forall_forall in Hall. by apply Hall.
  - rewrite (mapR_raise _ IndexError); [done|..].
    + intros k Hin. destruct (Hk k Hin) as [-> ?].
      destruct (decide (range_ok start end_ (stored per_key k))).
      * right. by rewrite range_of_key_ok.
      * left. by rewrite range_of_key_err.
    + apply not_Forall_Exists in Hall; [|apply _].
      apply Exists_exists in Hall as (k & Hin & Hn). exists k. split; [done|].
      destruct (Hk k Hin) as [-> ?]. by apply range_of_key_err.
Qed.

(** C31. Insert, then look up: storing records that differ pairwise in main key or
    timestamp succeeds; reading the dataset back without bounds returns exactly
    the stored pairs, sorted by timestamp, and each record is also returned by a
    lookup with any non-empty proper part of its key. *)
Theorem put_get_roundtrip name (recs : list (dict string KV * dec * V)) :
  NoDup (map (λ r, (compose_main_key py_str r.1.1, r.1.2)) recs) →
  ∃ s r, put_records py_str name recs new_cache_actor = (Ok (), s) ∧
    get_values_ts py_str s name None None None = Ok r ∧ ts_sorted r ∧
    r ≡ₚ map (λ rec, (rec.1.2, rec.2)) recs ∧
    (∀ rec q, rec ∈ recs → q ⊆+ rec.1.1 → q ≠ [] → length q < length rec.1.1 →
      ∃ rq, get_values_ts py_str s name (Some q) None None = Ok rq ∧
            (rec.1.2, rec.2) ∈ rq).
Proof.
  intros Hnd. unfold put_records, mbind, M_bind.
  assert (actor_inv (V:=V) new_cache_actor) as H0' by (intros n; simpl; by rewrite !lookup_empty).
  simpl ensure_dataset. unfold ensure_dataset. simpl. rewrite lookup_empty.
  destruct (put_records_loop_fresh py_str name recs
    (set_key_index name new_key_index (set_per_key name [] new_cache_actor)) [] new_key_index)
    as (s' & pk & -> & Hp & Hi & Hinv & Hc).
  { apply lookup_insert_eq. }
  { apply lookup_insert_eq. }
  { split; [apply dict_wf_nil|done|]. intros k m. simpl. rewrite lookup_empty. set_solver. }
  { unfold contents. simpl. by rewrite app_nil_r, map_map. }
  unfold contents in Hc at 2. simpl in Hc. rewrite app_nil_r in Hc.
  set (idx := put_all py_str new_key_index (map (λ r, r.1.1) recs)) in *.
  pose proof (λ kd, get_values_unbounded py_str s' name pk idx kd Hp Hi Hinv) as Hget.
  exists s'. eexists. split_and!; [done|apply Hget|apply (stable_sort_sorted fst Qcle)| |].
  - rewrite (stable_sort_perm fst Qcle). simpl selected_keys.
    rewrite contents_stored by (by destruct Hinv). rewrite Hc, map_map. done.
  - intros [[kd ts] v] q Hrec Hq Hne Hlen. eexists. split; [apply Hget|].
    rewrite (stable_sort_perm fst Qcle). apply elem_of_concat.
    exists (stored pk (compose_main_key py_str kd)). simpl in *. split.
    + assert ((compose_main_key py_str kd, (ts, v)) ∈ contents pk) as Hin.
      { rewrite Hc. apply list_elem_of_fmap. by exists (kd, ts, v). }
      apply elem_of_contents in Hin as (l & Hl & Hin); [|by destruct Hinv].
      unfold stored. by rewrite Hl.
    + apply list_elem_of_fmap. eexists. split; [done|]. unfold get.
      apply elem_of_set_list. unfold idx. apply (proj2 (put_all_lookup py_str _ _ _ _)).
      right. exists kd. split_and!; [|by apply possible_key_part|done].
      apply list_elem_of_fmap. by exists (kd, ts, v).
Qed.

(** [get_latest] returns [None] on an empty selection and otherwise the values
    at the greatest selected timestamp, most recently inserted first. *)
Theorem get_latest_spec name s kd :
  actor_inv s → has_dataset name s →
  ∃ r, get_values_ts py_str s name kd None None = Ok r ∧
    ((r = [] ∧ get_latest py_str s name kd = Ok None) ∨
     (∃ ts, (∀ e, e ∈ r → (e.1 <= ts)%Qc) ∧ (∃ e, e ∈ r ∧ e.1 = ts) ∧
       get_latest py_str s name kd =
       Ok (Some (reverse ((filter (λ e, e.1 = ts) r).*2))))).
Proof.
  intros Hs Hd. destruct (actor_inv_lookup _ _ Hs Hd) as (pk & idx & Hp & Hi & Hinv).
  unfold get_latest. rewrite (get_values_unbounded py_str s name pk idx kd) by done.
  set (r := stable_sort _ _ _). exists r. split; [done|]. simpl.
  assert (ts_sorted r) as Hr by apply (stable_sort_sorted fst Qcle). clearbody r.
  destruct r as [|x r _] using rev_ind; [left; done|right]. exists x.1.
  assert (∀ e, e ∈ r ++ [x] → (e.1 <= x.1)%Qc) as Hle.
  { intros e [He| ->%list_elem_of_singleton]%elem_of_app; [|apply Qcle_refl].
    apply StronglySorted_app in Hr as (H12 & _). apply H12; set_solver. }
  split_and!; [done|exists x; set_solver|].
  pose proof (take_equal_ts_spec x.1 (r ++ [x]) Hr Hle) as Ht.
  rewrite <- Ht, reverse_snoc. reflexivity.
Qed.

(** Two records with the same key and timestamp whose values differ and cannot
    be ordered (as is the case for dictionaries) make [put_records] raise
    [TypeError]: the sorted insertion falls back on comparing the values. *)
Theorem put_same_timestamp_raises name (kd : dict string KV) ts (v1 v2 : V) :
  py_eq v2 v1 = false → py_lt v2 v1 = Raise TypeError →
  (put_records py_str name [(kd, ts, v1); (kd, ts, v2)] new_cache_actor).1 = Raise TypeError.
Proof.
  intros Heq Hlt. unfold put_records, mbind, M_bind, ensure_dataset. simpl.
  rewrite lookup_empty. simpl. unfold mbind, M_bind.
  rewrite (put_record_run py_str name kd ts v1 _ [] new_key_index);
    [|apply lookup_insert_eq|apply lookup_insert_eq]. simpl.
  erewrite (put_record_run py_str name kd ts v2); [|apply lookup_insert_eq|apply lookup_insert_eq].
  simpl. rewrite decide_True by done. simpl. unfold insort_right, bisect_right, tuple_lt. simpl.
  by rewrite decide_True, Heq, Hlt by done.
Qed.

(** The facade's range lookup never returns: it names a method the cache
    actor does not have, so it raises for every argument ([AttributeError] for at
    most one key). *)
Theorem get_data_never_returns s name keys start_ts end_ts :
  get_data py_str s name keys start_ts end_ts =
  match single_keys_dict keys with
  | Ok _ => Raise AttributeError
  | Raise e => Raise e
  end.
Proof. unfold get_data. by destruct (single_keys_dict keys). Qed.
End storage_properties.

(** ** Stored events

    The values the sinks store are event dictionaries: [==] compares them as
    mappings, [<] is not supported. *)

Definition dict_eqb {K V} `{EqDecision K, EqDecision V} (d1 d2 : dict K V) : bool :=
  bool_decide (length d1 = length d2) &&
  forallb (λ kv, bool_decide (dget d2 kv.1 = Some kv.2)) d1.

#[export] Instance event_compare {K V} `{EqDecision K, EqDecision V} : PyCompare (dict K V) :=
  {| py_eq := dict_eqb; py_lt := λ _ _, Raise TypeError |}.

(** *** Witnesses *)

Definition demo_event (id product price : string) : dict string string :=
  [("user_id", id); ("product_id", product); ("price", price)].
Definition demo_keys (id product : string) : dict string string :=
  [("user_id", id); ("product_id", product)].
Definition demo_records : list (dict string string * dec * dict string string) :=
  [(demo_keys "u0" "p0", dec_of_Z 5, demo_event "u0" "p0" "100");
   (demo_keys "u1" "p1", dec_of_Z 3, demo_event "u1" "p1" "70");
   (demo_keys "u0" "p0", dec_of_Z 2, demo_event "u0" "p0" "90")].

Lemma put_get_roundtrip_witness :
  ∃ s, put_records id "ds" demo_records new_cache_actor = (Ok (), s).
Proof.
  destruct (put_get_roundtrip id "ds" demo_records) as (s & r & Hs & _); [|exact (ex_intro _ s Hs)].
  apply (bool_decide_unpack _). vm_compute. exact I.
Defined.

Lemma actor_inv_new {V} : actor_inv (V:=V) new_cache_actor.
Proof. intros n. simpl. by rewrite !lookup_empty. Qed.

Lemma put_records_preserves_inv_witness :
  actor_inv (put_records id "ds" demo_records new_cache_actor).2.
Proof. apply (put_records_preserves_inv id "ds" demo_records new_cache_actor), actor_inv_new. Defined.

Definition demo_state : CacheActor (dict string string) :=
  (put_records id "ds" demo_records new_cache_actor).2.

Definition demo_per_key : dict string (list (dec * dict string string)) :=
  default [] (per_dataset_per_key demo_state !! "ds").
Definition demo_index : KeyIndex :=
  default new_key_index (key_index_per_dataset demo_state !! "ds").

Lemma get_values_range_witness :
  ∃ r, get_values_ts id demo_state "ds" (Some [("user_id", "u0")])
         (Some (dec_of_Z 3)) (Some (dec_of_Z 9)) = Ok r ∧ ts_sorted r.
Proof.
  pose proof (put_records_inv id "ds" demo_records _ actor_inv_new) as Hs. fold demo_state in Hs.
  pose proof (get_values_range id "ds" demo_state demo_per_key demo_index
    (Some [("user_id", "u0")]) (Some (dec_of_Z 3)) (Some (dec_of_Z 9)) Hs
    ltac:(vm_compute; reflexivity) ltac:(vm_compute; reflexivity)) as Hr.
  cbv zeta in Hr. rewrite bool_decide_eq_true_2 in Hr.
  - destruct Hr as (r & Hr & Hsr & _). exists r. exact (conj Hr Hsr).
  - replace (selected_keys _ _ _ _) with ["product_id=p0-user_id=u0"]
      by (vm_compute; reflexivity).
    constructor; [|constructor].
    replace (stored _ _) with [(dec_of_Z 2, demo_event "u0" "p0" "90");
      (dec_of_Z 5, demo_event "u0" "p0" "100")] by (vm_compute; reflexivity).
    split; [apply Exists_cons_tl, Exists_cons_hd|apply Exists_cons_hd]; discriminate.
Defined.

Lemma get_latest_spec_witness :
  ∃ r, get_values_ts id demo_state "ds" None None None = Ok r.
Proof.
  destruct (get_latest_spec id "ds" demo_state None) as (r & Hr & _); [..|exact (ex_intro _ r Hr)].
  - exact (put_records_inv id "ds" demo_records _ actor_inv_new).
  - apply (bool_decide_unpack _). vm_compute. exact I.
Defined.

Lemma put_same_timestamp_raises_witness :
  (put_records id "ds" [(demo_keys "u0" "p0", dec_of_Z 5, demo_event "u0" "p0" "100");
    (demo_keys "u0" "p0", dec_of_Z 5, demo_event "u0" "p0" "101")] new_cache_actor).1
  = Raise TypeError.
Proof.
  apply (put_same_timestamp_raises id "ds" (demo_keys "u0" "p0") (dec_of_Z 5)
    (demo_event "u0" "p0" "100") (demo_event "u0" "p0" "101")); reflexivity.
Defined.
