(* ===== verification/Message.v ===== *)
(** * Records and channel messages ([volga/streaming/api/message/message.py])

    [Record] and [KeyRecord] are one Rocq record whose [r_key] is [Some] exactly
    for a [KeyRecord].  A channel message is the dictionary the record is sent
    as; its values are tagged with the Python type they have.

    An event time is annotated [Optional[Decimal]], and the client stamps every record with a
    [Decimal]; nothing checks the annotation, and a job of the streaming API may stamp its records
    with integers.  The two are kept apart ([stamp]): they compare and subtract alike, but
    [msgpack], which every record crosses a channel through, encodes the integer and refuses the
    [Decimal] with a [TypeError]. *)

From S2P Require Import Prelude PyDict PyDecimal.

(** An event time: the [Decimal] of the annotation, or an [int]. *)
Inductive stamp := TDecimal (d : dec) | TInt (z : Z).
#[global] Instance stamp_eq_dec : EqDecision stamp.
Proof. solve_decision. Defined.

(** The number it stands for; Python's [==], [<] and [hash] see only this number. *)
Definition stamp_value (s : stamp) : dec := match s with TDecimal d => d | TInt z => dec_of_Z z end.

(** The times a channel can carry: [msgpack] has no encoding for a [Decimal]. *)
Definition packable (t : option stamp) : bool := match t with Some (TDecimal _) => false | _ => true end.

Section message.
Context {K V : Type}.

Record rec := mkRec {
  r_key : option K;
  r_value : V;
  stream_name : option string;
  event_time : option stamp;
  source_emit_ts : option Z;
}.

(** [Record(value, event_time, source_emit_ts)] *)
Definition new_Record (value : V) (event_time : option stamp) (source_emit_ts : option Z) : rec :=
  mkRec None value None event_time source_emit_ts.

(** [KeyRecord(key, value, event_time, source_emit_ts)] *)
Definition new_KeyRecord (key : K) (value : V) (event_time : option stamp)
    (source_emit_ts : option Z) : rec :=
  mkRec (Some key) value None event_time source_emit_ts.

Definition set_stream_name (name : option string) (r : rec) : rec :=
  mkRec (r_key r) (r_value r) name (event_time r) (source_emit_ts r).

Definition set_event_time (ts : option stamp) (r : rec) : rec :=
  mkRec (r_key r) (r_value r) (stream_name r) ts (source_emit_ts r).

(** [record.key]: only a [KeyRecord] has the attribute. *)
Definition key_attr (r : rec) : res K := from_option_exn AttributeError (r_key r).

Inductive field :=
| FKey (k : K)
| FValue (v : V)
| FStr (s : option string)
| FTime (t : option stamp)
| FInt (z : option Z).

Abbreviation ChannelMessage := (dict string field).

Definition to_channel_message (r : rec) : ChannelMessage :=
  match r_key r with
  | Some k => [("key", FKey k)]
  | None => []
  end ++
  [("value", FValue (r_value r)); ("stream_name", FStr (stream_name r));
   ("event_time", FTime (event_time r)); ("source_emit_ts", FInt (source_emit_ts r))].

(** A channel message [msgpack] does not refuse for its event time. *)
Definition message_packs (m : ChannelMessage) : bool := match dget m "event_time" with Some (FTime t) => packable t | _ => true end.

Definition as_key (f : field) : res K := match f with FKey k => Ok k | _ => Raise TypeError end.
Definition as_value (f : field) : res V := match f with FValue v => Ok v | _ => Raise TypeError end.
Definition as_str (f : field) : res (option string) :=
  match f with FStr s => Ok s | _ => Raise TypeError end.
Definition as_time (f : field) : res (option stamp) :=
  match f with FTime t => Ok t | _ => Raise TypeError end.
Definition as_int (f : field) : res (option Z) :=
  match f with FInt z => Ok z | _ => Raise TypeError end.

Definition record_from_channel_message (channel_message : ChannelMessage) : res rec :=
  record ←
    (if dmem "key" channel_message then
       key ← dgetitem channel_message "key" ≫= as_key;
       value ← dgetitem channel_message "value" ≫= as_value;
       et ← dgetitem channel_message "event_time" ≫= as_time;
       emit ← dgetitem channel_message "source_emit_ts" ≫= as_int;
       Ok (new_KeyRecord key value et emit)
     else
       value ← dgetitem channel_message "value" ≫= as_value;
       et ← dgetitem channel_message "event_time" ≫= as_time;
       emit ← dgetitem channel_message "source_emit_ts" ≫= as_int;
       Ok (new_Record value et emit));
  name ← dgetitem channel_message "stream_name" ≫= as_str;
  Ok (set_stream_name name record).

(** Decoding a sent record gives it back. *)
Lemma record_roundtrip (r : rec) :
  record_from_channel_message (to_channel_message r) = Ok r.
Proof. destruct r as [[k|] v s e z]; reflexivity. Qed.

(** The writer names the stream before it sends; the reader sees that name. *)
Lemma record_roundtrip_named (r : rec) name :
  record_from_channel_message (to_channel_message (set_stream_name name r))
  = Ok (set_stream_name name r).
Proof. apply record_roundtrip. Qed.

(** *** Comparing records *)

Context `{!EqDecision K, !EqDecision V}.

(** What [==] and [hash] see of the event time. *)
Definition time_value (r : rec) : option dec := stamp_value <$> event_time r.

(** [__eq__]: records of different classes are not equal; both classes compare every attribute. *)
Definition record_eq (r other : rec) : bool :=
  match r_key r, r_key other with
  | None, None => bool_decide ((stream_name r, r_value r, time_value r, source_emit_ts r) = (stream_name other, r_value other, time_value other, source_emit_ts other))
  | Some k, Some k' =>
      bool_decide ((stream_name r, k, r_value r, time_value r, source_emit_ts r) =
                   (stream_name other, k', r_value other, time_value other, source_emit_ts other))
  | _, _ => false
  end.
(** [__hash__], with what [hash] does to a tuple; a field that cannot be hashed raises. *)
Definition record_hash (hash4 : option string * V * option dec * option Z → res Z) (hash5 : option string * K * V * option dec * option Z → res Z) (r : rec) : res Z :=
  match r_key r with
  | None => hash4 (stream_name r, r_value r, time_value r, source_emit_ts r)
  | Some k => hash5 (stream_name r, k, r_value r, time_value r, source_emit_ts r)
  end.

(** [__eq__] is equality of records up to the kind of number their times are, so it is an
    equivalence that [__hash__] respects; what the reader decodes is equal to what was sent, and
    naming the stream changes a record exactly when it had another name: a record and the copy a
    writer has named are not the same key of a set. *)
Theorem record_equality (r other : rec) hash4 hash5 name :
  (record_eq r other = true ↔ time_value r = time_value other ∧ set_event_time None r = set_event_time None other) ∧
  (record_eq r other = true → record_hash hash4 hash5 r = record_hash hash4 hash5 other) ∧
  (record_from_channel_message (to_channel_message r) = Ok other → record_eq r other = true) ∧
  (record_eq (set_stream_name name r) r = true ↔ stream_name r = name).
Proof.
  assert (∀ r other, record_eq r other = true ↔ time_value r = time_value other ∧ set_event_time None r = set_event_time None other) as H.
  { clear r other. intros [[k|] v s e z] [[k'|] v' s' e' z']; unfold record_eq, set_event_time; cbn [r_key]; rewrite ?bool_decide_eq_true;
      cbn; split; intuition congruence. }
  split_and!; [apply H| | |].
  - intros [Ht Hr]%H. unfold record_hash. rewrite Ht. destruct r, other; cbn in *. by simplify_eq.
  - rewrite record_roundtrip, H. by intros [= ->].
  - rewrite H. destruct r as [k v s e z]. unfold set_event_time. cbn. split; [by intros [_ [= ->]]|by intros ->].
Qed.
End message.

Arguments rec : clear implicits.
Arguments field : clear implicits.
