(* ===== verification/Partition.v ===== *)
(** * Partitioning and the output collector
    ([volga/streaming/api/partition/partition.py],
     [volga/streaming/runtime/core/collector/output_collector.py])

    A partition object keeps state (the cached index list, the round-robin
    counter).  [hash] is Python's built-in on the key type, any function here.
    The collector sends a record to every index its partition returned and
    retries round-robin while the writer reports back-pressure. *)

From S2P Require Import Prelude PyDict PyDecimal Message.

Section partition.
Context {K V : Type} (hash : K → Z).

Inductive Partition :=
| BroadcastPartition (partitions : list Z)
| KeyPartition (partitions : list Z)
| RoundRobinPartition (partitions : list Z) (seq : Z)
| ForwardPartition (partitions : list Z)
| SimplePartition (func : rec K V → Z → list Z).

Definition new_Broadcast := BroadcastPartition [].
Definition new_Key := KeyPartition [(-1)%Z].
Definition new_RoundRobin := RoundRobinPartition [(-1)%Z] 0.
Definition new_Forward := ForwardPartition [0%Z].

(** [list(range(n))] *)
Definition range (n : Z) : list Z := map Z.of_nat (seq 0 (Z.to_nat n)).

(** [a % b] on ints. *)
Definition py_mod (a b : Z) : res Z :=
  if decide (b = 0%Z) then Raise ZeroDivisionError else Ok (a mod b)%Z.

(** [self.partition(record, num_partition)] with the updated object. *)
Definition partition (p : Partition) (record : rec K V) (num_partition : Z)
    : res (list Z * Partition) :=
  match p with
  | BroadcastPartition ps =>
      let ps := if decide (Z.of_nat (length ps) ≠ num_partition) then range num_partition
                else ps in
      Ok (ps, BroadcastPartition ps)
  | KeyPartition ps =>
      key ← key_attr record;
      let _hash := Z.abs (hash key) in
      i ← py_mod _hash num_partition;
      let ps := <[0 := i]> ps in
      Ok (ps, KeyPartition ps)
  | RoundRobinPartition ps sq =>
      sq ← py_mod (sq + 1) num_partition;
      let ps := <[0 := sq]> ps in
      Ok (ps, RoundRobinPartition ps sq)
  | ForwardPartition ps => Ok (ps, p)
  | SimplePartition func => Ok (func record num_partition, p)
  end.

(** The objects the constructors and [partition] itself produce; the function of a simple partition
    is the user's, and is well behaved if it keeps to the channels and names at least one. *)
Definition partition_wf (p : Partition) : Prop :=
  match p with
  | BroadcastPartition ps => ps = range (Z.of_nat (length ps))
  | KeyPartition ps => length ps = 1
  | RoundRobinPartition ps sq => length ps = 1 ∧ (0 ≤ sq)%Z
  | ForwardPartition ps => ps = [0%Z]
  | SimplePartition func => ∀ r n, (0 < n)%Z → func r n ≠ [] ∧ Forall (λ i, (0 ≤ i < n)%Z) (func r n)
  end.

(** ** Output collector *)

Context {W : Type} (try_write_record : string → rec K V → W → bool * W).

Record collector := mkCollector {
  output_channel_ids : list string;
  c_partition : Partition;
}.

(** The retry loop.  [log] lists the channels the writer accepted the record on. *)
Fixpoint collect_loop (fuel : nat) (ids : list string) (record : rec K V)
    (partitions_to_send : list Z) (cur_partition_index : nat) (log : list string) (w : W)
    : res (list Z * list string * W) :=
  match fuel with
  | O => Ok (partitions_to_send, log, w)
  | S fuel' =>
      if decide (partitions_to_send = []) then Ok (partitions_to_send, log, w) else
      partition ← from_option_exn IndexError (partitions_to_send !! cur_partition_index);
      id ← py_index ids partition;
      let '(succ, w) := try_write_record id record w in
      if succ then
        let partitions_to_send := delete cur_partition_index partitions_to_send in
        if decide (partitions_to_send = []) then Ok (partitions_to_send, log ++ [id], w)
        else collect_loop fuel' ids record partitions_to_send
               ((cur_partition_index + 1) mod length partitions_to_send) (log ++ [id]) w
      else
        collect_loop fuel' ids record partitions_to_send
          ((cur_partition_index + 1) mod length partitions_to_send) log w
  end.

(** [collect(record)] for at most [fuel] write attempts: what is still to be sent,
    the accepting channels in order, the writer and the collector. *)
Definition collect (fuel : nat) (c : collector) (record : rec K V) (w : W)
    : res (list Z * list string * W * collector) :=
  pp ← partition (c_partition c) record (Z.of_nat (length (output_channel_ids c)));
  r ← collect_loop fuel (output_channel_ids c) record pp.1 0 [] w;
  Ok (r, mkCollector (output_channel_ids c) pp.2).
End partition.

Arguments Partition : clear implicits.
Arguments collector : clear implicits.

(** ** Lemmas *)

Lemma length_range n : length (range n) = Z.to_nat n.
Proof. unfold range. by rewrite length_map, length_seq. Qed.

Lemma elem_of_range n i : i ∈ range n ↔ (0 ≤ i < n)%Z.
Proof.
  unfold range. rewrite list_elem_of_fmap. split.
  - intros (k & -> & Hk%elem_of_seq). lia.
  - intros Hi. exists (Z.to_nat i). rewrite elem_of_seq. lia.
Qed.

Lemma concat_map_singleton {A B} (f : A → B) (l : list A) :
  concat (map (λ x, [f x]) l) = map f l.
Proof. induction l as [|x l IH]; simpl; congruence. Qed.

(** Shifting [0 .. n-1] by one modulo [n] is a permutation of it. *)
Lemma rotate_range n : 0 < n →
  map (λ i, ((0 + 1 + Z.of_nat i) mod Z.of_nat n)%Z) (seq 0 n) ≡ₚ range (Z.of_nat n).
Proof.
  intros Hn. destruct n as [|n]; [lia|]. unfold range. rewrite Nat2Z.id.
  rewrite seq_S at 1. rewrite map_app. cbn [seq map Z.add Nat.add].
  replace ((0 + 1 + Z.of_nat n) mod Z.of_nat (S n))%Z with (Z.of_nat 0); last first.
  { replace (0 + 1 + Z.of_nat n)%Z with (Z.of_nat (S n)) by lia. by rewrite Z.mod_same by lia. }
  rewrite <- Permutation_cons_append. apply perm_skip.
  rewrite <- seq_shift, map_map. erewrite map_ext_in; [reflexivity|]. intros i Hi%in_seq.
  rewrite Z.mod_small by lia. lia.
Qed.

Section partition_lemmas.
Context {K V : Type} (hash : K → Z).
Implicit Types (p : Partition K V) (r : rec K V).

Lemma partition_ok_wf p r n ps p' :
  partition_wf p → (0 < n)%Z → partition hash p r n = Ok (ps, p') →
  partition_wf p' ∧ ps ≠ [] ∧ Forall (λ i, (0 ≤ i < n)%Z) ps.
Proof.
  intros Hwf Hn. destruct p as [q|q|q sq|q|f]; simpl in *; intros E; inv_res; simplify_eq/=.
  - case_decide as Hl.
    + rewrite length_range. split_and!.
      * f_equal. lia.
      * intros Hnil. apply (f_equal length) in Hnil. rewrite length_range in Hnil. simpl in *. lia.
      * apply Forall_forall. intros i. by rewrite elem_of_range.
    + split_and!; [done| |].
      * intros ->. simpl in Hl. lia.
      * rewrite Hwf. apply Forall_forall. intros i. rewrite elem_of_range. lia.
  - unfold py_mod in *. rewrite decide_False in * by lia. simplify_eq.
    destruct q as [|x [|]]; simplify_eq/=. split_and!; [done|done|].
    constructor; [|done]. apply Z.mod_pos_bound. lia.
  - unfold py_mod in *. rewrite decide_False in * by lia. simplify_eq.
    destruct Hwf as [Hq Hsq]. destruct q as [|x [|]]; simplify_eq/=.
    pose proof (Z.mod_pos_bound (sq + 1) n ltac:(lia)).
    split_and!; [done|lia|done|]. by constructor.
  - split_and!; [done|done|]. constructor; [lia|done].
  - split; [done|]. by apply Hwf.
Qed.

(** Successive calls of a round-robin partition. *)
Fixpoint partition_run p (rs : list (rec K V)) (n : Z) : res (list (list Z) * Partition K V) :=
  match rs with
  | [] => Ok ([], p)
  | r :: rs' =>
      pp ← partition hash p r n;
      q ← partition_run pp.2 rs' n;
      Ok (pp.1 :: q.1, q.2)
  end.

Lemma round_robin_run rs ps sq n :
  length ps = 1 → (0 < n)%Z →
  ∃ p', partition_run (RoundRobinPartition ps sq) rs n =
    Ok (map (λ i, [((sq + 1 + Z.of_nat i) mod n)%Z]) (seq 0 (length rs)), p').
Proof.
  intros Hps Hn. revert ps sq Hps. induction rs as [|r rs IH]; intros ps sq Hps; simpl; [eauto|].
  unfold py_mod. rewrite decide_False by lia. simpl.
  destruct ps as [|x [|]]; simplify_eq/=.
  destruct (IH [((sq + 1) mod n)%Z] ((sq + 1) mod n)%Z) as [p' E]; [done|].
  rewrite E. simpl. exists p'. rewrite Z.add_0_r. do 3 f_equal.
  rewrite <- seq_shift, map_map. apply map_ext. intros i. f_equal.
  rewrite <- Z.add_assoc, Zplus_mod_idemp_l. f_equal. lia.
Qed.
End partition_lemmas.

Section collect_lemmas.
Context {K V W : Type} (hash : K → Z) (try_write : string → rec K V → W → bool * W).
Implicit Types (r : rec K V).

Definition chan (ids : list string) (i : Z) : string := nth (Z.to_nat i) ids "".

Lemma py_index_in_range ids i :
  (0 ≤ i < Z.of_nat (length ids))%Z → py_index ids i = Ok (chan ids i).
Proof.
  intros Hi. unfold py_index, chan. rewrite bool_decide_eq_true_2 by lia.
  destruct (lookup_lt_is_Some_2 ids (Z.to_nat i)) as [x Hx]; [lia|].
  rewrite Hx. simpl. by rewrite (nth_lookup_Some _ _ "" x).
Qed.

Lemma delete_perm {A} (l : list A) i x :
  l !! i = Some x → x :: delete i l ≡ₚ l.
Proof. intros H. by rewrite <- (delete_Permutation l i x H). Qed.

(** Whatever the writer answers and however long the loop runs: no exception, and
    each channel is either logged once or still to be served. *)
Lemma collect_loop_safe fuel ids r ps cur log w :
  Forall (λ i, (0 ≤ i < Z.of_nat (length ids))%Z) ps →
  (ps = [] ∨ cur < length ps) →
  ∃ ps' log' w', collect_loop try_write fuel ids r ps cur log w = Ok (ps', log', w') ∧
    log' ++ map (chan ids) ps' ≡ₚ log ++ map (chan ids) ps.
Proof.
  revert ps cur log w. induction fuel as [|fuel IH]; intros ps cur log w Hps Hcur; simpl; [eauto|].
  case_decide as Hnil; [by eauto|]. destruct Hcur as [?|Hcur]; [done|].
  destruct (lookup_lt_is_Some_2 ps cur Hcur) as [i Hi]. rewrite Hi. simpl.
  rewrite py_index_in_range; [|rewrite Forall_forall in Hps; apply Hps;
    by eapply list_elem_of_lookup_2]. simpl.
  destruct (try_write (chan ids i) r w) as [succ w'].
  pose proof (delete_perm ps cur i Hi) as Hdel.
  pose proof (Permutation_map (chan ids) Hdel) as Hmap. simpl in Hmap. destruct succ.
  - assert (Forall (λ i, (0 ≤ i < Z.of_nat (length ids))%Z) (delete cur ps)) as Hd.
    { rewrite <- Hdel in Hps. by apply Forall_cons in Hps as [_ ?]. }
    case_decide as Hd0.
    + eexists _, _, _. split; [done|]. rewrite <- Hmap, Hd0. by rewrite app_nil_r.
    + destruct (IH (delete cur ps) ((cur + 1) mod length (delete cur ps)) (log ++ [chan ids i]) w')
        as (ps' & log' & w'' & E & Hp); [done| |].
      { right. apply Nat.mod_upper_bound. by destruct (delete cur ps). }
      eexists _, _, _. split; [exact E|]. rewrite Hp, <- Hmap.
      by rewrite <- (assoc_L (++)).
  - apply IH; [done|]. right. apply Nat.mod_upper_bound. by destruct ps.
Qed.
End collect_lemmas.

(** A writer whose answers are given in advance. *)
Definition oracle_write {K V} (_ : string) (_ : rec K V) (o : list bool) : bool * list bool :=
  match o with [] => (false, []) | b :: o' => (b, o') end.

Lemma collect_loop_finishes {K V} (o : list bool) ids (r : rec K V) ps cur log :
  Forall (λ i, (0 ≤ i < Z.of_nat (length ids))%Z) ps →
  (ps = [] ∨ cur < length ps) →
  length ps ≤ length (filter (λ b, b = true) o) →
  ∃ log' o', collect_loop oracle_write (length o) ids r ps cur log o = Ok ([], log', o').
Proof.
  revert ps cur log. induction o as [|b o IH]; intros ps cur log Hps Hcur Hlen; simpl.
  { destruct ps; simpl in Hlen; [eauto|lia]. }
  case_decide as Hnil; [subst; by eauto|]. destruct Hcur as [?|Hcur]; [done|].
  destruct (lookup_lt_is_Some_2 ps cur Hcur) as [i Hi]. rewrite Hi. simpl.
  rewrite py_index_in_range; [|rewrite Forall_forall in Hps; apply Hps;
    by eapply list_elem_of_lookup_2]. simpl.
  pose proof (delete_perm ps cur i Hi) as Hdel. destruct b.
  - case_decide as Hd0; [rewrite Hd0; eauto|]. apply IH.
    + rewrite <- Hdel in Hps. by apply Forall_cons in Hps as [_ ?].
    + right. apply Nat.mod_upper_bound. by destruct (delete cur ps).
    + rewrite filter_cons_True in Hlen by done. simpl in Hlen.
      apply Permutation_length in Hdel. simpl in Hdel. lia.
  - apply IH; [done| |].
    + right. apply Nat.mod_upper_bound. by destruct ps.
    + by rewrite filter_cons_False in Hlen by done.
Qed.

(** ** Properties *)

(** A keyed partition is asked about a record that has no key. *)
Definition keyless {K V} (p : Partition K V) (r : rec K V) : bool :=
  match p, r_key r with KeyPartition _, None => true | _, _ => false end.


(** Keyed partitioning depends on the key only: two records with the same key
    go to the same single channel, whatever was sent before them, also from two
    different upstream tasks. *)
Theorem key_partition_local {K V} (hash : K → Z) (p1 p2 : Partition K V) q1 q2
    (r1 r2 : rec K V) k n :
  p1 = KeyPartition q1 → p2 = KeyPartition q2 → partition_wf p1 → partition_wf p2 →
  r_key r1 = Some k → r_key r2 = Some k → (0 < n)%Z →
  ∃ i p1' p2', partition hash p1 r1 n = Ok ([i], p1') ∧ partition hash p2 r2 n = Ok ([i], p2') ∧
    (0 ≤ i < n)%Z.
Proof.
  intros -> -> H1 H2 K1 K2 Hn. simpl in *. unfold key_attr, py_mod. rewrite K1, K2. simpl.
  rewrite decide_False by lia. simpl.
  destruct q1 as [|? [|]], q2 as [|? [|]]; simplify_eq/=.
  eexists _, _, _. split_and!; [done..|apply Z.mod_pos_bound; lia|apply Z.mod_pos_bound; lia].
Qed.

(** The [i]-th of any sequence of records through a round-robin partition goes
    to channel [(seq + 1 + i) mod n], so [n] successive records reach every
    channel exactly once. *)
Theorem round_robin_fair {K V} (hash : K → Z) (rs : list (rec K V)) n :
  (0 < n)%Z → Z.of_nat (length rs) = n →
  ∃ out p', partition_run hash new_RoundRobin rs n = Ok (out, p') ∧
    out = map (λ i, [((1 + Z.of_nat i) mod n)%Z]) (seq 0 (length rs)) ∧
    concat out ≡ₚ range n.
Proof.
  intros Hn Hlen. destruct (round_robin_run hash rs [(-1)%Z] 0 n) as [p' E]; [done|lia|].
  eexists _, _. split_and!; [exact E|done|].
  rewrite <- Hlen. rewrite concat_map_singleton. apply rotate_range. lia.
Qed.

(** [collect] under back-pressure: whatever the writer answers, no exception is
    raised and every target channel is either served exactly once or still
    pending; and once the writer has accepted as often as there are targets the
    loop has ended with every target channel served exactly once. *)
Theorem collect_exactly_once {K V} (hash : K → Z) (c : collector K V) (r : rec K V)
    (answers : list bool) targets p' :
  partition_wf (c_partition c) → output_channel_ids c ≠ [] →
  partition hash (c_partition c) r (Z.of_nat (length (output_channel_ids c))) = Ok (targets, p') →
  (∀ fuel, ∃ pending log o c', collect hash oracle_write fuel c r answers = Ok (pending, log, o, c') ∧
     log ++ map (chan (output_channel_ids c)) pending
       ≡ₚ map (chan (output_channel_ids c)) targets) ∧
  (length targets ≤ length (filter (λ b, b = true) answers) →
   ∃ log o c', collect hash oracle_write (length answers) c r answers = Ok ([], log, o, c') ∧
     log ≡ₚ map (chan (output_channel_ids c)) targets ∧ partition_wf (c_partition c')).
Proof.
  intros Hwf Hids Hp.
  assert (0 < Z.of_nat (length (output_channel_ids c)))%Z as Hpos.
  { destruct (output_channel_ids c); [done|]. simpl length. lia. }
  destruct (partition_ok_wf hash _ _ _ _ _ Hwf Hpos Hp) as (Hwf' & Hne & Hr).
  assert (targets = [] ∨ 0 < length targets) as Hcur by (destruct targets; simpl; [by left|right; lia]).
  unfold collect. rewrite Hp. simpl. split.
  - intros fuel.
    destruct (collect_loop_safe oracle_write fuel _ r targets 0 [] answers Hr Hcur)
      as (ps' & log' & o & E & Hperm). rewrite E. simpl. eauto 10.
  - intros Hlen.
    destruct (collect_loop_safe oracle_write (length answers) _ r targets 0 [] answers Hr Hcur)
      as (ps' & log' & o & E & Hperm).
    destruct (collect_loop_finishes answers _ r targets 0 [] Hr Hcur Hlen) as (log1 & o1 & E1).
    rewrite E1 in E. simplify_eq. rewrite E1. simpl. eexists _, _, _. split; [done|].
    simpl in Hperm. rewrite app_nil_r in Hperm. done.
Qed.

(** ** Witnesses *)

Definition ex_hash (k : Z) : Z := (k * 7 - 20)%Z.
Definition ex_rec (k v : Z) : rec Z Z := new_KeyRecord k v None None.


Lemma key_partition_local_witness :
  ∃ i p1' p2', partition ex_hash new_Key (ex_rec 3 5) 4 = Ok ([i], p1') ∧
    partition ex_hash (KeyPartition [2%Z]) (ex_rec 3 9) 4 = Ok ([i], p2') ∧ (0 ≤ i < 4)%Z.
Proof.
  apply (key_partition_local ex_hash new_Key (KeyPartition [2%Z]) [(-1)%Z] [2%Z]
           (ex_rec 3 5) (ex_rec 3 9) 3%Z 4); first [reflexivity|lia].
Defined.

Lemma round_robin_fair_witness :
  ∃ out p', partition_run ex_hash new_RoundRobin [ex_rec 1 1; ex_rec 2 2; ex_rec 3 3] 3 = Ok (out, p') ∧
    out = map (λ i, [((1 + Z.of_nat i) mod 3)%Z]) (seq 0 3) ∧ concat out ≡ₚ range 3.
Proof.
  apply (round_robin_fair ex_hash [ex_rec 1 1; ex_rec 2 2; ex_rec 3 3] 3); [lia|reflexivity].
Defined.

Lemma collect_exactly_once_witness :
  ∃ log o c',
    collect ex_hash oracle_write 4 (mkCollector ["a"; "b"; "c"] new_Broadcast) (ex_rec 1 1)
      [false; true; true; true] = Ok ([], log, o, c') ∧
    log ≡ₚ ["a"; "b"; "c"] ∧ partition_wf (c_partition c').
Proof.
  refine (proj2 (collect_exactly_once ex_hash (mkCollector ["a"; "b"; "c"] new_Broadcast)
    (ex_rec 1 1) [false; true; true; true] [0;1;2]%Z (BroadcastPartition [0;1;2]%Z) _ _ _) _);
    [reflexivity|discriminate|reflexivity|simpl; lia].
Defined.
