(* ===== verification/Network.v ===== *)
(** * Data writer and data reader ([volga/streaming/runtime/network/local])

    The writer batches channel messages per channel and hands full or old
    batches to the Rust writer; the reader decodes batches.  [msgpack] and the
    Rust objects are parameters: [dumps] may raise, [write_bytes] answers [None]
    under back-pressure.  The state records as [sent] what the Rust writer
    accepted.  Clock readings come from the streams [perf] and [wall]: seconds as rational
    numbers (the floats of [time.perf_counter] and [time.time]), without any assumption, so the
    wall clock may stand still or go back. *)

From S2P Require Import Prelude PyDict PyDecimal Message Partition.

Section data_writer.
Context {Msg Bytes W : Type}.
Context (dumps : list Msg → res Bytes).
Context (write_bytes : string → Bytes → W → option Z * W).
Context (perf wall : nat → Qc).

Record DataWriter := mkDataWriter {
  source_stream_name : string;
  batch_per_channel : dict string (list Msg);
  lock_per_channel : dict string bool;
  last_write_ts_per_channel : dict string Qc;
  batch_size : nat;
  flush_period_s : Qc;
  running : bool;
  num_msgs_sent : Z;
  last_report_ts : Qc;
  start_ts : option Qc;
  rust : W;
  sent : list (string * Bytes);
  n_perf : nat;
  n_wall : nat;
}.

(** [DataWriter(name, source_stream_name, job_name, channels, config)] *)
Definition new_DataWriter (source_stream_name : string) (channel_ids : list string)
    (batch_size : nat) (flush_period_s : Qc) (rust : W) : DataWriter :=
  mkDataWriter source_stream_name
    (dict_of (map (λ c, (c, [])) channel_ids))
    (dict_of (map (λ c, (c, false)) channel_ids))
    (dict_of (map (λ c, (c, dec_of_Z (-1))) channel_ids))
    batch_size flush_period_s false 0 (wall 0) None rust [] 0 1.

Definition set_batch (ch : string) (b : list Msg) (s : DataWriter) : DataWriter :=
  mkDataWriter (source_stream_name s) (dset (batch_per_channel s) ch b) (lock_per_channel s)
    (last_write_ts_per_channel s) (batch_size s) (flush_period_s s) (running s)
    (num_msgs_sent s) (last_report_ts s) (start_ts s) (rust s) (sent s) (n_perf s) (n_wall s).
Definition set_lock (ch : string) (b : bool) (s : DataWriter) : DataWriter :=
  mkDataWriter (source_stream_name s) (batch_per_channel s) (dset (lock_per_channel s) ch b)
    (last_write_ts_per_channel s) (batch_size s) (flush_period_s s) (running s)
    (num_msgs_sent s) (last_report_ts s) (start_ts s) (rust s) (sent s) (n_perf s) (n_wall s).
Definition set_write_ts (ch : string) (t : Qc) (s : DataWriter) : DataWriter :=
  mkDataWriter (source_stream_name s) (batch_per_channel s) (lock_per_channel s)
    (dset (last_write_ts_per_channel s) ch t) (batch_size s) (flush_period_s s) (running s)
    (num_msgs_sent s) (last_report_ts s) (start_ts s) (rust s) (sent s) (n_perf s) (n_wall s).
Definition set_rust (w : W) (sent' : list (string * Bytes)) (s : DataWriter) : DataWriter :=
  mkDataWriter (source_stream_name s) (batch_per_channel s) (lock_per_channel s)
    (last_write_ts_per_channel s) (batch_size s) (flush_period_s s) (running s)
    (num_msgs_sent s) (last_report_ts s) (start_ts s) w sent' (n_perf s) (n_wall s).
Definition set_report (n : Z) (t : Qc) (s : DataWriter) : DataWriter :=
  mkDataWriter (source_stream_name s) (batch_per_channel s) (lock_per_channel s)
    (last_write_ts_per_channel s) (batch_size s) (flush_period_s s) (running s)
    n t (start_ts s) (rust s) (sent s) (n_perf s) (n_wall s).
Definition set_running (b : bool) (t : option Qc) (s : DataWriter) : DataWriter :=
  mkDataWriter (source_stream_name s) (batch_per_channel s) (lock_per_channel s)
    (last_write_ts_per_channel s) (batch_size s) (flush_period_s s) b
    (num_msgs_sent s) (last_report_ts s) t (rust s) (sent s) (n_perf s) (n_wall s).
Definition set_clocks (n m : nat) (s : DataWriter) : DataWriter :=
  mkDataWriter (source_stream_name s) (batch_per_channel s) (lock_per_channel s)
    (last_write_ts_per_channel s) (batch_size s) (flush_period_s s) (running s)
    (num_msgs_sent s) (last_report_ts s) (start_ts s) (rust s) (sent s) n m.

(** [time.perf_counter()] and [time.time()] *)
Definition perf_counter : M DataWriter Qc :=
  λ s, (Ok (perf (n_perf s)), set_clocks (S (n_perf s)) (n_wall s) s).
Definition time : M DataWriter Qc :=
  λ s, (Ok (wall (n_wall s)), set_clocks (n_perf s) (S (n_wall s)) s).

Definition acquire (ch : string) : M DataWriter () := λ s,
  match dget (lock_per_channel s) ch with
  | None => (Raise KeyError, s)
  | Some true => (Raise Blocked, s)
  | Some false => (Ok (), set_lock ch true s)
  end.
Definition release (ch : string) : M DataWriter () := modS (set_lock ch false).

Definition get_batch (ch : string) : M DataWriter (list Msg) :=
  λ s, (dgetitem (batch_per_channel s) ch, s).

(** [self._rust_data_writer.write_bytes(channel_id, b, False, 0, 0)] *)
Definition rust_write (ch : string) (b : Bytes) : M DataWriter (option Z) := λ s,
  let '(r, w) := write_bytes ch b (rust s) in
  (Ok r, set_rust w (match r with Some _ => sent s ++ [(ch, b)] | None => sent s end) s).

Definition _try_write_message (channel_id : string) (message : Msg) : M DataWriter bool :=
  acquire channel_id ≫= λ _,
  get_batch channel_id ≫= λ batch,
  let batch := batch ++ [message] in
  modS (set_batch channel_id batch) ≫= λ _,
  getS ≫= λ s,
  if decide (length batch = batch_size s) then
    liftR (dumps batch) ≫= λ b,
    rust_write channel_id b ≫= λ res,
    match res with
    | None =>
        modS (set_batch channel_id (removelast batch)) ≫= λ _,
        release channel_id ≫= λ _, mret false
    | Some _ =>
        modS (set_batch channel_id []) ≫= λ _,
        perf_counter ≫= λ t, modS (set_write_ts channel_id t) ≫= λ _,
        release channel_id ≫= λ _, mret true
    end
  else
    perf_counter ≫= λ t, modS (set_write_ts channel_id t) ≫= λ _,
    release channel_id ≫= λ _, mret true.

(** [tx = self._num_msgs_sent/(time.time() - self._start_ts)]: its exceptions. *)
Definition report_tx (now : Qc) (start : option Qc) : res () :=
  t0 ← from_option_exn TypeError start;
  if decide ((now - t0)%Qc = 0%Qc) then Raise ZeroDivisionError else Ok ().

(** What [try_write_message] does after [_try_write_message]: count the accepted message, report. *)
Definition report_sent (res : bool) : M DataWriter bool :=
  if res then
    modS (λ s, set_report (num_msgs_sent s + 1) (last_report_ts s) s) ≫= λ _,
    time ≫= λ t1, getS ≫= λ s,
    if decide (1 < t1 - last_report_ts s)%Qc then
      time ≫= λ t2, liftR (report_tx t2 (start_ts s)) ≫= λ _,
      time ≫= λ t3, modS (λ s, set_report (num_msgs_sent s) t3 s) ≫= λ _,
      mret res
    else mret res
  else mret res.

Definition try_write_message (channel_id : string) (message : Msg) : M DataWriter bool :=
  _try_write_message channel_id message ≫= report_sent.

(** The body of the loop of [try_flush_if_needed], one critical section. *)
Definition flush_channel (channel_id : string) : M DataWriter () :=
  acquire channel_id ≫= λ _,
  perf_counter ≫= λ now, getS ≫= λ s,
  liftR (dgetitem (last_write_ts_per_channel s) channel_id) ≫= λ last,
  if decide (flush_period_s s <= now - last)%Qc then
    get_batch channel_id ≫= λ batch,
    if decide (length batch = 0) then release channel_id
    else
      liftR (dumps batch) ≫= λ b,
      rust_write channel_id b ≫= λ res,
      match res with
      | Some _ =>
          modS (set_batch channel_id []) ≫= λ _,
          perf_counter ≫= λ t, modS (set_write_ts channel_id t)
      | None => mret ()
      end ≫= λ _, release channel_id
  else release channel_id.

Definition try_flush_if_needed : M DataWriter () := λ s,
  for_each (dkeys (lock_per_channel s)) flush_channel s.

(** [start]: the flusher thread runs from here on. *)
Definition start : M DataWriter () :=
  time ≫= λ t, modS (λ s, set_running (running s) (Some t) s) ≫= λ _,
  modS (λ s, set_running true (start_ts s) s).

(** [close], after the flusher thread has been joined. *)
Definition close : M DataWriter () :=
  modS (λ s, set_running false (start_ts s) s) ≫= λ _, try_flush_if_needed.
End data_writer.

Arguments DataWriter : clear implicits.

(** ** Data reader *)

Section data_reader.
Context {Msg Bytes R : Type}.
Context (loads : Bytes → res (list Msg)) (read_bytes : R → option Bytes * R) (wall : nat → Qc).

Record DataReader := mkDataReader {
  rust_reader : R;
  num_msgs_read : Z;
  rd_last_report_ts : Qc;
  rd_start_ts : option Qc;
  rd_n_wall : nat;
}.

Definition new_DataReader (r : R) : DataReader := mkDataReader r 0 (wall 0) None 1.

Definition start_reader (s : DataReader) : DataReader :=
  mkDataReader (rust_reader s) (num_msgs_read s) (rd_last_report_ts s)
    (Some (wall (rd_n_wall s))) (S (rd_n_wall s)).

Definition read_message : M DataReader (option (list Msg)) := λ s,
  match read_bytes (rust_reader s) with
  | (None, r) => (Ok None, mkDataReader r (num_msgs_read s) (rd_last_report_ts s)
                             (rd_start_ts s) (rd_n_wall s))
  | (Some b, r) =>
      let s := mkDataReader r (num_msgs_read s) (rd_last_report_ts s) (rd_start_ts s)
                 (rd_n_wall s) in
      match loads b with
      | Raise e => (Raise e, s)
      | Ok res =>
          let n := (num_msgs_read s + Z.of_nat (length res))%Z in
          let t1 := wall (rd_n_wall s) in
          if decide (1 < t1 - rd_last_report_ts s)%Qc then
            let t2 := wall (S (rd_n_wall s)) in
            match report_tx t2 (rd_start_ts s) with
            | Raise e => (Raise e, mkDataReader r n (rd_last_report_ts s) (rd_start_ts s)
                                     (2 + rd_n_wall s))
            | Ok _ => (Ok (Some res), mkDataReader r n (wall (2 + rd_n_wall s)) (rd_start_ts s)
                                        (3 + rd_n_wall s))
            end
          else (Ok (Some res), mkDataReader r n (rd_last_report_ts s) (rd_start_ts s)
                                 (1 + rd_n_wall s))
      end
  end.
End data_reader.

Arguments DataReader : clear implicits.

(** ** Critical sections

    The main thread and the flusher thread interleave at the granularity of the
    per-channel critical sections. *)

Section schedules.
Context {Msg Bytes W : Type}.
Context (dumps : list Msg → res Bytes) (loads : Bytes → list Msg).
Context (write_bytes : string → Bytes → W → option Z * W) (perf wall : nat → Qc).
(** The messages [msgpack] can encode, and its round trip on them. *)
Context (ok : Msg → Prop).
Context (codec : ∀ b, Forall ok b → ∃ bs, dumps b = Ok bs ∧ loads bs = b).
Local Abbreviation DW := (DataWriter Msg Bytes W).

Definition on_channel {A} (ch : string) (l : list (string * A)) : list A :=
  map snd (filter (λ e, e.1 = ch) l).

Definition batch_of (ch : string) (s : DW) : list Msg := default [] (dget (batch_per_channel s) ch).

(** What was accepted for a channel so far: decoded batches sent, then the open batch. *)
Definition delivered (ch : string) (s : DW) : list Msg :=
  concat (map loads (on_channel ch (sent s))) ++ batch_of ch s.

Record channel_inv (n : nat) (s : DW) (ch : string) : Prop := {
  ci_batch : ∃ b, dget (batch_per_channel s) ch = Some b ∧ length b < batch_size s ∧ Forall ok b;
  ci_size : batch_size s = n;
  ci_lock : dget (lock_per_channel s) ch = Some false;
  ci_ts : is_Some (dget (last_write_ts_per_channel s) ch);
}.

Definition writer_inv (n : nat) (chs : list string) (s : DW) : Prop := Forall (channel_inv n s) chs.

Lemma on_channel_app {A} ch (l1 l2 : list (string * A)) :
  on_channel ch (l1 ++ l2) = on_channel ch l1 ++ on_channel ch l2.
Proof. unfold on_channel. by rewrite filter_app, map_app. Qed.

Lemma on_channel_one {A} c ch (x : A) :
  on_channel c [(ch, x)] = if decide (ch = c) then [x] else [].
Proof. unfold on_channel. rewrite filter_cons. simpl. by case_decide. Qed.

Ltac mon := unfold mbind, M_bind, mret, M_ret, getS, modS, liftR, release, perf_counter, get_batch.

(** What the critical sections leave alone. *)
Definition frame (s : DW) := (source_stream_name s, start_ts s, n_wall s, num_msgs_sent s).

(** A critical section that leaves the lock free and puts [b] into the batch. *)
Lemma channel_inv_update (s s' : DW) ch b :
  (∀ c, dget (batch_per_channel s') c = if decide (c = ch) then Some b else dget (batch_per_channel s) c) →
  (∀ c, dget (lock_per_channel s') c = if decide (c = ch) then Some false else dget (lock_per_channel s) c) →
  (∀ c, is_Some (dget (last_write_ts_per_channel s) c) → is_Some (dget (last_write_ts_per_channel s') c)) →
  batch_size s' = batch_size s → length b < batch_size s → Forall ok b →
  ∀ n c, channel_inv n s c → channel_inv n s' c.
Proof.
  intros Hb Hl Ht Hn Hlen Hok n c [(b0 & E0 & ? & ?) Es El Et]. split.
  - rewrite Hb, Hn. case_decide; eauto.
  - by rewrite Hn.
  - rewrite Hl. by case_decide.
  - auto.
Qed.

Ltac dget_simpl := intros; cbn [batch_per_channel lock_per_channel last_write_ts_per_channel
    batch_size sent rust set_batch set_lock set_write_ts set_rust set_clocks];
  rewrite ?dget_dset; repeat (case_decide; try congruence; simpl); eauto.

(** What a critical section on [ch] does to the view of all channels. *)
Lemma delivered_update (s s' : DW) ch b bs (acc : list Msg) :
  (∀ c, dget (batch_per_channel s') c = if decide (c = ch) then Some b else dget (batch_per_channel s) c) →
  sent s' = sent s ++ bs → (∀ e, e ∈ bs → e.1 = ch) →
  concat (map loads (map snd bs)) ++ b = batch_of ch s ++ acc →
  ∀ c, delivered c s' = delivered c s ++ (if decide (c = ch) then acc else []).
Proof.
  intros Hb Hs Hbs E c. unfold delivered, batch_of in *. rewrite Hb, Hs, on_channel_app, map_app, concat_app.
  case_decide as Hc; [subst c|]; simpl.
  - unfold on_channel at 2. rewrite filter_all by (apply Forall_forall; auto).
    rewrite <- !(assoc_L (++)). f_equal. exact E.
  - unfold on_channel at 2. rewrite filter_none.
    + simpl. by rewrite !app_nil_r.
    + apply Forall_forall. intros e He Hce. apply Hc. rewrite <- Hce. by apply Hbs.
Qed.

Lemma write_ok n chs (s : DW) ch m :
  writer_inv n chs s → ch ∈ chs → ok m →
  ∃ r s', _try_write_message dumps write_bytes perf ch m s = (Ok r, s') ∧ writer_inv n chs s' ∧ frame s' = frame s ∧
    ∀ c, delivered c s' = delivered c s ++ (if decide (c = ch) then if r : bool then [m] else [] else []).
Proof.
  intros Hinv Hch Hm. pose proof (proj1 (Forall_forall _ _) Hinv ch Hch)
    as [(b & Eb & Hlen & Hok) Es El [t0 Et]].
  assert (Forall ok (b ++ [m])) as Hok' by (apply Forall_app; auto).
  assert (batch_of ch s = b) as Ebo by (unfold batch_of; by rewrite Eb).
  unfold _try_write_message, acquire, rust_write. mon. rewrite El. simpl.
  unfold dgetitem. rewrite Eb. simpl. case_decide as Hsz.
  - destruct (codec (b ++ [m]) Hok') as (bs & Ed & Eload). rewrite Ed. simpl.
    destruct (write_bytes ch bs (rust s)) as [[z|] w]; simpl; eexists _, _; (split; [reflexivity|]).
    + split_and!; [|done|].
      * eapply Forall_impl; [exact Hinv|]. apply (channel_inv_update _ _ ch []); dget_simpl; simpl; lia.
      * apply (delivered_update _ _ ch [] [(ch, bs)]); dget_simpl.
        -- set_solver.
        -- simpl. by rewrite Eload, !app_nil_r, Ebo.
    + rewrite removelast_last. split_and!; [|done|].
      * eapply Forall_impl; [exact Hinv|]. apply (channel_inv_update _ _ ch b); dget_simpl.
      * apply (delivered_update _ _ ch b []); dget_simpl; simpl; [by rewrite app_nil_r|set_solver|].
        by rewrite app_nil_r.
  - eexists _, _. split; [reflexivity|]. rewrite length_app in Hsz. simpl in Hsz. split_and!; [|done|].
    + eapply Forall_impl; [exact Hinv|]. apply (channel_inv_update _ _ ch (b ++ [m])); dget_simpl.
      rewrite length_app. simpl. lia.
    + apply (delivered_update _ _ ch (b ++ [m]) []); dget_simpl; simpl; [by rewrite app_nil_r|set_solver|].
      by rewrite Ebo.
Qed.

Lemma flush_ok n chs (s : DW) ch :
  writer_inv n chs s → ch ∈ chs →
  ∃ s', flush_channel dumps write_bytes perf ch s = (Ok (), s') ∧ writer_inv n chs s' ∧ frame s' = frame s ∧
    ∀ c, delivered c s' = delivered c s.
Proof.
  intros Hinv Hch. pose proof (proj1 (Forall_forall _ _) Hinv ch Hch)
    as [(b & Eb & Hlen & Hok) Es El [t0 Et]].
  assert (batch_of ch s = b) as Ebo by (unfold batch_of; by rewrite Eb).
  assert (∀ s' : DW, (∀ c, delivered c s' = delivered c s ++ (if decide (c = ch) then [] else [])) →
    ∀ c, delivered c s' = delivered c s) as Hnil.
  { intros s' H c. rewrite H. case_decide; by rewrite app_nil_r. }
  unfold flush_channel, acquire, rust_write. mon. rewrite El. unfold dgetitem. simpl. rewrite Et. simpl.
  assert (∀ s' : DW, batch_per_channel s' = batch_per_channel s → sent s' = sent s →
    ∀ c, delivered c s' = delivered c s) as Hsame.
  { intros s' H1 H2 c. unfold delivered, batch_of. by rewrite H1, H2. }
  case_decide as Hper; [unfold dgetitem; simpl; rewrite Eb; simpl; case_decide as H0|].
  - eexists. split; [reflexivity|]. split_and!; [|done|by apply Hsame].
    eapply Forall_impl; [exact Hinv|]. apply (channel_inv_update _ _ ch b); dget_simpl.
  - destruct (codec b Hok) as (bs & Ed & Eload). rewrite Ed. simpl.
    destruct (write_bytes ch bs (rust s)) as [[z|] w]; simpl; eexists; (split; [reflexivity|]).
    + split_and!; [|done|].
      * eapply Forall_impl; [exact Hinv|]. apply (channel_inv_update _ _ ch []); dget_simpl; simpl; lia.
      * apply Hnil, (delivered_update _ _ ch [] [(ch, bs)]); dget_simpl.
        -- set_solver.
        -- simpl. by rewrite Eload, !app_nil_r, Ebo.
    + split_and!; [|done|by apply Hsame].
      eapply Forall_impl; [exact Hinv|]. apply (channel_inv_update _ _ ch b); dget_simpl.
  - eexists. split; [reflexivity|]. split_and!; [|done|by apply Hsame].
    eapply Forall_impl; [exact Hinv|]. apply (channel_inv_update _ _ ch b); dget_simpl.
Qed.

(** The writer was started at reading [k] of its wall clock. *)
Definition started (k : nat) (s : DW) : Prop := start_ts s = Some (wall k) ∧ k < n_wall s.

(** A later reading of the clock is the one taken at the start. *)
Definition repeats (k : nat) : Prop := ∃ i, k < i ∧ wall i = wall k.

Lemma report_tx_ok (t : Qc) (k : nat) r : report_tx t (Some (wall k)) = r →
  r = Ok () ∨ (r = Raise ZeroDivisionError ∧ t = wall k).
Proof.
  unfold report_tx. cbn. case_decide as H; intros <-; [right|by left]. split; [done|].
  assert (t = (t - wall k) + wall k)%Qc as -> by ring. rewrite H. ring.
Qed.

Lemma report_ok k (r : bool) (s : DW) o s' : started k s → report_sent wall r s = (o, s') →
  (∀ n chs, writer_inv n chs s → writer_inv n chs s') ∧ (∀ c, delivered c s' = delivered c s) ∧
  source_stream_name s' = source_stream_name s ∧ started k s' ∧
  num_msgs_sent s' = (num_msgs_sent s + (if r then 1 else 0))%Z ∧
  (o = Ok r ∨ (r = true ∧ o = Raise ZeroDivisionError ∧ repeats k)).
Proof.
  intros [Hst Hk]. unfold report_sent, time. mon. destruct r; cbn.
  2: { intros [= <- <-]. split_and!; try done; [lia|by left]. }
  assert (∀ (s1 : DW), batch_per_channel s1 = batch_per_channel s → lock_per_channel s1 = lock_per_channel s →
    last_write_ts_per_channel s1 = last_write_ts_per_channel s → batch_size s1 = batch_size s → sent s1 = sent s →
    (∀ n chs, writer_inv n chs s → writer_inv n chs s1) ∧ (∀ c, delivered c s1 = delivered c s)) as Hsame.
  { intros s1 H1 H2 H3 H4 H5. split; [|intros c; unfold delivered, batch_of; by rewrite H1, H5].
    intros n chs Hi. eapply Forall_impl; [exact Hi|]. intros c []. split; rewrite ?H1, ?H2, ?H3, ?H4; done. }
  case_decide.
  - rewrite Hst. destruct (report_tx _ _) as [[]|e] eqn:Er; cbn; intros [= <- <-];
      (rewrite (assoc and); split; [by apply Hsame|]); split_and!; try done; unfold started; cbn; try (split; [done|lia]).
    + by left.
    + right. apply report_tx_ok in Er as [[=]|[[= ->] Et]]. split_and!; [done..|].
      eexists. split; [|exact Et]. cbn. lia.
  - intros [= <- <-]. rewrite (assoc and). split; [by apply Hsame|]. split_and!; try done; unfold started; cbn; [split; [done|lia]|by left].
Qed.

(** Whether the writer has taken a message: it counted it. *)
Definition counted (s s' : DW) : bool := negb (bool_decide (num_msgs_sent s' = num_msgs_sent s)).

Lemma try_write_ok k n chs (s : DW) ch m : started k s → writer_inv n chs s → ch ∈ chs → ok m →
  ∃ o s', try_write_message dumps write_bytes perf wall ch m s = (o, s') ∧ writer_inv n chs s' ∧ started k s' ∧
    source_stream_name s' = source_stream_name s ∧
    (o = Ok (counted s s') ∨ (counted s s' = true ∧ o = Raise ZeroDivisionError ∧ repeats k)) ∧
    ∀ c, delivered c s' = delivered c s ++ (if decide (c = ch) then if counted s s' then [m] else [] else []).
Proof.
  intros Hst Hinv Hch Hm. destruct (write_ok n chs s ch m Hinv Hch Hm) as (r & s1 & E1 & I1 & F1 & D1).
  unfold frame in F1. injection F1 as En Es Ew Ec.
  assert (started k s1) as Hst1 by (unfold started; by rewrite Es, Ew).
  destruct (report_sent wall r s1) as [o s'] eqn:E2. pose proof (report_ok k r s1 o s' Hst1 E2) as (I2 & D2 & N2 & S2 & C2 & O2).
  assert (counted s s' = r) as Hc.
  { unfold counted. rewrite C2, Ec. destruct r; [rewrite bool_decide_false by lia|rewrite bool_decide_true by lia]; done. }
  exists o, s'. unfold try_write_message, mbind, M_bind. rewrite E1, Hc.
  split_and!; [done|by apply I2|done|by rewrite N2|done|]. intros c. by rewrite D2, D1.
Qed.

Lemma new_writer_inv wl name chs n period w :
  0 < n → writer_inv n chs (start wl (new_DataWriter wl name chs n period w)).2.
Proof.
  intros Hn. apply Forall_forall. intros ch Hch. split; simpl.
  - exists []. rewrite dget_dict_of_const by done. auto.
  - done.
  - by rewrite dget_dict_of_const.
  - rewrite dget_dict_of_const by done. eauto.
Qed.
End schedules.

(** ** Records through a channel *)

(** [try_write_record]: the record is named after the sender, then sent. *)
Definition named_message {K V} (source_stream_name : string) (r : rec K V) : dict string (field K V) :=
  to_channel_message (set_stream_name (Some source_stream_name) r).

Definition try_write_record {K V Bytes W} (dumps : list (dict string (field K V)) → res Bytes)
    (write_bytes : string → Bytes → W → option Z * W) (perf wall : nat → Qc)
    (channel_id : string) (record : rec K V) : M (DataWriter (dict string (field K V)) Bytes W) bool :=
  λ s, try_write_message dumps write_bytes perf wall channel_id
         (named_message (source_stream_name s) record) s.

(** A FIFO transport: what was written and not read yet. *)
Definition fifo_read {Bytes} (q : list Bytes) : option Bytes * list Bytes :=
  match q with [] => (None, []) | b :: q' => (Some b, q') end.

(** Calling [read_message] [n] times: what each call gave; a call after an exception starts in the
    state the exception left. *)
Fixpoint reads {Msg Bytes R} (loads : Bytes → res (list Msg)) (read_bytes : R → option Bytes * R)
    (wall : nat → Qc) (n : nat) (s : DataReader R) : list (res (option (list Msg))) * DataReader R :=
  match n with
  | O => ([], s)
  | S n' => let '(o, s) := read_message loads read_bytes wall s in
            let '(os, s) := reads loads read_bytes wall n' s in (o :: os, s)
  end.

Section reader_lemmas.
Context {Msg Bytes : Type} (loads : Bytes → list Msg) (wall : nat → Qc).

Lemma reads_fifo n : ∀ (s : DataReader (list Bytes)) k,
  rd_start_ts s = Some (wall k) → k < rd_n_wall s → n = length (rust_reader s) →
  ∃ os s', reads (λ b, Ok (loads b)) fifo_read wall n s = (os, s') ∧ rust_reader s' = [] ∧
    Forall2 (λ b o, o = Ok (Some (loads b)) ∨ (o = Raise ZeroDivisionError ∧ repeats wall k)) (rust_reader s) os ∧
    num_msgs_read s' = (num_msgs_read s + Z.of_nat (length (concat (map loads (rust_reader s)))))%Z.
Proof.
  induction n as [|n IH]; intros [q m lr st nw] k Hst Hk Hn; simpl in *.
  { destruct q; [|done]. eexists _, _. split; [reflexivity|]. split_and!; [done|constructor|]. simpl. lia. }
  destruct q as [|b q]; simplify_eq/=. unfold read_message. simpl.
  case_decide as Hrep; [destruct (report_tx _ _) as [[]|e] eqn:Er|]; cbn.
  all: match goal with |- context [reads _ _ _ _ ?s1] =>
         destruct (IH s1 k) as (os & s' & E & Hq & Hf & Hm); cbn [rd_n_wall rd_start_ts rust_reader]; [done|lia|done|] end.
  all: cbn in E, Hf, Hm; rewrite E; eexists _, _; split; [reflexivity|]; split_and!; [done| |rewrite Hm, length_app; lia].
  all: constructor; [|exact Hf]; try (by left).
  right. apply report_tx_ok in Er as [[=]|[[= ->] Et]]. split; [done|]. eexists. split; [|exact Et]. lia.
Qed.
End reader_lemmas.

Section close_lemmas.
Context {Msg Bytes W : Type} (dumps : list Msg → res Bytes).
Context (write_bytes : string → Bytes → W → option Z * W) (perf : nat → Qc).
Implicit Types (s : DataWriter Msg Bytes W).

Definition idle s (ch : string) : Prop :=
  dget (lock_per_channel s) ch = Some false ∧
  ∃ t, dget (last_write_ts_per_channel s) ch = Some t ∧ ∀ k, (perf k - t < flush_period_s s)%Qc.

Lemma flush_idle s ch : idle s ch →
  flush_channel dumps write_bytes perf ch s = (Ok (), set_clocks (S (n_perf s)) (n_wall s) s).
Proof.
  intros (El & t & Et & Hk). unfold flush_channel, acquire, release, getS, modS, liftR, perf_counter.
  unfold mbind, M_bind. rewrite El. simpl. unfold dgetitem. rewrite Et. simpl.
  rewrite decide_False by apply Qclt_not_le, Hk.
  unfold set_lock, set_clocks. simpl. by rewrite dset_dset, dset_id.
Qed.

(** A flusher round in which no channel is due only reads the clock. *)
Lemma flush_round_idle chs : ∀ s, Forall (idle s) chs →
  ∃ n, for_each chs (flush_channel dumps write_bytes perf) s = (Ok (), set_clocks n (n_wall s) s).
Proof.
  induction chs as [|ch chs IH]; intros s Hs; simpl.
  { exists (n_perf s). by destruct s. }
  apply Forall_cons in Hs as [H1 H2]. unfold mbind, M_bind. rewrite flush_idle by done.
  destruct (IH (set_clocks (S (n_perf s)) (n_wall s) s)) as [n E]; [done|].
  exists n. by rewrite E.
Qed.
End close_lemmas.

(** *** Schedules of writes and flusher rounds *)

Inductive act (A : Type) :=
| AWrite (ch : string) (r : A)
| AFlush (ch : string).
Arguments AWrite {A} _ _.
Arguments AFlush {A} _.

Definition act_channel {A} (a : act A) : string :=
  match a with AWrite ch _ => ch | AFlush ch => ch end.

(** The writes of a schedule, in order. *)
Definition writes {A} (acts : list (act A)) : list (string * A) :=
  omap (λ a, match a with AWrite ch m => Some (ch, m) | AFlush _ => None end) acts.

Section runs.
Context {K V Bytes W : Type}.
Local Abbreviation Msg := (dict string (field K V)).
Local Abbreviation DW := (DataWriter Msg Bytes W).
Context (dumps : list Msg → res Bytes) (loads : Bytes → list Msg).
Context (write_bytes : string → Bytes → W → option Z * W) (perf wall : nat → Qc).

(** One act: how the call ended, and the record if the writer took it. *)
Definition exec (a : act (rec K V)) (s : DW) : res () * list (string * rec K V) * DW :=
  match a with
  | AWrite ch r =>
      let '(o, s') := try_write_record dumps write_bytes perf wall ch r s in
      (_ ← o; Ok (), if counted s s' then [(ch, r)] else [], s')
  | AFlush ch => let '(o, s') := flush_channel dumps write_bytes perf ch s in (o, [], s')
  end.

(** A schedule: how every call ended and what was accepted; an exception does not end it, since
    the other thread goes on. *)
Fixpoint run (acts : list (act (rec K V))) (s : DW) : list (res ()) * list (string * rec K V) * DW :=
  match acts with
  | [] => ([], [], s)
  | a :: acts' =>
      let '(o, x, s1) := exec a s in
      let '(os, y, s2) := run acts' s1 in (o :: os, x ++ y, s2)
  end.

Context (ok : rec K V → Prop) (name : string).
Context (codec : ∀ rs, Forall ok rs → ∃ bs, dumps (map (named_message name) rs) = Ok bs ∧ loads bs = map (named_message name) rs).

(** The messages of records that can be sent. *)
Definition sendable (m : Msg) : Prop := ∃ r, ok r ∧ m = named_message name r.

Lemma Forall_map_exists {A B} (f : A → B) (P : A → Prop) l :
  Forall (λ y, ∃ x, P x ∧ y = f x) l → ∃ k, l = map f k ∧ Forall P k.
Proof.
  induction 1 as [|y l (x & Hx & ->) Hl (k & -> & Hk)]; [by exists []|].
  exists (x :: k). split; [done|by constructor].
Qed.

Lemma codec_messages b : Forall sendable b → ∃ bs, dumps b = Ok bs ∧ loads bs = b.
Proof using codec. intros (rs & -> & Hrs)%Forall_map_exists. by apply codec. Qed.

Lemma exec_ok k n chs a (s : DW) : started wall k s → source_stream_name s = name → writer_inv sendable n chs s →
  act_channel a ∈ chs → Forall (λ e, ok e.2) (writes [a]) →
  ∃ o x s', exec a s = (o, x, s') ∧ started wall k s' ∧ source_stream_name s' = name ∧ writer_inv sendable n chs s' ∧
    x `sublist_of` writes [a] ∧ (o = Ok () ∨ (o = Raise ZeroDivisionError ∧ repeats wall k)) ∧
    ∀ c, delivered loads c s' = delivered loads c s ++ map (named_message name) (on_channel c x).
Proof using codec.
  intros Hst Hname Hinv Hch Hok. destruct a as [ch r|ch]; simpl in *.
  - apply Forall_cons in Hok as [Hok _].
    destruct (try_write_ok dumps loads write_bytes perf wall sendable codec_messages k n chs s ch (named_message name r))
      as (o & s' & E & I & S & N & O & D); [done..|by exists r|].
    unfold try_write_record. rewrite Hname, E. eexists _, _, s'. split; [reflexivity|].
    split_and!; [done|by rewrite N|done| | |].
    + destruct (counted s s'); [done|apply sublist_nil_l].
    + destruct O as [->|(_ & -> & Hr)]; [by left|by right].
    + intros c. rewrite D. f_equal. destruct (counted s s'); [rewrite on_channel_one|by case_decide]. by repeat case_decide.
  - destruct (flush_ok dumps loads write_bytes perf sendable codec_messages n chs s ch Hinv Hch) as (s' & E & I & F & D).
    unfold frame in F. injection F as F1 F2 F3 F4. rewrite E. eexists _, _, s'. split; [reflexivity|].
    split_and!; [unfold started; by rewrite F2, F3|congruence|done|apply sublist_nil_l|by left|].
    intros c. by rewrite D, app_nil_r.
Qed.

Lemma run_ok k n chs acts : ∀ s : DW, started wall k s → source_stream_name s = name → writer_inv sendable n chs s →
  Forall (λ a, act_channel a ∈ chs) acts → Forall (λ e, ok e.2) (writes acts) →
  ∃ os acc s', run acts s = (os, acc, s') ∧ writer_inv sendable n chs s' ∧ acc `sublist_of` writes acts ∧
    Forall (λ o, o = Ok () ∨ (o = Raise ZeroDivisionError ∧ repeats wall k)) os ∧
    ∀ c, delivered loads c s' = delivered loads c s ++ map (named_message name) (on_channel c acc).
Proof using codec.
  induction acts as [|a acts IH]; intros s Hst Hname Hinv Hch Hok; cbn [run].
  { eexists _, _, _. split; [reflexivity|]. split_and!; [done|apply sublist_nil_l|done|]. intros c. by rewrite app_nil_r. }
  apply Forall_cons in Hch as [Ha Hch].
  assert (writes (a :: acts) = writes [a] ++ writes acts) as Ew by by destruct a.
  rewrite Ew in *. apply Forall_app in Hok as [Hm Hok].
  destruct (exec_ok k n chs a s Hst Hname Hinv Ha Hm) as (o & x & s1 & E1 & S1 & N1 & I1 & X1 & O1 & D1).
  destruct (IH s1 S1 N1 I1 Hch Hok) as (os & y & s2 & E2 & I2 & X2 & O2 & D2).
  rewrite E1, E2. eexists _, _, _. split; [reflexivity|].
  split_and!; [done|by apply sublist_app|by constructor|].
  intros c. by rewrite D2, D1, on_channel_app, map_app, (assoc_L (++)).
Qed.
End runs.

(** A list cut into pieces whose concatenation is a mapped list. *)
Lemma concat_map_inv {A B} (f : A → B) ls : ∀ l, concat ls = map f l → ∃ bs, ls = map (map f) bs ∧ concat bs = l.
Proof.
  induction ls as [|x ls IH]; intros l H; cbn in H.
  - exists []. split; [done|]. by destruct l.
  - symmetry in H. apply map_eq_app in H as (l1 & l2 & -> & <- & H2). destruct (IH l2 (eq_sym H2)) as (bs & -> & <-).
    by exists (l1 :: bs).
Qed.

Lemma on_channel_map {A B} (f : A → B) ch l :
  on_channel ch (map (prod_map id f) l) = map f (on_channel ch l).
Proof.
  unfold on_channel. induction l as [|[c x] l IH]; simpl; [done|].
  rewrite !filter_cons. simpl. case_decide; simpl; by rewrite IH.
Qed.

Lemma decode_named {K V} name (rs : list (rec K V)) :
  mapR record_from_channel_message (map (named_message name) rs)
  = Ok (map (set_stream_name (Some name)) rs).
Proof.
  induction rs as [|r rs IH]; [done|]. cbn [map mapR].
  replace (record_from_channel_message (named_message name r))
    with (Ok (set_stream_name (Some name) r)) by (symmetry; apply record_roundtrip). cbn [mbind res_bind]. by rewrite IH.
Qed.

(** ** Properties *)

(** C11. End to end over a FIFO channel: for every schedule of [try_write_record] calls and flusher
    rounds on a started writer, whatever the back-pressure and whatever the clocks of the two
    processes show, a call of the writer or of the reader returns, or raises [ZeroDivisionError],
    which needs a later reading of [time.time] equal to the one taken at the start.  The records
    the writer took and still has in the open batch follow those it sent, and each batch sent is
    given by one [read_message] call, in order, its records named after the sending stream, unless
    that call raises: nothing is invented, duplicated or reordered. *)
Theorem writer_reader_fifo {K V Bytes W} (dumps : list (dict string (field K V)) → res Bytes)
    (loads : Bytes → list (dict string (field K V)))
    (write_bytes : string → Bytes → W → option Z * W) (perf wall rd_wall : nat → Qc) (ok : rec K V → Prop)
    name chs n period w (acts : list (act (rec K V))) ch :
  (∀ rs, Forall ok rs → ∃ bs, dumps (map (named_message name) rs) = Ok bs ∧
      loads bs = map (named_message name) rs) →
  0 < n → ch ∈ chs → Forall (λ a, act_channel a ∈ chs) acts → Forall (λ e, ok e.2) (writes acts) →
  ∃ outcomes accepted s' batches rs_open outs reader',
    run dumps write_bytes perf wall acts (start wall (new_DataWriter wall name chs n period w)).2 = (outcomes, accepted, s') ∧
    Forall (λ o, o = Ok () ∨ (o = Raise ZeroDivisionError ∧ repeats wall 1)) outcomes ∧
    accepted `sublist_of` writes acts ∧ on_channel ch accepted = concat batches ++ rs_open ∧
    batch_of ch s' = map (named_message name) rs_open ∧ length rs_open < n ∧
    (let q := on_channel ch (sent s') in
     reads (λ b, Ok (loads b)) fifo_read rd_wall (length q) (start_reader rd_wall (new_DataReader rd_wall q)) = (outs, reader')) ∧
    Forall2 (λ rs o, o = Ok (Some (map (named_message name) rs)) ∨ (o = Raise ZeroDivisionError ∧ repeats rd_wall 1)) batches outs ∧
    Forall (λ rs, mapR record_from_channel_message (map (named_message name) rs) = Ok (map (set_stream_name (Some name)) rs)) batches.
Proof.
  intros codec Hn Hch Hchs Hok. set (s0 := (start wall (new_DataWriter wall name chs n period w)).2).
  destruct (run_ok dumps loads write_bytes perf wall ok name codec 1 n chs acts s0) as (os & acc & s' & E & I & X & O & D);
    [split; [done|unfold s0, start, time, mbind, M_bind, modS; cbn; lia]|done|by apply new_writer_inv|done|done|].
  specialize (D ch). assert (delivered loads ch s0 = []) as E0.
  { unfold delivered, batch_of, s0, start, time, mbind, M_bind, modS. cbn. by rewrite (dget_dict_of_const chs [] ch Hch). }
  rewrite E0, app_nil_l in D.
  symmetry in D. unfold delivered in D. apply map_eq_app in D as (r1 & r2 & Er & E1 & E2).
  destruct (concat_map_inv (named_message name) (map loads (on_channel ch (sent s'))) r1 (eq_sym E1)) as (bs & Eb & <-).
  destruct (reads_fifo loads rd_wall _ (start_reader rd_wall (new_DataReader rd_wall (on_channel ch (sent s')))) 1 eq_refl ltac:(cbn; lia) eq_refl)
    as (outs & rd & Erd & _ & Hf & _).
  exists os, acc, s', bs, r2, outs, rd. split_and!; [exact E|done|done|done|done| |exact Erd| |].
  - pose proof (proj1 (Forall_forall _ _) I ch Hch) as [(b & Eb' & Hl & _) Hn' _ _].
    unfold batch_of in E2. rewrite Eb' in E2. cbn in E2. subst b. rewrite length_map in Hl. lia.
  - cbn [rust_reader start_reader new_DataReader] in Hf. clear -Hf Eb. revert bs Eb.
    induction Hf as [|b o q os Ho Hf IH]; intros [|rs bs] [=]; constructor; [|by apply IH]. congruence.
  - apply Forall_forall. intros rs _. apply decode_named.
Qed.

(** [close] flushes a channel only when its flush period has elapsed: if every
    channel was written to more recently than that, the open batches are not
    handed to the Rust writer and their accepted messages are lost. *)
Theorem close_drops_recent_batches {Msg Bytes W} (dumps : list Msg → res Bytes)
    (write_bytes : string → Bytes → W → option Z * W) (perf : nat → Qc) (s : DataWriter Msg Bytes W) :
  (∀ ch, ch ∈ dkeys (lock_per_channel s) → dget (lock_per_channel s) ch = Some false ∧
     ∃ t, dget (last_write_ts_per_channel s) ch = Some t ∧ ∀ k, (perf k - t < flush_period_s s)%Qc) →
  ∃ s', close dumps write_bytes perf s = (Ok (), s') ∧ sent s' = sent s ∧ rust s' = rust s ∧
    batch_per_channel s' = batch_per_channel s ∧ running s' = false.
Proof.
  intros H. unfold close, mbind, M_bind, modS, try_flush_if_needed.
  destruct (flush_round_idle dumps write_bytes perf (dkeys (lock_per_channel s))
    (set_running false (start_ts s) s)) as [n E]; [apply Forall_forall; exact H|].
  simpl in *. rewrite E. by eexists.
Qed.

(** A batch [msgpack] refuses leaves the channel's lock held: the exception
    escapes, and every later write or flush of that channel blocks for ever. *)
Theorem dumps_failure_blocks_channel {Msg Bytes W} (dumps : list Msg → res Bytes)
    (write_bytes : string → Bytes → W → option Z * W) (perf : nat → Qc)
    (s : DataWriter Msg Bytes W) ch b m e :
  dget (lock_per_channel s) ch = Some false → dget (batch_per_channel s) ch = Some b →
  batch_size s = S (length b) → dumps (b ++ [m]) = Raise e →
  ∃ s', _try_write_message dumps write_bytes perf ch m s = (Raise e, s') ∧
    (∀ m', _try_write_message dumps write_bytes perf ch m' s' = (Raise Blocked, s')) ∧
    flush_channel dumps write_bytes perf ch s' = (Raise Blocked, s').
Proof.
  intros El Eb Hs Hd. unfold _try_write_message, flush_channel, acquire, get_batch, getS, modS, liftR.
  unfold mbind, M_bind. rewrite El. simpl. unfold dgetitem. rewrite Eb. simpl.
  rewrite decide_True by (rewrite length_app; simpl; lia). rewrite Hd.
  eexists. split; [reflexivity|]. simpl. by rewrite dget_dset_eq.
Qed.

(** ** Witnesses *)

(** A codec on natural numbers and a Rust writer that refuses when its queue of
    scripted answers says so. *)
Definition ex_dumps (b : list nat) : res (list nat) := if decide (99 ∈ b) then Raise TypeError else Ok b.
Definition ex_write {B} (_ : string) (_ : B) (o : list bool) : option Z * list bool :=
  match o with [] => (Some 0%Z, []) | true :: o' => (Some 0%Z, o') | false :: o' => (None, o') end.
(** A clock that shows the number of its readings. *)
Definition ticks (n : nat) : Qc := dec_of_Z (Z.of_nat n).

Definition ex_rec_acts : list (act (rec Z Z)) :=
  [AWrite "a" (ex_rec 1 1); AWrite "a" (ex_rec 2 2); AFlush "a"; AWrite "a" (ex_rec 3 3)].

(** A wall clock that stands still after one step: the writer's report raises. *)
Definition stopped (n : nat) : Qc := match n with O => 0%Qc | _ => dec_of_Z 5 end.

Lemma writer_reader_fifo_witness :
  (run (λ b, Ok b) ex_write ticks stopped ex_rec_acts (start stopped (new_DataWriter stopped "src" ["a"] 2 1 [])).2).1
    = ([Raise ZeroDivisionError; Raise ZeroDivisionError; Ok (); Raise ZeroDivisionError], writes ex_rec_acts) ∧
  ∃ outcomes accepted s' batches rs_open outs reader',
    run (λ b, Ok b) ex_write ticks stopped ex_rec_acts (start stopped (new_DataWriter stopped "src" ["a"] 2 1 [])).2 = (outcomes, accepted, s') ∧
    Forall (λ o, o = Ok () ∨ (o = Raise ZeroDivisionError ∧ repeats stopped 1)) outcomes ∧
    accepted `sublist_of` writes ex_rec_acts ∧ on_channel "a" accepted = concat batches ++ rs_open ∧
    batch_of "a" s' = map (named_message "src") rs_open ∧ length rs_open < 2 ∧
    (let q := on_channel "a" (sent s') in
     reads (λ b, Ok b) fifo_read ticks (length q) (start_reader ticks (new_DataReader ticks q)) = (outs, reader')) ∧
    Forall2 (λ rs o, o = Ok (Some (map (named_message "src") rs)) ∨ (o = Raise ZeroDivisionError ∧ repeats ticks 1)) batches outs ∧
    Forall (λ rs, mapR record_from_channel_message (map (named_message "src") rs) = Ok (map (set_stream_name (Some "src")) rs)) batches.
Proof.
  split; [vm_compute; reflexivity|].
  apply (writer_reader_fifo (λ b, Ok b) id ex_write ticks stopped ticks (λ _, True)); try lia.
  - intros rs _. by eexists.
  - set_solver.
  - repeat constructor; simpl; set_solver.
  - repeat constructor.
Defined.

(** One message accepted at time 0 with a flush period of 10. *)
Definition ex_recent : DataWriter nat (list nat) (list bool) :=
  (_try_write_message ex_dumps ex_write (λ _, 0%Qc) "a" 7 (new_DataWriter ticks "src" ["a"] 2 (dec_of_Z 10) [])).2.

Lemma close_drops_recent_batches_witness :
  batch_of "a" ex_recent = [7] ∧
  ∃ s', close ex_dumps ex_write (λ _, 0%Qc) ex_recent = (Ok (), s') ∧ sent s' = sent ex_recent ∧
    rust s' = rust ex_recent ∧ batch_per_channel s' = batch_per_channel ex_recent ∧ running s' = false.
Proof.
  split; [reflexivity|]. apply (close_drops_recent_batches ex_dumps ex_write (λ _, 0%Qc) ex_recent).
  intros ch Hch. assert (ch = "a") as -> by (vm_compute in Hch; set_solver).
  split; [reflexivity|]. exists 0%Qc. split; [reflexivity|]. intros _. by vm_compute.
Defined.

Lemma dumps_failure_blocks_channel_witness :
  ∃ s', _try_write_message ex_dumps ex_write (λ _, 0%Qc) "a" 99 ex_recent = (Raise TypeError, s') ∧
    (∀ m', _try_write_message ex_dumps ex_write (λ _, 0%Qc) "a" m' s' = (Raise Blocked, s')) ∧
    flush_channel ex_dumps ex_write (λ _, 0%Qc) "a" s' = (Raise Blocked, s').
Proof.
  apply (dumps_failure_blocks_channel ex_dumps ex_write (λ _, 0%Qc) ex_recent "a" [7] 99 TypeError);
    reflexivity.
Defined.
