(* ===== verification/Window.v ===== *)
(** * Aggregations and the multi-window operator
    ([volga/streaming/api/function/aggregate_function.py],
     [volga/streaming/api/function/window_function.py],
     [volga/streaming/api/operators/window_operator.py])

    [windows_per_key] is a dictionary from keys to the list of window objects of
    that key; a window keeps its records sorted by event time.  The state is
    updated in place, so it keeps what was done before an exception.  An
    aggregation argument is any number, represented by its decimal value. *)

From S2P Require Import Prelude PyDict PyDecimal TimeUtils Message.

Inductive AggregationType := MAX | MIN | COUNT | SUM | AVG.
#[global] Instance AggregationType_eq_dec : EqDecision AggregationType.
Proof. solve_decision. Defined.

(** ** [AllAggregateFunction] *)

Abbreviation acc := (dict AggregationType dec).

Section aggregate.
Context {K V : Type}.

Record AllAggregateFunction := mkAgg {
  agg_type : AggregationType;
  agg_on_func : option (V → res dec);
}.

Definition create_accumulator (self : AllAggregateFunction) : acc := [].

(** [self.agg_on_func(record.value)] *)
Definition call_on (self : AllAggregateFunction) (record : rec K V) : res dec :=
  match agg_on_func self with None => Raise TypeError | Some f => f (r_value record) end.

(** [min(a, v)] and [max(a, v)] keep the first operand on equality. *)
Definition py_min (a v : dec) : dec := if dec_ltb v a then v else a.
Definition py_max (a v : dec) : dec := if dec_ltb a v then v else a.

Definition add (self : AllAggregateFunction) (record : rec K V) (accumulator : acc) : res acc :=
  accumulator ←
    (if decide (MIN = agg_type self) then
       v ← call_on self record;
       match dget accumulator MIN with
       | Some m => Ok (dset accumulator MIN (py_min m v))
       | None => Ok (dset accumulator MIN v)
       end
     else Ok accumulator);
  accumulator ←
    (if decide (MAX = agg_type self) then
       v ← call_on self record;
       match dget accumulator MAX with
       | Some m => Ok (dset accumulator MAX (py_max m v))
       | None => Ok (dset accumulator MAX v)
       end
     else Ok accumulator);
  let accumulator :=
    if decide (COUNT = agg_type self ∨ AVG = agg_type self) then
      match dget accumulator COUNT with
      | Some c => dset accumulator COUNT (dec_add c (dec_of_Z 1))
      | None => dset accumulator COUNT (dec_of_Z 1)
      end
    else accumulator in
  if decide (COUNT = agg_type self) then Ok accumulator else
  if decide (SUM = agg_type self ∨ AVG = agg_type self) then
    v ← call_on self record;
    let accumulator :=
      match dget accumulator SUM with
      | Some x => dset accumulator SUM (dec_add x v)
      | None => dset accumulator SUM v
      end in
    if decide (AVG = agg_type self) then
      sum ← dgetitem accumulator SUM;
      count ← dgetitem accumulator COUNT;
      avg ← dec_div sum count;
      Ok (dset accumulator AVG avg)
    else Ok accumulator
  else Ok accumulator.

Definition get_result (self : AllAggregateFunction) (accumulator : acc) : acc := accumulator.
Definition merge (self : AllAggregateFunction) (acc1 acc2 : acc) : res acc := Raise NotImplementedError.

(** [AllAggregateApplyWindowFunction.apply] *)
Definition apply (self : AllAggregateFunction) (records : list (rec K V)) : res acc :=
  foldR (λ acc r, add self r acc) (create_accumulator self) records.
End aggregate.

Arguments AllAggregateFunction : clear implicits.

(** ** [MultiWindowOperator] *)

Section window_operator.
Context {K V Out : Type} `{!EqDecision K}.
(** [f'{conf.agg_type}'], and the dictionary of aggregates as an output value. *)
Context (agg_str : AggregationType → string) (of_aggs : dict string dec → Out).

Record Window := mkWindow {
  w_records : list (rec K V);
  length_s : dec;
  window_func : AllAggregateFunction V;
  w_name : string;
  w_agg_type : AggregationType;
}.

Record SlidingWindowConfig := mkConfig {
  duration : string;
  c_agg_type : AggregationType;
  c_agg_on_func : option (V → res dec);
  c_name : option string;
}.

Record MultiWindowOperator := mkMultiWindow {
  configs : list SlidingWindowConfig;
  windows_per_key : dict K (list Window);
  output_func : option (dict string dec → rec K V → res (rec K Out));
}.

Definition new_MultiWindowOperator configs output_func := mkMultiWindow configs [] output_func.

Definition set_records (rs : list (rec K V)) (w : Window) : Window :=
  mkWindow rs (length_s w) (window_func w) (w_name w) (w_agg_type w).

Definition create_window (conf : SlidingWindowConfig) : res Window :=
  let name := match c_name conf with
              | None => agg_str (c_agg_type conf) +:+ "_" +:+ duration conf
              | Some n => n
              end in
  length_s ← duration_to_s (duration conf);
  Ok (mkWindow [] length_s (mkAgg (c_agg_type conf) (c_agg_on_func conf)) name (c_agg_type conf)).

Definition _create_windows (self : MultiWindowOperator) : res (list Window) :=
  mapR create_window (configs self).

(** [a < b] and [a - b] on event times: integers are subtracted exactly, and a [Decimal] operand
    makes the difference one of the decimal context. *)
Definition time_lt (a b : option stamp) : res bool :=
  match a, b with Some x, Some y => Ok (dec_ltb (stamp_value x) (stamp_value y)) | _, _ => Raise TypeError end.
Definition stamp_sub (a b : stamp) : dec :=
  match a, b with
  | TInt x, TInt y => dec_of_Z (x - y)
  | _, _ => dec_sub (stamp_value a) (stamp_value b)
  end.
Definition time_sub (a b : option stamp) : res dec :=
  match a, b with Some x, Some y => Ok (stamp_sub x y) | _, _ => Raise TypeError end.

(** [while w.records[-1].event_time - w.records[0].event_time > w.length_s:
    w.records.pop(0)], the records left and how the loop ended; every round
    removes a record, so [length + 1] rounds are enough. *)
Fixpoint evict (fuel : nat) (length_s : dec) (records : list (rec K V))
    : res () * list (rec K V) :=
  match fuel with
  | O => (Ok (), records)
  | S fuel' =>
      match last records, head records with
      | Some l, Some f =>
          match time_sub (event_time l) (event_time f) with
          | Raise e => (Raise e, records)
          | Ok d => if dec_ltb length_s d then evict fuel' length_s (tail records)
                    else (Ok (), records)
          end
      | _, _ => (Raise IndexError, records)
      end
  end.

(** The loop body of [process_element] for one window. *)
Definition process_window (record : rec K V) (aggs_per_window : dict string dec) (w : Window)
    : res (dict string dec) * Window :=
  match insort_right (λ y, time_lt (event_time record) (event_time y)) record (w_records w) with
  | Raise e => (Raise e, w)
  | Ok records =>
      let '(r, records) := evict (S (length records)) (length_s w) records in
      let w := set_records records w in
      (_ ← r;
       if dmem (w_name w) aggs_per_window then Raise (RuntimeError "Duplicate window names")
       else
         accum ← apply (window_func w) (w_records w);
         v ← dgetitem accum (w_agg_type w);
         Ok (dset aggs_per_window (w_name w) v), w)
  end.

Fixpoint process_windows (record : rec K V) (aggs_per_window : dict string dec)
    (windows : list Window) : res (dict string dec) * list Window :=
  match windows with
  | [] => (Ok aggs_per_window, [])
  | w :: windows' =>
      match process_window record aggs_per_window w with
      | (Raise e, w') => (Raise e, w' :: windows')
      | (Ok aggs, w') =>
          let '(r, ws) := process_windows record aggs windows' in (r, w' :: ws)
      end
  end.

Definition set_windows (key : K) (ws : list Window) (self : MultiWindowOperator) :=
  mkMultiWindow (configs self) (dset (windows_per_key self) key ws) (output_func self).

(** The record handed to [collect]. *)
Definition form_output (self : MultiWindowOperator) (aggs_per_window : dict string dec)
    (record : rec K V) : res (rec K Out) :=
  match output_func self with
  | None => Ok (new_Record (of_aggs aggs_per_window) (event_time record) None)
  | Some f => f aggs_per_window record
  end.

(** [process_element(record)]: the record handed to [collect], or the exception. *)
Definition process_element (record : rec K V) : M MultiWindowOperator (rec K Out) := λ self,
  match r_key record with
  | None => (Raise AssertionError, self)
  | Some key =>
      match (match dget (windows_per_key self) key with
             | Some ws => Ok ws
             | None => _create_windows self
             end) with
      | Raise e => (Raise e, self)
      | Ok windows =>
          let '(r, windows) := process_windows record [] windows in
          (aggs_per_window ← r; form_output self aggs_per_window record,
           set_windows key windows self)
      end
  end.

(** A run over a list of records. *)
Fixpoint process_all (records : list (rec K V)) : M MultiWindowOperator (list (rec K Out)) :=
  match records with
  | [] => mret []
  | r :: records' => process_element r ≫= λ o, process_all records' ≫= λ os, mret (o :: os)
  end.
End window_operator.

Arguments Window : clear implicits.
Arguments SlidingWindowConfig : clear implicits.
Arguments MultiWindowOperator : clear implicits.

(** ** What a window retains *)

Section retention.
Context {K V : Type}.
Implicit Types (r : rec K V) (rs U : list (rec K V)).

Definition time_of r : dec := default (Q2Qc 0) (stamp_value <$> event_time r).

(** Any [Decimal], and the integers whose differences a decimal holds exactly. *)
Definition stamp_ok (s : stamp) : Prop := match s with TDecimal _ => True | TInt z => (2 * Z.abs z < 10 ^ prec)%Z end.
Definition timed r : Prop := ∃ s, event_time r = Some s ∧ stamp_ok s.

Lemma stamp_sub_ok a b : stamp_ok a → stamp_ok b → stamp_sub a b = dec_sub (stamp_value a) (stamp_value b).
Proof.
  destruct a as [|x], b as [|y]; try done. cbn [stamp_ok stamp_sub stamp_value]. intros Hx Hy.
  symmetry. apply dec_sub_Z. lia.
Qed.

Lemma time_sub_ok r r' : timed r → timed r' → time_sub (event_time r) (event_time r') = Ok (dec_sub (time_of r) (time_of r')).
Proof. intros (s & E & Hs) (s' & E' & Hs'). unfold time_of. rewrite E, E'. cbn. by rewrite stamp_sub_ok. Qed.

Lemma time_lt_ok r r' : timed r → timed r' → time_lt (event_time r) (event_time r') = Ok (dec_ltb (time_of r) (time_of r')).
Proof. intros (s & E & Hs) (s' & E' & Hs'). unfold time_of. by rewrite E, E'. Qed.

Local Abbreviation sorted := (key_sorted time_of Qcle).
Local Abbreviation ins := (insert_right time_of Qcle).
Local Abbreviation tsort := (stable_sort time_of Qcle).

(** The records of a window of length [len] after the arrivals [rs], in any order of
    event time: sorted (stable in arrival order), and not older than [len]
    before the latest event. *)
Definition retained (len : dec) rs : list (rec K V) :=
  match last (tsort rs) with
  | None => []
  | Some l => filter (λ r, (dec_sub (time_of l) (time_of r) <= len)%Qc) (tsort rs)
  end.

Lemma sorted_last U l x : sorted U → last U = Some l → x ∈ U → (time_of x <= time_of l)%Qc.
Proof.
  intros Hs Hl Hx. apply last_Some in Hl as [U' ->]. unfold key_sorted in Hs.
  apply StronglySorted_app in Hs as (H & _ & _).
  apply elem_of_app in Hx as [Hx|Hx%list_elem_of_singleton]; [apply H; set_solver|].
  subst. apply Qcle_refl.
Qed.

Lemma evict_spec fuel len U l :
  sorted U → Forall timed U → last U = Some l → (Q2Qc 0 <= len)%Qc → length U < fuel →
  evict fuel len U
  = (Ok (), filter (λ r, (dec_sub (time_of l) (time_of r) <= len)%Qc) U).
Proof.
  revert U. induction fuel as [|fuel IH]; intros U Hs Ht Hl Hlen Hf; [lia|].
  destruct U as [|x U]; [done|]. cbn [evict]. rewrite Hl. cbn [head tail].
  assert (l ∈ x :: U) as Hin by by apply last_Some_elem_of.
  pose proof (proj1 (Forall_forall _ _) Ht l Hin) as Htl.
  pose proof (proj1 (Forall_forall _ _) Ht x ltac:(set_solver)) as Htx.
  rewrite time_sub_ok by done.
  destruct (dec_ltb len (dec_sub (time_of l) (time_of x))) eqn:E.
  - apply dec_ltb_lt in E. rewrite filter_cons_False by by apply Qclt_not_le.
    destruct U as [|y U].
    { simpl in Hl. simplify_eq. rewrite dec_sub_diag in E. by apply Qclt_not_le in E. }
    apply IH; [by inversion Hs|by inversion Ht|by rewrite last_cons_cons in Hl|done|simpl in *; lia].
  - f_equal. symmetry. apply filter_all. apply Forall_forall. intros y Hy.
    assert (time_of x <= time_of y)%Qc as Hxy.
    { apply elem_of_cons in Hy as [->|Hy]; [apply Qcle_refl|].
      unfold key_sorted in Hs. apply StronglySorted_inv in Hs as [_ Hs].
      rewrite Forall_forall in Hs. by apply Hs. }
    eapply Qcle_trans; [apply dec_sub_antitone, Hxy|].
    apply Qcnot_lt_le. intros Hlt. apply dec_ltb_lt in Hlt. congruence.
Qed.

Lemma filter_insert_right (P : rec K V → Prop) `{!∀ x, Decision (P x)} r U :
  sorted U → filter P (ins r U) = if decide (P r) then ins r (filter P U) else filter P U.
Proof.
  intros Hs. assert (sorted (filter P U)) as Hs'.
  { eapply key_sorted_sublist; [apply sublist_filter|done]. }
  rewrite insert_right_split by (done || apply _).
  rewrite filter_app, filter_cons. case_decide as Hr.
  - rewrite insert_right_split by (done || apply _). f_equal; [|f_equal]; rewrite !list_filter_filter;
      apply list_filter_iff; tauto.
  - clear Hs'. induction U as [|x U IH]; [done|]. unfold key_sorted in Hs.
    apply StronglySorted_inv in Hs as [Hs Hx]. specialize (IH Hs).
    destruct (decide (time_of x <= time_of r)%Qc) as [H1|H1].
    + rewrite (filter_cons_True (λ y, (time_of y <= time_of r)%Qc)) by done.
      rewrite (filter_cons_False (λ y, ¬ (time_of y <= time_of r)%Qc)) by tauto.
      rewrite !(filter_cons P). destruct (decide (P x)); [exact (f_equal (cons x) IH)|exact IH].
    + rewrite (filter_cons_False (λ y, (time_of y <= time_of r)%Qc)) by exact H1.
      assert (Forall (λ y, ¬ (time_of y <= time_of r)%Qc) (x :: U)) as Hall.
      { constructor; [done|]. eapply Forall_impl; [exact Hx|].
        intros y Hy Hyr. apply H1. exact (Qcle_trans _ _ _ Hy Hyr). }
      rewrite (filter_all _ _ Hall), (filter_none (λ y, (time_of y <= time_of r)%Qc) U); [done|]. by inversion Hall.
Qed.

Lemma tsort_snoc rs r : tsort (rs ++ [r]) = ins r (tsort rs).
Proof. unfold stable_sort. by rewrite foldl_app. Qed.

Lemma tsort_elem rs r : r ∈ tsort rs ↔ r ∈ rs.
Proof. by rewrite stable_sort_perm. Qed.

Lemma ins_last r U : ∃ l, last (ins r U) = Some l.
Proof.
  destruct (last (ins r U)) as [l|] eqn:E; [by exists l|]. apply last_None in E.
  pose proof (insert_right_perm time_of Qcle r U) as H. rewrite E in H.
  by apply Permutation_nil_cons in H.
Qed.

Lemma retained_sub len rs r : r ∈ retained len rs → r ∈ rs.
Proof.
  unfold retained. destruct (last _); [|by intros ?%elem_of_nil].
  intros [_ H]%list_elem_of_filter. by apply tsort_elem.
Qed.

Lemma retained_sorted len rs : sorted (retained len rs).
Proof.
  unfold retained. destruct (last _); [|constructor].
  eapply key_sorted_sublist; [apply sublist_filter|]. apply stable_sort_sorted; apply _.
Qed.

(** Inserting the new record into the retained ones moves the latest time exactly as
    inserting it into all arrivals. *)
Lemma retained_last len rs r l1 l2 :
  (Q2Qc 0 <= len)%Qc → last (ins r (retained len rs)) = Some l1 →
  last (ins r (tsort rs)) = Some l2 → time_of l1 = time_of l2.
Proof.
  intros Hlen H1 H2.
  assert (sorted (tsort rs)) as Hs by (apply stable_sort_sorted; apply _).
  assert (sorted (ins r (tsort rs))) as Hs2 by (apply insert_right_sorted; [apply _|apply _|done]).
  assert (sorted (ins r (retained len rs))) as Hs1.
  { apply insert_right_sorted; [apply _|apply _|apply retained_sorted]. }
  apply Qcle_antisym.
  - apply (sorted_last (ins r (tsort rs))); [done|done|].
    apply last_Some_elem_of in H1. rewrite insert_right_perm in H1. rewrite insert_right_perm.
    apply elem_of_cons in H1 as [->|H1]; [set_solver|]. right. apply tsort_elem.
    by eapply retained_sub.
  - pose proof (last_Some_elem_of _ _ H2) as H2'. rewrite insert_right_perm in H2'.
    assert (∀ x, x ∈ r :: retained len rs → (time_of x <= time_of l1)%Qc) as Hmax.
    { intros x Hx. apply (sorted_last _ _ x Hs1 H1). by rewrite insert_right_perm. }
    apply elem_of_cons in H2' as [->|H2']; [apply Hmax; set_solver|].
    destruct (last (tsort rs)) as [l|] eqn:El.
    + eapply Qcle_trans; [by apply (sorted_last _ _ l2 Hs El)|]. apply Hmax.
      right. unfold retained. rewrite El. apply list_elem_of_filter.
      split; [by rewrite dec_sub_diag|by apply last_Some_elem_of].
    + apply last_None in El. rewrite El in H2'. by apply elem_of_nil in H2'.
Qed.

(** One arrival: insertion and eviction turn the records retained from [rs] into
    those retained from [rs ++ [r]]. *)
Lemma retained_step len rs r :
  (Q2Qc 0 <= len)%Qc → Forall timed rs → timed r →
  ∃ U, insort_right (λ y, time_lt (event_time r) (event_time y)) r (retained len rs) = Ok U ∧
    evict (S (length U)) len U = (Ok (), retained len (rs ++ [r])).
Proof.
  intros Hlen Ht Hr. exists (ins r (retained len rs)).
  assert (sorted (tsort rs)) as Hs by (apply stable_sort_sorted; apply _).
  assert (Forall timed (ins r (retained len rs))) as Hti.
  { rewrite insert_right_perm. constructor; [done|]. apply Forall_forall. intros x Hx.
    rewrite Forall_forall in Ht. eauto using retained_sub. }
  split.
  - apply (insort_right_spec time_of Qcle); [apply _..| |apply retained_sorted].
    intros y Hy. assert (timed y) as Hty by (rewrite Forall_forall in Ht; eauto using retained_sub).
    by rewrite time_lt_ok, dec_ltb_ge.
  - destruct (ins_last r (retained len rs)) as [l1 E1]. destruct (ins_last r (tsort rs)) as [l2 E2].
    pose proof (retained_last len rs r l1 l2 Hlen E1 E2) as El.
    rewrite (evict_spec _ _ _ l1); [|apply insert_right_sorted; [apply _..|apply retained_sorted]|done|done|done|lia].
    f_equal. unfold retained at 2. rewrite tsort_snoc, E2, El.
    rewrite !filter_insert_right by (done || apply retained_sorted).
    assert (filter (λ x, (dec_sub (time_of l2) (time_of x) <= len)%Qc) (retained len rs) =
            filter (λ x, (dec_sub (time_of l2) (time_of x) <= len)%Qc) (tsort rs)) as ->; [|done].
    unfold retained. destruct (last (tsort rs)) as [l|] eqn:Elast.
    + apply list_filter_filter_l. intros x Hx. eapply Qcle_trans; [|exact Hx].
      apply dec_sub_mono, (sorted_last (ins r (tsort rs))); [apply insert_right_sorted; [apply _..|done]|done|].
      rewrite insert_right_perm. right. by apply last_Some_elem_of.
    + apply last_None in Elast. by rewrite Elast.
Qed.

Lemma retained_nonempty len rs : (Q2Qc 0 <= len)%Qc → rs ≠ [] → retained len rs ≠ [].
Proof.
  intros Hlen Hne. unfold retained. destruct (last (tsort rs)) as [l|] eqn:E.
  - intros Hnil. apply (not_elem_of_nil l). rewrite <- Hnil. apply list_elem_of_filter.
    split; [by rewrite dec_sub_diag|by apply last_Some_elem_of].
  - apply last_None in E. pose proof (stable_sort_perm time_of Qcle rs) as H. rewrite E in H.
    by apply Permutation_nil_l in H.
Qed.
End retention.

(** ** What an aggregation computes *)

(** The reference value of an aggregation over the arguments [v :: vs]. *)
Definition agg_value (t : AggregationType) (v : dec) (vs : list dec) : res dec :=
  match t with
  | MIN => Ok (foldl py_min v vs)
  | MAX => Ok (foldl py_max v vs)
  | COUNT => Ok (dec_of_Z (Z.of_nat (S (length vs))))
  | SUM => Ok (foldl dec_add v vs)
  | AVG => dec_div (foldl dec_add v vs) (dec_of_Z (Z.of_nat (S (length vs))))
  end.

Lemma py_min_spec a v : (py_min a v = a ∨ py_min a v = v) ∧ (py_min a v <= a)%Qc ∧ (py_min a v <= v)%Qc.
Proof.
  unfold py_min. destruct (dec_ltb v a) eqn:E.
  - apply dec_ltb_lt in E. split_and!; [by right|by apply Qclt_le_weak|apply Qcle_refl].
  - split_and!; [by left|apply Qcle_refl|]. apply Qcnot_lt_le. intros H%dec_ltb_lt. congruence.
Qed.

Lemma py_max_spec a v : (py_max a v = a ∨ py_max a v = v) ∧ (a <= py_max a v)%Qc ∧ (v <= py_max a v)%Qc.
Proof.
  unfold py_max. destruct (dec_ltb a v) eqn:E.
  - apply dec_ltb_lt in E. split_and!; [by right|by apply Qclt_le_weak|apply Qcle_refl].
  - split_and!; [by left|apply Qcle_refl|]. apply Qcnot_lt_le. intros H%dec_ltb_lt. congruence.
Qed.

(** Folding a selective operation that bounds its operands for a transitive relation. *)
Lemma fold_bound (op : dec → dec → dec) (R : relation dec) `{!Reflexive R, !Transitive R} v vs :
  (∀ a b, (op a b = a ∨ op a b = b) ∧ R (op a b) a ∧ R (op a b) b) →
  foldl op v vs ∈ v :: vs ∧ ∀ x, x ∈ v :: vs → R (foldl op v vs) x.
Proof.
  intros Hop. revert v. induction vs as [|y vs IH]; intros v; simpl.
  - split; [set_solver|]. intros x ->%list_elem_of_singleton. reflexivity.
  - destruct (IH (op v y)) as [Hin Hle]. destruct (Hop v y) as (Hc & H1 & H2). split.
    + apply elem_of_cons in Hin as [->|Hin]; [destruct Hc as [->| ->]; set_solver|set_solver].
    + intros x [->|[->|Hx]%elem_of_cons]%elem_of_cons; [| |apply Hle; set_solver].
      * transitivity (op v y); [apply Hle; set_solver|exact H1].
      * transitivity (op v y); [apply Hle; set_solver|exact H2].
Qed.

#[local] Instance Qcle_refl_inst : Reflexive Qcle := Qcle_refl.
#[local] Instance Qcle_trans_inst : Transitive Qcle := Qcle_trans.

Lemma fold_min_spec v vs :
  foldl py_min v vs ∈ v :: vs ∧ ∀ x, x ∈ v :: vs → (foldl py_min v vs <= x)%Qc.
Proof. apply (fold_bound py_min Qcle), py_min_spec. Qed.

Lemma fold_max_spec v vs :
  foldl py_max v vs ∈ v :: vs ∧ ∀ x, x ∈ v :: vs → (x <= foldl py_max v vs)%Qc.
Proof. apply (fold_bound py_max (flip Qcle)), py_max_spec. Qed.

Section agg_lemmas.
Context {K V : Type} (D : V → Prop).
Implicit Types (r : rec K V) (rs : list (rec K V)).

(** The argument of the aggregation is defined on the values [D]; [COUNT] takes none. *)
Definition agg_defined (f : AllAggregateFunction V) (g : V → dec) : Prop :=
  agg_type f = COUNT ∨ ∃ h, agg_on_func f = Some h ∧ ∀ v, D v → h v = Ok (g v).
Definition valued r : Prop := D (r_value r).

Lemma call_on_ok (f : AllAggregateFunction V) g r :
  agg_type f ≠ COUNT → agg_defined f g → valued r → call_on f r = Ok (g (r_value r)).
Proof. intros Ht [?|(h & Eh & Hh)] Hr; [done|]. unfold call_on. by rewrite Eh, Hh. Qed.

(** [add] on the accumulators an aggregation goes through. *)
Definition acc_of (t : AggregationType) (n : Z) (x a : dec) : acc :=
  match t with
  | COUNT => [(COUNT, dec_of_Z n)]
  | AVG => [(COUNT, dec_of_Z n); (SUM, x); (AVG, a)]
  | t => [(t, x)]
  end.

Definition agg_op (t : AggregationType) : dec → dec → dec :=
  match t with MIN => py_min | MAX => py_max | _ => dec_add end.

Ltac add_tac f g r Ht := unfold add; rewrite Ht;
  cbv -[call_on dec_add dec_of_Z dec_div py_min py_max r_value];
  rewrite ?(call_on_ok f g r) by (done || by rewrite Ht);
  cbv -[dec_add dec_of_Z dec_div py_min py_max r_value].

Lemma add_first (f : AllAggregateFunction V) g r a :
  agg_defined f g → valued r → dec_div (g (r_value r)) (dec_of_Z 1) = Ok a →
  add f r [] = Ok (acc_of (agg_type f) 1 (g (r_value r)) a).
Proof. intros Hg Hr Ha. destruct (agg_type f) eqn:Ht; add_tac f g r Ht; [done..|]. by rewrite Ha. Qed.

Lemma add_next (f : AllAggregateFunction V) g r n x a a' :
  agg_defined f g → valued r → (0 < n)%Z → (n + 1 < 10 ^ prec)%Z →
  dec_div (dec_add x (g (r_value r))) (dec_of_Z (n + 1)) = Ok a' →
  add f r (acc_of (agg_type f) n x a)
  = Ok (acc_of (agg_type f) (n + 1) (agg_op (agg_type f) x (g (r_value r))) a').
Proof.
  intros Hg Hr Hn Hb Ha. destruct (agg_type f) eqn:Ht; unfold acc_of, agg_op; add_tac f g r Ht; try done.
  - by rewrite dec_add_Z by lia.
  - rewrite dec_add_Z by lia. by rewrite Ha.
Qed.

Lemma apply_tail (f : AllAggregateFunction V) g rs n x a :
  agg_defined f g → Forall valued rs → (0 < n)%Z → (n + Z.of_nat (length rs) < 10 ^ prec)%Z →
  (agg_type f = AVG → dec_div x (dec_of_Z n) = Ok a) →
  let x' := foldl (agg_op (agg_type f)) x (map (g ∘ r_value) rs) in
  let n' := (n + Z.of_nat (length rs))%Z in
  ∃ a', foldR (λ a r, add f r a) (acc_of (agg_type f) n x a) rs = Ok (acc_of (agg_type f) n' x' a') ∧
    (agg_type f = AVG → dec_div x' (dec_of_Z n') = Ok a').
Proof.
  intros Hg Hv. revert n x a. induction Hv as [|r rs Hr Hv IH]; intros n x a Hn Hb Ha; cbn zeta.
  { exists a. simpl. by rewrite Z.add_0_r. }
  cbn [length] in Hb. destruct (dec_div_pos (dec_add x (g (r_value r))) (n + 1)) as [a1 E1]; [lia|].
  cbn [foldR]. rewrite (add_next f g r n x a a1) by (done || lia). cbn [mbind res_bind].
  destruct (IH (n + 1)%Z (agg_op (agg_type f) x (g (r_value r))) a1) as (a' & E & E'); [lia|lia| |].
  { intros Ht. rewrite Ht in *. exact E1. }
  exists a'. cbn [length map foldl].
  replace (n + Z.of_nat (S (length rs)))%Z with (n + 1 + Z.of_nat (length rs))%Z by lia. done.
Qed.

Lemma apply_spec (f : AllAggregateFunction V) g r rs :
  agg_defined f g → Forall valued (r :: rs) → (Z.of_nat (S (length rs)) < 10 ^ prec)%Z →
  ∃ a v, apply f (r :: rs) = Ok a ∧ dget a (agg_type f) = Some v ∧
    agg_value (agg_type f) (g (r_value r)) (map (g ∘ r_value) rs) = Ok v.
Proof.
  intros Hg Hv Hb. inv Hv as [|?? Hr Hrs]. destruct (dec_div_pos (g (r_value r)) 1) as [a0 E0]; [lia|].
  destruct (apply_tail f g rs 1 (g (r_value r)) a0) as (a' & E & E'); [done|done|lia|lia|done|].
  unfold apply, create_accumulator. cbn [foldR].
  rewrite (add_first f g r a0) by done. cbn [mbind res_bind]. rewrite E.
  replace (1 + Z.of_nat (length rs))%Z with (Z.of_nat (S (length rs))) in * by lia.
  destruct (agg_type f); eexists _, _; (split_and!; [done|done|]); cbn [agg_value]; rewrite ?length_map; auto.
Qed.
End agg_lemmas.

(** ** Refinement: the operator computes the aggregates of the retained records *)

Section refinement.
Context {K V : Type} (D : V → Prop).
Implicit Types (r : rec K V) (rs hist : list (rec K V)) (w : Window K V).

(** The argument an aggregation takes from a value. *)
Definition agg_arg (f : AllAggregateFunction V) (v : V) : dec :=
  match agg_on_func f with
  | Some h => match h v with Ok x => x | Raise _ => Q2Qc 0 end
  | None => Q2Qc 0
  end.

(** A window as [create_window] makes it, with an aggregation that is defined. *)
Record window_ok w : Prop := {
  wo_empty : w_records w = [];
  wo_len : (Q2Qc 0 <= length_s w)%Qc;
  wo_type : w_agg_type w = agg_type (window_func w);
  wo_arg : agg_defined D (window_func w) (agg_arg (window_func w));
}.

(** The window after the arrivals [rs] of its key. *)
Definition win_of rs w : Window K V := set_records (retained (length_s w) rs) w.

(** The aggregate of one window after the arrivals [rs]. *)
Definition spec_agg rs w : res dec :=
  match retained (length_s w) rs with
  | [] => Raise KeyError
  | r :: rest => let g := agg_arg (window_func w) ∘ r_value in
                 agg_value (w_agg_type w) (g r) (map g rest)
  end.

Definition spec_aggs rs (ws : list (Window K V)) : res (dict string dec) :=
  mapR (λ w, v ← spec_agg rs w; Ok (w_name w, v)) ws.

Definition key_arrivals `{!EqDecision K} (k : K) hist : list (rec K V) := filter (λ r, r_key r = Some k) hist.

Lemma retained_length len rs : length (retained len rs) ≤ length rs.
Proof.
  unfold retained. destruct (last _); [|simpl; lia].
  rewrite <- (Permutation_length (stable_sort_perm time_of Qcle rs)).
  apply sublist_length, sublist_filter.
Qed.

Lemma process_window_ok w rs r aggs :
  window_ok w → Forall timed rs → timed r → Forall (valued D) rs → valued D r → (Z.of_nat (length rs) + 1 < 10 ^ prec)%Z →
  w_name w ∉ dkeys aggs →
  ∃ v, spec_agg (rs ++ [r]) w = Ok v ∧
    process_window r aggs (win_of rs w) = (Ok (aggs ++ [(w_name w, v)]), win_of (rs ++ [r]) w).
Proof.
  intros [_ Hlen Hty Hg] Ht Hr Hvs Hv Hb Hn.
  destruct (retained_step (length_s w) rs r Hlen Ht Hr) as (U & EU & Eev).
  pose proof (retained_nonempty (length_s w) (rs ++ [r]) Hlen ltac:(by destruct rs)) as Hne.
  pose proof (retained_length (length_s w) (rs ++ [r])) as Hrl.
  rewrite length_app in Hrl. simpl in Hrl.
  unfold process_window, spec_agg. cbn [win_of set_records w_records length_s]. rewrite EU, Eev.
  destruct (retained (length_s w) (rs ++ [r])) as [|x rest] eqn:Er; [done|].
  destruct (apply_spec D (window_func w) _ x rest Hg) as (a & v & Ea & Ev & Espec).
  { rewrite <- Er. apply Forall_forall. intros y Hy%retained_sub. rewrite Forall_forall in Hvs.
    apply elem_of_app in Hy as [Hy|Hy%list_elem_of_singleton]; [by apply Hvs|by subst]. }
  { simpl in Hrl. lia. }
  exists v. rewrite Hty. split; [exact Espec|].
  cbn [mbind res_bind win_of set_records w_name window_func w_records w_agg_type].
  unfold dmem. rewrite (proj2 (dget_None aggs (w_name w))) by done. rewrite Ea.
  cbn [mbind res_bind]. unfold dgetitem. rewrite Hty, Ev. cbn [mbind res_bind from_option_exn].
  rewrite dset_app_new by done. f_equal. unfold win_of, set_records. simpl. by rewrite Er.
Qed.

Lemma process_windows_ok ws rs r aggs :
  Forall window_ok ws → Forall timed rs → timed r → Forall (valued D) rs → valued D r → (Z.of_nat (length rs) + 1 < 10 ^ prec)%Z →
  NoDup (dkeys aggs ++ map w_name ws) →
  ∃ out, spec_aggs (rs ++ [r]) ws = Ok out ∧
    process_windows r aggs (map (win_of rs) ws) = (Ok (aggs ++ out), map (win_of (rs ++ [r])) ws).
Proof.
  intros Hws Ht Hr Hvs Hv Hb. revert aggs. induction Hws as [|w ws Hw Hws IH]; intros aggs Hnd.
  { exists []. simpl. by rewrite app_nil_r. }
  cbn [map] in Hnd. destruct (process_window_ok w rs r aggs Hw Ht Hr Hvs Hv Hb) as (v & Ev & Ep).
  { apply NoDup_app in Hnd as (_ & Hd & _). intros Hin. apply (Hd _ Hin). set_solver. }
  destruct (IH (aggs ++ [(w_name w, v)])) as (out & Eo & Epo).
  { unfold dkeys. rewrite fmap_app. simpl. by rewrite <- (assoc_L (++)). }
  exists ((w_name w, v) :: out). unfold spec_aggs in *. cbn [mapR map process_windows].
  rewrite Ev. cbn [mbind res_bind]. rewrite Eo. split; [done|]. rewrite Ep, Epo.
  by rewrite <- (assoc_L (++)).
Qed.

Lemma process_windows_app r aggs ws1 ws2 aggs' ws1' :
  process_windows r aggs ws1 = (Ok aggs', ws1') →
  process_windows r aggs (ws1 ++ ws2) =
  let '(x, ws2') := process_windows r aggs' ws2 in (x, ws1' ++ ws2').
Proof.
  revert aggs ws1'. induction ws1 as [|w ws1 IH]; intros aggs ws1' E; simpl in E.
  { simplify_eq. simpl. by destruct (process_windows r aggs' ws2). }
  simpl. destruct (process_window r aggs w) as [[a|] w'] eqn:Ew; [|done].
  destruct (process_windows r a ws1) as [x ws'] eqn:E1. simplify_eq.
  rewrite (IH _ _ E1). by destruct (process_windows r aggs' ws2).
Qed.

Lemma spec_aggs_keys rs ws out : spec_aggs rs ws = Ok out → dkeys out = map w_name ws.
Proof.
  revert out. induction ws as [|w ws IH]; intros out E; unfold spec_aggs in E; simpl in E; inv_res; [done|].
  simpl. f_equal. by apply IH.
Qed.

Lemma process_window_dup w rs r aggs :
  window_ok w → Forall timed rs → timed r → w_name w ∈ dkeys aggs →
  process_window r aggs (win_of rs w)
  = (Raise (RuntimeError "Duplicate window names"), win_of (rs ++ [r]) w).
Proof.
  intros [_ Hlen _ _] Ht Hr Hn.
  destruct (retained_step (length_s w) rs r Hlen Ht Hr) as (U & EU & Eev).
  unfold process_window. cbn [win_of set_records w_records length_s]. rewrite EU, Eev.
  cbn [mbind res_bind win_of set_records w_name]. by rewrite (proj2 (dmem_elem _ _)).
Qed.

Lemma map_win_of_nil ws : Forall window_ok ws → map (win_of []) ws = ws.
Proof. induction 1 as [|w ws [He _ _ _] Hws IH]; simpl; [done|]. rewrite IH. destruct w; simpl in He; by subst. Qed.

Context {Out : Type} `{!EqDecision K}.
Context (agg_str : AggregationType → string) (of_aggs : dict string dec → Out).

(** The operator's state after the arrivals [hist]. *)
Record op_inv (ws : list (Window K V)) hist (op : MultiWindowOperator K V Out) : Prop := {
  oi_create : _create_windows agg_str op = Ok ws;
  oi_windows : ∀ k, dget (windows_per_key op) k =
    match key_arrivals k hist with [] => None | rs => Some (map (win_of rs) ws) end;
}.

Lemma key_arrivals_snoc k hist r :
  key_arrivals k (hist ++ [r]) =
  if decide (r_key r = Some k) then key_arrivals k hist ++ [r] else key_arrivals k hist.
Proof.
  unfold key_arrivals. rewrite filter_app, filter_cons. case_decide; simpl; [done|].
  by rewrite app_nil_r.
Qed.

Lemma process_element_ok ws hist op r k :
  op_inv ws hist op → Forall window_ok ws → NoDup (map w_name ws) →
  Forall timed hist → timed r → Forall (valued D) hist → valued D r → r_key r = Some k → (Z.of_nat (length hist) + 1 < 10 ^ prec)%Z →
  ∃ aggs op', spec_aggs (key_arrivals k (hist ++ [r])) ws = Ok aggs ∧
    process_element agg_str of_aggs r op = (form_output of_aggs op aggs r, op') ∧
    op_inv ws (hist ++ [r]) op' ∧ configs op' = configs op ∧ output_func op' = output_func op.
Proof.
  intros [Hc Hw] Hws Hnd Ht Hr Hvs Hv Hk Hb. set (rs := key_arrivals k hist).
  destruct (process_windows_ok ws rs r [] Hws) as (aggs & Ea & Ep).
  { unfold rs, key_arrivals. apply Forall_forall. intros x [_ Hx]%list_elem_of_filter.
    rewrite Forall_forall in Ht. auto. }
  { done. }
  { unfold rs, key_arrivals. apply Forall_forall. intros x [_ Hx]%list_elem_of_filter.
    rewrite Forall_forall in Hvs. auto. }
  { done. }
  { unfold rs, key_arrivals. pose proof (length_filter (λ r, r_key r = Some k) hist). lia. }
  { done. }
  exists aggs, (set_windows k (map (win_of (rs ++ [r])) ws) op).
  rewrite key_arrivals_snoc, decide_True by done. split_and!; [done| | |done|done].
  - unfold process_element. rewrite Hk, Hw. fold rs.
    pose proof (map_win_of_nil ws Hws) as Hnil.
    destruct rs as [|x rs'] eqn:Ers.
    + rewrite Hc. rewrite Hnil in Ep. rewrite Ep. done.
    + rewrite Ep. done.
  - split; [exact Hc|]. intros k'. unfold set_windows. cbn [windows_per_key].
    rewrite dget_dset, key_arrivals_snoc, Hk. destruct (decide (k' = k)) as [->|Hne].
    + rewrite decide_True by done. fold rs. by destruct rs.
    + rewrite decide_False by congruence. apply Hw.
Qed.
End refinement.

Section op_runs.
Context {K V Out : Type} `{!EqDecision K} (D : V → Prop).
Context (agg_str : AggregationType → string) (of_aggs : dict string dec → Out).
Implicit Types (r : rec K V) (rs hist : list (rec K V)) (op : MultiWindowOperator K V Out).

Lemma created_window_ok (c : SlidingWindowConfig V) (w : Window K V) :
  create_window agg_str c = Ok w →
  (c_agg_type c = COUNT ∨ ∃ h, c_agg_on_func c = Some h ∧ ∀ v, D v → is_ok (h v) = true) →
  window_ok D w.
Proof.
  unfold create_window. intros E Hf. inv_res. split; simpl; [done| |done|].
  - by eapply duration_to_s_nonneg.
  - destruct Hf as [?|(h & Eh & Hh)]; [by left|]. right. exists h. split; [done|].
    intros v Hv. unfold agg_arg. simpl. rewrite Eh. specialize (Hh v Hv). by destruct (h v).
Qed.

Lemma mapR_Forall {A B} (f : A → res B) (P : A → Prop) (Q : B → Prop) l k :
  (∀ x y, P x → f x = Ok y → Q y) → Forall P l → mapR f l = Ok k → Forall Q k.
Proof.
  intros Hf Hl. revert k. induction Hl as [|x l Hx Hl IH]; intros k E; simpl in E; inv_res; [done|].
  constructor; eauto.
Qed.

Lemma process_all_ok ws emit : Forall (window_ok D) ws → NoDup (map w_name ws) →
  ∀ rs hist op,
  op_inv agg_str ws hist op →
  (∀ aggs r, r ∈ rs → dkeys aggs = map w_name ws → form_output of_aggs op aggs r = Ok (emit aggs r)) →
  Forall timed (hist ++ rs) → Forall (valued D) (hist ++ rs) → Forall (λ r, is_Some (r_key r)) rs →
  (Z.of_nat (length (hist ++ rs)) < 10 ^ prec)%Z →
  ∃ outs op', process_all agg_str of_aggs rs op = (Ok outs, op') ∧
    op_inv agg_str ws (hist ++ rs) op' ∧ length outs = length rs ∧
    ∀ i r k, rs !! i = Some r → r_key r = Some k →
      ∃ aggs, spec_aggs (key_arrivals k (hist ++ take (S i) rs)) ws = Ok aggs ∧
        outs !! i = Some (emit aggs r).
Proof.
  intros Hws Hnd rs. induction rs as [|r rs IH]; intros hist op Hop Hemit Ht Hv Hk Hb; simpl.
  { eexists [], op. rewrite app_nil_r. split_and!; [done|done|done|]. intros i ???. by destruct i. }
  apply Forall_app in Ht as [Hth Htr]. apply Forall_cons in Htr as [Hr Htr].
  apply Forall_app in Hv as [Hvh Hvr]. apply Forall_cons in Hvr as [Hvx Hvr].
  apply Forall_cons in Hk as [[k Ek] Hk]. rewrite length_app in Hb. simpl length in Hb.
  destruct (process_element_ok D agg_str of_aggs ws hist op r k Hop Hws Hnd Hth Hr Hvh Hvx Ek)
    as (aggs & op1 & Ea & Ep & Hop1 & Hc1 & Ho1); [lia|].
  destruct (IH (hist ++ [r]) op1) as (outs & op2 & E2 & Hop2 & Hl & Hout); [done|..].
  { intros a x Hx Ha. rewrite <- (Hemit a x) by (done || by right). unfold form_output. by rewrite Ho1. }
  { rewrite <- (assoc_L (++)). apply Forall_app. split; [done|]. by constructor. }
  { rewrite <- (assoc_L (++)). apply Forall_app. split; [done|]. by constructor. }
  { done. }
  { rewrite !length_app. simpl length. lia. }
  exists (emit aggs r :: outs), op2. unfold mbind, M_bind.
  rewrite Ep, Hemit, E2 by (by left || by eapply spec_aggs_keys).
  rewrite <- (assoc_L (++)) in Hop2. split_and!; [done|done|simpl; by rewrite Hl|].
  intros [|i] x k' Hx Hk'; simplify_eq/=.
  - exists aggs. assert (take 0 rs = []) as -> by done. done.
  - destruct (Hout i x k' Hx Hk') as (a & Eaa & Eo). exists a. split; [|done].
    by rewrite <- (assoc_L (++)) in Eaa.
Qed.
End op_runs.

(** ** Properties *)

(** C10. Refinement of the multi-window operator: after any sequence of keyed, timestamped
    records (in any order of event time), the [i]-th output carries, for every
    configured window, the aggregate over exactly those records of the same key
    that arrived up to then and lie within the window's duration of the latest
    event time, whatever was evicted earlier. *)
Theorem multi_window_refines {K V Out} `{EqDecision K} (agg_str : AggregationType → string)
    (of_aggs : dict string dec → Out) (cs : list (SlidingWindowConfig V)) ofunc emit
    (rs : list (rec K V)) (ws : list (Window K V)) :
  let op := new_MultiWindowOperator cs ofunc in
  _create_windows agg_str op = Ok ws →
  Forall (λ c, c_agg_type c = COUNT ∨ ∃ h, c_agg_on_func c = Some h ∧ ∀ r, r ∈ rs → is_ok (h (r_value r)) = true) cs →
  NoDup (map w_name ws) →
  (∀ aggs r, r ∈ rs → dkeys aggs = map w_name ws → form_output of_aggs op aggs r = Ok (emit aggs r)) →
  Forall timed rs → Forall (λ r, is_Some (r_key r)) rs →
  (Z.of_nat (length rs) < 10 ^ prec)%Z →
  ∃ outs op', process_all agg_str of_aggs rs op = (Ok outs, op') ∧ length outs = length rs ∧
    ∀ i r k, rs !! i = Some r → r_key r = Some k →
      ∃ aggs, spec_aggs (key_arrivals k (take (S i) rs)) ws = Ok aggs ∧
        outs !! i = Some (emit aggs r).
Proof.
  cbn zeta. intros Hc Hdef Hnd Hemit Ht Hk Hb.
  set (D := λ v, ∃ r, r ∈ rs ∧ r_value r = v).
  assert (Forall (window_ok D) ws) as Hws.
  { eapply mapR_Forall; [|exact Hdef|exact Hc]. intros c w Hc' Ew. eapply created_window_ok; [exact Ew|].
    destruct Hc' as [?|(h & Eh & Hh)]; [by left|right]. exists h. split; [done|]. intros v (r & Hr & <-). by apply Hh. }
  destruct (process_all_ok D agg_str of_aggs ws emit Hws Hnd rs [] (new_MultiWindowOperator cs ofunc))
    as (outs & op' & E & _ & Hl & Hout); [by split|done|done| |done|done|].
  { apply Forall_forall. intros r Hr. exists r. done. }
  exists outs, op'. done.
Qed.

(** An aggregation over a non-empty window is what its name says: the exact count,
    a minimum (maximum) attained in the window, the decimal sum in window order,
    and for the average that sum divided by the count. *)
Theorem apply_computes {K V} (f : AllAggregateFunction V) (r : rec K V) rs :
  agg_defined (λ v, v ∈ map r_value (r :: rs)) f (agg_arg f) → (Z.of_nat (S (length rs)) < 10 ^ prec)%Z →
  ∃ a v, apply f (r :: rs) = Ok a ∧ dget a (agg_type f) = Some v ∧
    let vs := map (agg_arg f ∘ r_value) (r :: rs) in
    match agg_type f with
    | COUNT => v = dec_of_Z (Z.of_nat (length (r :: rs)))
    | MIN => v ∈ vs ∧ ∀ x, x ∈ vs → (v <= x)%Qc
    | MAX => v ∈ vs ∧ ∀ x, x ∈ vs → (x <= v)%Qc
    | SUM => v = foldl dec_add (agg_arg f (r_value r)) (map (agg_arg f ∘ r_value) rs)
    | AVG => dec_div (foldl dec_add (agg_arg f (r_value r)) (map (agg_arg f ∘ r_value) rs))
               (dec_of_Z (Z.of_nat (length (r :: rs)))) = Ok v
    end.
Proof.
  intros Hg Hb. destruct (apply_spec _ f _ r rs Hg) as (a & v & Ea & Ev & Es); [|done|].
  { apply Forall_forall. intros x Hx. by apply (list_elem_of_fmap_2 r_value). }
  exists a, v. split; [done|]. split; [done|]. cbn zeta.
  change (map (agg_arg f ∘ r_value) (r :: rs))
    with (agg_arg f (r_value r) :: map (agg_arg f ∘ r_value) rs).
  destruct (agg_type f); cbn [agg_value] in Es; try (injection Es as <-).
  - apply fold_max_spec.
  - apply fold_min_spec.
  - by rewrite length_map.
  - done.
  - by rewrite length_map in Es.
Qed.

(** Two windows with one name make every record raise; the record still stays in
    the windows up to and including the duplicate. *)
Theorem duplicate_names_raise {K V Out} `{EqDecision K} (agg_str : AggregationType → string)
    (of_aggs : dict string dec → Out) (op : MultiWindowOperator K V Out) (r : rec K V) k ws1 w1 ws2 w2 ws3 :
  r_key r = Some k → timed r → dget (windows_per_key op) k = None →
  _create_windows agg_str op = Ok (ws1 ++ w1 :: ws2 ++ w2 :: ws3) →
  Forall (window_ok (λ v, v = r_value r)) (ws1 ++ w1 :: ws2 ++ w2 :: ws3) →
  NoDup (map w_name (ws1 ++ w1 :: ws2)) → w_name w2 = w_name w1 →
  ∃ op', process_element agg_str of_aggs r op
      = (Raise (RuntimeError "Duplicate window names"), op') ∧
    dget (windows_per_key op') k
      = Some (map (win_of [r]) (ws1 ++ w1 :: ws2 ++ [w2]) ++ ws3).
Proof.
  intros Hk Ht Hd Hc Hws Hnd Hname.
  assert (ws1 ++ w1 :: ws2 ++ w2 :: ws3 = (ws1 ++ w1 :: ws2) ++ w2 :: ws3) as Eapp
    by by rewrite <- (assoc_L (++)).
  pose proof Hws as Hws'. rewrite Eapp in Hws'. apply Forall_app in Hws' as [Hpre Hrest].
  apply Forall_cons in Hrest as [Hw2 _].
  destruct (process_windows_ok _ (ws1 ++ w1 :: ws2) [] r [] Hpre) as (out & Eo & Ep); [done..|].
  rewrite (map_win_of_nil _ _ Hpre) in Ep. simpl in Ep, Eo.
  pose proof (process_window_dup _ w2 [] r out Hw2 ltac:(done) Ht) as Edup.
  unfold process_element. rewrite Hk, Hd, Hc, Eapp.
  rewrite (process_windows_app _ _ _ _ _ _ Ep). cbn [process_windows].
  assert (win_of [] w2 = w2) as E2.
  { pose proof (map_win_of_nil _ [w2] (Forall_cons_2 _ _ _ Hw2 (Forall_nil_2 _))) as H2. by injection H2. }
  rewrite E2 in Edup. rewrite Edup.
  2: { rewrite (spec_aggs_keys _ _ _ Eo), Hname, map_app. set_solver. }
  eexists. split; [reflexivity|]. cbn [windows_per_key set_windows]. rewrite dget_dset_eq.
  f_equal. repeat (rewrite ?map_app, <- ?app_assoc; simpl). done.
Qed.

(** A record without event time (as a flat map emits them) is refused with a
    [TypeError] by every non-empty window configuration, but it is already
    inserted into the first window when the exception is raised. *)
Theorem untimed_record_raises {K V Out} `{EqDecision K} (agg_str : AggregationType → string)
    (of_aggs : dict string dec → Out) (op : MultiWindowOperator K V Out) (r : rec K V) k w ws :
  r_key r = Some k → event_time r = None → dget (windows_per_key op) k = None →
  _create_windows agg_str op = Ok (w :: ws) → w_records w = [] →
  ∃ op', process_element agg_str of_aggs r op = (Raise TypeError, op') ∧
    dget (windows_per_key op') k = Some (set_records [r] w :: ws).
Proof.
  intros Hk Ht Hd Hc Hw. unfold process_element. rewrite Hk, Hd, Hc.
  cbn [process_windows]. unfold process_window. rewrite Hw. simpl. rewrite Ht. simpl.
  eexists. split; [reflexivity|]. simpl. by rewrite dget_dset_eq.
Qed.

(** ** Witnesses *)

Definition ex_agg_str (t : AggregationType) : string :=
  match t with MAX => "max" | MIN => "min" | COUNT => "count" | SUM => "sum" | AVG => "avg" end.
Definition ex_event (k v ts : Z) : rec Z Z := new_KeyRecord k v (Some (TDecimal (dec_of_Z ts))) None.
Definition ex_configs : list (SlidingWindowConfig Z) :=
  [mkConfig "10s" SUM (Some (λ v, Ok (dec_of_Z v))) None; mkConfig "1m" COUNT None (Some "cnt")].
Definition ex_op : MultiWindowOperator Z Z (dict string dec) := new_MultiWindowOperator ex_configs None.
Definition ex_events : list (rec Z Z) :=
  [ex_event 1 5 100; ex_event 2 7 101; ex_event 1 6 120; ex_event 1 1 112].
Definition ok_or {A} (d : A) (r : res A) : A := match r with Ok a => a | Raise _ => d end.
Definition ex_windows : list (Window Z Z) := ok_or [] (_create_windows ex_agg_str ex_op).

Lemma ex_windows_created : _create_windows ex_agg_str ex_op = Ok ex_windows.
Proof. reflexivity. Qed.

Lemma multi_window_refines_witness :
  ∃ outs op', process_all ex_agg_str id ex_events ex_op = (Ok outs, op') ∧ length outs = 4 ∧
    ∀ i r k, ex_events !! i = Some r → r_key r = Some k →
      ∃ aggs, spec_aggs (key_arrivals k (take (S i) ex_events)) ex_windows = Ok aggs ∧
        outs !! i = Some (new_Record aggs (event_time r) None).
Proof.
  apply (multi_window_refines ex_agg_str id ex_configs None (λ a r, new_Record a (event_time r) None)
           ex_events ex_windows).
  - apply ex_windows_created.
  - constructor; [right|constructor; [by left|done]].
    eexists. split; [reflexivity|]. intros v. reflexivity.
  - apply (bool_decide_unpack _). reflexivity.
  - intros aggs r. reflexivity.
  - repeat constructor; by eexists.
  - repeat constructor; eexists; reflexivity.
  - reflexivity.
Defined.

Lemma apply_computes_witness :
  ∃ a v, apply (mkAgg MIN (Some (λ v, Ok (dec_of_Z v)))) [ex_event 1 5 1; ex_event 1 3 2] = Ok a ∧
    dget a MIN = Some v ∧ v ∈ [dec_of_Z 5; dec_of_Z 3] ∧
    ∀ x, x ∈ [dec_of_Z 5; dec_of_Z 3] → (v <= x)%Qc.
Proof.
  apply (apply_computes (mkAgg MIN (Some (λ v, Ok (dec_of_Z v)))) (ex_event 1 5 1) [ex_event 1 3 2]).
  - right. eexists. split; [reflexivity|]. intros v. reflexivity.
  - reflexivity.
Defined.

Definition ex_dup_op : MultiWindowOperator Z Z (dict string dec) :=
  new_MultiWindowOperator [mkConfig "1m" COUNT None (Some "c"); mkConfig "2m" COUNT None (Some "c")] None.

Definition ex_dup_windows : list (Window Z Z) := ok_or [] (_create_windows ex_agg_str ex_dup_op).
Definition ex_no_window : Window Z Z := mkWindow [] (Q2Qc 0) (mkAgg COUNT None) "" COUNT.
Definition ex_dup_1 : Window Z Z := nth 0 ex_dup_windows ex_no_window.
Definition ex_dup_2 : Window Z Z := nth 1 ex_dup_windows ex_no_window.

Lemma duplicate_names_raise_witness :
  ∃ op', process_element ex_agg_str id (ex_event 1 5 100) ex_dup_op
      = (Raise (RuntimeError "Duplicate window names"), op') ∧
    dget (windows_per_key op') 1%Z = Some (map (win_of [ex_event 1 5 100]) [ex_dup_1; ex_dup_2]).
Proof.
  apply (duplicate_names_raise ex_agg_str id ex_dup_op (ex_event 1 5 100) 1%Z [] ex_dup_1 [] ex_dup_2 []).
  - reflexivity.
  - by eexists.
  - reflexivity.
  - reflexivity.
  - repeat constructor; simpl; try (by vm_compute); by left.
  - apply (bool_decide_unpack _). reflexivity.
  - reflexivity.
Defined.

Lemma untimed_record_raises_witness :
  ∃ op', process_element ex_agg_str id (new_KeyRecord 1 5 None None)%Z ex_op = (Raise TypeError, op') ∧
    dget (windows_per_key op') 1%Z
      = Some (set_records [new_KeyRecord 1 5 None None]%Z (nth 0 ex_windows ex_no_window)
          :: tail ex_windows).
Proof.
  apply (untimed_record_raises ex_agg_str id ex_op (new_KeyRecord 1 5 None None)%Z 1%Z); reflexivity.
Defined.
