(* ===== verification/Stats.v ===== *)
(** * Worker and job statistics
    ([volga/streaming/runtime/master/stats/hist.py], [stats_manager.py],
     [volga/streaming/common/utils.py])

    A worker's statistics own their histograms, so a histogram is its ordered
    dictionary there.  On the job side [Hist.merge] writes into the dictionary of
    its first argument and returns an object that shares it, so there a [Hist]
    is a reference into a store of dictionaries.  Float results are modelled by
    the rational they approximate. *)

From S2P Require Import Prelude PyDict.

(** [int(ms/1000)] *)
Definition ms_to_s (ms : Z) : Z := Z.quot ms 1000.

(** [collection_chunk_at_index(vals, num_chunks, chunk_index)] for a non-negative index *)
Definition ceil_div (a b : nat) : nat := (a + b - 1) / b.
Definition collection_chunk_at_index {A} (vals : list A) (num_chunks chunk_index : nat)
    : res (list A) :=
  if decide (num_chunks = 0) then Raise ZeroDivisionError else
  let length_ := ceil_div (length vals) num_chunks in
  let start := chunk_index * length_ in
  let end_ := min (length vals) (start + length_) in
  Ok (py_slice vals start end_).

(** ** [Hist] *)

Definition new_hist (buckets : list Z) : res (dict Z Z) :=
  if decide (stable_sort id Z.le buckets = buckets)
  then Ok (foldl (λ h b, dset h b 0%Z) [] buckets)
  else Raise AssertionError.

(** [self.hist[b] += n] *)
Definition incr (h : dict Z Z) (b n : Z) : res (dict Z Z) :=
  c ← dgetitem h b; Ok (dset h b (c + n)%Z).

Fixpoint observe_loop (value prev : Z) (buckets : list Z) (h : dict Z Z) : res (dict Z Z) :=
  match buckets with
  | [] => Raise (RuntimeError "Unable to find a bucket for value")
  | cur :: rest =>
      if decide (prev < value ∧ value <= cur)%Z then incr h cur 1
      else if decide (rest = [] ∧ value > cur)%Z then incr h cur 1
      else observe_loop value cur rest h
  end.

Definition observe (buckets : list Z) (value : Z) (h : dict Z Z) : res (dict Z Z) :=
  if decide (value < 0)%Z then Raise (RuntimeError "Values are expected to be greater than zero")
  else if decide (value = 0)%Z then
    b ← py_index buckets 0; incr h b 1
  else observe_loop value 0 buckets h.

(** [b = np.cumsum(vals)/np.sum(vals) * 100], [len(b[b <= p])]; with a zero sum every
    entry is not a number and no comparison holds. *)
Fixpoint cumsum (acc : Z) (vals : list Z) : list Z :=
  match vals with [] => [] | v :: vals' => (acc + v)%Z :: cumsum (acc + v) vals' end.
Definition sumZ (vals : list Z) : Z := foldr Z.add 0%Z vals.
Definition bucket_index (vals : list Z) (p : Z) : nat :=
  let total := sumZ vals in
  if decide (total = 0)%Z then 0
  else length (filter (λ c, (c * 100 <= p * total)%Z) (cumsum 0 vals)).

Definition percentiles (buckets : list Z) (h : dict Z Z) (ps : list Z) : res (list Z) :=
  mapR (λ p, from_option_exn IndexError (buckets !! bucket_index (dvalues h) p)) ps.

Definition avg (h : dict Z Z) : res Q :=
  let s := sumZ (dvalues h) in
  let w := foldl (λ w kv, (w + kv.1 * kv.2)%Z) 0%Z h in
  if decide (s = 0)%Z then Raise ZeroDivisionError else Ok (inject_Z w / inject_Z s)%Q.

(** ** Worker statistics *)

Definition LATENCY_BINS_MS : list Z := map (λ i, (10 + 10 * Z.of_nat i)%Z) (seq 0 999).
Definition LATENCY_AGGREGATION_WINDOW_S : Z := 5.
Definition THROUGHPUT_AGGREGATION_WINDOW_S : Z := 2.

Record WorkerLatencyStatsState := mkLatency { latency_hists_per_s : dict Z (dict Z Z) }.
Definition init_latency : WorkerLatencyStatsState := mkLatency [].

Definition observe_latency (latency_ms ts_ms : Z) : M WorkerLatencyStatsState () := λ self,
  let s := ms_to_s ts_ms in
  match dget (latency_hists_per_s self) s with
  | Some hist =>
      match observe LATENCY_BINS_MS latency_ms hist with
      | Ok hist => (Ok (), mkLatency (dset (latency_hists_per_s self) s hist))
      | Raise e => (Raise e, self)
      end
  | None =>
      match (h ← new_hist LATENCY_BINS_MS; observe LATENCY_BINS_MS latency_ms h) with
      | Ok hist => (Ok (), mkLatency (dset (latency_hists_per_s self) s hist))
      | Raise e => (Raise e, self)
      end
  end.

Definition collect_latency : M WorkerLatencyStatsState (dict Z (dict Z Z)) := λ self,
  (Ok (latency_hists_per_s self), mkLatency []).

Record WorkerThroughputStatsState := mkThroughput {
  num_messages_per_s : dict Z Z;
  cur_bucket_id : Z;
  cur_bucket_val : Z;
}.
Definition create_throughput : WorkerThroughputStatsState := mkThroughput [] (-1) 0.

(** [inc()] at wall clock [now_ms] *)
Definition inc (now_ms : Z) (self : WorkerThroughputStatsState) : WorkerThroughputStatsState :=
  let s := ms_to_s now_ms in
  let id := if decide (cur_bucket_id self < 0)%Z then s else cur_bucket_id self in
  if decide (id = s) then mkThroughput (num_messages_per_s self) id (cur_bucket_val self + 1)
  else mkThroughput (dset (num_messages_per_s self) id (cur_bucket_val self)) s 1.

Definition collect_throughput (self : WorkerThroughputStatsState)
    : dict Z Z * WorkerThroughputStatsState :=
  (num_messages_per_s self, mkThroughput [] (cur_bucket_id self) (cur_bucket_val self)).

(** ** Job statistics *)

Section job.
Record Hist := mkHist { h_buckets : list Z; h_loc : nat }.
Abbreviation heap := (gmap nat (dict Z Z)).

Definition deref (l : nat) : M heap (dict Z Z) := λ σ, (from_option_exn KeyError (σ !! l), σ).
Definition assign (l : nat) (d : dict Z Z) : M heap () := modS (<[l := d]>).

(** [h[b] += hist.hist[b]] *)
Definition add_bucket (h src : nat) (b : Z) : M heap () :=
  deref src ≫= λ ds, liftR (dgetitem ds b) ≫= λ n,
  deref h ≫= λ dh, liftR (incr dh b n) ≫= λ dh', assign h dh'.

Definition merge (hists : list Hist) : M heap Hist :=
  liftR (from_option_exn IndexError (head hists)) ≫= λ h0,
  for_each (tail hists) (λ hist,
    liftR (if decide (h_buckets h0 = h_buckets hist) then Ok () else Raise AssertionError) ≫= λ _,
    for_each (h_buckets h0) (add_bucket (h_loc h0) (h_loc hist))) ≫= λ _,
  liftR (if decide (stable_sort id Z.le (h_buckets h0) = h_buckets h0)
         then Ok (mkHist (h_buckets h0) (h_loc h0)) else Raise AssertionError).

Record JobLatencyStatsState := mkJobLatency {
  job_hists_per_s : dict Z Hist;
  aggregated_latency_stats : list (Z * (list Z * Q));
}.

(** [[x for ...]] in the store monad. *)
Fixpoint map_heap {A B} (f : A → M heap B) (l : list A) : M heap (list B) :=
  match l with
  | [] => mret []
  | x :: l' => f x ≫= λ y, map_heap f l' ≫= λ ys, mret (y :: ys)
  end.

Definition group_updates (latency_updates : list (dict Z Hist)) : dict Z (list Hist) :=
  foldl (λ g sh, dset g sh.1 (default [] (dget g sh.1) ++ [sh.2])) [] (concat latency_updates).

(** The update of the window with one merged histogram. *)
Definition window_put (w : dict Z Hist) (sh : Z * Hist) : M heap (dict Z Hist) :=
  match dget w sh.1 with
  | Some old => merge [old; sh.2] ≫= λ m, mret (dset w sh.1 m)
  | None => mret (dset w sh.1 sh.2)
  end.

Fixpoint fold_heap {A B} (f : B → A → M heap B) (b : B) (l : list A) : M heap B :=
  match l with
  | [] => mret b
  | x :: l' => f b x ≫= λ b', fold_heap f b' l'
  end.

(** [for s in secs: if secs[-1] - s > window: del d[s]] *)
Definition drop_old {A} (window : Z) (d : dict Z A) : dict Z A :=
  match last (dkeys d) with
  | None => d
  | Some l => foldl (λ d s, if decide (l - s > window)%Z then ddel d s else d) d (dkeys d)
  end.

Definition aggregate_latency (self : JobLatencyStatsState) (latency_updates : list (dict Z Hist))
    : M heap JobLatencyStatsState :=
  if decide (latency_updates = []) then mret self else
  map_heap (λ sg, merge sg.2 ≫= λ m, mret (sg.1, m)) (group_updates latency_updates) ≫= λ merged,
  fold_heap window_put (job_hists_per_s self) merged ≫= λ w,
  match last (dkeys w) with
  | None => mret (mkJobLatency w (aggregated_latency_stats self))
  | Some last_s =>
      let w := drop_old LATENCY_AGGREGATION_WINDOW_S w in
      merge (dvalues w) ≫= λ m,
      deref (h_loc m) ≫= λ d,
      liftR (percentiles (h_buckets m) d [95; 75; 50]%Z) ≫= λ aggregates,
      liftR (avg d) ≫= λ a,
      mret (mkJobLatency w (aggregated_latency_stats self ++ [(last_s, (aggregates, a))]))
  end.

Record JobThroughputStatsState := mkJobThroughput {
  job_num_messages_per_s : dict Z Z;
  aggregated_throughput : list (Z * Q);
}.

Definition add_count (d : dict Z Z) (sn : Z * Z) : dict Z Z :=
  match dget d sn.1 with
  | Some n => dset d sn.1 (n + sn.2)%Z
  | None => dset d sn.1 sn.2
  end.

Definition aggregate_throughput (self : JobThroughputStatsState) (updates : list (dict Z Z))
    : JobThroughputStatsState :=
  let merged := foldl add_count [] (concat updates) in
  let w := foldl add_count (job_num_messages_per_s self) merged in
  match last (dkeys w) with
  | None => mkJobThroughput w (aggregated_throughput self)
  | Some last_s =>
      let w := drop_old THROUGHPUT_AGGREGATION_WINDOW_S w in
      mkJobThroughput w (aggregated_throughput self ++
        [(last_s, (inject_Z (sumZ (dvalues w)) / inject_Z THROUGHPUT_AGGREGATION_WINDOW_S)%Q)])
  end.
End job.

(** ** Lemmas *)

Lemma chunk_step {A} (vals : list A) L k :
  take (k * L) vals ++ py_slice vals (k * L) (min (length vals) (k * L + L)) = take (S k * L) vals.
Proof.
  unfold py_slice. destruct (decide (k * L ≤ length vals)) as [H|H].
  - replace (min (length vals) (k * L + L) - k * L) with (min (length vals - k * L) L) by lia.
    rewrite <- length_drop, <- take_take, (firstn_all2 (n := length (drop (k * L) vals))).
    + rewrite take_take_drop. f_equal. lia.
    + rewrite length_take. lia.
  - rewrite (drop_ge vals) by lia. rewrite take_nil, app_nil_r, !take_ge by lia. done.
Qed.

Lemma chunks_concat {A} (vals : list A) L n :
  concat (map (λ k, py_slice vals (k * L) (min (length vals) (k * L + L))) (seq 0 n)) = take (n * L) vals.
Proof.
  induction n as [|n IH]; [done|]. rewrite seq_S, map_app, concat_app, IH. simpl concat.
  rewrite app_nil_r. apply chunk_step.
Qed.

Lemma ceil_div_ge a b : 0 < b → a ≤ b * ceil_div a b.
Proof.
  intros Hb. unfold ceil_div. pose proof (Nat.div_mod (a + b - 1) b ltac:(lia)) as H.
  pose proof (Nat.mod_upper_bound (a + b - 1) b ltac:(lia)). lia.
Qed.

Lemma sumZ_dset {A} `{!EqDecision A} (h : dict A Z) b c n :
  dget h b = Some c → sumZ (dvalues (dset h b n)) = (sumZ (dvalues h) - c + n)%Z.
Proof.
  unfold sumZ, dvalues. induction h as [|[b0 c0] h IH]; simpl; [done|].
  case_decide; intros; simplify_eq/=; [lia|]. rewrite IH by done. lia.
Qed.

Lemma sumZ_dset_new {A} `{!EqDecision A} (h : dict A Z) b n :
  dget h b = None → sumZ (dvalues (dset h b n)) = (sumZ (dvalues h) + n)%Z.
Proof.
  unfold sumZ, dvalues. induction h as [|[b0 c0] h IH]; simpl; [lia|].
  case_decide; intros; simplify_eq/=. rewrite IH by done. lia.
Qed.

Lemma observe_loop_spec value prev bs h :
  StronglySorted Z.lt (prev :: bs) → bs ≠ [] → (prev < value)%Z →
  (∀ b, b ∈ bs → is_Some (dget h b)) →
  ∃ b c, b ∈ bs ∧ dget h b = Some c ∧ observe_loop value prev bs h = Ok (dset h b (c + 1)%Z) ∧
    ((value <= b ∧ ∀ b', b' ∈ bs → value <= b' → b <= b') ∨
     (∀ b', b' ∈ bs → b' < value ∧ b' <= b))%Z.
Proof.
  revert prev. induction bs as [|cur rest IH]; intros prev Hs Hne Hp Hk; [done|].
  apply StronglySorted_inv in Hs as [Hs Hlt]. cbn [observe_loop]. unfold incr, dgetitem.
  destruct (Hk cur ltac:(set_solver)) as [c Hc].
  case_decide as H1; [|case_decide as H2].
  - exists cur, c. rewrite Hc. split_and!; [set_solver|done|done|]. left. split; [lia|].
    intros b' [->|Hb']%elem_of_cons Hv; [lia|].
    apply StronglySorted_inv in Hs as [_ Hf]. rewrite Forall_forall in Hf. specialize (Hf b' Hb'). lia.
  - destruct H2 as [-> H2]. exists cur, c. rewrite Hc. split_and!; [set_solver|done|done|]. right.
    intros b' ->%list_elem_of_singleton. lia.
  - assert (rest ≠ []) as Hr.
    { intros ->. apply H2. split; [done|]. lia. }
    destruct (IH cur) as (b & c' & Hb & Hc' & E & Hspec); [done|done| |set_solver|].
    { destruct (decide (cur < value)%Z); [done|]. exfalso. apply H1. lia. }
    exists b, c'. split_and!; [set_solver|done|done|].
    assert (cur < value)%Z by (destruct (decide (cur < value)%Z); [done|exfalso; apply H1; lia]).
    destruct Hspec as [[Hv Hmin]|Hall]; [left|right].
    + split; [done|]. intros b' [->|Hb']%elem_of_cons ?; [lia|auto].
    + intros b' [->|Hb']%elem_of_cons; [|auto]. split; [done|]. apply StronglySorted_inv in Hs as [_ Hf].
      rewrite Forall_forall in Hf. specialize (Hf b Hb). lia.
Qed.

(** ** Throughput accounting *)

Inductive tevent := TInc (now_ms : Z) | TCollect.

(** A worker's events; the messages reported to the master are summed up. *)
Fixpoint trun (es : list tevent) (st : Z * WorkerThroughputStatsState)
    : Z * WorkerThroughputStatsState :=
  match es with
  | [] => st
  | TInc now :: es' => trun es' (st.1, inc now st.2)
  | TCollect :: es' =>
      let '(d, s) := collect_throughput st.2 in trun es' ((st.1 + sumZ (dvalues d))%Z, s)
  end.

Fixpoint num_incs (es : list tevent) : Z :=
  match es with
  | [] => 0
  | TInc _ :: es' => 1 + num_incs es'
  | TCollect :: es' => num_incs es'
  end.

(** The clock does not run backwards and is after the epoch. *)
Fixpoint clock_ok (from : Z) (es : list tevent) : Prop :=
  match es with
  | [] => True
  | TInc now :: es' => (from ≤ now)%Z ∧ clock_ok now es'
  | TCollect :: es' => clock_ok from es'
  end.

Record thr_inv (now : Z) (s : WorkerThroughputStatsState) : Prop := {
  ti_id : (cur_bucket_id s = -1 ∧ cur_bucket_val s = 0 ∨
           0 ≤ cur_bucket_id s ≤ ms_to_s now ∧ 1 ≤ cur_bucket_val s)%Z;
  ti_keys : ∀ b, is_Some (dget (num_messages_per_s s) b) → (b < cur_bucket_id s)%Z;
}.

Lemma ms_to_s_mono a b : (0 ≤ a ≤ b → 0 ≤ ms_to_s a ≤ ms_to_s b)%Z.
Proof.
  intros H. unfold ms_to_s. rewrite !Z.quot_div_nonneg by lia.
  split; [apply Z.div_pos; lia|apply Z.div_le_mono; lia].
Qed.

Definition pending (s : WorkerThroughputStatsState) : Z :=
  (sumZ (dvalues (num_messages_per_s s)) + cur_bucket_val s)%Z.

Lemma inc_inv from now s :
  thr_inv from s → (0 ≤ from ≤ now)%Z → thr_inv now (inc now s) ∧ pending (inc now s) = (pending s + 1)%Z.
Proof.
  intros [Hid Hk] Hnow. pose proof (ms_to_s_mono from now Hnow) as Hs.
  unfold inc, pending. destruct s as [d id v]. simpl in *.
  destruct (decide (id < 0)%Z) as [Hneg|Hneg]; [rewrite decide_True by done|case_decide as Hsame]; simpl.
  - destruct Hid as [[-> ->]|?]; [|lia]. split; [split; simpl|lia].
    + right. lia.
    + intros b Hb. specialize (Hk b Hb). lia.
  - split; [split; simpl|lia]; [right; lia|]. done.
  - assert (dget d id = None) as Hnone.
    { destruct (dget d id) eqn:E; [|done]. specialize (Hk id ltac:(eauto)). lia. }
    rewrite sumZ_dset_new by done. split; [split; simpl|lia]; [right; lia|].
    intros b. rewrite dget_dset. case_decide; intros Hb; [lia|]. specialize (Hk b Hb). lia.
Qed.

Lemma trun_conserves es : ∀ from rep s,
  thr_inv from s → (0 ≤ from)%Z → clock_ok from es →
  ∃ to, thr_inv to (trun es (rep, s)).2 ∧
    ((trun es (rep, s)).1 + pending (trun es (rep, s)).2 = rep + pending s + num_incs es)%Z.
Proof.
  induction es as [|[now|] es IH]; intros from rep s Hs Hf Hc.
  - exists from. split; [done|]. simpl. lia.
  - destruct Hc as [Hn Hc]. destruct (inc_inv from now s Hs ltac:(lia)) as [Hi Hp].
    destruct (IH now rep (inc now s) Hi ltac:(lia) Hc) as (to & Ht & E). exists to. split; [exact Ht|].
    cbn [trun fst snd] in *. rewrite E, Hp. cbn [num_incs]. lia.
  - destruct (IH from (rep + sumZ (dvalues (num_messages_per_s s)))%Z
      (mkThroughput [] (cur_bucket_id s) (cur_bucket_val s))) as (to & Ht & E); [|done|done|].
    { destruct Hs as [Hid Hk]. split; [done|]. intros b [? Hb]. done. }
    exists to. split; [exact Ht|]. cbn [trun collect_throughput fst snd] in *. rewrite E.
    cbn [num_incs]. unfold pending. simpl. lia.
Qed.

Lemma inc_id now s : (0 ≤ now)%Z → (0 ≤ cur_bucket_id (inc now s))%Z.
Proof.
  intros Hn. pose proof (ms_to_s_mono now now ltac:(lia)). unfold inc.
  destruct (decide (cur_bucket_id s < 0)%Z); case_decide; simpl; lia.
Qed.

(** Once something was counted there is a current second. *)
Lemma trun_active es : ∀ from rep s,
  (0 ≤ from)%Z → clock_ok from es → (0 < num_incs es ∨ 0 ≤ cur_bucket_id s)%Z →
  (0 ≤ cur_bucket_id (trun es (rep, s)).2)%Z.
Proof.
  induction es as [|[now|] es IH]; intros from rep s Hf Hc Hor; cbn [trun num_incs clock_ok] in *.
  - simpl. lia.
  - destruct Hc as [Hn Hc]. apply (IH now); [lia|done|]. right. apply inc_id. simpl. lia.
  - unfold collect_throughput. by apply (IH from).
Qed.

(** ** Merging *)

Definition count_at (σ : gmap nat (dict Z Z)) (l : nat) (b : Z) : Z :=
  default 0%Z (σ !! l ≫= λ d, dget d b).

Definition has_buckets (σ : gmap nat (dict Z Z)) (bs : list Z) (l : nat) : Prop :=
  ∃ d, σ !! l = Some d ∧ ∀ b, b ∈ bs → is_Some (dget d b).

Lemma add_bucket_ok σ bs h src b :
  h ≠ src → has_buckets σ bs h → has_buckets σ bs src → b ∈ bs →
  ∃ d, add_bucket h src b σ = (Ok (), <[h := d]> σ) ∧
    (∀ b', is_Some (dget d b') ↔ is_Some (σ !! h ≫= λ d, dget d b')) ∧
    ∀ b', default 0%Z (dget d b') = (count_at σ h b' + if decide (b' = b) then count_at σ src b else 0)%Z.
Proof.
  intros Hne (dh & Eh & Hh) (ds & Es & Hs) Hb.
  destruct (Hh b Hb) as [ch Ech]. destruct (Hs b Hb) as [cs Ecs].
  exists (dset dh b (ch + cs)%Z).
  unfold add_bucket, deref, liftR, assign, modS, mbind, M_bind. rewrite Es. simpl.
  unfold dgetitem. rewrite Ecs. simpl. rewrite Eh. simpl. unfold incr, dgetitem. rewrite Ech. simpl.
  split; [done|]. unfold count_at. rewrite Eh, Es. simpl. rewrite Ecs. simpl. split.
  - intros b'. rewrite dget_dset. case_decide; subst; naive_solver.
  - intros b'. rewrite dget_dset. case_decide; subst; simpl; [rewrite Ech; done|lia].
Qed.

(** What the target dictionary holds after the buckets [todo] were added from [src]. *)
Lemma add_buckets_ok bs h src todo : ∀ σ,
  h ≠ src → has_buckets σ bs h → has_buckets σ bs src → NoDup todo → todo ⊆ bs →
  ∃ d, for_each todo (add_bucket h src) σ = (Ok (), <[h := d]> σ) ∧
    (∀ b, is_Some (dget d b) ↔ is_Some (σ !! h ≫= λ d, dget d b)) ∧
    ∀ b, default 0%Z (dget d b) = (count_at σ h b + if decide (b ∈ todo) then count_at σ src b else 0)%Z.
Proof.
  induction todo as [|b todo IH]; intros σ Hne Hh Hs Hnd Hsub.
  { destruct Hh as (dh & Eh & Hh). exists dh. rewrite insert_id by done. split; [done|].
    rewrite Eh. simpl. split; [done|]. intros b.
    destruct (decide (b ∈ [])) as [Hb|]; [by apply elem_of_nil in Hb|].
    unfold count_at. rewrite Eh. simpl. lia. }
  apply NoDup_cons in Hnd as [Hb Hnd].
  destruct (add_bucket_ok σ bs h src b Hne Hh Hs) as (d1 & E1 & K1 & C1); [set_solver|].
  cbn [for_each]. unfold mbind, M_bind. rewrite E1.
  destruct (IH (<[h := d1]> σ)) as (d & E & K2 & C2); [done| | |done|set_solver|].
  - exists d1. rewrite lookup_insert_eq. split; [done|]. intros b' Hb'. apply K1.
    destruct Hh as (dh & -> & Hh). simpl. auto.
  - destruct Hs as (ds & Es & Hs). exists ds. by rewrite lookup_insert_ne.
  - exists d. rewrite E, insert_insert_eq. split; [done|]. split.
    + intros b'. rewrite K2, lookup_insert_eq. simpl. apply K1.
    + intros b'. rewrite C2. unfold count_at at 1 2. rewrite lookup_insert_eq, lookup_insert_ne by done.
      simpl. rewrite C1. unfold count_at.
      destruct (decide (b' = b)) as [->|]; [rewrite decide_False by done; rewrite decide_True by set_solver; lia|].
      destruct (decide (b' ∈ todo)); [rewrite decide_True by set_solver|rewrite decide_False by set_solver]; lia.
Qed.

Lemma merge_loop_ok bs h rest : ∀ σ,
  NoDup bs → h_buckets h = bs → has_buckets σ bs (h_loc h) →
  Forall (λ x, h_buckets x = bs ∧ h_loc x ≠ h_loc h ∧ has_buckets σ bs (h_loc x)) rest →
  ∃ d, for_each rest (λ hist,
      liftR (if decide (h_buckets h = h_buckets hist) then Ok () else Raise AssertionError) ≫= λ _,
      for_each (h_buckets h) (add_bucket (h_loc h) (h_loc hist))) σ = (Ok (), <[h_loc h := d]> σ) ∧
    ∀ b, b ∈ bs → default 0%Z (dget d b)
      = (count_at σ (h_loc h) b + sumZ (map (λ x, count_at σ (h_loc x) b) rest))%Z.
Proof.
  induction rest as [|x rest IH]; intros σ Hnd Hbs Hh Hr.
  { destruct Hh as (dh & Eh & Hh). exists dh. rewrite insert_id by done. split; [done|].
    intros b Hb. unfold count_at. rewrite Eh. simpl. lia. }
  apply Forall_cons in Hr as [(Ex & Hne & Hx) Hr].
  cbn [for_each]. unfold mbind, M_bind, liftR. rewrite decide_True by congruence. rewrite Hbs.
  destruct (add_buckets_ok bs (h_loc h) (h_loc x) bs σ) as (d1 & E1 & K1 & C1); try done. rewrite E1.
  destruct (IH (<[h_loc h := d1]> σ)) as (d & E & C); [done|done| | |].
  - exists d1. rewrite lookup_insert_eq. split; [done|]. intros b Hb. apply K1.
    destruct Hh as (dh & -> & Hh). simpl. auto.
  - eapply Forall_impl; [exact Hr|]. intros y (? & Hy & dy & Ey & Hdy). split_and!; [done|done|].
    exists dy. by rewrite lookup_insert_ne.
  - exists d. unfold mbind, M_bind, liftR in E. rewrite Hbs in E. rewrite E, insert_insert_eq. split; [done|].
    intros b Hb. rewrite C by done. unfold count_at at 1. rewrite lookup_insert_eq. simpl. rewrite C1.
    rewrite decide_True by done.
    assert (map (λ x, count_at (<[h_loc h := d1]> σ) (h_loc x) b) rest
      = map (λ x, count_at σ (h_loc x) b) rest) as ->.
    { apply map_ext_in. intros y Hy%list_elem_of_In. rewrite Forall_forall in Hr.
      destruct (Hr y Hy) as (_ & Hny & _). unfold count_at. by rewrite lookup_insert_ne. }
    unfold sumZ. simpl. lia.
Qed.

(** ** Percentiles *)

Lemma cumsum_ge acc vals c : Forall (λ v, 0 ≤ v)%Z vals → c ∈ cumsum acc vals → (acc <= c)%Z.
Proof.
  intros Hv. revert acc. induction Hv as [|v vals Hv0 Hv IH]; intros acc Hc; simpl in Hc; [by apply elem_of_nil in Hc|].
  apply elem_of_cons in Hc as [->|Hc]; [lia|]. specialize (IH _ Hc). lia.
Qed.

Lemma cumsum_last acc vals : (0 < length vals) → last (cumsum acc vals) = Some (acc + sumZ vals)%Z.
Proof.
  revert acc. induction vals as [|v vals IH]; intros acc H; simpl in *; [lia|].
  destruct vals as [|v' vals]; [simpl; f_equal; unfold sumZ; simpl; lia|].
  rewrite last_cons, IH by (simpl; lia). f_equal. unfold sumZ. simpl. lia.
Qed.

Lemma length_cumsum acc vals : length (cumsum acc vals) = length vals.
Proof. revert acc. induction vals; intros acc; simpl; auto. Qed.

(** The entries below a threshold form a prefix. *)
Lemma cumsum_filter_prefix t acc vals : Forall (λ v, 0 ≤ v)%Z vals →
  let k := length (filter (λ c, (c * 100 <= t)%Z) (cumsum acc vals)) in
  ∀ i c, cumsum acc vals !! i = Some c → (i < k ↔ (c * 100 <= t)%Z).
Proof.
  intros Hv. revert acc. induction Hv as [|v vals Hv0 Hv IH]; intros acc; cbn zeta; [done|].
  cbn [cumsum]. rewrite filter_cons. case_decide as Hd; intros [|i] c Hc; simplify_eq/=.
  - lia.
  - specialize (IH _ _ _ Hc). lia.
  - rewrite filter_none; [simpl; lia|]. apply Forall_forall. intros x Hx.
    apply cumsum_ge in Hx; [lia|done].
  - assert (c ∈ cumsum (acc + v) vals) as Hin by by eapply list_elem_of_lookup_2.
    apply cumsum_ge in Hin as Hge; [|done]. rewrite filter_none; [simpl; lia|].
    apply Forall_forall. intros x Hx. apply cumsum_ge in Hx; [lia|done].
Qed.

(** ** Properties *)

(** The chunks of a collection source are contiguous, disjoint and complete:
    concatenated in task order they are the collection, for every parallelism. *)
Theorem chunks_partition {A} (vals : list A) n :
  0 < n →
  ∃ chunks, mapR (collection_chunk_at_index vals n) (seq 0 n) = Ok chunks ∧ concat chunks = vals.
Proof.
  intros Hn. eexists. split.
  - apply mapR_ok. intros k _. unfold collection_chunk_at_index. by rewrite decide_False by lia.
  - cbn beta. rewrite (chunks_concat vals (ceil_div (length vals) n) n).
    apply take_ge. by apply ceil_div_ge.
Qed.

(** Observing a value counts it once, in the smallest bucket that is not below it,
    or in the last bucket when it exceeds them all. *)
Theorem observe_counts_once bs value h :
  StronglySorted Z.lt (0%Z :: bs) → bs ≠ [] → (0 ≤ value)%Z → (∀ b, b ∈ bs → is_Some (dget h b)) →
  ∃ b c, b ∈ bs ∧ dget h b = Some c ∧ observe bs value h = Ok (dset h b (c + 1)%Z) ∧
    sumZ (dvalues (dset h b (c + 1)%Z)) = (sumZ (dvalues h) + 1)%Z ∧
    ((value <= b ∧ ∀ b', b' ∈ bs → value <= b' → b <= b') ∨
     (∀ b', b' ∈ bs → b' < value ∧ b' <= b))%Z.
Proof.
  intros Hs Hne Hv Hk.
  assert (∃ b c, b ∈ bs ∧ dget h b = Some c ∧ observe bs value h = Ok (dset h b (c + 1)%Z) ∧
    ((value <= b ∧ ∀ b', b' ∈ bs → value <= b' → b <= b') ∨
     (∀ b', b' ∈ bs → b' < value ∧ b' <= b))%Z) as (b & c & Hb & Hc & E & Hspec).
  { unfold observe. rewrite decide_False by lia. case_decide as H0.
    - subst. destruct bs as [|b bs]; [done|]. destruct (Hk b ltac:(set_solver)) as [c Hc].
      exists b, c. unfold py_index, incr, dgetitem. simpl. rewrite Hc.
      split_and!; [set_solver|done|done|]. left. apply StronglySorted_inv in Hs as [Hs Hf].
      apply Forall_cons in Hf as [Hb0 _]. split; [lia|]. intros b' [->|Hb']%elem_of_cons _; [lia|].
      apply StronglySorted_inv in Hs as [_ Hf]. rewrite Forall_forall in Hf. specialize (Hf _ Hb'). lia.
    - apply observe_loop_spec; [done|done|lia|done]. }
  exists b, c. split_and!; [done|done|done| |done]. rewrite (sumZ_dset h b c) by done. lia.
Qed.

(** A percentile below 100 of a non-empty histogram is the first bucket at which the
    cumulated share exceeds it. *)
Theorem percentile_first_above buckets (h : dict Z Z) p :
  length buckets = length h → Forall (λ v, 0 ≤ v)%Z (dvalues h) → (0 < sumZ (dvalues h))%Z →
  (0 ≤ p < 100)%Z →
  ∃ k b c, percentiles buckets h [p] = Ok [b] ∧ buckets !! k = Some b ∧
    cumsum 0 (dvalues h) !! k = Some c ∧ (p * sumZ (dvalues h) < c * 100)%Z ∧
    ∀ i c', i < k → cumsum 0 (dvalues h) !! i = Some c' → (c' * 100 <= p * sumZ (dvalues h))%Z.
Proof.
  intros Hlen Hv Ht Hp. set (vals := dvalues h) in *.
  assert (length vals = length h) as Hlv by (unfold vals, dvalues; by rewrite length_fmap).
  pose proof (cumsum_filter_prefix (p * sumZ vals) 0 vals Hv) as Hpre. cbn zeta in Hpre.
  set (k := length (filter (λ c, (c * 100 <= p * sumZ vals)%Z) (cumsum 0 vals))) in *.
  assert (0 < length vals) as Hpos by (destruct vals; [by apply Z.lt_irrefl in Ht|simpl; lia]).
  assert (k < length vals) as Hk.
  { pose proof (cumsum_last 0 vals Hpos) as Hlast. rewrite last_lookup, length_cumsum in Hlast.
    destruct (decide (k < length vals)); [done|]. exfalso.
    pose proof (proj1 (Hpre _ _ Hlast) ltac:(lia)) as Hle. nia. }
  destruct (lookup_lt_is_Some_2 buckets k) as [b Hb]; [lia|].
  destruct (lookup_lt_is_Some_2 (cumsum 0 vals) k) as [c Hc]; [by rewrite length_cumsum|].
  exists k, b, c. split_and!; [|done|done| |].
  - unfold percentiles. cbn [mapR]. unfold bucket_index. fold vals. rewrite decide_False by lia.
    fold k. by rewrite Hb.
  - destruct (decide (p * sumZ vals < c * 100)%Z); [done|]. exfalso.
    pose proof (proj2 (Hpre _ _ Hc) ltac:(lia)). lia.
  - intros i c' Hi Hc'. by apply (Hpre i c').
Qed.

(** Throughput accounting conserves messages while the clock does not run backwards:
    messages reported to the master, those waiting to be collected and those of
    the current second add up to the messages counted; the current second is
    never reported, so whenever something was counted at least one message is
    missing from the reports. *)
Theorem throughput_conserved es :
  clock_ok 0 es →
  let '(reported, s) := trun es (0%Z, create_throughput) in
  (reported + sumZ (dvalues (num_messages_per_s s)) + cur_bucket_val s = num_incs es)%Z ∧
  ((0 < num_incs es)%Z → (1 ≤ cur_bucket_val s)%Z).
Proof.
  intros Hc. destruct (trun_conserves es 0 0 create_throughput) as (to & [Hid Hk] & E); [|lia|done|].
  { split; simpl; [by left|]. by intros b [? ?]. }
  destruct (trun es (0%Z, create_throughput)) as [rep s] eqn:Et. simpl in *. unfold pending in E. simpl in E.
  split; [unfold sumZ in *; simpl in *; lia|].
  intros Hn. destruct Hid as [[Hid Hv]|?]; [|lia]. exfalso.
  pose proof (trun_active es 0 0 create_throughput ltac:(lia) Hc ltac:(lia)) as Hact.
  rewrite Et in Hact. simpl in Hact. lia.
Qed.

(** [Hist.merge] adds up the counts bucket by bucket, and it does so in the
    dictionary of its first argument, which the caller's window still holds. *)
Theorem merge_sums_into_first σ h rest :
  NoDup (h_buckets h) → stable_sort id Z.le (h_buckets h) = h_buckets h →
  has_buckets σ (h_buckets h) (h_loc h) →
  Forall (λ x, h_buckets x = h_buckets h ∧ h_loc x ≠ h_loc h ∧
               has_buckets σ (h_buckets h) (h_loc x)) rest →
  ∃ σ', merge (h :: rest) σ = (Ok h, σ') ∧
    (∀ b, b ∈ h_buckets h → count_at σ' (h_loc h) b
       = (count_at σ (h_loc h) b + sumZ (map (λ x, count_at σ (h_loc x) b) rest))%Z) ∧
    ∀ l, l ≠ h_loc h → σ' !! l = σ !! l.
Proof.
  intros Hnd Hsort Hh Hr. destruct (merge_loop_ok (h_buckets h) h rest σ Hnd eq_refl Hh Hr) as (d & E & C).
  exists (<[h_loc h := d]> σ). unfold merge. cbn [head tail from_option_exn].
  unfold mbind, M_bind, liftR in *. cbn [from_option_exn]. rewrite E. rewrite decide_True by done.
  split; [by destruct h|]. split.
  - intros b Hb. unfold count_at at 1. rewrite lookup_insert_eq. simpl. by apply C.
  - intros l Hl. by rewrite lookup_insert_ne.
Qed.

(** ** Witnesses *)

Lemma chunks_partition_witness :
  ∃ chunks, mapR (collection_chunk_at_index [1;2;3;4;5] 3) (seq 0 3) = Ok chunks ∧
    concat chunks = [1;2;3;4;5].
Proof. apply (chunks_partition [1;2;3;4;5] 3). lia. Defined.

Definition ex_hist : dict Z Z := [(10, 1); (20, 0); (30, 4)]%Z.

Lemma observe_counts_once_witness :
  ∃ b c, b ∈ [10; 20; 30]%Z ∧ dget ex_hist b = Some c ∧
    observe [10; 20; 30]%Z 15 ex_hist = Ok (dset ex_hist b (c + 1)%Z) ∧
    sumZ (dvalues (dset ex_hist b (c + 1)%Z)) = (sumZ (dvalues ex_hist) + 1)%Z ∧
    ((15 <= b ∧ ∀ b', b' ∈ [10; 20; 30] → 15 <= b' → b <= b') ∨
     (∀ b', b' ∈ [10; 20; 30] → b' < 15 ∧ b' <= b))%Z.
Proof.
  apply (observe_counts_once [10; 20; 30]%Z 15 ex_hist).
  - repeat constructor; lia.
  - discriminate.
  - lia.
  - intros b Hb. repeat (apply elem_of_cons in Hb as [->|Hb]; [by eexists|]). by apply elem_of_nil in Hb.
Defined.

Lemma percentile_first_above_witness :
  ∃ k b c, percentiles [10; 20; 30]%Z ex_hist [50]%Z = Ok [b] ∧ [10; 20; 30]%Z !! k = Some b ∧
    cumsum 0 (dvalues ex_hist) !! k = Some c ∧ (50 * sumZ (dvalues ex_hist) < c * 100)%Z ∧
    ∀ i c', i < k → cumsum 0 (dvalues ex_hist) !! i = Some c' → (c' * 100 <= 50 * sumZ (dvalues ex_hist))%Z.
Proof.
  apply (percentile_first_above [10; 20; 30]%Z ex_hist 50); [reflexivity| |reflexivity|lia].
  apply (bool_decide_unpack _). reflexivity.
Defined.

Lemma throughput_conserved_witness :
  let es := [TInc 500; TInc 900; TInc 1200; TCollect; TInc 1300]%Z in
  trun es (0%Z, create_throughput) = (2%Z, mkThroughput [] 1 2) ∧
  (let '(reported, s) := trun es (0%Z, create_throughput) in
   (reported + sumZ (dvalues (num_messages_per_s s)) + cur_bucket_val s = num_incs es)%Z ∧
   ((0 < num_incs es)%Z → (1 ≤ cur_bucket_val s)%Z)).
Proof.
  cbn zeta. split; [reflexivity|].
  apply (throughput_conserved [TInc 500; TInc 900; TInc 1200; TCollect; TInc 1300]%Z). simpl. lia.
Defined.

(** Two seconds of one latency each: the window's first histogram holds both after one merge. *)
Definition ex_store : gmap nat (dict Z Z) := {[ 0 := [(10, 1); (20, 0)]%Z; 1 := [(10, 0); (20, 1)]%Z ]}.

Lemma merge_sums_into_first_witness :
  ∃ σ', merge [mkHist [10; 20]%Z 0; mkHist [10; 20]%Z 1] ex_store = (Ok (mkHist [10; 20]%Z 0), σ') ∧
    (∀ b, b ∈ [10; 20]%Z → count_at σ' 0 b
       = (count_at ex_store 0 b + sumZ (map (λ x, count_at ex_store (h_loc x) b) [mkHist [10; 20]%Z 1]))%Z) ∧
    ∀ l, l ≠ 0 → σ' !! l = ex_store !! l.
Proof.
  apply (merge_sums_into_first ex_store (mkHist [10; 20]%Z 0) [mkHist [10; 20]%Z 1]).
  - apply (bool_decide_unpack _). reflexivity.
  - reflexivity.
  - eexists. split; [reflexivity|]. intros b Hb. simpl in Hb.
    repeat (apply elem_of_cons in Hb as [->|Hb]; [by eexists|]). by apply elem_of_nil in Hb.
  - constructor; [|constructor]. split; [reflexivity|]. split; [discriminate|].
    eexists. split; [reflexivity|]. intros b Hb. simpl in Hb.
    repeat (apply elem_of_cons in Hb as [->|Hb]; [by eexists|]). by apply elem_of_nil in Hb.
Defined.

(** The master's window across two refreshes: one latency in second 1, one in second 2,
    and the store then counts three. *)
Example latency_window_double_counts :
  let '(r, σ) := (aggregate_latency (mkJobLatency [] []) [[(1%Z, mkHist [10; 20]%Z 0); (2%Z, mkHist [10; 20]%Z 1)]]) ex_store in
  is_ok r = true ∧ count_at σ 0 10 = 1%Z ∧ count_at σ 0 20 = 1%Z ∧ count_at σ 1 20 = 1%Z.
Proof. vm_compute. auto. Qed.
