(* ===== verification/Operators.v ===== *)
(** * Stream operators, chaining and processors
    ([volga/streaming/api/operators/operators.py], [chained.py],
     [volga/streaming/api/collector/collector.py],
     [volga/streaming/runtime/core/processor/processor.py])

    Every one-input operator updates its own state before it hands records to its
    collectors, so a call of [process_element] is described by a step: the new
    state, the records collected in order, and whether it ended normally or with
    an exception.  [process] runs a step against real collectors, which are
    stateful calls that may raise.  User functions are pure functions that may
    raise. *)

From S2P Require Import Prelude PyDict PyDecimal Message Stats.

Inductive OperatorType := SOURCE | ONE_INPUT | TWO_INPUT.
#[global] Instance OperatorType_eq_dec : EqDecision OperatorType.
Proof. solve_decision. Defined.

Section operators.
Context {K V : Type} `{!EqDecision K}.
Local Abbreviation rc := (rec K V).

(** New state, collected records, and the end of the call. *)
Definition outcome (St : Type) : Type := St * list rc * res ().

Definition one {St} (s : St) (r : res rc) : outcome St :=
  match r with Ok x => (s, [x], Ok ()) | Raise e => (s, [], Raise e) end.

(** [MapOperator.process_element] *)
Definition map_step (f : V → res V) (s : ()) (record : rc) : outcome () :=
  one s (v ← f (r_value record); Ok (new_Record v (event_time record) (source_emit_ts record))).

(** [FlatMapOperator.process_element]: the user function, plain or with a collector,
    yields values and ends normally or not; [CollectionCollector] wraps each
    value in a bare [Record]. *)
Definition flat_map_step (f : V → list V * res ()) (s : ()) (record : rc) : outcome () :=
  let '(vs, e) := f (r_value record) in (s, map (λ v, new_Record v None None) vs, e).

Definition filter_step (f : V → res bool) (s : ()) (record : rc) : outcome () :=
  match f (r_value record) with
  | Ok true => (s, [record], Ok ())
  | Ok false => (s, [], Ok ())
  | Raise e => (s, [], Raise e)
  end.

Definition key_by_step (f : V → res K) (s : ()) (record : rc) : outcome () :=
  one s (key ← f (r_value record);
         Ok (new_KeyRecord key (r_value record) (event_time record) (source_emit_ts record))).

Definition union_step (s : ()) (record : rc) : outcome () := (s, [record], Ok ()).

(** [ReduceOperator.process_element] *)
Definition reduce_step (f : V → V → res V) (reduce_state : dict K V) (record : rc)
    : outcome (dict K V) :=
  match key_attr record with
  | Raise e => (reduce_state, [], Raise e)
  | Ok key =>
      let value := r_value record in
      match dget reduce_state key with
      | Some old_value =>
          match f old_value value with
          | Raise e => (reduce_state, [], Raise e)
          | Ok new_value =>
              (dset reduce_state key new_value,
               [new_Record new_value (event_time record) (source_emit_ts record)], Ok ())
          end
      | None => (dset reduce_state key value, [record], Ok ())
      end
  end.

(** [SinkOperator.process_element] with the sink function's state and the clock reading. *)
Definition sink_step {Sk} (sink : V → M Sk ()) (now_ts_ms : Z)
    (s : Sk * WorkerLatencyStatsState) (record : rc) : outcome (Sk * WorkerLatencyStatsState) :=
  let '(r, stats) :=
    match source_emit_ts record with
    | Some emit => observe_latency (now_ts_ms - emit) now_ts_ms s.2
    | None => (Ok (), s.2)
    end in
  match r with
  | Raise e => ((s.1, stats), [], Raise e)
  | Ok _ => let '(r, sk) := sink (r_value record) s.1 in ((sk, stats), [], r)
  end.

(** ** [JoinOperator] *)

Record join_state := mkJoin {
  left_records_dict : dict K (list rc);
  right_records_dict : dict K (list rc);
}.
Definition new_join : join_state := mkJoin [] [].

(** [for x in xs: self.collect(make(x))], stopping at the first exception. *)
Fixpoint collect_each (make : rc → res rc) (xs : list rc) : list rc * res () :=
  match xs with
  | [] => ([], Ok ())
  | x :: xs' => match make x with
                | Raise e => ([], Raise e)
                | Ok y => let '(ys, e) := collect_each make xs' in (y :: ys, e)
                end
  end.

Definition join_record (join : V → V → res V) (l r : rc) : res rc :=
  v ← join (r_value l) (r_value r); Ok (new_Record v (event_time l) (source_emit_ts l)).

(** [process_element(left, right)]; the processor passes exactly one of them.  Both
    dictionaries get an entry for the key. *)
Definition join_step (join : V → V → res V) (s : join_state) (left right : option rc)
    : outcome join_state :=
  match (match left with
         | Some l => key_attr l
         | None => match right with Some r => key_attr r | None => Raise AttributeError end
         end) with
  | Raise e => (s, [], Raise e)
  | Ok key =>
      let left_records := default [] (dget (left_records_dict s) key) in
      let right_records := default [] (dget (right_records_dict s) key) in
      match left with
      | Some l =>
          let '(outs, e) := collect_each (λ r, join_record join l r) right_records in
          (mkJoin (dset (left_records_dict s) key (left_records ++ [l]))
                  (dset (right_records_dict s) key right_records), outs, e)
      | None =>
          match right with
          | Some r =>
              let '(outs, e) := collect_each (λ l, join_record join l r) left_records in
              (mkJoin (dset (left_records_dict s) key left_records)
                      (dset (right_records_dict s) key (right_records ++ [r])), outs, e)
          | None => (s, [], Raise AttributeError)
          end
      end
  end.

(** ** Collectors *)

(** [StreamOperator.collect]: every collector gets the record, in order. *)
Definition collect {W} (collectors : list (rc → M W ())) (record : rc) : M W () :=
  for_each collectors (λ c, c record).

(** A call of [process_element] against [collectors]. *)
Definition process {St W} (step : St → rc → outcome St) (collectors : list (rc → M W ()))
    (record : rc) : M (St * W) () := λ sw,
  let '(s', outs, e) := step sw.1 record in
  match for_each outs (collect collectors) sw.2 with
  | (Ok _, w') => (e, (s', w'))
  | (Raise e', w') => (Raise e', (s', w'))
  end.

(** ** Chained operators *)

Record op := mkOp { op_st : Type; op_step : op_st → rc → outcome op_st }.

Fixpoint chain_st (ops : list op) : Type :=
  match ops with [] => () | o :: ops' => op_st o * chain_st ops' end.

(** [ChainedOneInputOperator.process_element] after [open]: every operator but the last
    collects into a [ForwardCollector] that calls its successor; the last one
    collects into the given collectors. *)
Fixpoint chain_process {W} (ops : list op) (collectors : list (rc → M W ()))
    : rc → M (chain_st ops * W) () :=
  match ops with
  | [] => λ _, raise AssertionError
  | o :: ops' => λ record ssw,
      let '((s, ss), w) := ssw in
      match ops' with
      | [] =>
          let '(e, (s', w')) := process (op_step o) collectors record (s, w) in (e, ((s', ss), w'))
      | _ =>
          let '(e, (s', (ss', w'))) :=
            process (op_step o) [chain_process ops' collectors] record (s, (ss, w)) in
          (e, ((s', ss'), w'))
      end
  end.
End operators.

Arguments op : clear implicits.
Arguments join_state : clear implicits.
Arguments mkOp {K V} _ _.

(** [Processor.build_processor] *)
Inductive processor_class := SourceProcessor | OneInputProcessor | TwoInputProcessor.

Definition build_processor (op_type : OperatorType) : processor_class :=
  match op_type with
  | SOURCE => SourceProcessor
  | ONE_INPUT => OneInputProcessor
  | TWO_INPUT => TwoInputProcessor
  end.

(** [ChainedOperator.operator_type] and [new_chained_operator]: the head decides; at
    least two operators, and every later one takes one input ([open]). *)
Definition new_chained_operator (types : list OperatorType) : res OperatorType :=
  head_type ← from_option_exn IndexError (head types);
  if decide (1 < length types) then Ok head_type else Raise AssertionError.

Definition open_chain (types : list OperatorType) : res () :=
  if decide (Forall (λ t, t = ONE_INPUT) (tail types)) then Ok () else Raise AssertionError.

(** [TwoInputProcessor.process] *)
Definition two_input_process {K V} `{!EqDecision K} (join : V → V → res V)
    (left_stream_name right_stream_name : option string) (s : join_state K V) (record : rec K V)
    : outcome (V := V) (join_state K V) :=
  if decide (left_stream_name = stream_name record) then join_step join s (Some record) None
  else if decide (right_stream_name = stream_name record) then join_step join s None (Some record)
  else (s, [], Raise (RuntimeError "Unknown stream")).

(** ** Runs *)

Section runs.
Context {K V : Type} `{!EqDecision K}.
Local Abbreviation rc := (rec K V).

(** A step machine over a list of inputs, up to the first exception. *)
Fixpoint run_op {St In} (step : St → In → outcome (K:=K) (V:=V) St) (s : St) (xs : list In)
    : outcome (K:=K) (V:=V) St :=
  match xs with
  | [] => (s, [], Ok ())
  | x :: xs' =>
      let '(s1, o1, e1) := step s x in
      match e1 with
      | Raise e => (s1, o1, Raise e)
      | Ok _ => let '(s2, o2, e2) := run_op step s1 xs' in (s2, o1 ++ o2, e2)
      end
  end.

(** The operators run one after the other, each over the whole output of the previous. *)
Fixpoint pipeline (ops : list (op K V)) : chain_st ops → list rc → outcome (K:=K) (V:=V) (chain_st ops) :=
  match ops return chain_st ops → list rc → outcome (chain_st ops) with
  | [] => λ ss xs, (ss, xs, Ok ())
  | o :: ops' => λ (sss : op_st o * chain_st ops') xs,
      let '(s, ss) := sss in
      let '(s1, ys, e) := run_op (op_step o) s xs in
      match e with
      | Raise e => ((s1, ss), ys, Raise e)
      | Ok _ => let '(ss1, zs, e1) := pipeline ops' ss ys in ((s1, ss1), zs, e1)
      end
  end.

Lemma for_each_app_inv {St A} (l1 l2 : list A) (f : A → M St ()) s s' :
  for_each (l1 ++ l2) f s = (Ok (), s') → ∃ s1, for_each l1 f s = (Ok (), s1) ∧ for_each l2 f s1 = (Ok (), s').
Proof.
  revert s. induction l1 as [|x l1 IH]; intros s E; simpl in *; [eauto|].
  unfold mbind, M_bind in *. destruct (f x s) as [[u|e] s1]; [by apply IH|done].
Qed.

Lemma for_each_ext {St A} (l : list A) (f g : A → M St ()) s :
  (∀ x s, f x s = g x s) → for_each l f s = for_each l g s.
Proof.
  intros H. revert s. induction l as [|x l IH]; intros s; simpl; [done|].
  unfold mbind, M_bind. rewrite H. destruct (g x s) as [[u|e] s1]; auto.
Qed.

(** Running an operator against collectors is running its steps and then collecting. *)
Lemma for_each_process {St W} (step : St → rc → outcome St) (cs : list (rc → M W ())) xs :
  ∀ s s' ys w w',
  run_op step s xs = (s', ys, Ok ()) → for_each ys (collect cs) w = (Ok (), w') →
  for_each xs (process step cs) (s, w) = (Ok (), (s', w')).
Proof.
  induction xs as [|x xs IH]; intros s s' ys w w' Hrun Hys; simpl in *.
  { injection Hrun as <- <-. simpl in Hys. by injection Hys as <-. }
  destruct (step s x) as [[s1 o1] e1] eqn:Es. destruct e1 as [u|]; [|done].
  destruct (run_op step s1 xs) as [[s2 o2] e2] eqn:Er. injection Hrun as -> <- ->.
  apply for_each_app_inv in Hys as (w1 & H1 & H2).
  unfold mbind, M_bind, process at 1. simpl. rewrite Es, H1. destruct u. by apply (IH s1 s' o2).
Qed.

Lemma collect_one {W} (c : rc → M W ()) (x : rc) w : collect [c] x w = c x w.
Proof.
  unfold collect. simpl. unfold mbind, M_bind, mret, M_ret. destruct (c x w) as [[[]|] ?]; done.
Qed.

Lemma for_each_chain {W} (o : op K V) (ops : list (op K V)) (cs : list (rc → M W ())) xs :
  ops ≠ [] → ∀ s ss w s' ss' w',
  for_each xs (process (op_step o) [chain_process ops cs]) (s, (ss, w)) = (Ok (), (s', (ss', w'))) →
  for_each xs (chain_process (o :: ops) cs) ((s, ss), w) = (Ok (), ((s', ss'), w')).
Proof.
  intros Hne. induction xs as [|x xs IH]; intros s ss w s' ss' w' E; cbn [for_each] in *.
  { injection E as -> -> ->. done. }
  unfold mbind, M_bind in *.
  assert (chain_process (o :: ops) cs x (s, ss, w) =
    (let '(e, (s', (ss', w'))) := process (op_step o) [chain_process ops cs] x (s, (ss, w)) in
     (e, ((s', ss'), w')))) as -> by (destruct ops; [done|reflexivity]).
  destruct (process (op_step o) [chain_process ops cs] x (s, (ss, w))) as [[u|e] [s1 [ss1 w1]]]; [|done].
  by apply IH.
Qed.

Lemma for_each_chain_last {W} (o : op K V) (cs : list (rc → M W ())) xs :
  ∀ s w s' w',
  for_each xs (process (op_step o) cs) (s, w) = (Ok (), (s', w')) →
  for_each xs (chain_process [o] cs) ((s, ()), w) = (Ok (), ((s', ()), w')).
Proof.
  induction xs as [|x xs IH]; intros s w s' w' E; cbn [for_each] in *.
  { by injection E as -> ->. }
  unfold mbind, M_bind in *. cbn [chain_process].
  destruct (process (op_step o) cs x (s, w)) as [[u|e] [s1 w1]]; [|done]. by apply IH.
Qed.

Lemma chain_pipeline {W} (cs : list (rc → M W ())) (ops : list (op K V)) :
  ∀ (ss ss' : chain_st ops) xs outs w w', ops ≠ [] →
  pipeline ops ss xs = (ss', outs, Ok ()) → for_each outs (collect cs) w = (Ok (), w') →
  for_each xs (chain_process ops cs) (ss, w) = (Ok (), (ss', w')).
Proof.
  induction ops as [|o ops IH]; intros ss ss' xs outs w w' Hne Hp Ho; [done|].
  cbn [pipeline] in Hp. destruct ss as [s ss]. 
  destruct (run_op (op_step o) s xs) as [[s1 ys] [u|e]] eqn:Er; [|done]. destruct u.
  destruct (pipeline ops ss ys) as [[ss1 zs] e1] eqn:Ep. injection Hp as <- -> ->.
  destruct ops as [|o' ops].
  - cbn [pipeline] in Ep. injection Ep as <- ->. destruct ss.
    apply for_each_chain_last. by eapply for_each_process.
  - apply for_each_chain; [done|]. eapply for_each_process; [exact Er|].
    rewrite (for_each_ext _ _ (chain_process (o' :: ops) cs)) by (intros; apply collect_one).
    by eapply IH.
Qed.

(** *** A chained operator as one operator *)

(** The records that leave the chain. *)
Definition output_log (r : rc) : M (list rc) () := λ w, (Ok (), w ++ [r]).

Definition chain_step (ops : list (op K V)) (ss : chain_st ops) (record : rc) : outcome (K:=K) (V:=V) (chain_st ops) :=
  let '(e, (ss', outs)) := chain_process ops [output_log] record (ss, []) in (ss', outs, e).
Definition chain_op (ops : list (op K V)) : op K V := mkOp (chain_st ops) (chain_step ops).

(** A computation that only appends to the log. *)
Definition appends {St} (f : rc → M (St * list rc) ()) : Prop := ∀ r s w,
  f r (s, w) = (let '(e, (s', o)) := f r (s, []) in (e, (s', w ++ o))).

Lemma appends_for_each {St} (f : rc → M (St * list rc) ()) xs : appends f → ∀ s w,
  for_each xs f (s, w) = (let '(e, (s', o)) := for_each xs f (s, []) in (e, (s', w ++ o))).
Proof.
  intros Hf. induction xs as [|x xs IH]; intros s w; cbn [for_each]; [cbn; by rewrite app_nil_r|]. unfold mbind, M_bind.
  rewrite (Hf x s w). destruct (f x (s, [])) as [[u|e] [s1 o1]]; [|done]. rewrite (IH s1 (w ++ o1)), (IH s1 o1).
  destruct (for_each xs f (s1, [])) as [e [s2 o2]]. by rewrite (assoc_L (++)).
Qed.

Lemma for_each_log xs w : for_each xs (collect [output_log]) w = (Ok (), w ++ xs).
Proof.
  revert w. induction xs as [|x xs IH]; intros w; cbn [for_each]; [cbn; by rewrite app_nil_r|]. unfold mbind, M_bind.
  rewrite collect_one. cbn. by rewrite IH, <- (assoc_L (++)).
Qed.

Lemma chain_process_cons {W} (o o' : op K V) ops (cs : list (rc → M W ())) r (s : op_st o) (ss : chain_st (o' :: ops)) (w : W) :
  chain_process (o :: o' :: ops) cs r ((s, ss), w) =
  (let '(e, (s', (ss', w'))) := process (W := chain_st (o' :: ops) * W) (op_step o) [chain_process (o' :: ops) cs] r (s, (ss, w)) in (e, ((s', ss'), w'))).
Proof. done. Qed.

Lemma process_appends {St S2} (step : St → rc → outcome St) (f : rc → M (S2 * list rc) ()) r s ss w : appends f →
  process step [f] r (s, (ss, w)) = (let '(e, (s', (ss', o))) := process step [f] r (s, (ss, [])) in (e, (s', (ss', w ++ o)))).
Proof.
  intros Hf. unfold process. cbn [fst snd]. destruct (step s r) as [[s' outs] e].
  assert (∀ w1, for_each outs (collect [f]) (ss, w1) = for_each outs f (ss, w1)) as Hc by (intros w1; apply for_each_ext, collect_one).
  rewrite !Hc, (appends_for_each f outs Hf ss w). by destruct (for_each outs f (ss, [])) as [[u|e'] [ss1 o1]].
Qed.

Lemma chain_appends (ops : list (op K V)) : appends (chain_process ops [output_log]).
Proof.
  induction ops as [|o [|o' ops] IH]; intros r ss w; [cbn; by rewrite app_nil_r|..]; destruct ss as [s ss].
  - cbn [chain_process]. unfold process. cbn [fst snd]. destruct (op_step o s r) as [[s' outs] e]. by rewrite !for_each_log.
  - rewrite !chain_process_cons. pose proof (process_appends (op_step o) _ r s ss w IH) as E.
    rewrite E. by destruct (process _ _ r (s, (ss, []))) as [e1 [s1 [ss1 o1]]].
Qed.

(** On a list it is its operators run one after the other. *)
Lemma chain_run (ops : list (op K V)) (ss ss' : chain_st ops) xs outs : ops ≠ [] →
  pipeline ops ss xs = (ss', outs, Ok ()) → run_op (chain_step ops) ss xs = (ss', outs, Ok ()).
Proof.
  intros Hne Hp. pose proof (chain_pipeline [output_log] ops ss ss' xs outs [] outs Hne Hp (for_each_log outs [])) as E.
  clear Hp. revert ss outs E. induction xs as [|x xs IH]; intros ss outs E; cbn [for_each run_op] in *; [by injection E as <- <-|].
  unfold mbind, M_bind in E. unfold chain_step at 1. destruct (chain_process ops [output_log] x (ss, [])) as [[u|e] [ss1 o1]]; [|done].
  rewrite (appends_for_each _ xs (chain_appends ops) ss1 o1) in E.
  destruct (for_each xs _ (ss1, [])) as [e2 [ss2 o2]] eqn:E2. injection E as -> -> <-. by rewrite (IH ss1 o2 E2).
Qed.
End runs.

(** ** Join *)

Section join_lemmas.
Context {K V : Type} `{!EqDecision K} (join : V → V → res V) (J : V → V → V).
Context (join_total : ∀ a b, join a b = Ok (J a b)).
Local Abbreviation rc := (rec K V).
Implicit Types (l r : rc) (ls rs : list rc).

Definition jstep (s : join_state K V) (x : rc + rc) : outcome (K:=K) (V:=V) (join_state K V) :=
  match x with
  | inl l => join_step join s (Some l) None
  | inr r => join_step join s None (Some r)
  end.

Definition lefts (xs : list (rc + rc)) : list rc :=
  omap (λ x, match x with inl l => Some l | inr _ => None end) xs.
Definition rights (xs : list (rc + rc)) : list rc :=
  omap (λ x, match x with inl _ => None | inr r => Some r end) xs.
Definition keyed (x : rc + rc) : Prop :=
  is_Some (r_key (match x with inl l => l | inr r => r end)).

Definition joined l r : rc := new_Record (J (r_value l) (r_value r)) (event_time l) (source_emit_ts l).

(** Every pair of a left and a right record with one key, once. *)
Definition join_pairs ls rs : list rc :=
  concat (map (λ l, map (joined l) (filter (λ r, r_key r = r_key l) rs)) ls).

Definition of_key (k : K) ls : list rc := filter (λ r, r_key r = Some k) ls.

Definition join_inv (s : join_state K V) ls rs : Prop :=
  (∀ k, default [] (dget (left_records_dict s) k) = of_key k ls) ∧
  (∀ k, default [] (dget (right_records_dict s) k) = of_key k rs).

Lemma collect_each_ok (make : rc → res rc) (g : rc → rc) xs :
  (∀ x, make x = Ok (g x)) → collect_each make xs = (map g xs, Ok ()).
Proof. intros H. induction xs as [|x xs IH]; simpl; [done|]. by rewrite H, IH. Qed.

Lemma of_key_snoc k ls x :
  of_key k (ls ++ [x]) = of_key k ls ++ (if decide (r_key x = Some k) then [x] else []).
Proof. unfold of_key. rewrite filter_app, filter_cons. by case_decide. Qed.

Lemma join_pairs_left ls rs l k : r_key l = Some k →
  join_pairs (ls ++ [l]) rs = join_pairs ls rs ++ map (joined l) (of_key k rs).
Proof.
  intros Hk. unfold join_pairs. rewrite map_app, concat_app. simpl. rewrite app_nil_r, Hk. done.
Qed.

Lemma join_pairs_right ls rs r k : r_key r = Some k →
  join_pairs ls (rs ++ [r]) ≡ₚ join_pairs ls rs ++ map (λ l, joined l r) (of_key k ls).
Proof.
  intros Hk. unfold join_pairs, of_key. induction ls as [|l ls IH]; simpl; [done|].
  rewrite IH, filter_app, map_app, !filter_cons, Hk. simpl.
  destruct (decide (Some k = r_key l)) as [E|E].
  - rewrite decide_True by done. simpl. rewrite <- !(assoc_L (++)). apply Permutation_app_head.
    simpl. apply Permutation_middle.
  - rewrite decide_False by congruence. simpl. by rewrite app_nil_r, <- !(assoc_L (++)).
Qed.

Lemma join_inv_dset (d : dict K (list rc)) ls k x :
  (∀ k, default [] (dget d k) = of_key k ls) → r_key x = Some k →
  (∀ k', default [] (dget (dset d k (default [] (dget d k) ++ [x])) k') = of_key k' (ls ++ [x])) ∧
  (∀ k', default [] (dget (dset d k (default [] (dget d k))) k') = of_key k' ls).
Proof.
  intros Hd Hx. split; intros k'; rewrite dget_dset, ?of_key_snoc, ?Hx.
  - case_decide as E; simpl; [subst; rewrite decide_True by done; by rewrite Hd|].
    rewrite decide_False by congruence. by rewrite app_nil_r, Hd.
  - case_decide; subst; simpl; apply Hd.
Qed.

Lemma jstep_ok s x ls rs :
  join_inv s ls rs → keyed x →
  ∃ s' outs, jstep s x = (s', outs, Ok ()) ∧ join_inv s' (ls ++ lefts [x]) (rs ++ rights [x]) ∧
    join_pairs (ls ++ lefts [x]) (rs ++ rights [x]) ≡ₚ join_pairs ls rs ++ outs.
Proof.
  intros [HL HR] [k Hk]. destruct x as [x|x]; simpl in Hk; unfold jstep, join_step, key_attr; rewrite Hk; simpl.
  - rewrite (collect_each_ok _ (joined x)) by (intros r; unfold join_record; by rewrite join_total).
    eexists _, _. split; [reflexivity|]. rewrite app_nil_r. split.
    + split; simpl; [apply (join_inv_dset _ ls k x HL Hk)|].
      intros k'. rewrite dget_dset. case_decide; subst; simpl; apply HR.
    + rewrite HR. by rewrite (join_pairs_left ls rs x k).
  - rewrite (collect_each_ok _ (λ l, joined l x)) by (intros l; unfold join_record; by rewrite join_total).
    eexists _, _. split; [reflexivity|]. rewrite app_nil_r. split.
    + split; simpl; [|apply (join_inv_dset _ rs k x HR Hk)].
      intros k'. rewrite dget_dset. case_decide; subst; simpl; apply HL.
    + rewrite HL. by apply join_pairs_right.
Qed.

Lemma join_run_ok xs : ∀ s ls rs,
  join_inv s ls rs → Forall keyed xs →
  ∃ s' outs, run_op jstep s xs = (s', outs, Ok ()) ∧ join_inv s' (ls ++ lefts xs) (rs ++ rights xs) ∧
    join_pairs (ls ++ lefts xs) (rs ++ rights xs) ≡ₚ join_pairs ls rs ++ outs.
Proof.
  induction xs as [|x xs IH]; intros s ls rs Hinv Hk.
  { eexists _, _. split; [reflexivity|]. simpl. by rewrite !app_nil_r. }
  apply Forall_cons in Hk as [Hx Hk].
  destruct (jstep_ok s x ls rs Hinv Hx) as (s1 & o1 & E1 & I1 & P1).
  destruct (IH s1 _ _ I1 Hk) as (s2 & o2 & E2 & I2 & P2).
  cbn [run_op]. rewrite E1, E2. eexists _, _. split; [reflexivity|].
  assert (lefts (x :: xs) = lefts [x] ++ lefts xs) as -> by (destruct x; done).
  assert (rights (x :: xs) = rights [x] ++ rights xs) as -> by (destruct x; done).
  rewrite !(assoc_L (++)). split; [done|]. by rewrite P2, P1, <- (assoc_L (++)).
Qed.
End join_lemmas.

(** ** Reduce *)

Section reduce_lemmas.
Context {K V : Type} `{!EqDecision K} (f : V → V → res V) (F : V → V → V).
Context (f_total : ∀ a b, f a b = Ok (F a b)).
Local Abbreviation rc := (rec K V).
Implicit Types (r : rc) (rs hist : list rc).

Definition fold_values rs : option V :=
  match map r_value rs with [] => None | v :: vs => Some (foldl F v vs) end.

Definition reduce_inv (st : dict K V) hist : Prop := ∀ k, dget st k = fold_values (of_key k hist).

Lemma fold_values_snoc rs r :
  fold_values (rs ++ [r]) =
  Some (match fold_values rs with None => r_value r | Some v => F v (r_value r) end).
Proof.
  unfold fold_values. rewrite map_app. destruct (map r_value rs) as [|v vs]; simpl; [done|].
  by rewrite foldl_app.
Qed.

(** What reduce emits for [r] after [hist]. *)
Definition reduce_out hist r (k : K) : rc :=
  match fold_values (of_key k hist) with
  | None => r
  | Some v => new_Record (F v (r_value r)) (event_time r) (source_emit_ts r)
  end.

Lemma reduce_step_ok st hist r k :
  reduce_inv st hist → r_key r = Some k →
  ∃ st', reduce_step f st r = (st', [reduce_out hist r k], Ok ()) ∧ reduce_inv st' (hist ++ [r]).
Proof.
  intros Hinv Hk. unfold reduce_step, key_attr, reduce_out. rewrite Hk. simpl. rewrite Hinv.
  assert (∀ v, dget (dset st k v) k = Some v) as Heq by (intros; apply dget_dset_eq).
  destruct (fold_values (of_key k hist)) as [v|] eqn:E; [rewrite f_total|];
    (eexists; split; [reflexivity|]); intros k'; rewrite dget_dset, of_key_snoc, Hk;
    case_decide as Hkk; subst; rewrite ?decide_True, ?decide_False by congruence;
    rewrite ?app_nil_r, ?fold_values_snoc, ?E; try done; apply Hinv.
Qed.

Lemma reduce_run_ok rs : ∀ st hist,
  reduce_inv st hist → Forall (λ r, is_Some (r_key r)) rs →
  ∃ st' outs, run_op (reduce_step f) st rs = (st', outs, Ok ()) ∧ length outs = length rs ∧
    ∀ i r k, rs !! i = Some r → r_key r = Some k →
      outs !! i = Some (reduce_out (hist ++ take i rs) r k).
Proof.
  induction rs as [|r rs IH]; intros st hist Hinv Hk.
  { eexists _, _. split; [reflexivity|]. split; [done|]. intros i ???. by destruct i. }
  apply Forall_cons in Hk as [[k Ek] Hk].
  destruct (reduce_step_ok st hist r k Hinv Ek) as (st1 & E1 & I1).
  destruct (IH st1 _ I1 Hk) as (st2 & outs & E2 & Hl & Ho).
  cbn [run_op]. rewrite E1, E2. eexists _, _. split; [reflexivity|]. split; [simpl; lia|].
  intros [|i] r' k' Hr Hk'; simplify_eq/=; [by rewrite app_nil_r|].
  rewrite (Ho i r' k') by done. by rewrite <- (assoc_L (++)).
Qed.
End reduce_lemmas.

(** ** Properties *)

(** C17. Chaining is transparent: a chained operator fed record by record drives its
    collectors exactly as the operators run one after the other, each over the
    whole output of its predecessor, and leaves every operator in the same
    state. *)
Theorem chaining_transparent {K V W} (cs : list (rec K V → M W ())) (ops : list (op K V))
    (ss ss' : chain_st ops) xs outs w w' :
  ops ≠ [] → pipeline ops ss xs = (ss', outs, Ok ()) → for_each outs (collect cs) w = (Ok (), w') →
  for_each xs (chain_process ops cs) (ss, w) = (Ok (), (ss', w')).
Proof. apply chain_pipeline. Qed.

(** The join is complete and emits nothing twice: for every interleaving of keyed
    left and right records, the records emitted are, up to order, one per pair
    with equal keys, carrying the left record's event time. *)
Theorem join_all_pairs_once {K V} `{EqDecision K} (join : V → V → res V) (J : V → V → V)
    (xs : list (rec K V + rec K V)) :
  (∀ a b, join a b = Ok (J a b)) → Forall keyed xs →
  ∃ s' outs, run_op (jstep join) new_join xs = (s', outs, Ok ()) ∧
    outs ≡ₚ join_pairs J (lefts xs) (rights xs).
Proof.
  intros HJ Hk. destruct (join_run_ok join J HJ xs new_join [] []) as (s' & outs & E & _ & P); [|done|].
  { by split. }
  exists s', outs. split; [exact E|]. symmetry. simpl in P. exact P.
Qed.

(** Reduce emits the running fold of the key's values for every record; but only the
    first record of a key leaves as a keyed record, later ones lose the key. *)
Theorem reduce_running_fold {K V} `{EqDecision K} (f : V → V → res V) (F : V → V → V)
    (rs : list (rec K V)) :
  (∀ a b, f a b = Ok (F a b)) → Forall (λ r, is_Some (r_key r)) rs →
  ∃ st outs, run_op (reduce_step f) [] rs = (st, outs, Ok ()) ∧ length outs = length rs ∧
    ∀ i r k, rs !! i = Some r → r_key r = Some k →
      ∃ o, outs !! i = Some o ∧ fold_values F (of_key k (take (S i) rs)) = Some (r_value o) ∧
        r_key o = if decide (of_key k (take i rs) = []) then Some k else None.
Proof.
  intros HF Hk. destruct (reduce_run_ok f F HF rs [] []) as (st & outs & E & Hl & Ho); [by intros k|done|].
  exists st, outs. split; [exact E|]. split; [done|]. intros i r k Hr Ek.
  eexists. split; [by apply Ho|]. simpl. rewrite (take_S_r _ _ r) by done.
  rewrite of_key_snoc, decide_True, fold_values_snoc by done. unfold reduce_out.
  assert (fold_values F (of_key k (take i rs)) = None ↔ of_key k (take i rs) = []) as Hn.
  { unfold fold_values. destruct (of_key k (take i rs)); simpl; split; done. }
  destruct (fold_values F (of_key k (take i rs))) as [v|] eqn:Ef.
  - split; [done|]. rewrite decide_False; [done|]. intros H0. by apply Hn in H0.
  - split; [done|]. rewrite decide_True; [done|]. by apply Hn.
Qed.

(** A two-input task routes by stream name: a record of the left stream is joined as
    left, of the right stream as right, and any other stream is refused without
    a change of state. *)
Theorem two_input_routes {K V} `{EqDecision K} (join : V → V → res V) ln rn
    (s : join_state K V) (r : rec K V) :
  ln ≠ rn →
  (stream_name r = ln → two_input_process join ln rn s r = jstep join s (inl r)) ∧
  (stream_name r = rn → two_input_process join ln rn s r = jstep join s (inr r)) ∧
  (stream_name r ≠ ln → stream_name r ≠ rn →
   two_input_process join ln rn s r = (s, [], Raise (RuntimeError "Unknown stream"))).
Proof.
  intros Hne. unfold two_input_process. split_and!; intros H1; [|subst|intros H2].
  - by rewrite decide_True by done.
  - by rewrite decide_False, decide_True by done.
  - by rewrite !decide_False by done.
Qed.

(** ** Witnesses *)

Definition ex_kr (k v : Z) : rec Z Z := new_KeyRecord k v None None.
Definition log_collector : rec Z Z → M (list (rec Z Z)) () := λ r w, (Ok (), w ++ [r]).
Definition ex_chain : list (op Z Z) :=
  [mkOp () (flat_map_step (λ v, ([v; v + 1], Ok ())%Z)); mkOp () (key_by_step (λ v, Ok (v mod 2)%Z));
   mkOp (dict Z Z) (reduce_step (λ a b, Ok (a + b)%Z))].

Lemma chaining_transparent_witness :
  for_each [new_Record 1%Z None None; new_Record 4%Z None None] (chain_process ex_chain [log_collector])
    (((), ((), ([], ()))) : chain_st ex_chain, [])
  = (Ok (), (((), ((), ([(1, 6); (0, 6)]%Z, ()))) : chain_st ex_chain,
             [ex_kr 1 1; ex_kr 0 2; new_Record 6%Z None None; new_Record 6%Z None None])).
Proof.
  apply (chaining_transparent [log_collector] ex_chain _ _ _
    [ex_kr 1 1; ex_kr 0 2; new_Record 6%Z None None; new_Record 6%Z None None]);
    [discriminate|reflexivity|reflexivity].
Defined.

Definition ex_join_inputs : list (rec Z Z + rec Z Z) :=
  [inl (ex_kr 1 10); inr (ex_kr 1 1); inr (ex_kr 2 5); inl (ex_kr 1 20); inr (ex_kr 1 2)].

Lemma join_all_pairs_once_witness :
  ∃ s' outs, run_op (jstep (λ a b, Ok (a + b)%Z)) new_join ex_join_inputs = (s', outs, Ok ()) ∧
    outs ≡ₚ join_pairs Z.add (lefts ex_join_inputs) (rights ex_join_inputs).
Proof.
  apply (join_all_pairs_once (λ a b, Ok (a + b)%Z) Z.add ex_join_inputs); [reflexivity|].
  repeat constructor; by eexists.
Defined.

Definition ex_reduce_inputs : list (rec Z Z) := [ex_kr 1 10; ex_kr 2 5; ex_kr 1 7].

Lemma reduce_running_fold_witness :
  ∃ st outs, run_op (reduce_step (λ a b, Ok (a + b)%Z)) [] ex_reduce_inputs = (st, outs, Ok ()) ∧
    length outs = 3 ∧
    ∀ i r k, ex_reduce_inputs !! i = Some r → r_key r = Some k →
      ∃ o, outs !! i = Some o ∧ fold_values Z.add (of_key k (take (S i) ex_reduce_inputs)) = Some (r_value o) ∧
        r_key o = if decide (of_key k (take i ex_reduce_inputs) = []) then Some k else None.
Proof.
  apply (reduce_running_fold (λ a b, Ok (a + b)%Z) Z.add ex_reduce_inputs); [reflexivity|].
  repeat constructor; by eexists.
Defined.

Lemma two_input_routes_witness :
  let r := set_stream_name (Some "r") (ex_kr 1 1) in
  two_input_process (λ a b, Ok (a + b)%Z) (Some "l") (Some "r") new_join r
  = jstep (λ a b, Ok (a + b)%Z) new_join (inr r).
Proof.
  cbn zeta. apply (two_input_routes (λ a b, Ok (a + b)%Z) (Some "l") (Some "r") new_join
    (set_stream_name (Some "r") (ex_kr 1 1))); [discriminate|reflexivity].
Defined.
