(* ===== verification/Dataflow.v ===== *)
(** * A running job
    ([run] of the tasks in [volga/streaming/runtime/worker/task/stream_task.py], with the
     operators, output collectors, writers and readers it drives)

    The tasks of a job run concurrently and share the transport between the Rust writers
    and readers.  A task thread is a loop whose state between two calls that others can
    observe is explicit: the record being sent, the records still to be handed to
    collectors, an exception about to escape, the messages of the batch not processed yet.
    One step of a thread is one such call, so that a schedule interleaves the tasks, their
    flusher threads and the I/O loops in any order.  A thread that raises stops; the rest
    of the job goes on.

    The transport is a parameter with an interface: what it holds per channel, and that
    writing appends there and reading takes the oldest batch of some channel of the
    reader. *)

From S2P Require Import Prelude PyDict PyDecimal Message Operators Partition Network.

(** ** The transport *)

Class Transport (T Bytes : Type) := {
  tr_write : string → Bytes → T → option Z * T;
  tr_read : list string → T → option Bytes * T;
  tr_tick : T → T;
}.

(** What the runtime relies on: channels are FIFO queues that lose nothing. *)
Class FifoTransport (T Bytes : Type) `{!Transport T Bytes} := {
  in_flight : T → string → list Bytes;
  tr_write_some ch b t z t' : tr_write ch b t = (Some z, t') →
    ∀ c, in_flight t' c = in_flight t c ++ (if decide (c = ch) then [b] else []);
  tr_write_none ch b t t' : tr_write ch b t = (None, t') → ∀ c, in_flight t' c = in_flight t c;
  tr_read_some chs t b t' : tr_read chs t = (Some b, t') →
    ∃ ch, ch ∈ chs ∧ ∀ c, in_flight t c = (if decide (c = ch) then [b] else []) ++ in_flight t' c;
  tr_read_none chs t t' : tr_read chs t = (None, t') → ∀ c, in_flight t' c = in_flight t c;
  tr_tick_ok t : ∀ c, in_flight (tr_tick t) c = in_flight t c;
}.

Section job.
Context {K V T Bytes : Type} `{!Transport T Bytes}.
Local Abbreviation rc := (rec K V).
Local Abbreviation Msg := (dict string (field K V)).
Context (hash : K → Z) (dumps : list Msg → res Bytes) (loads : Bytes → res (list Msg)).

(** ** Tasks *)

(** What a task is made of: its operator and initial state, whether it is a source, the
    name its writer puts on records, its input channels, its collectors, the writer's
    configuration and the clocks of its process. *)
Record vertex := mkVx {
  v_op : op K V;
  v_init : op_st v_op;
  v_source : bool;
  v_name : string;
  v_ins : list string;
  v_collectors : list (collector K V);
  v_batch_size : nat;
  v_flush_period_s : Qc;
  v_perf : nat → Qc;
  v_wall : nat → Qc;
}.

Definition v_outs (v : vertex) : list string := concat (map output_channel_ids (v_collectors v)).

(** The state of a task thread between two calls. *)
Record thread := mkThread {
  th_send : option (nat * rc * list Z * nat);
  th_collect : list (nat * rc);
  th_raise : option exn;
  th_msgs : list Msg;
}.
Definition idle_thread : thread := mkThread None [] None [].

(** [t_read], [t_consumed] and [t_emitted] are histories: the messages read, the records
    processed and the records the operator collected. *)
Record task := mkTask {
  t_vertex : vertex;
  t_st : op_st (v_op t_vertex);
  t_collectors : list (collector K V);
  t_writer : DataWriter Msg Bytes T;
  t_reader : DataReader T;
  t_thread : thread;
  t_alive : bool;
  t_flushing : bool;
  t_read : list Msg;
  t_consumed : list rc;
  t_emitted : list rc;
}.

Definition set_thread (th : thread) (t : task) : task :=
  mkTask (t_vertex t) (t_st t) (t_collectors t) (t_writer t) (t_reader t) th (t_alive t) (t_flushing t)
    (t_read t) (t_consumed t) (t_emitted t).
Definition set_writer (w : DataWriter Msg Bytes T) (t : task) : task :=
  mkTask (t_vertex t) (t_st t) (t_collectors t) w (t_reader t) (t_thread t) (t_alive t) (t_flushing t)
    (t_read t) (t_consumed t) (t_emitted t).
Definition set_reader (r : DataReader T) (t : task) : task :=
  mkTask (t_vertex t) (t_st t) (t_collectors t) (t_writer t) r (t_thread t) (t_alive t) (t_flushing t)
    (t_read t) (t_consumed t) (t_emitted t).
Definition set_collectors (cs : list (collector K V)) (t : task) : task :=
  mkTask (t_vertex t) (t_st t) cs (t_writer t) (t_reader t) (t_thread t) (t_alive t) (t_flushing t)
    (t_read t) (t_consumed t) (t_emitted t).
Definition add_read (ms : list Msg) (t : task) : task :=
  mkTask (t_vertex t) (t_st t) (t_collectors t) (t_writer t) (t_reader t) (t_thread t) (t_alive t) (t_flushing t)
    (t_read t ++ ms) (t_consumed t) (t_emitted t).

(** An exception escapes [run]. *)
Definition halt (t : task) : task :=
  mkTask (t_vertex t) (t_st t) (t_collectors t) (t_writer t) (t_reader t) (t_thread t) false (t_flushing t)
    (t_read t) (t_consumed t) (t_emitted t).

(** An exception escapes the flusher thread. *)
Definition halt_flusher (t : task) : task :=
  mkTask (t_vertex t) (t_st t) (t_collectors t) (t_writer t) (t_reader t) (t_thread t) (t_alive t) false
    (t_read t) (t_consumed t) (t_emitted t).

(** The shared transport seen by the writer and the reader of a task. *)
Definition attach (tr : T) (w : DataWriter Msg Bytes T) : DataWriter Msg Bytes T := set_rust tr (sent w) w.
Definition attach_reader (tr : T) (r : DataReader T) : DataReader T :=
  mkDataReader tr (num_msgs_read r) (rd_last_report_ts r) (rd_start_ts r) (rd_n_wall r).

(** [processor.process(record)] up to the first call of a collector: the operator's step,
    then every record it collects goes to every collector, then the exception, if any. *)
Definition process_record (r : rc) (t : task) : task :=
  let '(st, outs, e) := op_step (v_op (t_vertex t)) (t_st t) r in
  let n := length (t_collectors t) in
  mkTask (t_vertex t) st (t_collectors t) (t_writer t) (t_reader t)
    (mkThread None (concat (map (λ x, map (λ ci, (ci, x)) (seq 0 n)) outs))
       (match e with Ok _ => None | Raise e => Some e end) (th_msgs (t_thread t)))
    (t_alive t) (t_flushing t) (t_read t) (t_consumed t ++ [r]) (t_emitted t ++ outs).

(** [OutputCollector.collect]: one turn of the retry loop. *)
Definition send_step (t : task) (tr : T) (ci : nat) (r : rc) (ps : list Z) (cur : nat) : task * T :=
  let th := t_thread t in
  let next s := set_thread (mkThread s (th_collect th) (th_raise th) (th_msgs th)) in
  match (c ← from_option_exn IndexError (t_collectors t !! ci);
         p ← from_option_exn IndexError (ps !! cur); py_index (output_channel_ids c) p) with
  | Raise _ => (halt t, tr)
  | Ok id =>
      match try_write_record dumps tr_write (v_perf (t_vertex t)) (v_wall (t_vertex t)) id r
              (attach tr (t_writer t)) with
      | (Raise _, w) => (halt (set_writer w t), rust w)
      | (Ok true, w) =>
          let ps' := delete cur ps in
          (next (if decide (ps' = []) then None else Some (ci, r, ps', (cur + 1) mod length ps'))
             (set_writer w t), rust w)
      | (Ok false, w) => (next (Some (ci, r, ps, (cur + 1) mod length ps)) (set_writer w t), rust w)
      end
  end.

(** [OutputCollector.collect]: the partition decides where the record goes. *)
Definition collect_step (t : task) (ci : nat) (r : rc) (rest : list (nat * rc)) : task :=
  match (c ← from_option_exn IndexError (t_collectors t !! ci);
         pp ← partition hash (c_partition c) r (Z.of_nat (length (output_channel_ids c)));
         Ok (c, pp)) with
  | Raise _ => halt t
  | Ok (c, (ps, p')) =>
      set_collectors (<[ci := mkCollector (output_channel_ids c) p']> (t_collectors t))
        (set_thread (mkThread (if decide (ps = []) then None else Some (ci, r, ps, 0)) rest
           (th_raise (t_thread t)) (th_msgs (t_thread t))) t)
  end.

(** [self.data_reader.read_message()]; a thread that finds nothing sleeps and retries. *)
Definition read_step (t : task) (tr : T) : task * T :=
  if decide (v_ins (t_vertex t) = []) then (halt t, tr) else
  match read_message loads (tr_read (v_ins (t_vertex t))) (v_wall (t_vertex t))
          (attach_reader tr (t_reader t)) with
  | (Raise _, rd) => (halt (set_reader rd t), rust_reader rd)
  | (Ok ms, rd) =>
      let ms := default [] ms in
      let th := t_thread t in
      (set_thread (mkThread (th_send th) (th_collect th) (th_raise th) ms)
         (add_read ms (set_reader rd t)), rust_reader rd)
  end.

(** One call of the loop of [SourceStreamTask.run] or [InputStreamTask.run].  A source gets
    an empty record that triggers its [fetch]. *)
Definition thread_step (empty : V) (t : task) (tr : T) : task * T :=
  if negb (t_alive t) then (t, tr) else
  let th := t_thread t in
  match th_send th with
  | Some (ci, r, ps, cur) => send_step t tr ci r ps cur
  | None =>
      match th_collect th with
      | (ci, r) :: rest => (collect_step t ci r rest, tr)
      | [] =>
          match th_raise th with
          | Some _ => (halt t, tr)
          | None =>
              match th_msgs th with
              | m :: ms =>
                  match record_from_channel_message m with
                  | Raise _ => (halt t, tr)
                  | Ok r => (process_record r (set_thread (mkThread None [] None ms) t), tr)
                  end
              | [] => if v_source (t_vertex t) then (process_record (new_Record empty None None) t, tr)
                      else read_step t tr
              end
          end
      end
  end.

(** ** The job *)

Record job := mkJob { tasks : list task; transport : T }.

Inductive action :=
| Run (i : nat)               (* a step of the thread of task [i] *)
| Flush (i k : nat)           (* the flusher thread of task [i] at its [k]-th channel *)
| Tick.                       (* the I/O loops *)

Definition flush_task (t : task) (k : nat) (tr : T) : task * T :=
  if negb (t_flushing t) then (t, tr) else
  match v_outs (t_vertex t) !! k with
  | None => (t, tr)
  | Some ch =>
      match flush_channel dumps tr_write (v_perf (t_vertex t)) ch (attach tr (t_writer t)) with
      | (Ok _, w) => (set_writer w t, rust w)
      | (Raise _, w) => (halt_flusher (set_writer w t), rust w)
      end
  end.

Definition on_task (j : job) (i : nat) (f : task → T → task * T) : job :=
  match tasks j !! i with
  | None => j
  | Some t => let '(t', tr) := f t (transport j) in mkJob (<[i := t']> (tasks j)) tr
  end.

Definition job_step (empty : V) (j : job) (a : action) : job :=
  match a with
  | Run i => on_task j i (thread_step empty)
  | Flush i k => on_task j i (λ t, flush_task t k)
  | Tick => mkJob (tasks j) (tr_tick (transport j))
  end.

Definition job_run (empty : V) : job → list action → job := foldl (job_step empty).

(** A task as [_prepare_task] leaves it: the writer and the reader made and started. *)
Definition new_task (v : vertex) (tr : T) : task :=
  mkTask v (v_init v) (v_collectors v)
    (start (v_wall v) (new_DataWriter (v_wall v) (v_name v) (v_outs v) (v_batch_size v)
       (v_flush_period_s v) tr)).2
    (start_reader (v_wall v) (new_DataReader (v_wall v) tr))
    idle_thread true true [] [] [].

Definition new_job (vs : list vertex) (tr : T) : job := mkJob (map (λ v, new_task v tr) vs) tr.
End job.

Arguments vertex : clear implicits.
Arguments task : clear implicits.
Arguments thread : clear implicits.
Arguments job : clear implicits.

(** ** Lemmas: the writer over a FIFO transport *)

Section writer_effects.
Context {Msg T Bytes : Type} `{FifoTransport T Bytes}.
Context (dumps : list Msg → res Bytes) (loads : Bytes → res (list Msg)) (perf wall : nat → Qc).
Context (codec : ∀ b bs, dumps b = Ok bs → loads bs = Ok b).
Local Abbreviation DW := (DataWriter Msg Bytes T).

Definition unpack (bs : Bytes) : list Msg := match loads bs with Ok b => b | Raise _ => [] end.

Lemma unpack_dumps b bs : dumps b = Ok bs → unpack bs = b.
Proof. intros E. unfold unpack. by rewrite (codec _ _ E). Qed.

(** A call on channel [ch] that accepted [acc]: what it sent is in flight, and the accepted
    messages are sent or in the open batch, in order. *)
Record effect (ch : string) (acc : list Msg) (s s' : DW) : Prop := {
  ef_sent : ∃ new, sent s' = sent s ++ new ∧ Forall (λ e, e.1 = ch) new ∧
    ∀ c, in_flight (rust s') c = in_flight (rust s) c ++ on_channel c new;
  ef_delivered : ∀ c, delivered unpack c s' = delivered unpack c s ++ (if decide (c = ch) then acc else []);
  ef_name : source_stream_name s' = source_stream_name s;
}.

Lemma effect_none ch (s s' : DW) : sent s' = sent s → rust s' = rust s →
  batch_per_channel s' = batch_per_channel s → source_stream_name s' = source_stream_name s → effect ch [] s s'.
Proof.
  intros E1 E2 E3 E4. split; [|intros c; unfold delivered, batch_of; rewrite E1, E3; case_decide; by rewrite app_nil_r|done].
  exists []. rewrite E1, E2, app_nil_r. split_and!; [done..|]. intros c. by rewrite app_nil_r.
Qed.

(** Only the batch of [ch] changes: it grows by [acc]. *)
Lemma effect_batch ch acc (s s' : DW) : sent s' = sent s → (∀ c, in_flight (rust s') c = in_flight (rust s) c) →
  source_stream_name s' = source_stream_name s →
  (∀ c, batch_of c s' = batch_of c s ++ (if decide (c = ch) then acc else [])) → effect ch acc s s'.
Proof.
  intros E1 E2 E3 E4. split; [|intros c; unfold delivered; by rewrite E1, E4, (assoc_L (++))|done].
  exists []. rewrite E1, app_nil_r. split_and!; [done..|]. intros c. rewrite E2. by rewrite app_nil_r.
Qed.

(** The batch of [ch] with [acc] added is sent and emptied. *)
Lemma effect_send ch acc bs (s s' : DW) : sent s' = sent s ++ [(ch, bs)] →
  (∀ c, in_flight (rust s') c = in_flight (rust s) c ++ (if decide (c = ch) then [bs] else [])) →
  source_stream_name s' = source_stream_name s →
  (∀ c, batch_of c s' = if decide (c = ch) then [] else batch_of c s) →
  unpack bs = batch_of ch s ++ acc → effect ch acc s s'.
Proof.
  intros E1 E2 E3 E4 E5. split; [|intros c|done].
  - exists [(ch, bs)]. split_and!; [done|by repeat constructor|]. intros c. rewrite E2, on_channel_one.
    by destruct (decide (c = ch)), (decide (ch = c)); simplify_eq.
  - unfold delivered. rewrite E1, E4, on_channel_app, on_channel_one, map_app, concat_app.
    destruct (decide (c = ch)) as [->|Hc].
    + rewrite decide_True by done. simpl. by rewrite !app_nil_r, E5, (assoc_L (++)).
    + rewrite decide_False by done. simpl. by rewrite !app_nil_r.
Qed.

Lemma effect_trans ch acc (s1 s2 s3 : DW) : effect ch acc s1 s2 → sent s3 = sent s2 → rust s3 = rust s2 →
  batch_per_channel s3 = batch_per_channel s2 → source_stream_name s3 = source_stream_name s2 → effect ch acc s1 s3.
Proof.
  intros [H1 H2 H3] E1 E2 E3 E4. split.
  - by rewrite E1, E2.
  - intros c. specialize (H2 c). unfold delivered, batch_of in *. by rewrite E1, E3.
  - congruence.
Qed.

Lemma batch_of_set ch b (s : DW) c :
  default [] (dget (dset (batch_per_channel s) ch b) c) = if decide (c = ch) then b else batch_of c s.
Proof. rewrite dget_dset. unfold batch_of. by repeat (case_decide; simplify_eq). Qed.

Ltac mon := unfold mbind, M_bind, mret, M_ret, getS, modS, liftR, release, perf_counter, get_batch.
Ltac wsimp := cbn [batch_per_channel lock_per_channel last_write_ts_per_channel source_stream_name
    batch_size sent rust set_batch set_lock set_write_ts set_rust set_clocks set_report].
Ltac batches := intros ?; unfold batch_of at 1; wsimp; rewrite ?dset_dset, ?batch_of_set;
  repeat (case_decide; simplify_eq/=); rewrite ?app_nil_r; try done;
  try match goal with E : dget _ _ = Some _ |- _ => unfold batch_of; by rewrite E end.

(** Whatever the outcome, [acc] says whether the message was taken. *)
Lemma try_write_effect ch m (s : DW) r s' : _try_write_message dumps tr_write perf ch m s = (r, s') →
  ∃ acc : bool, (∀ b, r = Ok b → acc = b) ∧ effect ch (if acc then [m] else []) s s'.
Proof.
  unfold _try_write_message, acquire, rust_write. mon. intros E.
  destruct (dget (lock_per_channel s) ch) as [[]|]; simplify_eq/=.
  1,3: (exists false; split; [done|by apply effect_none]).
  unfold dgetitem in E. cbn in E. destruct (dget (batch_per_channel s) ch) as [b|] eqn:Eb; simplify_eq/=;
    [|exists false; split; [done|by apply effect_none]].
  case_decide as Hsz; simplify_eq/=.
  - destruct (dumps (b ++ [m])) as [bs|e] eqn:Ed; simplify_eq/=.
    + destruct (tr_write ch bs (rust s)) as [[z|] w] eqn:Ew; simplify_eq/=.
      * exists true. split; [by intros ? [= <-]|]. apply (effect_send _ _ bs); wsimp; [done| |done| |].
        -- by apply (tr_write_some _ _ _ z).
        -- batches.
        -- rewrite (unpack_dumps _ _ Ed). unfold batch_of. by rewrite Eb.
      * exists false. split; [by intros ? [= <-]|]. apply effect_batch; wsimp; [done| |done|].
        -- by apply (tr_write_none _ _ _ _ Ew).
        -- rewrite removelast_last. batches.
    + exists true. split; [done|]. apply effect_batch; wsimp; [done..|]. batches.
  - exists true. split; [by intros ? [= <-]|]. apply effect_batch; wsimp; [done..|]. batches.
Qed.

Lemma flush_effect ch (s : DW) r s' : flush_channel dumps tr_write perf ch s = (r, s') → effect ch [] s s'.
Proof.
  unfold flush_channel, acquire, rust_write. mon. intros E.
  destruct (dget (lock_per_channel s) ch) as [[]|]; unfold modS in *; simplify_eq/=.
  1,3: by apply effect_none.
  unfold dgetitem in E. cbn in E. destruct (dget (last_write_ts_per_channel s) ch); unfold modS in *; simplify_eq/=;
    [|by apply effect_none].
  case_decide; unfold modS in *; simplify_eq/=; [|by apply effect_none].
  destruct (dget (batch_per_channel s) ch) as [b|] eqn:Eb; unfold modS in *; simplify_eq/=; [|by apply effect_none].
  case_decide; unfold modS in *; simplify_eq/=; [by apply effect_none|].
  destruct (dumps b) as [bs|e] eqn:Ed; unfold modS in *; simplify_eq/=; [|by apply effect_none].
  destruct (tr_write ch bs (rust s)) as [[z1|] w] eqn:Ew; unfold modS in *; simplify_eq/=.
  - apply (effect_send _ _ bs); wsimp; [done| |done| |].
    + by apply (tr_write_some _ _ _ z1).
    + batches.
    + rewrite (unpack_dumps _ _ Ed), app_nil_r. unfold batch_of. by rewrite Eb.
  - apply effect_batch; wsimp; [done| |done|]; [by apply (tr_write_none _ _ _ _ Ew)|batches].
Qed.

(** [try_write_message] adds the report, which may raise after the message was taken. *)
Lemma try_write_message_effect ch m (s : DW) r s' : try_write_message dumps tr_write perf wall ch m s = (r, s') →
  ∃ acc : bool, (∀ b, r = Ok b → acc = b) ∧ effect ch (if acc then [m] else []) s s'.
Proof.
  unfold try_write_message, report_sent. mon. intros E.
  destruct (_try_write_message _ _ _ ch m s) as [[b|e] s1] eqn:E1;
    destruct (try_write_effect _ _ _ _ _ E1) as (acc & Hacc & Hef); [|simplify_eq; by exists acc].
  exists acc. specialize (Hacc b eq_refl) as ->. destruct b; [|simplify_eq; split; [by intros ? [= <-]|done]].
  unfold time in E. simplify_eq/=. case_decide; simplify_eq/=.
  - destruct (report_tx _ _); simplify_eq/=; (split; [by intros ? [= <-]|by eapply effect_trans]).
  - split; [by intros ? [= <-]|by eapply effect_trans].
Qed.
End writer_effects.

(** ** What a collector makes of the records it gets *)

Section routing.
Context {K V : Type} (hash : K → Z).
Local Abbreviation rc := (rec K V).
Implicit Types (c : collector K V) (r : rc) (rs : list rc).

(** The channels a collector chooses for a list of records, until its partition raises. *)
Fixpoint dispatch c rs : list (string * rc) * res (collector K V) :=
  match rs with
  | [] => ([], Ok c)
  | r :: rs' =>
      let ids := output_channel_ids c in
      match partition hash (c_partition c) r (Z.of_nat (length ids)) with
      | Raise e => ([], Raise e)
      | Ok (ps, p') => let '(l, c') := dispatch (mkCollector ids p') rs' in
                       (map (λ p, (chan ids p, r)) ps ++ l, c')
      end
  end.

(** What goes to one channel. *)
Definition routed c (ch : string) rs : list rc := on_channel ch (dispatch c rs).1.

Definition collector_wf c : Prop := partition_wf (c_partition c) ∧ output_channel_ids c ≠ [].

Lemma dispatch_snoc c rs r : ∀ l c1, dispatch c rs = (l, Ok c1) →
  output_channel_ids c1 = output_channel_ids c ∧
  dispatch c (rs ++ [r]) =
    match partition hash (c_partition c1) r (Z.of_nat (length (output_channel_ids c))) with
    | Raise e => (l, Raise e)
    | Ok (ps, p') => (l ++ map (λ p, (chan (output_channel_ids c) p, r)) ps, Ok (mkCollector (output_channel_ids c) p'))
    end.
Proof.
  revert c. induction rs as [|x rs IH]; intros c l c1 E; simpl in *.
  - simplify_eq. split; [done|]. destruct (partition _ _ _ _) as [[ps p']|]; [|done]. by rewrite app_nil_r.
  - destruct (partition hash (c_partition c) x _) as [[ps p']|]; [|done].
    destruct (dispatch (mkCollector _ p') rs) as [l0 c0] eqn:E0. simplify_eq.
    destruct (IH _ _ _ E0) as [H1 H2]. simpl in H1, H2. split; [done|]. rewrite H2.
    destruct (partition hash (c_partition c1) r _) as [[ps' p'']|]; [|done]. by rewrite (assoc_L (++)).
Qed.

Lemma dispatch_prefix c rs1 rs2 : (dispatch c rs1).1 `prefix_of` (dispatch c (rs1 ++ rs2)).1.
Proof.
  revert c. induction rs1 as [|x rs1 IH]; intros c; simpl; [apply prefix_nil|].
  destruct (partition hash (c_partition c) x _) as [[ps p']|]; [|done].
  specialize (IH (mkCollector (output_channel_ids c) p')).
  destruct (dispatch _ rs1), (dispatch _ (rs1 ++ rs2)). by apply prefix_app.
Qed.

Lemma on_channel_prefix {A} ch (l1 l2 : list (string * A)) : l1 `prefix_of` l2 → on_channel ch l1 `prefix_of` on_channel ch l2.
Proof. intros [k ->]. rewrite on_channel_app. by eexists. Qed.

Lemma routed_prefix c ch rs1 rs2 : rs1 `prefix_of` rs2 → routed c ch rs1 `prefix_of` routed c ch rs2.
Proof. intros [k ->]. apply on_channel_prefix, dispatch_prefix. Qed.

Lemma dispatch_wf c rs : ∀ l c1, collector_wf c → dispatch c rs = (l, Ok c1) → collector_wf c1.
Proof.
  revert c. induction rs as [|x rs IH]; intros c l c1 Hwf E; simpl in *; [by simplify_eq|].
  destruct (partition hash (c_partition c) x _) as [[ps p']|] eqn:Ep; [|done].
  destruct (dispatch (mkCollector _ p') rs) as [l0 c0] eqn:E0. simplify_eq. eapply IH; [|exact E0].
  destruct Hwf as [H1 H2]. split; [|done]. eapply partition_ok_wf in Ep as (? & _); [done..|].
  destruct (output_channel_ids c); simpl in *; [done|lia].
Qed.

(** The copies of one record on a channel: sending one leaves the others. *)
Lemma on_channel_copies ids ch r ps : on_channel ch (map (λ p, (chan ids p, r)) ps)
  = replicate (length (filter (λ p, chan ids p = ch) ps)) r.
Proof.
  unfold on_channel. induction ps as [|p ps IH]; [done|]. cbn [map]. rewrite !filter_cons. simpl.
  case_decide; simpl; by rewrite IH.
Qed.

Lemma on_channel_delete ids ch r ps cur p : ps !! cur = Some p →
  on_channel ch (map (λ p, (chan ids p, r)) ps) =
  (if decide (ch = chan ids p) then [r] else []) ++ on_channel ch (map (λ p, (chan ids p, r)) (delete cur ps)).
Proof.
  intros Hp. rewrite !on_channel_copies. pose proof (delete_perm ps cur p Hp) as Hd.
  assert (length (filter (λ q, chan ids q = ch) ps) =
    length (filter (λ q, chan ids q = ch) (p :: delete cur ps))) as -> by by rewrite Hd.
  rewrite filter_cons. destruct (decide (ch = chan ids p)) as [->|Hne].
  - by rewrite decide_True.
  - by rewrite decide_False.
Qed.
End routing.

(** ** The invariant of a task *)

Section task_lemmas.
Context {K V T Bytes : Type} `{FifoTransport T Bytes}.
Local Abbreviation rc := (rec K V).
Local Abbreviation Msg := (dict string (field K V)).
Context (hash : K → Z) (dumps : list Msg → res Bytes) (loads : Bytes → res (list Msg)) (empty : V).
Context (codec : ∀ b bs, dumps b = Ok bs → loads bs = Ok b).
Local Abbreviation task := (task K V T Bytes).
Implicit Types (t : task) (tr : T) (r : rc).

Record vertex_wf (v : vertex K V) : Prop := {
  vw_outs : NoDup (v_outs v);
  vw_collectors : Forall collector_wf (v_collectors v);
}.

(** The records a collector has not been handed yet, and the copies still to be sent. *)
Definition pending (ci : nat) (l : list (nat * rc)) : list rc := omap (λ e, if decide (e.1 = ci) then Some e.2 else None) l.
Definition sending (ids : list string) (ci : nat) (s : option (nat * rc * list Z * nat)) : list (string * rc) :=
  match s with
  | Some (ci', r, ps, _) => if decide (ci' = ci) then map (λ p, (chan ids p, r)) ps else []
  | None => []
  end.

Definition send_wf (v : vertex K V) (s : option (nat * rc * list Z * nat)) : Prop :=
  match s with
  | Some (ci, r, ps, cur) => ∃ c, v_collectors v !! ci = Some c ∧
      Forall (λ p, (0 ≤ p < Z.of_nat (length (output_channel_ids c)))%Z) ps ∧ cur < length ps
  | None => True
  end.

Local Abbreviation out ch t := (delivered (unpack loads) ch (t_writer t)).
Local Abbreviation ran t e := (run_op (op_step (v_op (t_vertex t))) (v_init (t_vertex t)) (t_consumed t) = (t_st t, t_emitted t, e)).

(** A collector of a task whose thread runs: it has routed what it was handed; what is not
    written yet is being sent. *)
Definition collector_live t (ci : nat) (c0 : collector K V) : Prop :=
  ∃ done l c, t_emitted t = done ++ pending ci (th_collect (t_thread t)) ∧ dispatch hash c0 done = (l, Ok c) ∧
    t_collectors t !! ci = Some c ∧
    ∀ ch, ch ∈ output_channel_ids c0 →
      out ch t ++ map (named_message (v_name (t_vertex t))) (on_channel ch (sending (output_channel_ids c0) ci (th_send (t_thread t))))
      = map (named_message (v_name (t_vertex t))) (on_channel ch l).

Record task_live t : Prop := {
  tl_run : ran t (match th_raise (t_thread t) with None => Ok () | Some e => Raise e end);
  tl_coll ci c0 : v_collectors (t_vertex t) !! ci = Some c0 → collector_live t ci c0;
  tl_len : length (t_collectors t) = length (v_collectors (t_vertex t));
  tl_send : send_wf (t_vertex t) (th_send (t_thread t));
  tl_in : v_source (t_vertex t) = false →
    ∃ ms, t_read t = ms ++ th_msgs (t_thread t) ∧ mapR record_from_channel_message ms = Ok (t_consumed t);
}.

(** What stays true when the thread has stopped. *)
Record task_safe t : Prop := {
  ts_run : ∃ e, ran t e;
  ts_coll ci c0 ch : v_collectors (t_vertex t) !! ci = Some c0 → ch ∈ output_channel_ids c0 →
    out ch t `prefix_of` map (named_message (v_name (t_vertex t))) (routed hash c0 ch (t_emitted t));
  ts_in : v_source (t_vertex t) = false →
    ∃ ms rest, t_read t = ms ++ rest ∧ mapR record_from_channel_message ms = Ok (t_consumed t);
}.

Record task_inv t : Prop := {
  ti_wf : vertex_wf (t_vertex t);
  ti_name : source_stream_name (t_writer t) = v_name (t_vertex t);
  ti_live : t_alive t = true → task_live t;
  ti_safe : task_safe t;
}.

Lemma collector_live_safe t ci c0 ch : collector_live t ci c0 → ch ∈ output_channel_ids c0 →
  out ch t `prefix_of` map (named_message (v_name (t_vertex t))) (routed hash c0 ch (t_emitted t)).
Proof.
  intros (done & l & c & E1 & E2 & _ & E4) Hch. etrans; [eexists; symmetry; by apply E4|].
  apply prefix_map. replace (on_channel ch l) with (routed hash c0 ch done) by (unfold routed; by rewrite E2).
  apply routed_prefix. rewrite E1. by eexists.
Qed.

Lemma live_safe t : task_live t → task_safe t.
Proof.
  intros [H1 H2 H3 H4 H5]. split; [by eexists| |].
  - intros ci c0 ch Hc. apply collector_live_safe with ci. by apply H2.
  - intros Hs. destruct (H5 Hs) as (ms & E1 & E2). by eexists _, _.
Qed.

Lemma run_op_snoc {St In} (step : St → In → outcome (K:=K) (V:=V) St) xs x : ∀ s s1 ys,
  run_op step s xs = (s1, ys, Ok ()) →
  run_op step s (xs ++ [x]) = let '(s2, zs, e) := step s1 x in (s2, ys ++ zs, e).
Proof.
  induction xs as [|y xs IH]; intros s s1 ys E; simpl in *.
  - simplify_eq. destruct (step s1 x) as [[s2 zs] [[]|e]]; simpl; by rewrite ?app_nil_r.
  - destruct (step s y) as [[s' o1] [[]|e]]; [|done].
    destruct (run_op step s' xs) as [[s'' o2] e2] eqn:Er. simplify_eq. rewrite (IH _ _ _ Er).
    destruct (step s1 x) as [[s2 zs] e]. by rewrite (assoc_L (++)).
Qed.

(** Handing every record to every collector leaves each collector exactly those records. *)
Lemma pending_app ci l1 l2 : pending ci (l1 ++ l2) = pending ci l1 ++ pending ci l2.
Proof. unfold pending. by rewrite omap_app. Qed.

Lemma pending_fan_out n ci (outs : list rc) : ci < n →
  pending ci (concat (map (λ x, map (λ ci, (ci, x)) (seq 0 n)) outs)) = outs.
Proof.
  intros Hn. induction outs as [|x outs IH]; [done|]. cbn [map concat]. rewrite pending_app, IH.
  assert (∀ m k, pending ci (map (λ ci, (ci, x)) (seq m k)) = if decide (m ≤ ci < m + k) then [x] else []) as ->.
  { intros m k. revert m. induction k as [|k IHk]; intros m; [by rewrite decide_False by lia|].
    cbn [seq map]. unfold pending in *. cbn [omap list_omap fst snd]. rewrite IHk.
    destruct (decide (m = ci)); repeat case_decide; try lia; done. }
  by rewrite decide_True by lia.
Qed.

(** Processing a record: the head of the batch for an input task, the empty record for a source. *)
Lemma process_live r t msgs ms : task_live t → t_thread t = mkThread None [] None msgs →
  (v_source (t_vertex t) = false → ∃ m, msgs = m :: ms ∧ record_from_channel_message m = Ok r) →
  task_live (process_record r (set_thread (mkThread None [] None ms) t)).
Proof.
  intros [H1 H2 H3 H4 H5] Hth Hin. unfold process_record. cbn [set_thread t_vertex t_st].
  destruct (op_step (v_op (t_vertex t)) (t_st t) r) as [[st outs] e] eqn:Es.
  rewrite Hth in H1, H5. simpl in H1. pose proof (run_op_snoc _ _ r _ _ _ H1) as Hrun. rewrite Es in Hrun.
  split; cbn [set_thread t_vertex t_st t_consumed t_emitted t_thread th_raise th_send th_collect th_msgs t_collectors t_read].
  - rewrite Hrun. by destruct e as [[]|].
  - intros ci c0 Hc. destruct (H2 ci c0 Hc) as (done & l & c & E1 & E2 & E3 & E4).
    rewrite Hth in E1, E4. simpl in E1, E4. rewrite app_nil_r in E1.
    exists (t_emitted t), l, c. cbn [t_emitted t_thread th_collect t_collectors th_send t_vertex t_writer].
    split_and!; [|by rewrite E1|done|done].
    by rewrite pending_fan_out by (rewrite H3; by eapply lookup_lt_Some).
  - done.
  - done.
  - intros Hs. destruct (H5 Hs) as (ms0 & E1 & E2). destruct (Hin Hs) as (m & -> & Em). simpl in E1.
    exists (ms0 ++ [m]). rewrite E1, <- (assoc_L (++)). split; [done|]. rewrite mapR_app, E2. simpl. by rewrite Em.
Qed.

(** A step between the task and the transport: it sends on output channels, or it takes a
    batch from an input channel, of which a thread that stops may lose the messages. *)
Definition sends_on t t' tr tr' : Prop :=
  t_read t' = t_read t ∧ ∃ new, sent (t_writer t') = sent (t_writer t) ++ new ∧
    Forall (λ e, e.1 ∈ v_outs (t_vertex t)) new ∧ ∀ c, in_flight tr' c = in_flight tr c ++ on_channel c new.
Definition reads_from t t' tr tr' : Prop :=
  sent (t_writer t') = sent (t_writer t) ∧ ∃ ch b got lost, ch ∈ v_ins (t_vertex t) ∧
    (∀ c, in_flight tr c = (if decide (c = ch) then [b] else []) ++ in_flight tr' c) ∧
    t_read t' = t_read t ++ got ∧ got ++ lost = unpack loads b ∧ (t_alive t' = true → lost = []).

Record task_step t t' tr tr' : Prop := {
  st_vertex : t_vertex t' = t_vertex t;
  st_alive : t_alive t' = true → t_alive t = true;
  st_inv : task_inv t';
  st_net : sends_on t t' tr tr' ∨ (t_alive t = true ∧ reads_from t t' tr tr');
}.

Lemma sends_nothing t t' tr tr' : t_read t' = t_read t → sent (t_writer t') = sent (t_writer t) →
  (∀ c, in_flight tr' c = in_flight tr c) → sends_on t t' tr tr'.
Proof.
  intros E1 E2 E3. split; [done|]. exists []. rewrite app_nil_r. split_and!; [done..|]. intros c. by rewrite E3, app_nil_r.
Qed.

(** Stopping is safe as long as everything written is accounted for. *)
Lemma halt_inv t : task_inv t → task_inv (halt t).
Proof. intros [H1 H2 H3 [H4 H5 H6]]. split; [done|done|by intros|]. split; by cbn. Qed.

Lemma halt_step t tr : task_inv t → task_step t (halt t) tr tr.
Proof. intros Hi. split; [done|by intros|by apply halt_inv|]. left. by apply sends_nothing. Qed.

Lemma v_outs_elem (v : vertex K V) ci c ch : v_collectors v !! ci = Some c → ch ∈ output_channel_ids c → ch ∈ v_outs v.
Proof.
  intros Hc Hch. unfold v_outs. apply elem_of_concat. exists (output_channel_ids c). split; [done|].
  apply list_elem_of_fmap_2. by eapply list_elem_of_lookup_2.
Qed.

Lemma chan_elem ids p : (0 ≤ p < Z.of_nat (length ids))%Z → chan ids p ∈ ids.
Proof. intros Hp. unfold chan. apply list_elem_of_In, nth_In. lia. Qed.

Lemma dispatch_ids (c0 : collector K V) done l c : dispatch hash c0 done = (l, Ok c) → output_channel_ids c = output_channel_ids c0.
Proof. intros E. by apply (dispatch_snoc hash _ _ (new_Record empty None None)) in E as [? _]. Qed.

Lemma collect_live t ci r rest : task_inv t → t_alive t = true → th_send (t_thread t) = None →
  th_collect (t_thread t) = (ci, r) :: rest → t_alive (collect_step hash t ci r rest) = true →
  task_live (collect_step hash t ci r rest).
Proof.
  intros Hi Ha Hs Hc Ha'. destruct (ti_live _ Hi Ha) as [H1 H2 H3 H4 H5]. destruct (ti_wf _ Hi) as [W1 W2].
  unfold collect_step in *. destruct (t_collectors t !! ci) as [c|] eqn:Ec; [|done]. cbn in *.
  destruct (partition _ _ _ _) as [[ps p']|] eqn:Ep; [|done]. cbn in *.
  destruct (lookup_lt_is_Some_2 (v_collectors (t_vertex t)) ci) as [c0 Hc0];
    [rewrite <- H3; by eapply lookup_lt_Some|].
  assert (collector_wf c0) as Wc0 by (rewrite Forall_forall in W2; apply W2; by eapply list_elem_of_lookup_2).
  split; cbn [t_vertex t_st t_consumed t_emitted t_thread th_raise th_send th_collect th_msgs t_collectors t_read
              set_collectors set_thread].
  - done.
  - intros ci' c0' Hc0'. destruct (H2 ci' c0' Hc0') as (done & l & c1 & E1 & E2 & E3 & E4).
    rewrite Hs in E4. cbn [sending on_channel map] in E4. rewrite Hc in E1. unfold pending in E1. cbn [omap list_omap fst snd] in E1.
    destruct (decide (ci = ci')) as [<-|Hne].
    + simplify_eq. pose proof (dispatch_ids _ _ _ _ E2) as Eids.
      destruct (dispatch_snoc hash c0 done r _ _ E2) as [_ E5]. rewrite <- Eids, Ep in E5.
      eexists (done ++ [r]), _, _. cbn [t_emitted t_thread th_collect t_collectors th_send t_vertex t_writer set_thread set_collectors].
      split_and!; [by rewrite <- (assoc_L (++))|exact E5|apply list_lookup_insert_eq; by eapply lookup_lt_Some|].
      intros ch Hch. rewrite on_channel_app, map_app, <- (E4 ch Hch), Eids.
      change (filter _ []) with (@nil (string * rc)). cbn [map]. rewrite app_nil_r.
      destruct (decide (ps = [])) as [->|]; [done|]. cbn [sending]. by rewrite decide_True.
    + exists done, l, c1. cbn [t_emitted t_thread th_collect t_collectors th_send t_vertex t_writer set_thread set_collectors].
      split_and!; [done|done|by rewrite list_lookup_insert_ne|].
      intros ch Hch. rewrite <- (E4 ch Hch). f_equal.
      destruct (decide (ps = [])); [done|]. cbn [sending]. by rewrite decide_False.
  - by rewrite length_insert.
  - destruct (decide (ps = [])); [done|]. cbn [send_wf]. exists c0. split; [done|].
    destruct (H2 ci c0 Hc0) as (done & l & c1 & E1 & E2 & E3 & E4). simplify_eq.
    destruct (dispatch_wf hash _ _ _ _ Wc0 E2) as [W3 W4].
    rewrite <- (dispatch_ids _ _ _ _ E2). eapply partition_ok_wf in Ep as (_ & Hne & Hr); [|done|].
    + split; [done|]. destruct ps; [done|simpl; lia].
    + destruct (output_channel_ids c); simpl in *; [done|lia].
  - done.
Qed.

Lemma collect_keeps t ci r rest : let t' := collect_step hash t ci r rest in
  t_vertex t' = t_vertex t ∧ t_writer t' = t_writer t ∧ t_read t' = t_read t ∧
  (t_alive t' = true → t_alive t = true) ∧ (task_safe t → task_safe t').
Proof.
  unfold collect_step. cbn zeta. destruct (from_option_exn IndexError (t_collectors t !! ci) ≫= _) as [[c [ps p']]|];
  (split_and!; [done..|intros [S1 S2 S3]; by split]).
Qed.

Lemma collect_ok t tr ci r rest : task_inv t → t_alive t = true → th_send (t_thread t) = None →
  th_collect (t_thread t) = (ci, r) :: rest → task_step t (collect_step hash t ci r rest) tr tr.
Proof.
  intros Hi Ha Hs Hc. destruct (collect_keeps t ci r rest) as (E1 & E2 & E3 & E4 & E5).
  split; [done|done| |left; apply sends_nothing; congruence].
  split; [rewrite E1; apply Hi|rewrite E1, E2; apply Hi|intros Ha'; by apply collect_live|apply E5, Hi].
Qed.

Lemma write_attach perf wall id r tr (w : DataWriter Msg Bytes T) res w' :
  try_write_record dumps tr_write perf wall id r (attach tr w) = (res, w') →
  ∃ acc : bool, (∀ b, res = Ok b → acc = b) ∧
    effect loads id (if acc then [named_message (source_stream_name w) r] else []) (attach tr w) w'.
Proof. intros E. unfold try_write_record in E. by apply (try_write_message_effect dumps loads _ _ codec) in E. Qed.

(** A write attempt moves at most one copy from what is being sent to what was written. *)
Lemma send_written t tr ci r ps cur p c0 w' (acc : bool) : task_inv t →
  th_send (t_thread t) = Some (ci, r, ps, cur) → ps !! cur = Some p → v_collectors (t_vertex t) !! ci = Some c0 →
  (0 ≤ p < Z.of_nat (length (output_channel_ids c0)))%Z →
  effect loads (chan (output_channel_ids c0) p) (if acc then [named_message (v_name (t_vertex t)) r] else [])
    (attach tr (t_writer t)) w' →
  ∀ ci' c0' ch, v_collectors (t_vertex t) !! ci' = Some c0' → ch ∈ output_channel_ids c0' →
    delivered (unpack loads) ch w' ++ map (named_message (v_name (t_vertex t)))
      (on_channel ch (sending (output_channel_ids c0') ci' (Some (ci, r, if acc then delete cur ps else ps, cur))))
    = out ch t ++ map (named_message (v_name (t_vertex t)))
        (on_channel ch (sending (output_channel_ids c0') ci' (th_send (t_thread t)))).
Proof.
  intros Hi Hs Hp Hc0 Hr [_ Hd _] ci' c0' ch Hc0' Hch. rewrite Hd, Hs.
  change (delivered (unpack loads) ch (attach tr (t_writer t))) with (out ch t). rewrite <- (assoc_L (++)). f_equal.
  cbn [sending]. destruct (decide (ci = ci')) as [<-|Hne].
  - simplify_eq. destruct acc; [|by destruct (decide _)].
    rewrite (on_channel_delete _ ch r ps cur p Hp), map_app. by destruct (decide _).
  - rewrite decide_False; [done|]. intros ->. apply Hne.
    apply (concat_NoDup_unique output_channel_ids (v_collectors (t_vertex t)) ci ci' c0 c0' (chan (output_channel_ids c0) p));
      [apply (vw_outs _ (ti_wf _ Hi))|done..|by apply chan_elem|done].
Qed.

(** The task after a write attempt: still sending [s'], or stopped. *)
Definition sent_task t (w : DataWriter Msg Bytes T) (s' : option (nat * rc * list Z * nat)) : task :=
  set_thread (mkThread s' (th_collect (t_thread t)) (th_raise (t_thread t)) (th_msgs (t_thread t))) (set_writer w t).

(** What was being sent is now written or still being sent. *)
Definition moves t (w : DataWriter Msg Bytes T) (s' : option (nat * rc * list Z * nat)) : Prop :=
  ∀ ci c0 ch, v_collectors (t_vertex t) !! ci = Some c0 → ch ∈ output_channel_ids c0 →
    delivered (unpack loads) ch w ++ map (named_message (v_name (t_vertex t))) (on_channel ch (sending (output_channel_ids c0) ci s'))
    = out ch t ++ map (named_message (v_name (t_vertex t))) (on_channel ch (sending (output_channel_ids c0) ci (th_send (t_thread t)))).

Lemma sent_collector t w s' ci c0 : task_live t → moves t w s' → v_collectors (t_vertex t) !! ci = Some c0 →
  collector_live (sent_task t w s') ci c0.
Proof.
  intros Hl Heq Hc. destruct (tl_coll _ Hl ci c0 Hc) as (done & l & c & E1 & E2 & E3 & E4). exists done, l, c.
  split_and!; [done..|]. intros ch Hch. cbn [sent_task set_thread set_writer t_vertex t_writer t_thread th_send].
  rewrite <- (E4 ch Hch). by apply Heq.
Qed.

Lemma sent_live t w s' : task_live t → send_wf (t_vertex t) s' → moves t w s' → task_live (sent_task t w s').
Proof. intros Hl Hwf Heq. split; try apply Hl; [|done]. intros ci c0 Hc. by apply sent_collector. Qed.

Lemma sent_safe t w s' : task_live t → moves t w s' → task_safe (sent_task t w s').
Proof.
  intros Hl Heq. destruct (live_safe _ Hl) as [S1 S2 S3]. split; [done| |done].
  intros ci c0 ch Hc Hch. eapply (collector_live_safe (sent_task t w s') ci); [by apply sent_collector|done].
Qed.

Lemma sent_net t tr w id acc t' : id ∈ v_outs (t_vertex t) → effect loads id acc (attach tr (t_writer t)) w →
  t_writer t' = w → t_read t' = t_read t → sends_on t t' tr (rust w).
Proof.
  intros Hid [(new & E1 & E2 & E3) _ E5] Ew Er. split; [done|]. exists new. rewrite Ew. split_and!; [done| |done].
  eapply Forall_impl; [exact E2|]. by intros e ->.
Qed.

(** The record a task goes on sending. *)
Definition next_send (ci : nat) r (ps : list Z) (cur : nat) : option (nat * rc * list Z * nat) :=
  if decide (ps = []) then None else Some (ci, r, ps, (cur + 1) mod length ps).

Lemma next_send_wf (v : vertex K V) ci r ps cur c0 : v_collectors v !! ci = Some c0 →
  Forall (λ p, (0 ≤ p < Z.of_nat (length (output_channel_ids c0)))%Z) ps → send_wf v (next_send ci r ps cur).
Proof.
  intros Hc Hr. unfold next_send. destruct (decide (ps = [])) as [E|E]; [done|]. exists c0. split_and!; [done..|].
  apply Nat.mod_upper_bound. by destruct ps.
Qed.

Lemma next_sending ids ci' ci r ps cur k :
  sending ids ci' (next_send ci r ps cur) = sending ids ci' (Some (ci, r, ps, k)).
Proof. unfold next_send. destruct (decide (ps = [])) as [->|]; [|done]. cbn. by destruct (decide _). Qed.

Lemma send_step_eq t tr ci r ps cur p c0 : task_live t → v_collectors (t_vertex t) !! ci = Some c0 → ps !! cur = Some p →
  (0 ≤ p < Z.of_nat (length (output_channel_ids c0)))%Z →
  send_step dumps t tr ci r ps cur =
  match try_write_record dumps tr_write (v_perf (t_vertex t)) (v_wall (t_vertex t)) (chan (output_channel_ids c0) p) r
          (attach tr (t_writer t)) with
  | (Raise _, w) => (halt (set_writer w t), rust w)
  | (Ok b, w) => (sent_task t w (next_send ci r (if b : bool then delete cur ps else ps) cur), rust w)
  end.
Proof.
  intros Hl Hc0 Hp Hr. destruct (tl_coll _ Hl ci c0 Hc0) as (done & l & c & _ & E2 & E3 & _).
  unfold send_step. rewrite E3. cbn. rewrite Hp. cbn. rewrite (dispatch_ids _ _ _ _ E2), py_index_in_range by done. cbn.
  destruct (try_write_record _ _ _ _ _ r _) as [[[]|] w]; [done| |done].
  unfold next_send, sent_task. by rewrite decide_False by by intros ->.
Qed.

Lemma send_ok t tr ci r ps cur : task_inv t → t_alive t = true → th_send (t_thread t) = Some (ci, r, ps, cur) →
  let '(t', tr') := send_step dumps t tr ci r ps cur in task_step t t' tr tr'.
Proof.
  intros Hi Ha Hs. pose proof (ti_live _ Hi Ha) as Hl. pose proof (tl_send _ Hl) as Hw. rewrite Hs in Hw.
  destruct Hw as (c0 & Hc0 & Hr & Hcur). destruct (lookup_lt_is_Some_2 ps cur Hcur) as [p Hp].
  assert (0 ≤ p < Z.of_nat (length (output_channel_ids c0)))%Z as Hpr.
  { rewrite Forall_forall in Hr. apply Hr. by eapply list_elem_of_lookup_2. }
  rewrite (send_step_eq t tr ci r ps cur p c0) by done. set (id := chan (output_channel_ids c0) p).
  assert (id ∈ v_outs (t_vertex t)) as Hid by (eapply v_outs_elem; [done|by apply chan_elem]).
  destruct (try_write_record _ _ _ _ id r _) as [res w] eqn:Ew.
  destruct (write_attach _ _ _ _ _ _ _ _ Ew) as (acc & Hacc & Hef). rewrite (ti_name _ Hi) in Hef.
  assert (∀ ps', ps' = (if acc then delete cur ps else ps) → moves t w (next_send ci r ps' cur)) as Hmv.
  { intros ps' -> ci' c0' ch H1 H2. rewrite (next_sending _ _ _ _ _ _ cur). by eapply send_written. }
  assert (source_stream_name w = v_name (t_vertex t)) as En by (rewrite <- (ti_name _ Hi); apply (ef_name _ _ _ _ _ Hef)).
  destruct res as [b|e].
  - specialize (Hacc b eq_refl) as ->. split; [done|done| |left; by eapply sent_net].
    assert (task_live (sent_task t w (next_send ci r (if b then delete cur ps else ps) cur))) as Hl'.
    { apply sent_live; [done| |by apply Hmv]. eapply next_send_wf; [done|]. destruct b; [|done].
      pose proof (delete_perm ps cur p Hp) as Hd. rewrite <- Hd in Hr. by apply Forall_cons in Hr as [_ ?]. }
    split; [apply Hi|done|done|by apply live_safe].
  - split; [done|done| |left; by eapply sent_net].
    split; [apply Hi|done|done|]. destruct (sent_safe t w _ Hl (Hmv _ eq_refl)) as [S1 S2 S3]. by split.
Qed.

Lemma read_effect chs wall tr (rd : DataReader T) res rd' :
  read_message loads (tr_read chs) wall (attach_reader tr rd) = (res, rd') →
  (res = Ok None ∧ ∀ c, in_flight (rust_reader rd') c = in_flight tr c) ∨
  ∃ ch b, ch ∈ chs ∧ (∀ c, in_flight tr c = (if decide (c = ch) then [b] else []) ++ in_flight (rust_reader rd') c) ∧
    (res = Ok (Some (unpack loads b)) ∨ ∃ e, res = Raise e).
Proof.
  unfold read_message. cbn [attach_reader rust_reader]. destruct (tr_read chs tr) as [[b|] r] eqn:Er.
  - intros E. right. destruct (tr_read_some _ _ _ _ Er) as (ch & Hch & Hf). exists ch, b. unfold unpack.
    destruct (loads b) as [ms|e]; [|simplify_eq/=; eauto].
    case_decide; [destruct (report_tx _ _)|]; simplify_eq/=; eauto.
  - intros [= <- <-]. left. split; [done|]. by apply (tr_read_none _ _ _ Er).
Qed.

Lemma read_ok t tr : task_inv t → t_alive t = true → t_thread t = idle_thread → v_source (t_vertex t) = false →
  let '(t', tr') := read_step loads t tr in task_step t t' tr tr'.
Proof.
  intros Hi Ha Ht Hsrc. pose proof (ti_live _ Hi Ha) as Hl. unfold read_step.
  destruct (decide (v_ins (t_vertex t) = [])) as [|Hne]; [by apply halt_step|].
  destruct (read_message _ _ _ _) as [res rd] eqn:Er. rewrite Ht. cbn [idle_thread th_send th_collect th_raise].
  assert (∀ ms, task_inv (set_thread (mkThread None [] None ms) (add_read ms (set_reader rd t)))) as Hinv.
  { intros ms. destruct Hl as [H1 H2 H3 H4 H5]. rewrite Ht in H1, H5.
    assert (task_live (set_thread (mkThread None [] None ms) (add_read ms (set_reader rd t)))) as Hl'.
    { split; [done| |done|done|].
      - intros ci c0 Hc. destruct (H2 ci c0 Hc) as (d & l & c & E1 & E2 & E3 & E4). rewrite Ht in E1, E4. by exists d, l, c.
      - intros Hs. destruct (H5 Hs) as (ms0 & E1 & E2). exists ms0. cbn in *. rewrite E1, app_nil_r. done. }
    split; [apply Hi|apply Hi|done|by apply live_safe]. }
  assert (task_inv (set_reader rd t)) as Hrd by (destruct Hi as [I1 I2 I3 [I4 I5 I6]]; split; [done|done| |by split];
    intros Ha'; destruct (I3 Ha') as [L1 L2 L3 L4 L5]; by split).
  apply read_effect in Er as [[-> Hf]|(ch & b & Hch & Hf & [->|[e ->]])].
  - split; [done|done|apply Hinv|left]. apply sends_nothing; [cbn; by rewrite app_nil_r|done|done].
  - split; [done|done|apply Hinv|right]. split; [done|]. split; [done|]. exists ch, b, (unpack loads b), [].
    by rewrite app_nil_r.
  - split; [done|done|by apply halt_inv|right]. split; [done|]. split; [done|]. exists ch, b, [], (unpack loads b).
    split_and!; [done..|by rewrite app_nil_r|done|done].
Qed.

Lemma set_thread_id t : set_thread (t_thread t) t = t.
Proof. by destruct t. Qed.

Lemma process_record_ok r t tr msgs ms : task_inv t → t_alive t = true → t_thread t = mkThread None [] None msgs →
  (v_source (t_vertex t) = false → ∃ m, msgs = m :: ms ∧ record_from_channel_message m = Ok r) →
  task_step t (process_record r (set_thread (mkThread None [] None ms) t)) tr tr.
Proof.
  intros Hi Ha Ht Hin. pose proof (process_live r t msgs ms (ti_live _ Hi Ha) Ht Hin) as Hl.
  assert (∀ t0 : task, let t1 := process_record r t0 in t_vertex t1 = t_vertex t0 ∧ t_writer t1 = t_writer t0 ∧
    t_read t1 = t_read t0 ∧ t_alive t1 = t_alive t0) as Hk.
  { intros t0. unfold process_record. by destruct (op_step _ _ r) as [[]]. }
  destruct (Hk (set_thread (mkThread None [] None ms) t)) as (E1 & E2 & E3 & E4). cbn in E1, E2, E3, E4.
  split; [done|by intros| |left; apply sends_nothing; congruence].
  split; [rewrite E1; apply Hi|rewrite E1, E2; apply Hi|done|by apply live_safe].
Qed.

Lemma thread_ok t tr : task_inv t → let '(t', tr') := thread_step hash dumps loads empty t tr in task_step t t' tr tr'.
Proof.
  intros Hi. unfold thread_step. destruct (t_alive t) eqn:Ha; cbn [negb];
    [|split; [done|done|done|left; by apply sends_nothing]].
  destruct (th_send (t_thread t)) as [[[[ci r] ps] cur]|] eqn:Es; [by apply send_ok|].
  destruct (th_collect (t_thread t)) as [|[ci r] rest] eqn:Ec; [|by apply collect_ok].
  destruct (th_raise (t_thread t)) as [e|] eqn:Er; [by apply halt_step|].
  destruct (th_msgs (t_thread t)) as [|m ms] eqn:Em; cycle 1.
  - destruct (record_from_channel_message m) as [r|e] eqn:Ed; [|by apply halt_step].
    apply (process_record_ok r t tr (m :: ms)); [done|done| |by eexists].
    destruct (t_thread t); simpl in *; by subst.
  - assert (t_thread t = idle_thread) as Ht by (destruct (t_thread t); simpl in *; by subst).
    destruct (v_source (t_vertex t)) eqn:Hsrc; [|by apply read_ok].
    replace (process_record _ t) with (process_record (new_Record empty None None) (set_thread (mkThread None [] None []) t))
      by (f_equal; rewrite <- (set_thread_id t) at 2; by rewrite Ht).
    apply (process_record_ok _ t tr []); [done..|]. by rewrite Hsrc.
Qed.

Lemma flush_task_ok t k tr : task_inv t → let '(t', tr') := flush_task dumps t k tr in task_step t t' tr tr'.
Proof.
  intros Hi. assert (task_step t t tr tr) as Hsame by (split; [done|done|done|left; by apply sends_nothing]).
  unfold flush_task. destruct (t_flushing t); cbn [negb]; [|done].
  destruct (v_outs (t_vertex t) !! k) as [ch|] eqn:Ek; [|done].
  destruct (flush_channel _ _ _ ch _) as [res w] eqn:Ef. apply (flush_effect dumps loads _ codec) in Ef.
  assert (∀ c, delivered (unpack loads) c w = out c t) as Hd.
  { intros c. rewrite (ef_delivered _ _ _ _ _ Ef). case_decide; by rewrite app_nil_r. }
  assert (source_stream_name w = v_name (t_vertex t)) as En by (rewrite <- (ti_name _ Hi); apply (ef_name _ _ _ _ _ Ef)).
  assert (task_step t (set_writer w t) tr (rust w)) as Hst.
  { destruct Hi as [I1 I2 I3 [I4 I5 I6]]. split; [done|done| |left; eapply sent_net; [|done..]; by eapply list_elem_of_lookup_2].
    split; [done|done| |split; [done| |done]].
    - intros Ha. destruct (I3 Ha) as [L1 L2 L3 L4 L5]. split; [done| |done..].
      intros ci c0 Hc. destruct (L2 ci c0 Hc) as (d & l & c & E1 & E2 & E3 & E4). exists d, l, c. split_and!; [done..|].
      intros c' Hc'. cbn. rewrite Hd. by apply E4.
    - intros ci c0 c Hc Hch. cbn. rewrite Hd. by eapply I5. }
  destruct res; [done|]. destruct Hst as [S1 S2 [I1 I2 I3 [I4 I5 I6]] S4]. split; [done|done| |done].
  split; [done|done| |by split]. intros Ha. destruct (I3 Ha) as [L1 L2 L3 L4 L5]. by split.
Qed.
End task_lemmas.

(** ** The invariant of a job *)

Section job_lemmas.
Context {K V T Bytes : Type} `{FifoTransport T Bytes}.
Local Abbreviation rc := (rec K V).
Local Abbreviation Msg := (dict string (field K V)).
Context (hash : K → Z) (dumps : list Msg → res Bytes) (loads : Bytes → res (list Msg)) (empty : V).
Context (codec : ∀ b bs, dumps b = Ok bs → loads bs = Ok b).
Local Abbreviation task := (task K V T Bytes).
Local Abbreviation job := (job K V T Bytes).
Implicit Types (t : task) (tr : T) (j : job) (vs : list (vertex K V)).

(** The channels of a job: each has one writer, at most one reader, and every input
    channel is the output channel of some task. *)
Record topology vs : Prop := {
  top_outs : NoDup (concat (map v_outs vs));
  top_ins : NoDup (concat (map v_ins vs));
  top_closed : ∀ v ch, v ∈ vs → ch ∈ v_ins v → ∃ w, w ∈ vs ∧ ch ∈ v_outs w;
  top_wf : Forall (λ v, Forall collector_wf (v_collectors v)) vs;
}.

(** What task [t] has read, tagged with the channels it came from: per channel it is what was
    sent there less what is in flight.  A stopped thread may have lost its last batch. *)
Definition received j t (tagged : list (string * Msg)) (lost : list Msg) : Prop :=
  map snd tagged = t_read t ++ lost ∧ (t_alive t = true → lost = []) ∧
  Forall (λ e, e.1 ∈ v_ins (t_vertex t)) tagged ∧
  ∀ s ts ch, tasks j !! s = Some ts → ch ∈ v_ins (t_vertex t) → ch ∈ v_outs (t_vertex ts) →
    on_channel ch tagged ++ concat (map (unpack loads) (in_flight (transport j) ch))
    = concat (map (unpack loads) (on_channel ch (sent (t_writer ts)))).

Record job_inv vs j : Prop := {
  ji_vertices : map t_vertex (tasks j) = vs;
  ji_tasks : Forall (task_inv hash loads) (tasks j);
  ji_net i t : tasks j !! i = Some t → ∃ tagged lost, received j t tagged lost;
}.

Lemma on_channel_none {A} ch (l : list (string * A)) : Forall (λ e, e.1 ≠ ch) l → on_channel ch l = [].
Proof. intros Hl. unfold on_channel. by rewrite filter_none. Qed.

Lemma on_channel_all {A} ch (l : list A) c :
  on_channel c (map (λ x, (ch, x)) l) = if decide (c = ch) then l else [].
Proof.
  unfold on_channel. induction l as [|x l IH]; cbn [map]; [by case_decide|]. rewrite filter_cons. simpl.
  destruct (decide (c = ch)); repeat case_decide; simplify_eq; simpl; by rewrite IH.
Qed.

Section step.
Context (vs : list (vertex K V)) (Htop : topology vs).

Lemma writer_unique j s s' ts ts' ch : map t_vertex (tasks j) = vs → tasks j !! s = Some ts → tasks j !! s' = Some ts' →
  ch ∈ v_outs (t_vertex ts) → ch ∈ v_outs (t_vertex ts') → s = s'.
Proof.
  intros Hv Hs Hs' H1 H2. apply (concat_NoDup_unique v_outs vs s s' (t_vertex ts) (t_vertex ts') ch); [apply Htop|..|done|done].
  - by rewrite <- Hv, list_lookup_fmap, Hs.
  - by rewrite <- Hv, list_lookup_fmap, Hs'.
Qed.
Lemma reader_unique j s s' ts ts' ch : map t_vertex (tasks j) = vs → tasks j !! s = Some ts → tasks j !! s' = Some ts' →
  ch ∈ v_ins (t_vertex ts) → ch ∈ v_ins (t_vertex ts') → s = s'.
Proof.
  intros Hv Hs Hs' H1 H2. apply (concat_NoDup_unique v_ins vs s s' (t_vertex ts) (t_vertex ts') ch); [apply Htop|..|done|done].
  - by rewrite <- Hv, list_lookup_fmap, Hs.
  - by rewrite <- Hv, list_lookup_fmap, Hs'.
Qed.

(** A step that sends: the receivers see the new batches in flight. *)
Lemma received_send j k t t' tr' i ti tagged lost : map t_vertex (tasks j) = vs → tasks j !! k = Some t →
  t_vertex t' = t_vertex t → (t_alive t' = true → t_alive t = true) → sends_on t t' (transport j) tr' →
  tasks j !! i = Some ti → received j ti tagged lost →
  received (mkJob (<[k := t']> (tasks j)) tr') (if decide (i = k) then t' else ti) tagged lost.
Proof.
  intros Hv Hk Ev Ea (Er & new & Es & Hnew & Hf) Hti (R1 & R2 & R3 & R4).
  assert (t_vertex (if decide (i = k) then t' else ti) = t_vertex ti ∧ t_read (if decide (i = k) then t' else ti) = t_read ti ∧
    (t_alive (if decide (i = k) then t' else ti) = true → t_alive ti = true)) as (V1 & V2 & V3)
    by (destruct (decide (i = k)); simplify_eq; auto).
  split_and!; [by rewrite V2|auto|by rewrite V1|]. intros s ts ch Hs Hin Hout. cbn [tasks transport] in *. rewrite V1 in Hin.
  rewrite Hf, map_app, concat_app, (assoc_L (++)). destruct (decide (s = k)) as [->|Hne].
  - rewrite list_lookup_insert_eq in Hs by by eapply lookup_lt_Some. simplify_eq.
    rewrite (R4 k t ch Hk Hin) by congruence. by rewrite Es, on_channel_app, map_app, concat_app.
  - rewrite list_lookup_insert_ne in Hs by done. rewrite (R4 s ts ch Hs Hin Hout).
    rewrite (on_channel_none ch new); [cbn; by rewrite app_nil_r|]. eapply Forall_impl; [exact Hnew|]. cbn. intros e He Ee.
    apply Hne. symmetry. apply (writer_unique j k s t ts ch); [done..|by rewrite <- Ee|done].
Qed.

(** A step that reads: the reader's history grows by the batch taken. *)
Lemma received_read j k t t' tr' i ti tagged lost : map t_vertex (tasks j) = vs → tasks j !! k = Some t →
  t_vertex t' = t_vertex t → t_alive t = true → reads_from loads t t' (transport j) tr' →
  tasks j !! i = Some ti → received j ti tagged lost →
  ∃ tagged' lost', received (mkJob (<[k := t']> (tasks j)) tr') (if decide (i = k) then t' else ti) tagged' lost'.
Proof.
  intros Hv Hk Ev Ea (Es & ch & b & got & lost' & Hch & Hf & Er & Eb & El) Hti (R1 & R2 & R3 & R4).
  assert (∀ s ts, <[k := t']> (tasks j) !! s = Some ts → ∃ ts0, tasks j !! s = Some ts0 ∧
    t_vertex ts = t_vertex ts0 ∧ sent (t_writer ts) = sent (t_writer ts0)) as Hold.
  { intros s ts Hs. destruct (decide (s = k)) as [->|Hne].
    - rewrite list_lookup_insert_eq in Hs by by eapply lookup_lt_Some. simplify_eq. by exists t.
    - rewrite list_lookup_insert_ne in Hs by done. by exists ts. }
  destruct (decide (i = k)) as [->|Hne].
  - simplify_eq. rewrite (R2 Ea), app_nil_r in R1. exists (tagged ++ map (λ m, (ch, m)) (unpack loads b)), lost'.
    split_and!.
    + rewrite map_app, map_map, R1, Er, <- Eb, <- (assoc_L (++)). cbn. by rewrite map_id.
    + done.
    + rewrite Ev. apply Forall_app. split; [done|]. apply Forall_fmap, Forall_forall. by cbn.
    + intros s ts c (ts0 & Hs & V1 & V2)%Hold Hin Hout. rewrite V1 in Hout. rewrite V2. rewrite Ev in Hin.
      rewrite <- (R4 s ts0 c Hs Hin Hout), Hf, on_channel_app, on_channel_all, map_app, concat_app. cbn [transport].
      rewrite <- !(assoc_L (++)). by destruct (decide (c = ch)); simpl; rewrite ?app_nil_r.
  - exists tagged, lost. split_and!; [done..|]. intros s ts c (ts0 & Hs & V1 & V2)%Hold Hin Hout. rewrite V1 in Hout.
    rewrite V2, <- (R4 s ts0 c Hs Hin Hout), Hf. cbn [transport]. f_equal.
    destruct (decide (c = ch)) as [->|]; [|done]. destruct Hne. by apply (reader_unique j i k ti t ch).
Qed.

Lemma on_task_inv j k f : job_inv vs j →
  (∀ t tr, task_inv hash loads t → let '(t', tr') := f t tr in task_step hash loads t t' tr tr') →
  job_inv vs (on_task j k f).
Proof.
  intros [J1 J2 J3] Hf. unfold on_task. destruct (tasks j !! k) as [t|] eqn:Hk; [|by split].
  assert (task_inv hash loads t) as Ht by (rewrite Forall_forall in J2; apply J2; by eapply list_elem_of_lookup_2).
  specialize (Hf t (transport j) Ht). destruct (f t (transport j)) as [t' tr'].
  destruct Hf as [S1 S2 S3 S4]. split; cbn [tasks].
  - rewrite <- J1. etrans; [apply list_fmap_insert|]. rewrite S1. apply list_insert_id. by rewrite list_lookup_fmap, Hk.
  - by apply Forall_insert.
  - intros i ti Hi. assert (∃ ti0, tasks j !! i = Some ti0 ∧ ti = if decide (i = k) then t' else ti0) as (ti0 & Hi0 & ->).
    { destruct (decide (i = k)) as [->|Hne].
      - rewrite list_lookup_insert_eq in Hi by by eapply lookup_lt_Some. simplify_eq. eauto.
      - rewrite list_lookup_insert_ne in Hi by done. eauto. }
    destruct (J3 i ti0 Hi0) as (tagged & lost & HR). destruct S4 as [S4|[Ha S4]].
    + exists tagged, lost. by eapply received_send.
    + by eapply received_read.
Qed.

Lemma job_step_inv j a : job_inv vs j → job_inv vs (job_step hash dumps loads empty j a).
Proof.
  intros Hj. destruct a as [i|i k|]; cbn [job_step].
  - apply on_task_inv; [done|]. intros t tr Ht. by apply thread_ok.
  - apply on_task_inv; [done|]. intros t tr Ht. by apply flush_task_ok.
  - destruct Hj as [J1 J2 J3]. split; [done|done|]. intros i t Hi. destruct (J3 i t Hi) as (tagged & lost & R1 & R2 & R3 & R4).
    exists tagged, lost. split_and!; [done..|]. intros s ts ch Hs. cbn. rewrite tr_tick_ok. by apply (R4 s ts ch).
Qed.

Lemma new_task_inv v tr : v ∈ vs → task_inv hash loads (new_task v tr).
Proof.
  intros Hin. assert (vertex_wf v) as Hwf.
  { split; [|destruct Htop as [_ _ _ Hw]; rewrite Forall_forall in Hw; by apply Hw].
    eapply NoDup_concat_elem; [apply Htop|]. by apply list_elem_of_fmap_2. }
  assert (task_live hash loads (new_task v tr)) as Hl.
  { split; [done| |done|done|].
    - intros ci c0 Hc. exists [], [], c0. split_and!; [done|done|done|]. intros ch Hch.
      assert (batch_per_channel (t_writer (new_task (Bytes:=Bytes) v tr)) = dict_of (map (λ c, (c, [])) (v_outs v))) as Eb by done.
      unfold delivered, batch_of. rewrite Eb, (dget_dict_of_const (v_outs v) [] ch); [done|]. by eapply v_outs_elem.
    - intros _. by exists []. }
  split; [done|done|done|by apply live_safe].
Qed.

Lemma new_job_inv tr : (∀ c, in_flight tr c = []) → job_inv vs (new_job vs tr).
Proof.
  intros Htr. split; cbn.
  - rewrite map_map. apply map_id.
  - apply Forall_fmap, Forall_forall. intros v Hv. by apply new_task_inv.
  - intros i t Hi. rewrite list_lookup_fmap in Hi. destruct (vs !! i) as [v|]; simplify_eq/=. exists [], [].
    split_and!; [done..|]. intros s ts ch Hs. cbn in Hs. rewrite list_lookup_fmap in Hs. destruct (vs !! s) as [w|]; simplify_eq/=.
    intros _ _. by rewrite Htr.
Qed.

Lemma job_run_inv j acts : job_inv vs j → job_inv vs (job_run hash dumps loads empty j acts).
Proof. revert j. induction acts as [|a acts IH]; intros j Hj; [done|]. cbn. by apply IH, job_step_inv. Qed.
End step.

(** ** Records that arrived *)

Lemma named_message_inj name (xs ys : list rc) : map to_channel_message xs `prefix_of` map (named_message name) ys →
  xs `prefix_of` map (set_stream_name (Some name)) ys.
Proof.
  revert ys. induction xs as [|x xs IH]; intros ys [k Hk]; [apply prefix_nil|]. destruct ys as [|y ys]; [done|].
  cbn [map app] in *. injection Hk as Ex Hk. apply (f_equal record_from_channel_message) in Ex. unfold named_message in Ex.
  rewrite !record_roundtrip in Ex. injection Ex as ->. apply prefix_cons, IH. by exists k.
Qed.

Lemma on_channel_elem {A} (l : list (string * A)) e : e ∈ l → e.2 ∈ on_channel e.1 l.
Proof. intros He. unfold on_channel. apply list_elem_of_fmap. exists e. split; [done|]. by apply list_elem_of_filter. Qed.

Definition arrived_at j t (arrived : list (string * rc)) : Prop :=
  Forall (λ e, e.1 ∈ v_ins (t_vertex t)) arrived ∧
  ∀ s ts ci c ch, tasks j !! s = Some ts → v_collectors (t_vertex ts) !! ci = Some c →
    ch ∈ output_channel_ids c → ch ∈ v_ins (t_vertex t) →
    on_channel ch arrived `prefix_of` map (set_stream_name (Some (v_name (t_vertex ts)))) (routed hash c ch (t_emitted ts)).

(** The messages read on a channel are among those the collector of the sender routed there. *)
Lemma received_routed vs j t s ts ci c ch tagged lost : job_inv vs j → received j t tagged lost →
  tasks j !! s = Some ts → v_collectors (t_vertex ts) !! ci = Some c → ch ∈ output_channel_ids c → ch ∈ v_ins (t_vertex t) →
  on_channel ch tagged `prefix_of` map (named_message (v_name (t_vertex ts))) (routed hash c ch (t_emitted ts)).
Proof.
  intros [J1 J2 J3] (_ & _ & _ & R4) Hs Hc Hch Hin.
  assert (task_inv hash loads ts) as Ht by (rewrite Forall_forall in J2; apply J2; by eapply list_elem_of_lookup_2).
  etrans; [|exact (ts_coll _ _ _ (ti_safe _ _ _ Ht) ci c ch Hc Hch)].
  unfold delivered. rewrite <- (R4 s ts ch Hs Hin) by by eapply v_outs_elem.
  rewrite <- (assoc_L (++)). by eexists.
Qed.

Lemma received_arrived vs j t tagged lost : topology vs → job_inv vs j → t_vertex t ∈ vs → received j t tagged lost →
  ∃ arrived, tagged = map (prod_map id to_channel_message) arrived ∧ arrived_at j t arrived.
Proof.
  intros Htop Hj Hv HR. pose proof HR as (_ & _ & R3 & _). pose proof Hj as [J1 _ _].
  assert (Forall (λ e, ∃ x : string * rc, x.1 ∈ v_ins (t_vertex t) ∧ e = prod_map id to_channel_message x) tagged) as Hall.
  { apply Forall_forall. intros [ch m] He. rewrite Forall_forall in R3. specialize (R3 _ He). cbn in R3.
    destruct (top_closed _ Htop _ ch Hv R3) as (w & Hw & Hch). rewrite <- J1 in Hw.
    apply list_elem_of_fmap in Hw as (ts & -> & [s Hs]%list_elem_of_lookup_1).
    apply elem_of_concat in Hch as (ids & Hch & (c & -> & [ci Hc]%list_elem_of_lookup_1)%list_elem_of_fmap).
    pose proof (received_routed vs j t s ts ci c ch tagged lost Hj HR Hs Hc Hch R3) as Hp.
    apply on_channel_elem in He. eapply prefix_elem in He; [|exact Hp]. apply list_elem_of_fmap in He as (r & Er & _).
    cbn in Er. by exists (ch, set_stream_name (Some (v_name (t_vertex ts))) r); cbn; rewrite Er. }
  apply Forall_map_exists in Hall as (arrived & -> & Ha). exists arrived. split; [done|]. split; [done|].
  intros s ts ci c ch Hs Hc Hch Hin. apply named_message_inj. rewrite <- on_channel_map. by eapply received_routed.
Qed.

(** What a task has processed is a prefix of what arrived. *)
Lemma consumed_arrived t (ms rest : list Msg) (arrived : list (string * rc)) lost :
  map snd (map (prod_map id to_channel_message) arrived) = (ms ++ rest) ++ lost →
  mapR record_from_channel_message ms = Ok (t_consumed t) → t_consumed t `prefix_of` map snd arrived ∧
  (rest = [] → lost = [] → t_consumed t = map snd arrived).
Proof.
  assert (∀ l : list rc, mapR record_from_channel_message (map to_channel_message l) = Ok l) as Hdec.
  { intros l. rewrite mapR_map. rewrite (mapR_ok _ id) by (intros; apply record_roundtrip). by rewrite map_id. }
  replace (map snd (map (prod_map id to_channel_message) arrived)) with (map to_channel_message (map snd arrived))
    by by rewrite !map_map.
  rewrite <- (assoc_L (++)). intros E Ed. split.
  - apply map_eq_app in E as (l1 & l2 & -> & <- & _). rewrite Hdec in Ed. injection Ed as <-. by eexists.
  - intros -> ->. rewrite !app_nil_r in E. rewrite <- E, Hdec in Ed. by injection Ed as <-.
Qed.
End job_lemmas.

(** Nothing left to do: every thread is between two rounds, no batch is open, nothing in flight. *)
Definition quiescent {K V T Bytes} `{FifoTransport T Bytes} (j : job K V T Bytes) : Prop :=
  Forall (λ t, t_alive t = true ∧ t_thread t = idle_thread ∧ ∀ ch, batch_of ch (t_writer t) = []) (tasks j) ∧
  ∀ ch, in_flight (transport j) ch = [].

(** At rest everything routed to a channel has arrived and everything that arrived was
    processed without an exception. *)
Section at_rest.
Context {K V T Bytes : Type} `{FifoTransport T Bytes}.
Local Abbreviation Msg := (dict string (field K V)).
Context (hash : K → Z) (loads : Bytes → res (list Msg)).
Context (vs : list (vertex K V)) (Htop : topology vs) (j : job K V T Bytes).
Context (Hj : job_inv hash loads vs j) (Hq : quiescent j).

Lemma rest_task i t : tasks j !! i = Some t → task_live hash loads t ∧ t_thread t = idle_thread ∧
  t_vertex t ∈ vs ∧ ∀ ch, batch_of ch (t_writer t) = [].
Proof.
  intros Hi. destruct Hq as [Hq1 _]. rewrite Forall_lookup in Hq1. destruct (Hq1 i t Hi) as (Ha & Ht & Hb).
  destruct Hj as [J1 J2 _]. rewrite Forall_lookup in J2. split_and!; [by apply (ti_live _ _ _ (J2 i t Hi))|done| |done].
  rewrite <- J1. apply list_elem_of_fmap_2. by eapply list_elem_of_lookup_2.
Qed.

Lemma rest_run i t : tasks j !! i = Some t →
  run_op (op_step (v_op (t_vertex t))) (v_init (t_vertex t)) (t_consumed t) = (t_st t, t_emitted t, Ok ()).
Proof. intros Hi. destruct (rest_task i t Hi) as (Hl & Ht & _). rewrite (tl_run _ _ _ Hl), Ht. done. Qed.

Lemma rest_dispatch i t ci c : tasks j !! i = Some t → v_collectors (t_vertex t) !! ci = Some c →
  ∃ c', dispatch hash c (t_emitted t) = ((dispatch hash c (t_emitted t)).1, Ok c') ∧
    ∀ ch, ch ∈ output_channel_ids c → delivered (unpack loads) ch (t_writer t)
      = map (named_message (v_name (t_vertex t))) (routed hash c ch (t_emitted t)).
Proof.
  intros Hi Hc. destruct (rest_task i t Hi) as (Hl & Ht & _).
  destruct (tl_coll _ _ _ Hl ci c Hc) as (d & l & c' & E1 & E2 & E3 & E4). rewrite Ht in E1, E4.
  cbn [pending omap list_omap idle_thread th_collect] in E1.
  rewrite app_nil_r in E1. subst d. exists c'. rewrite E2. split; [done|]. intros ch Hch. unfold routed. rewrite E2.
  cbn [fst]. rewrite <- (E4 ch Hch). cbn. by rewrite app_nil_r.
Qed.

Lemma rest_arrived i t : tasks j !! i = Some t → v_source (t_vertex t) = false →
  ∃ arrived, t_consumed t = map snd arrived ∧ Forall (λ e, e.1 ∈ v_ins (t_vertex t)) arrived ∧
    ∀ s ts ci c ch, tasks j !! s = Some ts → v_collectors (t_vertex ts) !! ci = Some c →
      ch ∈ output_channel_ids c → ch ∈ v_ins (t_vertex t) →
      on_channel ch arrived = map (set_stream_name (Some (v_name (t_vertex ts)))) (routed hash c ch (t_emitted ts)).
Proof.
  intros Hi Hs. destruct (rest_task i t Hi) as (Hl & Ht & Hv & _). destruct Hq as [Hq1 Hq2].
  rewrite Forall_lookup in Hq1. destruct (Hq1 i t Hi) as (Ha & _ & _).
  destruct (ji_net _ _ _ _ Hj i t Hi) as (tagged & lost & HR).
  destruct (received_arrived hash loads vs j t tagged lost Htop Hj Hv HR) as (arrived & -> & Har & _).
  destruct HR as (R1 & R2 & _ & R4). rewrite (R2 Ha) in R1.
  destruct (tl_in _ _ _ Hl Hs) as (ms & E1 & E2). rewrite Ht in E1. cbn in E1. rewrite E1 in R1.
  exists arrived. split_and!; [by eapply consumed_arrived|done|]. intros s ts ci c ch Hts Hc Hch Hin.
  specialize (R4 s ts ch Hts Hin ltac:(by eapply v_outs_elem)). rewrite Hq2, app_nil_r, on_channel_map in R4.
  destruct (rest_dispatch s ts ci c Hts Hc) as (_ & _ & Hd). specialize (Hd ch Hch).
  destruct (rest_task s ts Hts) as (_ & _ & _ & Hb). unfold delivered in Hd. rewrite Hb, app_nil_r, <- R4 in Hd.
  apply (f_equal (mapR record_from_channel_message)) in Hd. rewrite decode_named, mapR_map in Hd.
  rewrite (mapR_ok _ id) in Hd by (intros; apply record_roundtrip). rewrite map_id in Hd. by injection Hd.
Qed.
End at_rest.

(** ** Properties *)

(** C8. A job is a dataflow program.  However the task threads, the flusher threads and the I/O
    loops interleave, with back-pressure, retries and threads that stop with an exception:
    every task's state and output are those of its operator run over the records it
    processed; these are, in order, what arrived on its input channels; and what arrived on a
    channel is a prefix of what the sender's partition routed there of the records its
    operator emitted, each once and in order, named after the sender. *)
Theorem job_dataflow {K V T Bytes} `{FifoTransport T Bytes} (hash : K → Z)
    (dumps : list (dict string (field K V)) → res Bytes) (loads : Bytes → res (list (dict string (field K V))))
    (empty : V) (vs : list (vertex K V)) (tr : T) (acts : list action) :
  (∀ b bs, dumps b = Ok bs → loads bs = Ok b) → topology vs → (∀ c, in_flight tr c = []) →
  let j := job_run hash dumps loads empty (new_job vs tr) acts in
  ∀ i t, tasks j !! i = Some t →
    (∃ e, run_op (op_step (v_op (t_vertex t))) (v_init (t_vertex t)) (t_consumed t) = (t_st t, t_emitted t, e)) ∧
    (v_source (t_vertex t) = false → ∃ arrived, t_consumed t `prefix_of` map snd arrived ∧
      Forall (λ e, e.1 ∈ v_ins (t_vertex t)) arrived ∧
      ∀ s ts ci c ch, tasks j !! s = Some ts → v_collectors (t_vertex ts) !! ci = Some c →
        ch ∈ output_channel_ids c → ch ∈ v_ins (t_vertex t) →
        on_channel ch arrived `prefix_of`
          map (set_stream_name (Some (v_name (t_vertex ts)))) (routed hash c ch (t_emitted ts))).
Proof.
  intros codec Htop Htr j i t Hi.
  assert (job_inv hash loads vs j) as Hj by by apply job_run_inv, new_job_inv. pose proof Hj as [J1 J2 J3].
  rewrite Forall_lookup in J2. destruct (ti_safe _ _ _ (J2 i t Hi)) as [S1 _ S3]. split; [done|]. intros Hs.
  destruct (J3 i t Hi) as (tagged & lost & HR).
  destruct (received_arrived hash loads vs j t tagged lost Htop Hj) as (arrived & -> & Har & Hch); [|done|].
  { rewrite <- J1. apply list_elem_of_fmap_2. by eapply list_elem_of_lookup_2. }
  destruct HR as (R1 & _). destruct (S3 Hs) as (ms & rest & E1 & E2). rewrite E1 in R1.
  exists arrived. split_and!; [by eapply consumed_arrived|done|exact Hch].
Qed.

(** C9. At rest nothing is missing: once every thread is between two rounds, no batch is open and
    nothing is in flight, no operator has raised, every record an operator emitted has been
    processed exactly once by every task its partition routed it to, in the order of its
    channel, and by no other. *)
Theorem job_at_rest_complete {K V T Bytes} `{FifoTransport T Bytes} (hash : K → Z)
    (dumps : list (dict string (field K V)) → res Bytes) (loads : Bytes → res (list (dict string (field K V))))
    (empty : V) (vs : list (vertex K V)) (tr : T) (acts : list action) :
  (∀ b bs, dumps b = Ok bs → loads bs = Ok b) → topology vs → (∀ c, in_flight tr c = []) →
  let j := job_run hash dumps loads empty (new_job vs tr) acts in
  quiescent j → ∀ i t, tasks j !! i = Some t →
    run_op (op_step (v_op (t_vertex t))) (v_init (t_vertex t)) (t_consumed t) = (t_st t, t_emitted t, Ok ()) ∧
    (v_source (t_vertex t) = false → ∃ arrived, t_consumed t = map snd arrived ∧
      Forall (λ e, e.1 ∈ v_ins (t_vertex t)) arrived ∧
      ∀ s ts ci c ch, tasks j !! s = Some ts → v_collectors (t_vertex ts) !! ci = Some c →
        ch ∈ output_channel_ids c → ch ∈ v_ins (t_vertex t) →
        on_channel ch arrived = map (set_stream_name (Some (v_name (t_vertex ts)))) (routed hash c ch (t_emitted ts))).
Proof.
  intros codec Htop Htr j Hq i t Hi.
  assert (job_inv hash loads vs j) as Hj by by apply job_run_inv, new_job_inv.
  split; [by eapply rest_run|intros Hs; by eapply rest_arrived].
Qed.

(** ** A transport with bounded queues *)

Definition queues (Bytes : Type) : Type := dict string (list Bytes).
Definition queue {Bytes} (q : queues Bytes) (ch : string) : list Bytes := default [] (dget q ch).

Fixpoint queue_read {Bytes} (chs : list string) (q : queues Bytes) : option Bytes * queues Bytes :=
  match chs with
  | [] => (None, q)
  | ch :: chs' => match queue q ch with
                  | b :: bs => (Some b, dset q ch bs)
                  | [] => queue_read chs' q
                  end
  end.

#[export] Instance queue_transport {Bytes} : Transport (queues Bytes) Bytes := {|
  tr_write ch b q := if decide (length (queue q ch) < 2) then (Some 0%Z, dset q ch (queue q ch ++ [b])) else (None, q);
  tr_read := queue_read;
  tr_tick q := q;
|}.

Lemma queue_dset {Bytes} (q : queues Bytes) ch l c : queue (dset q ch l) c = if decide (c = ch) then l else queue q c.
Proof. unfold queue. rewrite dget_dset. by repeat (case_decide; simplify_eq). Qed.

Lemma queue_read_some {Bytes} chs (q : queues Bytes) b q' : queue_read chs q = (Some b, q') →
  ∃ ch, ch ∈ chs ∧ ∀ c, queue q c = (if decide (c = ch) then [b] else []) ++ queue q' c.
Proof.
  induction chs as [|ch chs IH]; cbn; [done|]. destruct (queue q ch) as [|x bs] eqn:E.
  - intros (c & Hc & Hq)%IH. exists c. split; [set_solver|done].
  - intros [= -> <-]. exists ch. split; [set_solver|]. intros c. rewrite queue_dset. by case_decide; simplify_eq.
Qed.
Lemma queue_read_none {Bytes} chs (q : queues Bytes) q' : queue_read chs q = (None, q') → q' = q.
Proof. induction chs as [|ch chs IH]; cbn; [by intros [= <-]|]. by destruct (queue q ch). Qed.

#[export] Instance queue_fifo {Bytes} : FifoTransport (queues Bytes) Bytes.
Proof.
  refine {| in_flight := queue |}; cbn.
  - intros ch b q z q'. case_decide; [|done]. intros [= <- <-] c. rewrite queue_dset.
    case_decide; simplify_eq; by rewrite ?app_nil_r.
  - intros ch b q q'. case_decide; [done|]. by intros [= <-].
  - apply queue_read_some.
  - intros chs q q' ->%queue_read_none. done.
  - done.
Defined.

(** ** Witnesses *)

Definition ex_source : op Z Z := mkOp (list (rec Z Z)) (λ s _, ([], s, Ok ())).
Definition ex_sum : op Z Z := mkOp (dict Z Z) (reduce_step (λ a b, Ok (a + b)%Z)).
Definition ex_ids : list string := ["s-a"; "s-b"].
Definition ex_values : list (rec Z Z) := [ex_kr 1 10; ex_kr 2 5; ex_kr 1 7; ex_kr 3 1; ex_kr 2 2].

(** A source, two instances of a reduce behind a key partition. *)
Definition ex_vertices : list (vertex Z Z) :=
  [mkVx ex_source ex_values true "1" [] [mkCollector ex_ids new_Key] 2 0%Qc ticks ticks;
   mkVx ex_sum [] false "2" ["s-a"] [] 2 0%Qc ticks ticks;
   mkVx ex_sum [] false "2" ["s-b"] [] 2 0%Qc ticks ticks].

Lemma ex_topology : topology ex_vertices.
Proof.
  split.
  - by apply (bool_decide_eq_true_1 (NoDup _)); vm_compute.
  - by apply (bool_decide_eq_true_1 (NoDup _)); vm_compute.
  - intros v ch Hv Hch. exists (mkVx ex_source ex_values true "1" [] [mkCollector ex_ids new_Key] 2 0%Qc ticks ticks).
    unfold ex_vertices in Hv. rewrite !elem_of_cons in Hv. split; [left|].
    destruct Hv as [->|[->|[->|Hv]]]; cbn in *; set_solver.
  - repeat constructor; done.
Qed.

Definition ex_schedule : list action :=
  replicate 12 (Run 0) ++ [Flush 0 0; Run 1; Flush 0 1; Tick] ++ replicate 4 (Run 2) ++ replicate 7 (Run 1) ++ replicate 4 (Run 2).
(** A codec that refuses [Decimal] event times, as [msgpack] does. *)
Definition packs_or_raises {K V} (b : list (dict string (field K V))) : res (list (dict string (field K V))) :=
  if forallb message_packs b then Ok b else Raise TypeError.
Lemma packs_roundtrip {K V} (b bs : list (dict string (field K V))) : packs_or_raises b = Ok bs → Ok bs = Ok b.
Proof. unfold packs_or_raises. by destruct (forallb _ b); intros [= <-]. Qed.
Definition ex_codec_dumps : list (dict string (field Z Z)) → res (list (dict string (field Z Z))) := packs_or_raises.
Abbreviation ex_run acts :=
  (job_run (T := queues (list (dict string (field Z Z)))) (λ k : Z, k) ex_codec_dumps Ok 0%Z (new_job ex_vertices []) acts).
Abbreviation ex_job := (ex_run ex_schedule).

Lemma queues_quiescent {K V Bytes} (j : job K V (queues Bytes) Bytes) :
  Forall (λ t, (t_alive t, t_thread t) = (true, idle_thread) ∧ Forall (λ e, e.2 = []) (batch_per_channel (t_writer t))) (tasks j) →
  Forall (λ e, e.2 = []) (transport j) → quiescent j.
Proof.
  assert (∀ A (d : dict string (list A)) ch, Forall (λ e, e.2 = []) d → default [] (dget d ch) = []) as Hd.
  { intros A d ch Hall. destruct (dget d ch) as [l|] eqn:E; [|done]. apply dget_Some_elem in E.
    rewrite Forall_forall in Hall. by apply (Hall (ch, l)). }
  intros Ht Hq. split; [|intros ch; by apply Hd]. eapply Forall_impl; [exact Ht|]. cbn. intros t [[= -> ->] Hb].
  split_and!; [done..|]. intros ch. by apply Hd.
Qed.

(** The same as a check. *)
Definition is_nil {A} (l : list A) : bool := match l with [] => true | _ => false end.
Definition at_rest {K V Bytes} (j : job K V (queues Bytes) Bytes) : bool :=
  forallb (λ t, t_alive t && match t_thread t with mkThread None [] None [] => true | _ => false end &&
                forallb (λ e, is_nil e.2) (batch_per_channel (t_writer t))) (tasks j) &&
  forallb (λ e, is_nil e.2) (transport j).
Lemma at_rest_quiescent {K V Bytes} (j : job K V (queues Bytes) Bytes) : at_rest j = true → quiescent j.
Proof.
  assert (∀ A B (d : list (A * list B)), forallb (λ e, is_nil e.2) d = true → Forall (λ e, e.2 = []) d) as Hnil.
  { intros A B d Hd. rewrite forallb_forall in Hd. apply Forall_forall. intros [a [|b l]] Hin%list_elem_of_In; [done|].
    by apply Hd in Hin. }
  unfold at_rest. intros [Ht Hq]%andb_true_iff. apply queues_quiescent; [|by apply Hnil]. rewrite forallb_forall in Ht.
  apply Forall_forall. intros t Hin%list_elem_of_In. apply Ht in Hin. rewrite !andb_true_iff in Hin. destruct Hin as [[Ha Hth] Hb].
  split; [|by apply Hnil]. rewrite Ha. by destruct (t_thread t) as [[] [] [] []].
Qed.

Lemma ex_quiescent : quiescent ex_job.
Proof. apply queues_quiescent; vm_compute; repeat constructor. Qed.

(** In the middle of the run. *)
Definition ex_half : list action := take 18 ex_schedule.
Abbreviation ex_job_running := (ex_run ex_half).

Lemma job_dataflow_witness : ∃ t, tasks ex_job_running !! 2 = Some t ∧ length (t_consumed t) = 1 ∧
  ∃ arrived, t_consumed t `prefix_of` map snd arrived ∧ Forall (λ e, e.1 ∈ v_ins (t_vertex t)) arrived ∧
    ∀ s ts ci c ch, tasks ex_job_running !! s = Some ts → v_collectors (t_vertex ts) !! ci = Some c →
      ch ∈ output_channel_ids c → ch ∈ v_ins (t_vertex t) →
      on_channel ch arrived `prefix_of`
        map (set_stream_name (Some (v_name (t_vertex ts)))) (routed (λ k, k) c ch (t_emitted ts)).
Proof.
  destruct (tasks ex_job_running !! 2) as [t|] eqn:E; [|vm_compute in E; discriminate E].
  exists t. split; [reflexivity|]. split.
  - assert (length <$> (t_consumed <$> tasks ex_job_running !! 2) = Some 1) as E1 by (vm_compute; reflexivity).
    rewrite E in E1. cbn in E1. injection E1 as E1. exact E1.
  - assert (v_source <$> (t_vertex <$> tasks ex_job_running !! 2) = Some false) as E1 by (vm_compute; reflexivity).
    rewrite E in E1. cbn in E1. injection E1 as E1. revert E1.
    apply (job_dataflow (λ k, k) ex_codec_dumps Ok 0%Z ex_vertices [] ex_half) with 2;
      [exact packs_roundtrip|apply ex_topology|intros c; reflexivity|exact E].
Defined.

Lemma job_at_rest_complete_witness : ∃ t, tasks ex_job !! 1 = Some t ∧ map r_value (t_emitted t) = [5; 7]%Z ∧
  run_op (op_step (v_op (t_vertex t))) (v_init (t_vertex t)) (t_consumed t) = (t_st t, t_emitted t, Ok ()).
Proof.
  destruct (tasks ex_job !! 1) as [t|] eqn:E; [|vm_compute in E; discriminate E].
  exists t. split; [reflexivity|]. split.
  - assert (map r_value <$> (t_emitted <$> tasks ex_job !! 1) = Some [5; 7]%Z) as E1 by (vm_compute; reflexivity).
    rewrite E in E1. cbn in E1. injection E1 as E1. exact E1.
  - pose proof ex_quiescent as Hq.
    apply (job_at_rest_complete (λ k, k) ex_codec_dumps Ok 0%Z ex_vertices [] ex_schedule) with 1;
      [exact packs_roundtrip|apply ex_topology|intros c; reflexivity|exact Hq|exact E].
Defined.
