(* ===== verification/Keyed.v ===== *)
(** * Keyed operators in parallel
    ([KeyPartition] of [volga/streaming/api/partition/partition.py] in front of the instances
     of a keyed operator, [ReduceOperator] of [volga/streaming/api/operators/operators.py])

    A stream partitioned by key feeds several instances of an operator.  All records of a key
    meet in one instance, whichever task sent them, so a reduce split over instances computes
    what one instance would over the whole stream, provided the user's function does not
    depend on the order in which the senders are merged. *)

From S2P Require Import Prelude PyDict PyDecimal Message Operators Partition Network Dataflow.

(** The instance a key belongs to. *)
Definition bucket {K} (hash : K → Z) (n : nat) (k : K) : nat := Z.to_nat (Z.abs (hash k) mod Z.of_nat n).

(** ** Routing by key *)

Section routing.
Context {K V : Type} (hash : K → Z).
Local Abbreviation rc := (rec K V).
Implicit Types (r : rc) (rs : list rc).

Definition in_bucket (n k : nat) r : Prop :=
  match r_key r with Some key => bucket hash n key = k | None => False end.
#[global] Instance in_bucket_dec n k r : Decision (in_bucket n k r).
Proof. unfold in_bucket. destruct (r_key r); apply _. Defined.

Lemma dispatch_key ids ps rs l c : length ps = 1 → ids ≠ [] → NoDup ids →
  dispatch hash (mkCollector ids (KeyPartition ps)) rs = (l, Ok c) →
  Forall (λ r, is_Some (r_key r)) rs ∧
  ∀ k ch, ids !! k = Some ch → on_channel ch l = filter (in_bucket (length ids) k) rs.
Proof.
  intros Hps Hids Hnd. revert ps l Hps. induction rs as [|r rs IH]; intros ps l Hps E; cbn [dispatch] in E; [by simplify_eq|].
  unfold partition in E. cbn in E. unfold key_attr in E. destruct (r_key r) as [key|] eqn:Ek; cbn in E; [|done].
  unfold py_mod in E. rewrite decide_False in E by (destruct ids; [done|cbn; lia]). cbn in E.
  destruct ps as [|q [|]]; simplify_eq/=.
  destruct (dispatch hash _ rs) as [l0 c0] eqn:E0. simplify_eq.
  destruct (IH [_] _ eq_refl E0) as [H1 H2]. split; [by constructor|].
  intros k ch Hk. rewrite filter_cons. change (?a :: l0) with ([a] ++ l0). rewrite on_channel_app, on_channel_one, (H2 k ch Hk).
  unfold chan. fold (bucket hash (length ids) key).
  assert (0 < length ids) as Hpos by (destruct ids; [done|cbn; lia]).
  assert (bucket hash (length ids) key < length ids) as Hb.
  { unfold bucket. pose proof (Z.mod_pos_bound (Z.abs (hash key)) (Z.of_nat (length ids)) ltac:(lia)). lia. }
  assert (nth (bucket hash (length ids) key) ids "" = ch ↔ in_bucket (length ids) k r) as Hiff.
  { unfold in_bucket. rewrite Ek. destruct (lookup_lt_is_Some_2 ids _ Hb) as [x Hx]. rewrite (nth_lookup_Some _ _ "" x Hx).
    split; [|intros Ebk; rewrite Ebk in Hx; congruence]. intros ->. by eapply NoDup_lookup. }
  destruct (decide (nth _ ids "" = ch)), (decide (in_bucket (length ids) k r)); tauto || done.
Qed.
End routing.

(** The merge of an operator's input channels, up to order. *)
Lemma channels_perm {A} (chs : list string) (l : list (string * A)) : NoDup chs → Forall (λ e, e.1 ∈ chs) l →
  map snd l ≡ₚ concat (map (λ ch, on_channel ch l) chs).
Proof.
  intros Hnd. induction 1 as [|[c x] l Hc Hl IH]; cbn [map snd].
  { induction chs as [|ch chs IHc]; cbn; [done|]. by apply NoDup_cons in Hnd as [_ ?%IHc]. }
  rewrite IH. cbn in Hc. apply list_elem_of_split in Hc as (c1 & c2 & ->).
  apply NoDup_app in Hnd as (_ & Hd1 & [Hd2 _]%NoDup_cons).
  assert (∀ chs', c ∉ chs' → map (λ ch, on_channel ch ((c, x) :: l)) chs' = map (λ ch, on_channel ch l) chs') as Hsame.
  { intros chs' Hc'. apply map_ext_in. intros ch Hch%list_elem_of_In. unfold on_channel. rewrite filter_cons. cbn.
    rewrite decide_False; [done|]. by intros ->. }
  rewrite !map_app, !concat_app. cbn [map concat]. rewrite !Hsame by set_solver.
  unfold on_channel at 5. rewrite filter_cons, decide_True by done. cbn. apply Permutation_middle.
Qed.

(** ** The fold of a key does not depend on the merge *)

Section fold.
Context {K V : Type} `{!EqDecision K} (F : V → V → V).
Context (F_assoc : ∀ a b c, F (F a b) c = F a (F b c)) (F_comm : ∀ a b, F a b = F b a).

Lemma foldl_perm (l1 l2 : list V) : l1 ≡ₚ l2 → ∀ v, foldl F v l1 = foldl F v l2.
Proof.
  induction 1 as [|x l1 l2 Hp IH|x y l|l1 l2 l3 Hp1 IH1 Hp2 IH2]; intros v; cbn; [done|apply IH| |by rewrite IH1].
  f_equal. rewrite !F_assoc. f_equal. apply F_comm.
Qed.

Lemma fold_values_perm (rs1 rs2 : list (rec K V)) : rs1 ≡ₚ rs2 → fold_values F rs1 = fold_values F rs2.
Proof.
  intros Hp%(Permutation_map r_value). unfold fold_values. revert Hp. generalize (map r_value rs1) (map r_value rs2).
  clear rs1 rs2. induction 1 as [|x l1 l2 Hp IH|x y l|l1 l2 l3 Hp1 IH1 Hp2 IH2]; [done| | |by rewrite IH1].
  - f_equal. by apply foldl_perm.
  - cbn. f_equal. f_equal. apply F_comm.
Qed.

Lemma reduce_inv_nil : reduce_inv F ([] : dict K V) [].
Proof. by intros k. Qed.

Lemma reduce_run_inv f (rs : list (rec K V)) : (∀ a b, f a b = Ok (F a b)) → ∀ st hist st' outs e,
  reduce_inv F st hist → run_op (reduce_step f) st rs = (st', outs, e) →
  Forall (λ r, is_Some (r_key r)) rs → reduce_inv F st' (hist ++ rs) ∧ e = Ok ().
Proof.
  intros Hf. induction rs as [|r rs IH]; intros st hist st' outs e Hi E Hk; cbn in E; [by simplify_eq; rewrite app_nil_r|].
  apply Forall_cons in Hk as [[k Ek] Hk]. destruct (reduce_step_ok f F Hf st hist r k Hi Ek) as (st1 & E1 & I1).
  rewrite E1 in E. destruct (run_op (reduce_step f) st1 rs) as [[s2 o2] e2] eqn:Er. simplify_eq.
  rewrite cons_middle, (assoc_L (++)). by apply (IH st1 _ _ o2).
Qed.
End fold.

Lemma concat_map_perm {A B} (f : A → list B) l k : l ≡ₚ k → concat (map f l) ≡ₚ concat (map f k).
Proof.
  induction 1 as [|x l k _ IH|x y l|l1 l2 l3 _ IH1 _ IH2]; cbn; [done|by rewrite IH| |by rewrite IH1].
  rewrite !(assoc_L (++)). apply Permutation_app_tail, Permutation_app_comm.
Qed.

(** ** Routing to one instance, and to all *)

Section copies.
Context {K V : Type} (hash : K → Z).
Local Abbreviation rc := (rec K V).
Implicit Types (r : rc) (rs : list rc) (p : Partition K V).

(** The partitions that choose one target per record. *)
Definition one_target p : Prop :=
  match p with
  | KeyPartition ps => length ps = 1
  | RoundRobinPartition ps sq => length ps = 1 ∧ (0 ≤ sq)%Z
  | ForwardPartition ps => ps = [0%Z]
  | _ => False
  end.
Definition all_targets p : Prop := match p with BroadcastPartition ps => ps = range (Z.of_nat (length ps)) | _ => False end.

Lemma one_target_step p r n ps p' : one_target p → (0 < n)%Z → partition hash p r n = Ok (ps, p') →
  one_target p' ∧ ∃ i, ps = [i] ∧ (0 ≤ i < n)%Z.
Proof.
  intros Hp Hn E. assert (partition_wf p) as Hwf by by destruct p.
  destruct (partition_ok_wf hash p r n ps p' Hwf Hn E) as (Hwf' & _ & Hin).
  destruct p as [l|l|l sq|l|f]; try done; simpl in E; inv_res; cbn [one_target partition_wf] in *.
  - destruct l as [|y [|]]; [done| |done]. split; [done|]. eexists. split; [done|]. by inv Hin.
  - destruct l as [|y [|]]; [by destruct Hp| |by destruct Hp]. split; [exact Hwf'|]. eexists. split; [done|]. by inv Hin.
  - subst. split; [done|]. eexists. split; [done|lia].
Qed.

Lemma dispatch_one ids rs : ids ≠ [] → ∀ p l c, one_target p → dispatch hash (mkCollector ids p) rs = (l, Ok c) →
  map snd l = rs ∧ Forall (λ e, e.1 ∈ ids) l.
Proof.
  intros Hids. assert (0 < Z.of_nat (length ids))%Z as Hn by (destruct ids; [done|cbn; lia]).
  induction rs as [|r rs IH]; intros p l c Hp E; cbn [dispatch output_channel_ids c_partition] in E; [by simplify_eq|].
  destruct (partition hash p r _) as [[ps p']|] eqn:Ep; [|done].
  destruct (one_target_step p r _ ps p' Hp Hn Ep) as (Hp' & i & -> & Hi).
  destruct (dispatch hash _ rs) as [l0 c0] eqn:E0. simplify_eq. destruct (IH _ _ _ Hp' E0) as [H1 H2].
  cbn. split; [by rewrite H1|]. constructor; [by apply chan_elem|done].
Qed.

(** Every record is on one channel. *)
Lemma routed_one ids rs p l c : ids ≠ [] → NoDup ids → one_target p → dispatch hash (mkCollector ids p) rs = (l, Ok c) →
  concat (map (λ ch, routed hash (mkCollector ids p) ch rs) ids) ≡ₚ rs.
Proof.
  intros Hids Hnd Hp E. destruct (dispatch_one ids rs Hids p l c Hp E) as [H1 H2]. unfold routed. rewrite E. cbn [fst].
  by rewrite <- channels_perm, H1.
Qed.

Lemma chan_range ids ch : NoDup ids → ch ∈ ids → filter (λ q, chan ids q = ch) (range (Z.of_nat (length ids))) = [Z.of_nat (default 0 (fst <$> list_find (λ c, c = ch) ids))].
Proof.
  intros Hnd Hch. destruct (list_find_elem_of (λ c, c = ch) ids ch Hch eq_refl) as [[k c] Ek]. rewrite Ek. cbn.
  apply list_find_Some in Ek as (Hk & -> & _). pose proof (lookup_lt_Some _ _ _ Hk) as Hlt. unfold range. rewrite Nat2Z.id.
  replace (length ids) with (k + S (length ids - S k)) by lia. rewrite seq_app, map_app, filter_app. cbn [seq map Nat.add].
  assert (∀ m, m < length ids → chan ids (Z.of_nat m) = ch → m = k) as Huniq.
  { intros m Hm E. unfold chan in E. rewrite Nat2Z.id in E. destruct (lookup_lt_is_Some_2 ids m Hm) as [x Hx].
    rewrite (nth_lookup_Some _ _ "" x Hx) in E. subst x. by eapply NoDup_lookup. }
  rewrite filter_cons_True by (unfold chan; rewrite Nat2Z.id; by rewrite (nth_lookup_Some _ _ "" ch Hk)).
  rewrite !filter_none; [done|..]; apply Forall_fmap, Forall_forall; intros m Hm%elem_of_seq E; apply Huniq in E; lia.
Qed.

(** Every record is on all channels. *)
Lemma routed_all ids rs : ids ≠ [] → NoDup ids → ∀ p l c ch, all_targets p → ch ∈ ids →
  dispatch hash (mkCollector ids p) rs = (l, Ok c) → routed hash (mkCollector ids p) ch rs = rs.
Proof.
  intros Hids Hnd. induction rs as [|r rs IH]; intros p l c ch Hp Hch E; [done|]. destruct p as [ps| | | |]; try done.
  cbn [all_targets] in Hp.
  assert (partition hash (BroadcastPartition ps) r (Z.of_nat (length ids)) =
    Ok (range (Z.of_nat (length ids)), BroadcastPartition (range (Z.of_nat (length ids))))) as Ep.
  { cbn. case_decide as Hd; [done|]. by rewrite <- Hd, <- Hp. }
  unfold routed in *. cbn [dispatch output_channel_ids c_partition] in *. rewrite Ep in *.
  destruct (dispatch hash _ rs) as [l0 c0] eqn:E0. cbn [fst]. injection E as <- ->. rewrite on_channel_app, on_channel_copies, chan_range by done.
  specialize (IH (BroadcastPartition (range (Z.of_nat (length ids)))) l0 c ch). cbn [length replicate app]. f_equal. rewrite E0 in IH. apply IH; [|done..].
  cbn. by rewrite length_range, Nat2Z.id.
Qed.
End copies.

Lemma concat_map_ext_perm {A B} (f g : A → list B) l : (∀ x, x ∈ l → f x ≡ₚ g x) → concat (map f l) ≡ₚ concat (map g l).
Proof.
  induction l as [|x l IH]; intros Hfg; cbn; [done|]. rewrite (Hfg x) by by left. rewrite IH; [done|]. intros y Hy. apply Hfg. by right.
Qed.

Lemma concat_map_app {A B} (f g : A → list B) l : concat (map (λ x, f x ++ g x) l) ≡ₚ concat (map f l) ++ concat (map g l).
Proof. induction l as [|x l IH]; cbn; [done|]. rewrite IH. solve_Permutation. Qed.

(** Rows and columns. *)
Lemma concat_map_swap {A B C} (f : A → B → list C) la lb :
  concat (map (λ a, concat (map (f a) lb)) la) ≡ₚ concat (map (λ b, concat (map (λ a, f a b) la)) lb).
Proof.
  induction la as [|a la IH]; cbn; [by induction lb|]. by rewrite IH, concat_map_app.
Qed.

(** Lists that agree place by place with a function of the place. *)
Lemma concat_map_seq {A B} (f : A → list B) (g : nat → list B) l : ∀ m,
  (∀ k i, l !! k = Some i → f i ≡ₚ g (m + k)) → concat (map f l) ≡ₚ concat (map g (seq m (length l))).
Proof.
  induction l as [|x l IH]; intros m Hl; [done|]. cbn [map concat length seq].
  rewrite (Hl 0 x eq_refl), Nat.add_0_r. apply Permutation_app_head, IH. intros k i Hi.
  rewrite (Hl (S k) i Hi). by rewrite Nat.add_succ_r.
Qed.

(** ** A stage of a job *)

Section stage.
Context {K V T Bytes : Type} `{FifoTransport T Bytes} `{!EqDecision K}.
Local Abbreviation rc := (rec K V).
Local Abbreviation Msg := (dict string (field K V)).
Context (hash : K → Z) (loads : Bytes → res (list Msg)).

(** Every task of [senders] partitions its records with [p] over the channels [cid s 0], ...,
    one per instance, and instance [k] reads the [k]-th channel of every sender: what the
    execution graph makes of the edges between operators ([Deployment]). *)
Record exchange (p : Partition K V) (vs : list (vertex K V)) (senders instances : list nat) (cid : nat → nat → string) : Prop := {
  ks_instances : instances ≠ [];
  ks_sender s : s ∈ senders → ∃ v ci, vs !! s = Some v ∧
    v_collectors v !! ci = Some (mkCollector (map (cid s) (seq 0 (length instances))) p);
  ks_instance k i : instances !! k = Some i → ∃ v, vs !! i = Some v ∧ v_source v = false ∧
    v_ins v ≡ₚ map (λ s, cid s k) senders;
}.

(** A stage behind a key partition. *)
Definition keyed_stage : list (vertex K V) → list nat → list nat → (nat → nat → string) → Prop := exchange new_Key.

Lemma keyed_stage_perm vs ss ss' instances cid : ss ≡ₚ ss' → keyed_stage vs ss instances cid → keyed_stage vs ss' instances cid.
Proof.
  intros Hp [H1 H2 H3]. split; [done|intros s Hs; apply H2; by rewrite Hp|].
  intros k i Hk. destruct (H3 k i Hk) as (v & Hv & Hs & Hi). exists v. split_and!; [done..|]. by rewrite Hi, Hp.
Qed.

Definition name_of (vs : list (vertex K V)) (s : nat) : string := default "" (v_name <$> vs !! s).
Definition emitted_by (j : job K V T Bytes) (s : nat) : list rc := default [] (t_emitted <$> tasks j !! s).
Definition consumed_by (j : job K V T Bytes) (i : nat) : list rc := default [] (t_consumed <$> tasks j !! i).

Context (vs : list (vertex K V)) (Htop : topology vs) (j : job K V T Bytes).
Context (Hj : job_inv hash loads vs j) (Hq : quiescent j).
Lemma vertex_task i v : vs !! i = Some v → ∃ t, tasks j !! i = Some t ∧ t_vertex t = v.
Proof using Hj. intros Hi. rewrite <- (ji_vertices _ _ _ _ Hj), list_lookup_fmap in Hi. destruct (tasks j !! i); naive_solver. Qed.

Context (senders instances : list nat) (cid : nat → nat → string).

Section exchange.
Context (p : Partition K V) (Hst : exchange p vs senders instances cid).
Local Abbreviation out_of s := (mkCollector (map (cid s) (seq 0 (length instances))) p).

Lemma sender_task s : s ∈ senders → ∃ t ci, tasks j !! s = Some t ∧ emitted_by j s = t_emitted t ∧
  v_collectors (t_vertex t) !! ci = Some (out_of s) ∧ NoDup (map (cid s) (seq 0 (length instances))).
Proof using Htop Hj Hst.
  intros Hs. destruct (ks_sender _ _ _ _ _ Hst s Hs) as (v & ci & Hv & Hc).
  destruct (vertex_task s v Hv) as (t & Ht & <-). exists t, ci. unfold emitted_by. rewrite Ht. split_and!; [done..|].
  assert (NoDup (v_outs (t_vertex t))) as Hnd.
  { eapply NoDup_concat_elem; [apply (top_outs _ Htop)|]. apply list_elem_of_fmap_2. by eapply list_elem_of_lookup_2. }
  eapply NoDup_concat_elem; [exact Hnd|]. apply list_elem_of_fmap. eexists. split; [|by eapply list_elem_of_lookup_2]. done.
Qed.

(** A sender at rest has routed everything it emitted. *)
Lemma sender_dispatched s : s ∈ senders → ∃ l c, dispatch hash (out_of s) (emitted_by j s) = (l, Ok c) ∧
  NoDup (map (cid s) (seq 0 (length instances))) ∧ map (cid s) (seq 0 (length instances)) ≠ [].
Proof using Htop Hj Hq Hst.
  intros Hs. destruct (sender_task s Hs) as (t & ci & Ht & -> & Hc & Hnd).
  destruct (rest_dispatch hash loads vs j Hj Hq s t ci _ Ht Hc) as (c' & E & _). eexists _, c'. split_and!; [exact E|done|].
  intros En%(f_equal length). rewrite length_map, length_seq in En. by apply (ks_instances _ _ _ _ _ Hst), nil_length_inv.
Qed.

(** What an instance has processed: of every sender what it routed there. *)
Lemma instance_routed k i t : instances !! k = Some i → tasks j !! i = Some t →
  t_consumed t ≡ₚ concat (map (λ s, map (set_stream_name (Some (name_of vs s)))
    (routed hash (out_of s) (cid s k) (emitted_by j s))) senders).
Proof using Htop Hj Hq Hst.
  intros Hk Hi. destruct (ks_instance _ _ _ _ _ Hst k i Hk) as (v & Hv & Hsrc & Hins).
  destruct (vertex_task i v Hv) as (t' & Ht' & <-). simplify_eq.
  destruct (rest_arrived hash loads vs Htop j Hj Hq i t Hi Hsrc) as (arrived & -> & Har & Hch).
  rewrite (channels_perm (v_ins (t_vertex t))); [|eapply NoDup_concat_elem; [apply (top_ins _ Htop)|]|done]; cycle 1.
  { apply list_elem_of_fmap_2. by eapply list_elem_of_lookup_2. }
  rewrite (concat_map_perm _ _ _ Hins), map_map.
  match goal with |- ?a ≡ₚ ?b => cut (a = b); [by intros ->|] end. f_equal. apply map_ext_in. intros s Hs%list_elem_of_In.
  destruct (sender_task s Hs) as (ts & ci & Hts & -> & Hc & Hnd).
  assert (name_of vs s = v_name (t_vertex ts)) as ->
    by (unfold name_of; by rewrite <- (ji_vertices _ _ _ _ Hj), list_lookup_fmap, Hts).
  pose proof (lookup_lt_Some _ _ _ Hk) as Hlt. rewrite (Hch s ts ci _ (cid s k) Hts Hc); [done| |].
  - cbn [output_channel_ids]. apply list_elem_of_fmap_2, elem_of_seq. lia.
  - rewrite Hins. by apply (list_elem_of_fmap_2 (λ s, cid s k)).
Qed.

(** Every record reaches one instance, once. *)
Lemma exchange_once : one_target p →
  concat (map (consumed_by j) instances) ≡ₚ concat (map (λ s, map (set_stream_name (Some (name_of vs s))) (emitted_by j s)) senders).
Proof using Htop Hj Hq Hst.
  intros Hp. rewrite (concat_map_seq (consumed_by j) (λ k, concat (map (λ s, map (set_stream_name (Some (name_of vs s)))
    (routed hash (out_of s) (cid s k) (emitted_by j s))) senders)) instances 0); cycle 1.
  { intros k i Hk. destruct (ks_instance _ _ _ _ _ Hst k i Hk) as (v & Hv & _). destruct (vertex_task i v Hv) as (t & Ht & _).
    unfold consumed_by. rewrite Ht. by apply instance_routed with i. }
  rewrite concat_map_swap. apply concat_map_ext_perm. intros s Hs. destruct (sender_dispatched s Hs) as (l & c & E & Hnd & Hne).
  etransitivity; [|apply Permutation_map, (routed_one hash _ _ p l c Hne Hnd Hp E)]. by rewrite concat_map, !map_map.
Qed.

(** Every record reaches all instances. *)
Lemma exchange_all k i : all_targets p → instances !! k = Some i →
  consumed_by j i ≡ₚ concat (map (λ s, map (set_stream_name (Some (name_of vs s))) (emitted_by j s)) senders).
Proof using Htop Hj Hq Hst.
  intros Hp Hk. destruct (ks_instance _ _ _ _ _ Hst k i Hk) as (v & Hv & _). destruct (vertex_task i v Hv) as (t & Ht & _).
  unfold consumed_by. rewrite Ht. cbn [fmap option_fmap option_map default from_option id]. rewrite (instance_routed k i t Hk Ht).
  apply concat_map_ext_perm. intros s Hs. destruct (sender_dispatched s Hs) as (l & c & E & Hnd & Hne).
  rewrite (routed_all hash _ _ Hne Hnd p l c); [done..| |exact E]. apply list_elem_of_fmap_2, elem_of_seq.
  pose proof (lookup_lt_Some _ _ _ Hk). lia.
Qed.
End exchange.

Context (Hst : keyed_stage vs senders instances cid).

(** A sender at rest has routed by key. *)
Lemma sender_routes s k i : s ∈ senders → instances !! k = Some i →
  Forall (λ r, is_Some (r_key r)) (emitted_by j s) ∧
  routed hash (mkCollector (map (cid s) (seq 0 (length instances))) new_Key) (cid s k) (emitted_by j s)
  = filter (in_bucket hash (length instances) k) (emitted_by j s).
Proof using Htop Hj Hq Hst.
  intros Hs Hk. destruct (sender_dispatched new_Key Hst s Hs) as (l & c & E & Hnd & Hne). pose proof (lookup_lt_Some _ _ _ Hk) as Hlt.
  pose proof E as E'. eapply dispatch_key in E as [H1 H2]; [|done..]. split; [done|]. unfold routed. rewrite E'. cbn [fst].
  rewrite (H2 k), length_map, length_seq; [done|].
  change (map (cid s)) with (fmap (cid s) (M := list)). rewrite list_lookup_fmap, lookup_seq_lt by done. done.
Qed.

(** What an instance has processed: of every sender the records of its keys. *)
Lemma instance_consumed k i t : instances !! k = Some i → tasks j !! i = Some t →
  t_consumed t ≡ₚ concat (map (λ s, map (set_stream_name (Some (name_of vs s)))
    (filter (in_bucket hash (length instances) k) (emitted_by j s))) senders).
Proof using Htop Hj Hq Hst.
  intros Hk Hi. rewrite (instance_routed new_Key Hst k i t Hk Hi). apply concat_map_ext_perm. intros s Hs.
  by rewrite (proj2 (sender_routes s k i Hs Hk)).
Qed.

(** The records of a key, wherever they were sent. *)
Lemma consumed_of_key k i t key : instances !! k = Some i → tasks j !! i = Some t →
  of_key key (t_consumed t) ≡ₚ
    if decide (bucket hash (length instances) key = k)
    then concat (map (λ s, map (set_stream_name (Some (name_of vs s))) (of_key key (emitted_by j s))) senders) else [].
Proof.
  intros Hk Hi. pose proof (instance_consumed k i t Hk Hi) as Hp. unfold of_key. rewrite Hp.
  assert (∀ s, filter (λ r, r_key r = Some key) (map (set_stream_name (Some (name_of vs s)))
      (filter (in_bucket hash (length instances) k) (emitted_by j s))) =
    if decide (bucket hash (length instances) key = k)
    then map (set_stream_name (Some (name_of vs s))) (filter (λ r, r_key r = Some key) (emitted_by j s)) else []) as Hf.
  { intros s. generalize (emitted_by j s). intros l. induction l as [|r l IH]; [by case_decide|].
    rewrite (filter_cons (in_bucket _ _ _) r), (filter_cons (λ r, r_key r = Some key) r l).
    destruct (decide (in_bucket hash (length instances) k r)) as [Hb|Hb].
    - cbn [map]. rewrite (filter_cons _ (set_stream_name _ r)), IH. cbn [set_stream_name r_key].
      destruct (decide (r_key r = Some key)) as [E|]; [|done].
      unfold in_bucket in Hb. rewrite E in Hb. by case_decide.
    - rewrite IH. destruct (decide (r_key r = Some key)) as [E|]; [|done].
      unfold in_bucket in Hb. rewrite E in Hb. by case_decide. }
  match goal with |- ?a ≡ₚ ?b => cut (a = b); [by intros ->|] end. clear Hp. generalize senders as ss. intros ss.
  induction ss as [|s ss IH]; cbn [map concat]; [by case_decide|]. rewrite filter_app, Hf, IH. by case_decide.
Qed.

Lemma sender_keyed s : s ∈ senders → Forall (λ r, is_Some (r_key r)) (emitted_by j s).
Proof.
  intros Hs. assert (∃ i, instances !! 0 = Some i) as [i Hi] by (pose proof (ks_instances _ _ _ _ _ Hst); destruct instances; [done|by eexists]).
  exact (proj1 (sender_routes s 0 i Hs Hi)).
Qed.
End stage.

(** ** Reduce *)

Definition reduce_op {K V} `{!EqDecision K} (f : V → V → res V) : op K V := mkOp (dict K V) (reduce_step f).

(** Runs of an operator whose type of states is only known up to equality. *)
Lemma packed_run {K V} (p q : sigT (@op_st K V)) : p = q → ∀ (st : op_st (projT1 p)) xs ys e,
  run_op (op_step (projT1 p)) (projT2 p) xs = (st, ys, e) →
  ∃ st' : op_st (projT1 q), existT (projT1 p) st = existT (projT1 q) st' ∧
    run_op (op_step (projT1 q)) (projT2 q) xs = (st', ys, e).
Proof. intros ->. eauto. Qed.

Lemma of_key_concat {K V A} `{!EqDecision K} (key : K) (f : A → list (rec K V)) l :
  of_key key (concat (map f l)) = concat (map (λ x, of_key key (f x)) l).
Proof. unfold of_key. induction l as [|x l IH]; cbn; [done|]. by rewrite filter_app, IH. Qed.

Lemma fold_values_named {K V A} (F : V → V → V) (names : A → string) (f : A → list (rec K V)) l :
  fold_values F (concat (map (λ x, map (set_stream_name (Some (names x))) (f x)) l)) = fold_values F (concat (map f l)).
Proof.
  unfold fold_values. replace (map r_value (concat (map (λ x, map (set_stream_name (Some (names x))) (f x)) l)))
    with (map r_value (concat (map f l))); [done|].
  induction l as [|x l IH]; cbn; [done|]. rewrite !map_app, IH, map_map. done.
Qed.

(** ** Join *)

Definition join_op {K V} `{!EqDecision K} (join : V → V → res V) (ln rn : string) : op K V :=
  mkOp (join_state K V) (two_input_process join (Some ln) (Some rn)).

Section joins.
Context {K V : Type} `{!EqDecision K} (join : V → V → res V) (J : V → V → V).
Local Abbreviation rc := (rec K V).
Implicit Types (l r : rc) (ls rs xs : list rc).

(** The side of a record, by the name of the stream it came from. *)
Definition side (ln : string) (x : rc) : rc + rc := if decide (stream_name x = Some ln) then inl x else inr x.

Lemma run_two_input ln rn xs : ln ≠ rn → Forall (λ x, stream_name x = Some ln ∨ stream_name x = Some rn) xs → ∀ s,
  run_op (two_input_process join (Some ln) (Some rn)) s xs = run_op (jstep join) s (map (side ln) xs).
Proof.
  intros Hne. induction 1 as [|x xs Hx Hxs IH]; intros s; [done|]. cbn [map run_op].
  assert (two_input_process join (Some ln) (Some rn) s x = jstep join s (side ln x)) as ->.
  { unfold two_input_process, side. destruct Hx as [-> | ->].
    - by rewrite !decide_True.
    - rewrite !(decide_False (P := Some rn = Some ln)), (decide_False (P := Some ln = Some rn)) by congruence.
      by rewrite decide_True. }
  destruct (jstep join s (side ln x)) as [[s1 o1] [[]|e]]; [|done]. by rewrite IH.
Qed.

Lemma lefts_side ln xs : lefts (map (side ln) xs) = filter (λ x, stream_name x = Some ln) xs.
Proof.
  unfold lefts. induction xs as [|x xs IH]; [done|]. cbn [map omap list_omap]. rewrite filter_cons, IH. unfold side.
  by destruct (decide (stream_name x = Some ln)).
Qed.
Lemma rights_side ln xs : rights (map (side ln) xs) = filter (λ x, stream_name x ≠ Some ln) xs.
Proof.
  unfold rights. induction xs as [|x xs IH]; [done|]. cbn [map omap list_omap]. rewrite filter_cons, IH. unfold side.
  by destruct (decide (stream_name x = Some ln)), (decide (stream_name x ≠ Some ln)).
Qed.

(** The pairs depend on neither the order nor the names of the records. *)
Lemma join_pairs_perm ls ls' rs rs' : ls ≡ₚ ls' → rs ≡ₚ rs' → join_pairs J ls rs ≡ₚ join_pairs J ls' rs'.
Proof.
  intros Hl Hr. transitivity (join_pairs J ls rs'); unfold join_pairs.
  - clear Hl. induction ls as [|l ls IH]; cbn; [done|]. by rewrite IH, Hr.
  - induction Hl as [|l l1 l2 Hl IH|x y l|l1 l2 l3 _ IH1 _ IH2]; cbn; [done|by rewrite IH| |by rewrite IH1].
    rewrite !(assoc_L (++)). apply Permutation_app_tail, Permutation_app_comm.
Qed.

Lemma join_pairs_names {A} (nm : A → string) (f : A → list rc) (sl sr : list A) :
  join_pairs J (concat (map (λ s, map (set_stream_name (Some (nm s))) (f s)) sl))
               (concat (map (λ s, map (set_stream_name (Some (nm s))) (f s)) sr))
  = join_pairs J (concat (map f sl)) (concat (map f sr)).
Proof.
  assert (∀ l l' ss, r_key l = r_key l' → joined J l = joined J l' →
    map (joined J l) (filter (λ r, r_key r = r_key l) (concat (map (λ s, map (set_stream_name (Some (nm s))) (f s)) ss)))
    = map (joined J l') (filter (λ r, r_key r = r_key l') (concat (map f ss)))) as Hr.
  { intros l l' ss Ek Ej. rewrite Ek, Ej. induction ss as [|s ss IH]; cbn [map concat]; [done|].
    rewrite !filter_app, !map_app, IH. f_equal. induction (f s) as [|r rs IHr]; [done|]. cbn [map].
    rewrite !filter_cons. cbn [set_stream_name r_key]. case_decide; cbn [map]; by rewrite IHr. }
  unfold join_pairs. induction sl as [|s sl IH]; cbn [map concat]; [done|]. rewrite !map_app, !concat_app, IH. f_equal.
  induction (f s) as [|l ls IHl]; [done|]. cbn [map concat]. rewrite IHl. f_equal. by apply Hr.
Qed.

(** Splitting both sides by key splits the pairs. *)
Lemma join_pairs_split (hash : K → Z) n ls rs : 0 < n → Forall (λ l, is_Some (r_key l)) ls →
  concat (map (λ k, join_pairs J (filter (in_bucket hash n k) ls) (filter (in_bucket hash n k) rs)) (seq 0 n))
  ≡ₚ join_pairs J ls rs.
Proof.
  intros Hn Hk. induction Hk as [|l ls [key Ek] Hk IH].
  { generalize (seq 0 n). intros ks. by induction ks. }
  change (join_pairs J (l :: ls) rs) with (map (joined J l) (filter (λ r, r_key r = r_key l) rs) ++ join_pairs J ls rs).
  rewrite <- IH.
  assert (∀ k, join_pairs J (filter (in_bucket hash n k) (l :: ls)) (filter (in_bucket hash n k) rs) =
    (if decide (k = bucket hash n key) then map (joined J l) (filter (λ r, r_key r = r_key l) rs) else []) ++
    join_pairs J (filter (in_bucket hash n k) ls) (filter (in_bucket hash n k) rs)) as Hsplit.
  { intros k. rewrite (filter_cons _ l). assert (in_bucket hash n k l ↔ k = bucket hash n key) as Hin.
    { unfold in_bucket. rewrite Ek. naive_solver. }
    destruct (decide (k = bucket hash n key)) as [->|Hne]; [rewrite decide_True by by apply Hin|by rewrite decide_False by by rewrite Hin].
    unfold join_pairs at 1. cbn [map concat]. fold (join_pairs J (filter (in_bucket hash n (bucket hash n key)) ls)
      (filter (in_bucket hash n (bucket hash n key)) rs)). do 2 f_equal. rewrite list_filter_filter.
    apply list_filter_iff. intros r. rewrite Ek. split; [tauto|]. intros Er. split; [done|]. unfold in_bucket. by rewrite Er. }
  assert (bucket hash n key ∈ seq 0 n) as Hb.
  { unfold bucket. apply elem_of_seq. pose proof (Z.mod_pos_bound (Z.abs (hash key)) (Z.of_nat n) ltac:(lia)). lia. }
  revert Hb. generalize (NoDup_seq 0 n). generalize (seq 0 n). intros ks Hnd Hb.
  induction Hnd as [|k ks Hk' Hnd IHk]; [set_solver|]. cbn [map concat]. rewrite Hsplit.
  destruct (decide (k = bucket hash n key)) as [->|Hne].
  - rewrite <- !(assoc_L (++)). do 2 apply Permutation_app_head. clear IHk Hb. induction ks as [|k' ks IHk]; [done|].
    cbn [map concat]. rewrite Hsplit, decide_False by set_solver. apply Permutation_app_head, IHk; [set_solver|by apply NoDup_cons in Hnd as [_ ?]].
  - cbn [app]. rewrite IHk by set_solver. rewrite !(assoc_L (++)). apply Permutation_app_tail, Permutation_app_comm.
Qed.
End joins.

(** One instance of a join: the pairs of its share of the keys. *)
Lemma concat_filter {A B} (P : B → Prop) `{!∀ x, Decision (P x)} (f : A → list B) l :
  filter P (concat (map f l)) = concat (map (λ x, filter P (f x)) l).
Proof. induction l as [|x l IH]; cbn; [done|]. by rewrite filter_app, IH. Qed.

Section join_stage.
Context {K V T Bytes : Type} `{FifoTransport T Bytes} `{!EqDecision K}.
Context (hash : K → Z) (loads : Bytes → res (list (dict string (field K V)))) (join : V → V → res V) (J : V → V → V).
Context (Hjoin : ∀ a b, join a b = Ok (J a b)) (vs : list (vertex K V)) (Htop : topology vs) (j : job K V T Bytes).
Context (Hj : job_inv hash loads vs j) (Hq : quiescent j) (ls rs instances : list nat) (cid : nat → nat → string).
Context (Hst : keyed_stage vs (ls ++ rs) instances cid) (ln rn : string) (Hne : ln ≠ rn).
Context (Hln : ∀ s, s ∈ ls → name_of vs s = ln) (Hrn : ∀ s, s ∈ rs → name_of vs s = rn).

Local Abbreviation share k ss :=
  (concat (map (λ s, map (set_stream_name (Some (name_of vs s))) (filter (in_bucket hash (length instances) k) (emitted_by j s))) ss)).

Lemma share_names k ss n : (∀ s, s ∈ ss → name_of vs s = n) → Forall (λ x, stream_name x = Some n) (share k ss).
Proof.
  intros Hn. apply Forall_concat, Forall_fmap, Forall_forall. intros s Hs. cbn.
  apply Forall_fmap, Forall_forall. intros r _. cbn. by rewrite Hn.
Qed.

Lemma instance_joined k i t : instances !! k = Some i → tasks j !! i = Some t →
  existT (v_op (t_vertex t)) (v_init (t_vertex t)) = existT (join_op join ln rn) new_join :> sigT op_st →
  t_emitted t ≡ₚ join_pairs J (filter (in_bucket hash (length instances) k) (concat (map (emitted_by j) ls)))
                              (filter (in_bucket hash (length instances) k) (concat (map (emitted_by j) rs))).
Proof.
  intros Hk Hi Hop. pose proof (instance_consumed hash loads vs Htop j Hj Hq _ instances cid Hst k i t Hk Hi) as Hc.
  rewrite map_app, concat_app in Hc. pose proof (share_names k ls ln Hln) as Nl. pose proof (share_names k rs rn Hrn) as Nr.
  pose proof (rest_run hash loads vs j Hj Hq i t Hi) as Hrun.
  destruct (packed_run _ _ Hop _ _ _ _ Hrun) as (st & _ & Hr). cbn in Hr.
  rewrite run_two_input in Hr; [|done|]; cycle 1.
  { rewrite Hc. apply Forall_app. split; (eapply Forall_impl; [done|]); cbn; auto. }
  assert (Forall keyed (map (side ln) (t_consumed t))) as Hkey.
  { apply Forall_fmap. rewrite Hc. apply Forall_app. assert (∀ ss, (∀ s, s ∈ ss → s ∈ ls ++ rs) → Forall (keyed ∘ side ln) (share k ss)) as Hs.
    { intros ss Hss. apply Forall_concat, Forall_fmap, Forall_forall. intros s Hs%Hss. cbn.
      apply Forall_fmap, Forall_forall. intros r [_ Hr']%list_elem_of_filter.
      pose proof (sender_keyed hash loads vs Htop j Hj Hq _ instances cid Hst s Hs) as Hks. rewrite Forall_forall in Hks.
      specialize (Hks r Hr'). cbn. unfold keyed, side. by destruct (decide _). }
    split; apply Hs; intros s Hin; apply elem_of_app; auto. }
  assert (join_inv (new_join : join_state K V) [] []) as H0 by by split.
  destruct (join_run_ok join J Hjoin _ new_join [] [] H0 Hkey) as (s' & outs & E & _ & P).
  rewrite Hr in E. injection E as _ <-. cbn [app] in P. rewrite <- P, lefts_side, rights_side.
  rewrite (join_pairs_perm J _ (share k ls) _ (share k rs)).
  - by rewrite (join_pairs_names J (name_of vs) (λ s, filter (in_bucket hash (length instances) k) (emitted_by j s)) ls rs),
      !concat_filter.
  - rewrite Hc, filter_app, (filter_all _ (share k ls)) by done. rewrite filter_none, app_nil_r; [done|].
    eapply Forall_impl; [exact Nr|]. cbn. congruence.
  - rewrite Hc, filter_app, (filter_all _ (share k rs)); [|eapply Forall_impl; [exact Nr|]; cbn; congruence].
    rewrite filter_none; [done|]. eapply Forall_impl; [exact Nl|]. cbn. tauto.
Qed.
End join_stage.


(** A reduce split over parallel instances computes what one instance would: at rest the state of
    the instances behind a key partition is the state of a single reduce over everything all senders
    emitted, each key held by the one instance its hash selects and by no other, for every schedule
    of the job and every associative and commutative reduce function. *)
Lemma stage_reduce {K V T Bytes} `{FifoTransport T Bytes} `{!EqDecision K} (hash : K → Z)
    (dumps : list (dict string (field K V)) → res Bytes) (loads : Bytes → res (list (dict string (field K V))))
    (empty : V) (f : V → V → res V) (F : V → V → V) (vs : list (vertex K V)) (tr : T) (acts : list action)
    (senders instances : list nat) (cid : nat → nat → string) :
  (∀ b bs, dumps b = Ok bs → loads bs = Ok b) → topology vs → (∀ c, in_flight tr c = []) →
  (∀ a b, f a b = Ok (F a b)) → (∀ a b c, F (F a b) c = F a (F b c)) → (∀ a b, F a b = F b a) →
  keyed_stage vs senders instances cid →
  (∀ k i v, instances !! k = Some i → vs !! i = Some v →
     existT (v_op v) (v_init v) = existT (reduce_op f) ([] : dict K V) :> sigT op_st) →
  let j := job_run hash dumps loads empty (new_job vs tr) acts in
  quiescent j →
  ∃ whole outs, run_op (reduce_step f) [] (concat (map (emitted_by j) senders)) = (whole, outs, Ok ()) ∧
    ∀ k i t, instances !! k = Some i → tasks j !! i = Some t →
      ∃ st : dict K V, existT (v_op (t_vertex t)) (t_st t) = existT (reduce_op f) st :> sigT op_st ∧
        ∀ key, dget st key = if decide (bucket hash (length instances) key = k) then dget whole key else None.
Proof.
  intros codec Htop Htr Hf Ha Hc Hst Hop j Hq.
  assert (job_inv hash loads vs j) as Hj by by apply job_run_inv, new_job_inv.
  assert (Forall (λ r, is_Some (r_key r)) (concat (map (emitted_by j) senders))) as Hk.
  { apply Forall_concat, Forall_fmap, Forall_forall. intros s Hs. by eapply sender_keyed. }
  destruct (run_op (reduce_step f) [] _) as [[whole outs] e] eqn:Ew.
  destruct (reduce_run_inv F f _ Hf [] [] _ _ _ (reduce_inv_nil F) Ew Hk) as [Iw ->]. cbn [app] in Iw.
  exists whole, outs. split; [done|]. intros k i t Hki Hi.
  pose proof Hj as [J1 _ _]. assert (vs !! i = Some (t_vertex t)) as Hv by by rewrite <- J1, list_lookup_fmap, Hi.
  pose proof (rest_run hash loads vs j Hj Hq i t Hi) as Hrun.
  destruct (packed_run _ _ (Hop k i _ Hki Hv) _ _ _ _ Hrun) as (st & Est & Hst'). cbn in Est, st, Hst'.
  exists st. split; [done|]. intros key.
  assert (Forall (λ r, is_Some (r_key r)) (t_consumed t)) as Hkc.
  { rewrite (instance_consumed hash loads vs Htop j Hj Hq senders instances cid Hst k i t Hki Hi). apply Forall_concat, Forall_fmap, Forall_forall. intros s Hs. cbn. apply Forall_fmap, Forall_forall.
    intros r [_ Hr]%list_elem_of_filter. cbn. eapply sender_keyed in Hs; [|done..]. rewrite Forall_forall in Hs. by apply Hs. }
  destruct (reduce_run_inv F f _ Hf [] [] _ _ _ (reduce_inv_nil F) Hst' Hkc) as [Ik _]. cbn [app] in Ik.
  rewrite Ik, Iw. pose proof (consumed_of_key hash loads vs Htop j Hj Hq senders instances cid Hst k i t key Hki Hi) as Hp.
  rewrite (fold_values_perm F Ha Hc _ _ Hp). case_decide; [|done].
  by rewrite fold_values_named, of_key_concat.
Qed.

(** A join split over parallel instances is complete: at rest the instances behind the key partitions
    of two streams have together emitted, up to order, exactly one record per pair of a left and a
    right record with equal keys, for every schedule of the job, every parallelism and every hash. *)
Lemma stage_join {K V T Bytes} `{FifoTransport T Bytes} `{!EqDecision K} (hash : K → Z)
    (dumps : list (dict string (field K V)) → res Bytes) (loads : Bytes → res (list (dict string (field K V))))
    (empty : V) (join : V → V → res V) (J : V → V → V) (vs : list (vertex K V)) (tr : T) (acts : list action)
    (lefts rights instances : list nat) (cid : nat → nat → string) (ln rn : string) :
  (∀ b bs, dumps b = Ok bs → loads bs = Ok b) → topology vs → (∀ c, in_flight tr c = []) →
  (∀ a b, join a b = Ok (J a b)) → keyed_stage vs (lefts ++ rights) instances cid → ln ≠ rn →
  (∀ s, s ∈ lefts → name_of vs s = ln) → (∀ s, s ∈ rights → name_of vs s = rn) →
  (∀ k i v, instances !! k = Some i → vs !! i = Some v →
     existT (v_op v) (v_init v) = existT (join_op join ln rn) new_join :> sigT op_st) →
  let j := job_run hash dumps loads empty (new_job vs tr) acts in
  quiescent j →
  concat (map (emitted_by j) instances)
  ≡ₚ join_pairs J (concat (map (emitted_by j) lefts)) (concat (map (emitted_by j) rights)).
Proof.
  intros codec Htop Htr Hjoin Hst Hne Hln Hrn Hop j Hq.
  assert (job_inv hash loads vs j) as Hj by by apply job_run_inv, new_job_inv.
  assert (∀ ss, (∀ s, s ∈ ss → s ∈ lefts ++ rights) → Forall (λ r, is_Some (r_key r)) (concat (map (emitted_by j) ss))) as Hk.
  { intros ss Hss. apply Forall_concat, Forall_fmap, Forall_forall. intros s Hs%Hss. by eapply sender_keyed. }
  rewrite <- (join_pairs_split J hash (length instances)); [|destruct instances; [by destruct (ks_instances _ _ _ _ _ Hst)|cbn; lia]
    |apply Hk; intros s Hs; apply elem_of_app; auto].
  apply concat_map_seq. intros k i Hk'. destruct (ks_instance _ _ _ _ _ Hst k i Hk') as (v & Hv & _).
  destruct (vertex_task hash loads vs j Hj i v Hv) as (t & Ht & <-). unfold emitted_by at 1. rewrite Ht.
  by eapply instance_joined; eauto.
Qed.
