(* ===== verification/Sources.v ===== *)
(** * Sources
    ([SourceOperator] and its context in [volga/streaming/api/operators/operators.py],
     the source functions of [volga/streaming/api/function/function.py],
     [volga/streaming/runtime/sources/source_splits_manager.py] and
     [sources/wordcount/source.py])

    A source context hands values to its collectors, counts them and raises
    [finished] when the declared number of records was emitted or the split
    enumerator reported the end of input.  Clock readings are functions of the
    number of records emitted so far. *)

From S2P Require Import Prelude PyDict PyDecimal Message Stats Operators.

Inductive SourceSplit :=
| MORE_AVAILABLE (words : dict string Z)
| END_OF_INPUT.

Definition is_end (s : SourceSplit) : bool :=
  match s with END_OF_INPUT => true | MORE_AVAILABLE _ => false end.

Section source.
Context {K V W : Type}.
Local Abbreviation rc := (rec K V).
Context (collectors : list (rc → M W ())) (timestamp_assigner : option (rc → res stamp)).
Context (emit_clock stats_clock : Z → Z).

Record SourceContextImpl := mkCtx {
  num_records : option Z;
  num_fetched_records : Z;
  finished : bool;
  current_split : option SourceSplit;
  throughput_stats : WorkerThroughputStatsState;
}.
Definition new_ctx (num_records : option Z) : SourceContextImpl :=
  mkCtx num_records 0 false None create_throughput.

(** [EventTimeAssigner.assign_timestamp], when there is an assigner. *)
Definition assign_timestamp (record : rc) : res rc :=
  match timestamp_assigner with
  | None => Ok record
  | Some func => ts ← func record; Ok (set_event_time (Some ts) record)
  end.

(** The record built for each collector. *)
Definition source_record (n : Z) (value : V) : res rc :=
  let source_emit_ts := if decide ((n + 1) mod 100 = 0)%Z then Some (emit_clock n) else None in
  assign_timestamp (new_Record value None source_emit_ts).

(** [SourceContextImpl.collect(value)] *)
Definition ctx_collect (value : V) : M (SourceContextImpl * W) () := λ sw,
  let '(self, w) := sw in
  let n := num_fetched_records self in
  match for_each collectors
          (λ collector, liftR (source_record n value) ≫= λ record, collector record) w with
  | (Raise e, w') => (Raise e, (self, w'))
  | (Ok _, w') =>
      (Ok (), (mkCtx (num_records self) (n + 1)
                 (if decide (num_records self = Some (n + 1)%Z) then true else finished self)
                 (current_split self) (inc (stats_clock n) (throughput_stats self)), w'))
  end.

(** The split received from the master becomes the current one. *)
Definition take_split (split : SourceSplit) (self : SourceContextImpl) : SourceContextImpl :=
  mkCtx (num_records self) (num_fetched_records self)
    (if is_end split then true else finished self) (Some split) (throughput_stats self).

(** [poll_next_split]: one call to the master, which owns the enumerator state. *)
Definition ctx_poll_next_split {En} (poll : M En SourceSplit)
    : M (En * (SourceContextImpl * W)) SourceSplit := λ st,
  let '(en, (self, w)) := st in
  match poll en with
  | (Raise e, en') => (Raise e, (en', (self, w)))
  | (Ok split, en') => (Ok split, (en', (take_split split self, w)))
  end.

Definition get_current_split {En} (poll : M En SourceSplit)
    : M (En * (SourceContextImpl * W)) SourceSplit := λ st,
  let '(en, (self, w)) := st in
  match current_split self with
  | Some split => (Ok split, (en, (take_split split self, w)))
  | None => ctx_poll_next_split poll st
  end.

(** ** [CollectionSourceFunction] *)

Record CollectionSource := mkCollection {
  all_values : list V;
  values : option (list V);
  num_values : option Z;
}.
Definition new_collection (all_values : list V) : CollectionSource :=
  mkCollection all_values None None.

Definition init_collection (self : CollectionSource) (parallel index : nat) : res CollectionSource :=
  vs ← collection_chunk_at_index (all_values self) parallel index;
  Ok (mkCollection (all_values self) (Some vs) (Some (Z.of_nat (length vs)))).

(** [SourceOperator.open]: [init], then a context bounded by [num_records()]. *)
Definition open_collection (self : CollectionSource) (parallel index : nat)
    : res (CollectionSource * SourceContextImpl) :=
  self ← init_collection self parallel index;
  Ok (self, new_ctx (num_values self)).

Definition fetch_collection : M (CollectionSource * (SourceContextImpl * W)) () := λ st,
  let '(self, sw) := st in
  match values self with
  | None => (Raise TypeError, st)
  | Some vs =>
      match for_each vs ctx_collect sw with
      | (Raise e, sw') => (Raise e, (self, sw'))
      | (Ok _, sw') => (Ok (), (mkCollection (all_values self) (Some []) (num_values self), sw'))
      end
  end.
End source.

Arguments CollectionSource : clear implicits.

(** ** Word count splits *)

Section wordcount.
Abbreviation counts := (dict string (option Z)).

Record WordCountSourceSplitEnumerator := mkEnum {
  counts_per_word : counts;
  num_msgs_per_split : Z;
}.
Definition new_enum (count_per_word : option Z) (num_msgs_per_split : Z) (dictionary : list string) :=
  mkEnum (dict_of (map (λ w, (w, count_per_word)) dictionary)) num_msgs_per_split.

Definition _all_done (c : counts) : bool := forallb (λ kv, bool_decide (kv.2 = Some 0%Z)) c.

(** The loop of [poll_next_split]; [None] when the fuel does not suffice. *)
Fixpoint poll_loop (fuel : nat) (n : Z) (c : counts) (words : dict string Z) (num_msgs : Z) (index : nat)
    : option (res (dict string Z) * counts) :=
  match fuel with
  | O => None
  | S fuel' =>
      if decide (num_msgs ≠ n) then
        if _all_done c then Some (Ok words, c) else
        let all_words := dkeys c in
        let index := index mod length all_words in
        match all_words !! index with
        | None => Some (Raise IndexError, c)
        | Some word =>
            match dget c word with
            | None => Some (Raise KeyError, c)
            | Some (Some 0%Z) => poll_loop fuel' n c words num_msgs (index + 1)
            | Some None => Some (Raise TypeError, c)
            | Some (Some count) =>
                let words := dset words word (default 0 (dget words word) + 1)%Z in
                poll_loop fuel' n (dset c word (Some (count - 1)%Z)) words (num_msgs + 1) (index + 1)
            end
        end
      else Some (Ok words, c)
  end.

Definition poll_next_split (fuel : nat) (self : WordCountSourceSplitEnumerator)
    : option (res SourceSplit * WordCountSourceSplitEnumerator) :=
  if _all_done (counts_per_word self) then Some (Ok END_OF_INPUT, self) else
  '(r, c) ← poll_loop fuel (num_msgs_per_split self) (counts_per_word self) [] 0 0;
  Some (words ← r; Ok (MORE_AVAILABLE words), mkEnum c (num_msgs_per_split self)).

(** [SourceSplitManager.poll_next_split] *)
Definition manager_poll (fuel : nat) (enumerators : dict Z WordCountSourceSplitEnumerator)
    (operator_id : Z) : option (res SourceSplit * dict Z WordCountSourceSplitEnumerator) :=
  match dget enumerators operator_id with
  | None => Some (Raise (RuntimeError "No split enumerator for operator_id"), enumerators)
  | Some en => '(r, en') ← poll_next_split fuel en; Some (r, dset enumerators operator_id en')
  end.
End wordcount.

(** [WordCountSourceFunction.fetch]: the words of the current split, each as often as it
    is counted, and then the next split. *)
Definition fetch_wordcount {K W En} (collectors : list (rec K string → M W ())) assigner
    (emit_clock stats_clock : Z → Z) (poll : M En SourceSplit)
    : M (En * (SourceContextImpl * W)) () :=
  get_current_split poll ≫= λ split,
  match split with
  | END_OF_INPUT => mret ()
  | MORE_AVAILABLE words =>
      for_each words (λ kv,
        for_each (replicate (Z.to_nat kv.2) kv.1) (λ word st,
          let '(en, sw) := st in
          let '(r, sw') := ctx_collect collectors assigner emit_clock stats_clock word sw in
          (r, (en, sw')))) ≫= λ _,
      ctx_poll_next_split poll ≫= λ _, mret ()
  end.

(** ** Lemmas: word count *)

Section wordcount_lemmas.
Implicit Types (c : dict string (option Z)) (words : dict string Z).

Definition cnt c (w : string) : Z := match dget c w with Some (Some z) => z | _ => 0%Z end.
Definition wcnt words (w : string) : Z := default 0%Z (dget words w).
Definition total c : Z := sumZ (map (λ kv, default 0%Z kv.2) c).
Definition nonneg c : Prop := Forall (λ kv, ∃ z, kv.2 = Some z ∧ (0 ≤ z)%Z) c.

Lemma total_nonneg c : nonneg c → (0 ≤ total c)%Z.
Proof.
  unfold total, sumZ. induction 1 as [|[k v] c (z & Hz & ?) Hc IH]; simpl in *; [lia|]. subst. simpl. lia.
Qed.

Lemma all_done_total c : nonneg c → (_all_done c = true ↔ total c = 0%Z).
Proof.
  unfold _all_done, total, sumZ. induction 1 as [|[k v] c (z & Hz & ?) Hc IH]; simpl in *; [done|]. subst. simpl.
  pose proof (total_nonneg c Hc) as Ht. unfold total, sumZ in Ht. rewrite andb_true_iff, IH, bool_decide_eq_true. split.
  - intros [[= ->] ->]. lia.
  - intros H0. split; [do 2 f_equal; lia|lia].
Qed.

Lemma total_dset c w z z' : dget c w = Some (Some z) → total (dset c w (Some z')) = (total c - z + z')%Z.
Proof.
  unfold total, sumZ. induction c as [|[k v] c IH]; simpl; [done|].
  case_decide; intros; simplify_eq/=; [lia|]. rewrite IH by done. lia.
Qed.

Lemma nonneg_dset c w z : nonneg c → (0 ≤ z)%Z → nonneg (dset c w (Some z)).
Proof.
  intros Hc Hz. induction Hc as [|[k v] c Hk Hc IH]; simpl; [repeat constructor; eauto|].
  case_decide; constructor; simpl; eauto.
Qed.

Lemma nonneg_lookup c w v : nonneg c → dget c w = Some v → ∃ z, v = Some z ∧ (0 ≤ z)%Z.
Proof. unfold nonneg. intros Hc E%dget_Some_elem. rewrite Forall_forall in Hc. by apply (Hc (w, v)). Qed.

Lemma positive_word c : nonneg c → (0 < total c)%Z → ∃ p w z, dkeys c !! p = Some w ∧ (w, Some z) ∈ c ∧ (0 < z)%Z.
Proof.
  unfold total, sumZ, dkeys. induction 1 as [|[k v] c (z & Hz & Hz0) Hc IH]; simpl in *; [lia|]. subst. simpl.
  destruct (decide (z = 0)%Z) as [->|].
  - intros Ht. destruct IH as (p & w & z & Hp & Hin & ?); [lia|]. exists (S p), w, z. simpl. split_and!; [done|set_solver|lia].
  - intros _. exists 0, k, z. split_and!; [done|set_solver|lia].
Qed.

(** Every position is reached from every index within one round. *)
Lemma reach_index len index p : p < len → ∃ j, j < len ∧ (index + j) mod len = p.
Proof.
  intros Hp. exists ((p + (len - index mod len)) mod len). pose proof (Nat.mod_upper_bound index len ltac:(lia)) as Hi.
  split; [apply Nat.mod_upper_bound; lia|].
  rewrite Nat.Div0.add_mod_idemp_r, <- Nat.Div0.add_mod_idemp_l.
  replace (index mod len + (p + (len - index mod len))) with (p + 1 * len) by lia.
  rewrite Nat.Div0.mod_add. by apply Nat.mod_small.
Qed.

Lemma length_dkeys_dset c w v v' : dget c w = Some v → dkeys (dset c w v') = dkeys c.
Proof.
  unfold dkeys. induction c as [|[k x] c IH]; simpl; [done|]. case_decide; intros; simplify_eq/=; [done|].
  f_equal. by apply IH.
Qed.

(** The fuel one poll of [todo] messages needs when the next word is [j] places ahead. *)
Definition poll_fuel (todo len j : nat) : nat :=
  match todo with O => 1 | S t => 2 + j + t * len end.

Definition poll_post c words (todo : nat) (r : option (res (dict string Z) * dict string (option Z))) : Prop :=
  ∃ words' c', r = Some (Ok words', c') ∧ dkeys c' = dkeys c ∧ nonneg c' ∧
    (∀ w, cnt c' w + wcnt words' w = cnt c w + wcnt words w)%Z ∧
    total c' = (total c - Z.of_nat todo)%Z ∧
    sumZ (dvalues words') = (sumZ (dvalues words) + Z.of_nat todo)%Z.

Lemma sumZ_dincr words w :
  sumZ (dvalues (dset words w (default 0 (dget words w) + 1)%Z)) = (sumZ (dvalues words) + 1)%Z.
Proof.
  destruct (dget words w) as [x|] eqn:E; simpl.
  - rewrite (sumZ_dset words w x) by done. lia.
  - rewrite sumZ_dset_new by done. lia.
Qed.

(** A position [j] ahead of [index] holds a word that is still to be sent. *)
Definition next_at c (index j : nat) : Prop :=
  j < length c ∧ ∃ w z, dkeys c !! ((index + j) mod length c) = Some w ∧ (w, Some z) ∈ c ∧ (0 < z)%Z.

Definition poll_ok (todo : nat) : Prop := ∀ j fuel n c words num index,
  dict_wf c → nonneg c → (num ≤ n)%Z → Z.of_nat todo = Z.min (n - num) (total c) →
  (0 < todo → next_at c index j) → poll_fuel todo (length c) j ≤ fuel →
  poll_post c words todo (poll_loop fuel n c words num index).

Lemma next_exists c index : nonneg c → (0 < total c)%Z → ∃ j, next_at c index j.
Proof.
  intros Hnn Ht. destruct (positive_word c Hnn Ht) as (p & w & z & Hp & Hin & Hz).
  destruct (reach_index (length c) index p) as (j & Hj1 & Hj2).
  { apply lookup_lt_Some in Hp. unfold dkeys in Hp. by rewrite length_fmap in Hp. }
  exists j. split; [done|]. exists w, z. by rewrite Hj2.
Qed.

(** Taking one message of word [w]. *)
Lemma poll_take todo fuel n c words num index w z :
  poll_ok todo → dict_wf c → nonneg c → (num < n)%Z →
  Z.of_nat (S todo) = Z.min (n - num) (total c) → dget c w = Some (Some z) → (0 < z)%Z →
  1 + todo * length c ≤ fuel →
  poll_post c words (S todo)
    (poll_loop fuel n (dset c w (Some (z - 1)%Z)) (dset words w (default 0 (dget words w) + 1)%Z)
       (num + 1) index).
Proof.
  intros IH Hwf Hnn Hn Htodo Ew Hz Hf.
  pose proof (length_dkeys_dset c w _ (Some (z - 1)%Z) Ew) as Hkeys.
  assert (length (dset c w (Some (z - 1)%Z)) = length c) as Hlen.
  { apply (f_equal length) in Hkeys. unfold dkeys in Hkeys. by rewrite !length_fmap in Hkeys. }
  set (c1 := dset c w (Some (z - 1)%Z)) in *.
  assert (total c1 = total c - 1)%Z as Htc by (unfold c1; rewrite (total_dset c w z) by done; lia).
  assert (nonneg c1) as Hnn1 by (apply nonneg_dset; [done|lia]).
  assert (∃ j, 0 < todo → next_at c1 index j) as [j Hj].
  { destruct (decide (0 < todo)); [|exists 0; lia]. destruct (next_exists c1 index) as [j ?]; [done|lia|by exists j]. }
  destruct (IH j fuel n c1 (dset words w (default 0 (dget words w) + 1)%Z) (num + 1)%Z index)
    as (words' & c' & E & Hk' & Hn' & Hcons & Htot' & Hsum); [|done|lia|lia|done| |].
  { unfold dict_wf. by rewrite Hkeys. }
  { rewrite Hlen. unfold poll_fuel in *. destruct todo; [lia|].
    destruct (Hj ltac:(lia)) as [Hjl _]. rewrite Hlen in Hjl. lia. }
  exists words', c'. split_and!; [exact E|congruence|done| |lia|].
  - intros w'. rewrite Hcons. unfold cnt, wcnt, c1. rewrite !dget_dset. case_decide as Hw'; [subst|done].
    rewrite Ew. simpl. lia.
  - rewrite Hsum, sumZ_dincr. lia.
Qed.

Lemma poll_loop_ok todo : poll_ok todo.
Proof.
  induction todo as [|todo IHt].
  { intros j fuel n c words num index Hwf Hnn Hn Htodo _ Hf. destruct fuel as [|fuel]; [simpl in Hf; lia|].
    cbn [poll_loop]. assert (poll_post c words 0 (Some (Ok words, c))) as Hpost.
    { exists words, c. split_and!; [done|done|done|intros w; lia|lia|lia]. }
    case_decide as Hne; [|done]. rewrite (proj2 (all_done_total c Hnn)); [done|].
    pose proof (total_nonneg c Hnn). lia. }
  unfold poll_ok. induction j as [|j IHj]; intros fuel n c words num index Hwf Hnn Hn Htodo Hj Hf;
    (destruct fuel as [|fuel]; [simpl in Hf; lia|]).
  all: destruct (Hj ltac:(lia)) as (Hjl & w & z & Hw & Hin & Hz); pose proof (total_nonneg c Hnn) as Htot.
  all: cbn [poll_loop]; rewrite decide_True by lia.
  all: assert (_all_done c = false) as -> by
    (apply not_true_is_false; rewrite (all_done_total c Hnn); lia).
  all: assert (length (dkeys c) = length c) as Hlk by (unfold dkeys; by rewrite length_fmap); rewrite Hlk.
  all: pose proof (Nat.mod_upper_bound index (length c) ltac:(lia)) as Hmod.
  all: destruct (lookup_lt_is_Some_2 (dkeys c) (index mod length c)) as [w0 Hw0]; [lia|]; rewrite Hw0.
  all: assert (∃ v0, dget c w0 = Some v0) as [v0 Ev0] by
    (destruct (dget c w0) eqn:E; [by eexists|]; apply dget_None in E; exfalso; apply E;
     by eapply list_elem_of_lookup_2).
  all: rewrite Ev0; destruct (nonneg_lookup c w0 v0 Hnn Ev0) as (z0 & -> & Hz0).
  - rewrite Nat.add_0_r in Hw. assert (w0 = w) as -> by congruence.
    assert (z0 = z) as -> by (apply (dget_elem_wf c w) in Hin; [congruence|done]).
    destruct z as [|z|z]; [lia| |lia]. apply (poll_take todo); try done; simpl in *; lia.
  - destruct z0 as [|z0|z0]; [| |lia].
    + apply IHj; try done; [|simpl in Hf |- *; lia].
      intros _. split; [lia|]. exists w, z. split; [|done]. rewrite <- Hw. f_equal.
      replace (index mod length c + 1 + j) with (index mod length c + S j) by lia.
      by rewrite Nat.Div0.add_mod_idemp_l.
    + apply (poll_take todo); try done; simpl in *; lia.
Qed.
End wordcount_lemmas.

Section polls.
Implicit Types (en : WordCountSourceSplitEnumerator).

Definition enum_ok en : Prop :=
  dict_wf (counts_per_word en) ∧ nonneg (counts_per_word en) ∧ (0 < num_msgs_per_split en)%Z.

(** Iterations that always suffice for one poll. *)
Definition enough en : nat :=
  2 + (Z.to_nat (num_msgs_per_split en) + 1) * length (counts_per_word en).

Lemma poll_more en fuel :
  enum_ok en → enough en ≤ fuel → (0 < total (counts_per_word en))%Z →
  ∃ words en', poll_next_split fuel en = Some (Ok (MORE_AVAILABLE words), en') ∧ enum_ok en' ∧
    enough en' = enough en ∧ num_msgs_per_split en' = num_msgs_per_split en ∧
    (∀ w, cnt (counts_per_word en') w + wcnt words w = cnt (counts_per_word en) w)%Z ∧
    (let t := Z.min (num_msgs_per_split en) (total (counts_per_word en)) in
     sumZ (dvalues words) = t ∧ total (counts_per_word en') = total (counts_per_word en) - t)%Z.
Proof.
  intros (Hwf & Hnn & Hn) Hf Ht. destruct en as [c n]. unfold enough in *. simpl in *.
  destruct (next_exists c 0 Hnn Ht) as [j Hj]. pose proof Hj as [Hjl _].
  set (todo := Z.to_nat (Z.min n (total c))).
  destruct (poll_loop_ok todo j fuel n c [] 0%Z 0) as (words & c' & E & Hk & Hn' & Hcons & Htot & Hsum);
    [done|done|lia|unfold todo; lia|done| |].
  { unfold poll_fuel. destruct todo as [|t] eqn:Et; [lia|]. assert (t ≤ Z.to_nat n) by (unfold todo in Et; lia). nia. }
  exists words, (mkEnum c' n). unfold poll_next_split. simpl.
  assert (_all_done c = false) as -> by (apply not_true_is_false; rewrite (all_done_total c Hnn); lia).
  rewrite E. simpl.
  assert (length c' = length c) as Hlen.
  { apply (f_equal length) in Hk. unfold dkeys in Hk. by rewrite !length_fmap in Hk. }
  assert (dict_wf c') as Hwf' by (unfold dict_wf in *; by rewrite Hk).
  split_and!; [done|by split_and!|by rewrite Hlen|done| | |].
  - intros w. specialize (Hcons w). unfold wcnt in Hcons at 2. simpl in Hcons. lia.
  - unfold sumZ in Hsum at 2. simpl in Hsum. lia.
  - lia.
Qed.

Lemma poll_end en fuel :
  enum_ok en → total (counts_per_word en) = 0%Z → poll_next_split fuel en = Some (Ok END_OF_INPUT, en).
Proof.
  intros (Hwf & Hnn & Hn) Ht. unfold poll_next_split. by rewrite (proj2 (all_done_total _ Hnn)).
Qed.

Lemma cnt_zero (c : dict string (option Z)) w : nonneg c → total c = 0%Z → cnt c w = 0%Z.
Proof.
  intros Hnn Ht. apply (all_done_total c Hnn) in Ht. unfold cnt. destruct (dget c w) as [v|] eqn:E; [|done].
  apply dget_Some_elem in E. unfold _all_done in Ht. rewrite forallb_forall in Ht.
  specialize (Ht (w, v) (proj1 (list_elem_of_In _ _) E)). simpl in Ht. apply bool_decide_eq_true in Ht. by subst.
Qed.

(** [k] successive polls. *)
Fixpoint poll_n (fuel k : nat) en : option (list SourceSplit * WordCountSourceSplitEnumerator) :=
  match k with
  | O => Some ([], en)
  | S k' =>
      match poll_next_split fuel en with
      | Some (Ok split, en') =>
          match poll_n fuel k' en' with
          | Some (splits, en'') => Some (split :: splits, en'')
          | None => None
          end
      | _ => None
      end
  end.

Definition split_words (s : SourceSplit) : dict string Z :=
  match s with MORE_AVAILABLE words => words | END_OF_INPUT => [] end.

Lemma poll_n_ok fuel k : ∀ en, enum_ok en → enough en ≤ fuel →
  ∃ splits en', poll_n fuel k en = Some (splits, en') ∧ enum_ok en' ∧
    (∀ w, cnt (counts_per_word en') w + sumZ (map (λ s, wcnt (split_words s) w) splits)
          = cnt (counts_per_word en) w)%Z ∧
    total (counts_per_word en')
      = Z.max 0 (total (counts_per_word en) - Z.of_nat k * num_msgs_per_split en)%Z.
Proof.
  induction k as [|k IH]; intros en Hok Hf.
  { exists [], en. pose proof (total_nonneg _ (proj1 (proj2 Hok))). split_and!; [done|done| |lia].
    intros w. unfold sumZ. simpl. lia. }
  pose proof (total_nonneg _ (proj1 (proj2 Hok))) as Ht. pose proof (proj2 (proj2 Hok)) as Hn.
  cbn [poll_n]. destruct (decide (total (counts_per_word en) = 0)%Z) as [H0|H0].
  - rewrite poll_end by done. destruct (IH en Hok Hf) as (splits & en' & E & Hok' & Hc & Htot).
    rewrite E. exists (END_OF_INPUT :: splits), en'. split_and!; [done|done| |].
    + intros w. rewrite <- (Hc w). unfold sumZ. simpl. unfold wcnt at 1. simpl. lia.
    + rewrite Htot, H0. nia.
  - destruct (poll_more en fuel Hok Hf ltac:(lia)) as (words & en1 & E1 & Hok1 & He1 & Hn1 & Hc1 & Hs1 & Ht1).
    rewrite E1. destruct (IH en1 Hok1 ltac:(lia)) as (splits & en' & E & Hok' & Hc & Htot).
    rewrite E. exists (MORE_AVAILABLE words :: splits), en'.
    split_and!; [done|done| |].
    + intros w. rewrite <- (Hc1 w), <- (Hc w). unfold sumZ. simpl. lia.
    + rewrite Htot, Ht1, Hn1. nia.
Qed.
End polls.

(** ** Lemmas: collection source *)

Section collection_lemmas.
Context {K V W : Type} (cs : list (rec K V → M W ())) (assigner : option (rec K V → res stamp)).
Context (ec sc : Z → Z).

(** The records a context that has emitted [n] records builds for [vs]. *)
Fixpoint source_records (n : Z) (vs : list V) : res (list (rec K V)) :=
  match vs with
  | [] => Ok []
  | v :: vs' => r ← source_record assigner ec n v; rs ← source_records (n + 1) vs'; Ok (r :: rs)
  end.

Lemma ctx_collect_all vs : ∀ ctx w w' rs,
  source_records (num_fetched_records ctx) vs = Ok rs → for_each rs (collect cs) w = (Ok (), w') →
  ∃ ctx', for_each vs (ctx_collect cs assigner ec sc) (ctx, w) = (Ok (), (ctx', w')) ∧
    num_records ctx' = num_records ctx ∧
    num_fetched_records ctx' = (num_fetched_records ctx + Z.of_nat (length vs))%Z ∧
    (finished ctx' = true ↔ finished ctx = true ∨
       ∃ n, num_records ctx = Some n ∧ (num_fetched_records ctx < n ≤ num_fetched_records ctx')%Z).
Proof.
  induction vs as [|v vs IH]; intros ctx w w' rs Hrs Hw; cbn [source_records] in Hrs.
  { injection Hrs as <-. simpl in Hw. injection Hw as <-. exists ctx. split_and!; [done|done|simpl; lia|].
    split; [by left|]. intros [?|(n & _ & ?)]; [done|lia]. }
  inv_res. cbn [for_each] in Hw |- *. unfold mbind, M_bind in *.
  match goal with H : source_record _ _ _ _ = Ok ?x |- _ => rename x into r; rename H into Hr end.
  match goal with H : source_records _ _ = Ok ?x |- _ => rename x into rs; rename H into Hrs end.
  assert (for_each cs (λ c, liftR (source_record assigner ec (num_fetched_records ctx) v) ≫= λ record, c record) w
    = collect cs r w) as Ecol.
  { unfold collect. apply for_each_ext. intros c s. unfold mbind, M_bind, liftR. by rewrite Hr. }
  destruct (collect cs r w) as [[[]|e] w1] eqn:Ec; [|done].
  set (ctx1 := mkCtx (num_records ctx) (num_fetched_records ctx + 1)
    (if decide (num_records ctx = Some (num_fetched_records ctx + 1)%Z) then true else finished ctx)
    (current_split ctx) (inc (sc (num_fetched_records ctx)) (throughput_stats ctx))).
  assert (ctx_collect cs assigner ec sc v (ctx, w) = (Ok (), (ctx1, w1))) as ->.
  { unfold ctx_collect. unfold mbind, M_bind in Ecol |- *. by rewrite Ecol. }
  destruct (IH ctx1 w1 w' rs) as (ctx' & E & Hn & Hf & Hfin); [done|done|].
  exists ctx'. split_and!; [exact E|done|rewrite Hf; simpl; lia|].
  rewrite Hfin. unfold ctx1. cbn [num_records num_fetched_records finished]. split.
  - intros [Hd|(n & Hn' & ?)].
    + case_decide as Hd'; [|by left]. right. eexists. split; [exact Hd'|]. rewrite Hf. unfold ctx1. simpl. lia.
    + right. exists n. split; [done|lia].
  - intros [Hd|(n & Hn' & Hlt)].
    + left. by case_decide.
    + destruct (decide (n = num_fetched_records ctx + 1)%Z) as [->|Hne].
      * left. by rewrite decide_True.
      * right. exists n. split; [done|lia].
Qed.
End collection_lemmas.

(** ** Properties *)

(** C32. The word-count splits are exact and finite: with a positive split size, the
    loop of every poll ends within the stated number of rounds, no word is lost or
    invented across polls, and after [total / size] polls (rounded up) every word
    has been handed out exactly its count and all further polls report the end
    of input. *)
Theorem wordcount_splits_exact en fuel k :
  enum_ok en → enough en ≤ fuel →
  (total (counts_per_word en) ≤ Z.of_nat k * num_msgs_per_split en)%Z →
  ∃ splits en', poll_n fuel k en = Some (splits, en') ∧
    (∀ w, sumZ (map (λ s, wcnt (split_words s) w) splits) = cnt (counts_per_word en) w) ∧
    poll_next_split fuel en' = Some (Ok END_OF_INPUT, en').
Proof.
  intros Hok Hf Hk. destruct (poll_n_ok fuel k en Hok Hf) as (splits & en' & E & Hok' & Hc & Ht).
  assert (total (counts_per_word en') = 0%Z) as H0 by lia.
  exists splits, en'. split; [exact E|]. split; [|by apply poll_end].
  intros w. specialize (Hc w). rewrite (cnt_zero (counts_per_word en')) in Hc by (apply (proj2 Hok') || done). lia.
Qed.

(** One fetch of a collection source hands its collectors exactly the records of
    the task's chunk in order and empties the chunk; the context is finished
    afterwards if and only if the chunk was not empty. *)
Theorem collection_source_fetch {K V W} (cs : list (rec K V → M W ())) assigner ec sc
    (vals : list V) par i src ctx rs w w' :
  open_collection (new_collection vals) par i = Ok (src, ctx) →
  source_records assigner ec 0 (default [] (values src)) = Ok rs →
  for_each rs (collect cs) w = (Ok (), w') →
  ∃ src' ctx', fetch_collection cs assigner ec sc (src, (ctx, w)) = (Ok (), (src', (ctx', w'))) ∧
    values src' = Some [] ∧
    num_fetched_records ctx' = Z.of_nat (length (default [] (values src))) ∧
    (finished ctx' = true ↔ default [] (values src) ≠ []).
Proof.
  unfold open_collection, init_collection. intros E Hrs Hw. inv_res.
  match goal with H : collection_chunk_at_index _ _ _ = Ok ?x |- _ => rename x into vs end.
  simpl in *.
  destruct (ctx_collect_all cs assigner ec sc vs (new_ctx (Some (Z.of_nat (length vs)))) w w' rs Hrs Hw)
    as (ctx' & Ef & Hn & Hnum & Hfin).
  unfold fetch_collection. simpl. rewrite Ef. eexists _, _. split; [reflexivity|]. split; [done|].
  split; [exact Hnum|]. rewrite Hfin. simpl in *. rewrite Hnum. split.
  - intros [?|(n & [= <-] & ?)]; [done|]. intros ->. simpl in *. lia.
  - intros Hne. right. eexists. split; [reflexivity|]. destruct vs; [done|]. simpl length. lia.
Qed.

(** A task whose chunk is empty (parallelism above what the collection fills) never
    finishes: no number of fetches sets [finished], so the master waits for it
    for ever. *)
Theorem empty_chunk_never_finishes {K V W} (cs : list (rec K V → M W ())) assigner ec sc
    (vals : list V) par i src ctx w n :
  open_collection (new_collection vals) par i = Ok (src, ctx) → values src = Some [] →
  ∃ st, for_each (replicate n ()) (λ _, fetch_collection cs assigner ec sc) (src, (ctx, w)) = (Ok (), st) ∧
    finished st.2.1 = false.
Proof.
  unfold open_collection, init_collection. intros E Hv. inv_res. simpl in *. simplify_eq.
  exists (mkCollection vals (Some []) (Some 0%Z), (new_ctx (Some 0%Z), w)). split; [|reflexivity].
  induction n as [|n IH]; [reflexivity|]. cbn [replicate for_each]. unfold mbind, M_bind. exact IH.
Qed.

(** ** Witnesses *)

Definition ex_enum : WordCountSourceSplitEnumerator := new_enum (Some 3%Z) 4 ["a"; "b"; "c"].

Lemma wordcount_splits_exact_witness :
  ∃ splits en', poll_n 20 3 ex_enum = Some (splits, en') ∧
    (∀ w, sumZ (map (λ s, wcnt (split_words s) w) splits) = cnt (counts_per_word ex_enum) w) ∧
    poll_next_split 20 en' = Some (Ok END_OF_INPUT, en').
Proof.
  apply (wordcount_splits_exact ex_enum 20 3).
  - split; [apply (bool_decide_unpack _); reflexivity|]. split; [|simpl; lia].
    repeat constructor; exists 3%Z; simpl; (split; [reflexivity|lia]).
  - vm_compute. lia.
  - vm_compute. discriminate.
Defined.

Definition ex_source : res (CollectionSource Z * SourceContextImpl) :=
  open_collection (new_collection [5; 6; 7; 8; 9]%Z) 2 1.

Lemma collection_source_fetch_witness :
  ∃ src ctx, ex_source = Ok (src, ctx) ∧
  ∃ src' ctx', fetch_collection [log_collector] None id id (src, (ctx, []))
      = (Ok (), (src', (ctx', [new_Record 8%Z None None; new_Record 9%Z None None]))) ∧
    values src' = Some [] ∧
    num_fetched_records ctx' = Z.of_nat (length (default [] (values src))) ∧
    (finished ctx' = true ↔ default [] (values src) ≠ []).
Proof.
  eexists _, _. split; [reflexivity|].
  apply (collection_source_fetch [log_collector] None id id [5; 6; 7; 8; 9]%Z 2 1 _ _
    [new_Record 8%Z None None; new_Record 9%Z None None]); reflexivity.
Defined.

Lemma empty_chunk_never_finishes_witness :
  ∃ src ctx, open_collection (new_collection [5; 6; 7; 8; 9]%Z) 4 3 = Ok (src, ctx) ∧
  ∃ st, for_each (replicate 10 ()) (λ _, fetch_collection [log_collector] None id id) (src, (ctx, []))
      = (Ok (), st) ∧ finished st.2.1 = false.
Proof.
  eexists _, _. split; [reflexivity|].
  apply (empty_chunk_never_finishes [log_collector] None id id [5; 6; 7; 8; 9]%Z 4 3); reflexivity.
Defined.
