(* ===== verification/Functions.v ===== *)
(** * File and delayed sources
    ([LocalFileSourceFunction] and [DelayedCollectionSourceFunction] of
     [volga/streaming/api/function/function.py])

    The contexts and the collection source are those of [Sources.v].  A file is its
    text after decoding; the delays between values are not modelled. *)

From S2P Require Import Prelude PyDict PyDecimal Message Stats Operators Sources.
From Stdlib Require Import Ascii.

(** ** [LocalFileSourceFunction] *)

Definition newline : ascii := ascii_of_nat 10.

(** [readline]: up to and including the next line feed; the empty string at the end. *)
Fixpoint readline (s : list ascii) : list ascii * list ascii :=
  match s with
  | [] => ([], [])
  | c :: s' => if decide (c = newline) then ([c], s') else let '(l, r) := readline s' in (c :: l, r)
  end.

Section file.
Context {K W : Type} (collectors : list (rec K string → M W ())) (timestamp_assigner : option (rec K string → res stamp)).
Context (emit_clock stats_clock : Z → Z).
Local Abbreviation emit := (ctx_collect collectors timestamp_assigner emit_clock stats_clock).

Definition file_init (parallel : nat) : res () :=
  if decide (1 < parallel) then Raise (RuntimeError "Does not support parallelism > 1") else Ok ().

(** [open]: [num_records] is not implemented, so the context has no bound. *)
Definition open_file (parallel : nat) : res (bool * SourceContextImpl) :=
  _ ← file_init parallel; Ok (false, new_ctx None).

(** The loop over the lines; every round consumes text, whose length bounds the rounds. *)
Fixpoint file_loop (fuel : nat) (text : list ascii) : M (SourceContextImpl * W) () :=
  match fuel with
  | O => mret ()
  | S fuel' =>
      let '(line, rest) := readline text in
      if decide (line = []) then mret ()
      else emit (String.string_of_list_ascii (removelast line)) ≫= λ _, file_loop fuel' rest
  end.

(** [fetch]; the state is [done] and the context. *)
Definition fetch_file (text : list ascii) : M (bool * (SourceContextImpl * W)) () := λ st,
  let '(done, sw) := st in
  if (done : bool) then (Ok (), st)
  else match file_loop (S (length text)) text sw with
       | (Ok _, sw') => (Ok (), (true, sw'))
       | (Raise e, sw') => (Raise e, (false, sw'))
       end.

Lemma readline_line l rest : newline ∉ l → readline (l ++ newline :: rest) = (l ++ [newline], rest).
Proof.
  induction l as [|c l IH]; intros Hl; cbn; [by rewrite decide_True by done|].
  rewrite decide_False by (intros ->; apply Hl; by left). rewrite IH; [done|]. intros Hin. apply Hl. by right.
Qed.
Lemma readline_tail l : newline ∉ l → readline l = (l, []).
Proof.
  induction l as [|c l IH]; intros Hl; cbn; [done|].
  rewrite decide_False by (intros ->; apply Hl; by left). rewrite IH; [done|]. intros Hin. apply Hl. by right.
Qed.

(** What a text of complete lines and a rest without a line feed emits. *)
Definition file_text (lines : list (list ascii)) (tail : list ascii) : list ascii :=
  concat (map (λ l, l ++ [newline]) lines) ++ tail.
Definition file_values (lines : list (list ascii)) (tail : list ascii) : list string :=
  map String.string_of_list_ascii (lines ++ (if decide (tail = []) then [] else [removelast tail])).

Lemma file_loop_lines lines tail : Forall (λ l, newline ∉ l) lines → newline ∉ tail → ∀ fuel sw,
  length (file_text lines tail) < fuel →
  file_loop fuel (file_text lines tail) sw = for_each (file_values lines tail) emit sw.
Proof.
  intros Hl Ht. induction Hl as [|l lines Hnl Hl IH]; intros fuel sw Hf; (destruct fuel as [|fuel]; [lia|]).
  - unfold file_text, file_values. cbn [map concat app file_loop]. rewrite readline_tail by done.
    case_decide; [done|]. cbn [map for_each]. unfold mbind, M_bind.
    destruct (emit _ sw) as [[[]|e] sw1]; [|done]. by destruct fuel.
  - unfold file_text in *. cbn [map concat file_loop]. rewrite <- !app_assoc. cbn [app]. rewrite readline_line by done.
    rewrite decide_False by by destruct l. rewrite removelast_last. unfold file_values. cbn [app map for_each].
    unfold mbind, M_bind. destruct (emit _ sw) as [[[]|e] sw1]; [|done]. apply IH.
    cbn [map concat] in Hf. rewrite !length_app in *. cbn [length] in Hf. lia.
Qed.

(** A context without a bound is never finished by collecting. *)
Lemma emit_unbounded v ctx w : num_records ctx = None → finished ctx = false →
  num_records (emit v (ctx, w)).2.1 = None ∧ finished (emit v (ctx, w)).2.1 = false.
Proof.
  intros Hn Hf. unfold ctx_collect. destruct (for_each _ _ w) as [[|] w']; cbn; [|done]. by rewrite Hn, decide_False by done.
Qed.
Lemma emits_unbounded vs : ∀ sw, num_records sw.1 = None → finished sw.1 = false →
  finished (for_each vs emit sw).2.1 = false.
Proof.
  induction vs as [|v vs IH]; intros [ctx w] Hn Hf; [done|]. cbn [for_each]. unfold mbind, M_bind.
  destruct (emit_unbounded v ctx w Hn Hf) as [H1 H2]. destruct (emit v (ctx, w)) as [[[]|e] sw1]; [by apply IH|done].
Qed.

(** A file source emits its complete lines in order, and the text after the last line feed without its
    last character; a second fetch emits nothing; and its context is never finished, since the function
    has no [num_records]. *)
Theorem file_source_lines (lines : list (list ascii)) (tail : list ascii) (w : W) (ctx : SourceContextImpl) :
  Forall (λ l, newline ∉ l) lines → newline ∉ tail → open_file 1 = Ok (false, ctx) →
  let text := file_text lines tail in
  let '(r, sw) := for_each (file_values lines tail) emit (ctx, w) in
  fetch_file text (false, (ctx, w)) = (r, (is_ok r, sw)) ∧
  (is_ok r = true → fetch_file text (is_ok r, sw) = (Ok (), (is_ok r, sw))) ∧ finished sw.1 = false.
Proof.
  intros Hl Ht [= <-] text. pose proof (emits_unbounded (file_values lines tail) (new_ctx None, w) eq_refl eq_refl) as Hfin.
  pose proof (file_loop_lines lines tail Hl Ht (S (length text)) (new_ctx None, w) (Nat.lt_succ_diag_r _)) as E.
  unfold fetch_file. fold text in E. rewrite E. destruct (for_each _ _ _) as [[[]|e] sw]; by split_and!.
Qed.
End file.

(** ** [DelayedCollectionSourceFunction] *)

Section delayed.
Context {K V W : Type} (collectors : list (rec K V → M W ())) (timestamp_assigner : option (rec K V → res stamp)).
Context (emit_clock stats_clock : Z → Z).
Local Abbreviation emit := (ctx_collect collectors timestamp_assigner emit_clock stats_clock).

(** The loop is over the indices. *)
Definition fetch_delayed : M (CollectionSource V * (SourceContextImpl * W)) () := λ st,
  let '(self, sw) := st in
  match values self with
  | None => (Raise TypeError, st)
  | Some vs =>
      match for_each (seq 0 (length vs)) (λ i, liftR (py_index vs (Z.of_nat i)) ≫= emit) sw with
      | (Raise e, sw') => (Raise e, (self, sw'))
      | (Ok _, sw') => (Ok (), (mkCollection (all_values self) (Some []) (num_values self), sw'))
      end
  end.

(** [num_records] is the length of what is left, not of what [init] assigned. *)
Definition delayed_num_records (self : CollectionSource V) : res Z :=
  match values self with None => Raise TypeError | Some vs => Ok (Z.of_nat (length vs)) end.

Lemma for_each_index (vs : list V) : ∀ pre sw,
  for_each (seq (length pre) (length vs)) (λ i, liftR (py_index (pre ++ vs) (Z.of_nat i)) ≫= emit) sw = for_each vs emit sw.
Proof.
  induction vs as [|v vs IH]; intros pre sw; [done|]. cbn [length seq for_each].
  assert (py_index (pre ++ v :: vs) (Z.of_nat (length pre)) = Ok v) as E.
  { unfold py_index. rewrite bool_decide_eq_true_2 by (rewrite length_app; cbn; lia).
    by rewrite Nat2Z.id, list_lookup_middle. }
  specialize (IH (pre ++ [v])). rewrite length_app, Nat.add_1_r, <- app_assoc in IH. cbn [app] in IH.
  unfold mbind, M_bind in *. unfold liftR at 1. rewrite E. destruct (emit v sw) as [[[]|e] sw1]; [|done]. apply IH.
Qed.

(** Delays apart, a delayed source is a collection source. *)
Theorem delayed_is_collection st : fetch_delayed st = fetch_collection collectors timestamp_assigner emit_clock stats_clock st.
Proof.
  destruct st as [self sw]. unfold fetch_delayed, fetch_collection. destruct (values self) as [vs|]; [|done].
  by rewrite (for_each_index vs []).
Qed.
End delayed.
