(* ===== verification/Chains.v ===== *)
(** * Chains headed by a source or a join
    ([volga/streaming/api/operators/chained.py], [operators.py])

    The optimizer chains an operator with the one-input operators behind it, whatever
    kind its head is.  [Operators.v] has the chain as one operator on one input; here
    are the two other heads, a source that fetches into the chain and a join, together
    with how a chain is finished and described; [Lifecycle.v] opens and closes it. *)

From S2P Require Import Prelude PyDict PyDecimal Message Operators Stats Sources.

(** ** The operator *)

Section chained.
Context {K V W : Type} `{!EqDecision K}.
Local Abbreviation rc := (rec K V).

(** [ForwardCollector]s: the head collects into its successor, the rest of the chain. *)
Definition forward (ops : list (op K V)) (collectors : list (rc → M W ())) : list (rc → M (chain_st ops * W) ()) :=
  [chain_process ops collectors].

(** [ChainedSourceOperator.fetch] with a collection source at the head. *)
Definition chained_fetch (ops : list (op K V)) (collectors : list (rc → M W ())) (assigner : option (rc → res stamp)) (emit_clock stats_clock : Z → Z)
    : M (CollectionSource V * (SourceContextImpl * (chain_st ops * W))) () :=
  fetch_collection (forward ops collectors) assigner emit_clock stats_clock.

(** [ChainedTwoInputOperator.process_element], as [TwoInputProcessor] calls it. *)
Definition chained_two_input (ops : list (op K V)) (collectors : list (rc → M W ())) (join : V → V → res V) (left_name right_name : option string) (record : rc)
    : M (join_state K V * (chain_st ops * W)) () :=
  process (two_input_process join left_name right_name) (forward ops collectors) record.
End chained.

(** An operator of a chain: its class, its type and [finish]. *)
Record member (W : Type) := mkMember { m_class : string; m_type : OperatorType; m_finish : M W () }.
Arguments mkMember {W} _ _ _.
Arguments m_class {W} _.
Arguments m_type {W} _.
Arguments m_finish {W} _.

(** [ChainedOperator.finish] and [operator_type]. *)
Definition chained_finish {W} (members : list (member W)) : M W () := for_each members m_finish.
Definition chained_type {W} (members : list (member W)) : res OperatorType := m ← from_option_exn IndexError (head members); Ok (m_type m).

(** [get_description]: every name is followed by an arrow, the last of which is cut off. *)
Definition removesuffix (suffix s : string) : string :=
  let n := String.length s - String.length suffix in
  if bool_decide (String.substring n (String.length suffix) s = suffix) && bool_decide (String.length suffix <= String.length s) then String.substring 0 n s else s.
Definition get_description {W} (cls : string) (members : list (member W)) : string :=
  removesuffix "->" (fold_left (λ d m, d +:+ m_class m +:+ "->") members (cls +:+ "(")) +:+ ")".

(** ** Lemmas *)

Lemma for_each_forward {K V W} `{!EqDecision K} (ops : list (op K V)) (cs : list (rec K V → M W ())) xs sw :
  for_each xs (collect (forward ops cs)) sw = for_each xs (chain_process ops cs) sw.
Proof. apply for_each_ext. intros x s. apply collect_one. Qed.

Lemma removesuffix_app suffix s : removesuffix suffix (s +:+ suffix) = s.
Proof.
  unfold removesuffix. rewrite string_app_length, Nat.add_sub, substring_app_r, substring_app_l.
  by rewrite !bool_decide_eq_true_2 by (done || lia).
Qed.

Lemma description_fold {W} (ms : list (member W)) : ∀ d, ms ≠ [] →
  fold_left (λ d m, d +:+ m_class m +:+ "->") ms d = d +:+ String.concat "->" (map m_class ms) +:+ "->".
Proof.
  induction ms as [|m ms IH]; intros d Hne; [done|]. cbn [fold_left]. destruct ms as [|m' ms]; [done|].
  rewrite IH by done. cbn [map String.concat]. by rewrite !string_app_assoc.
Qed.

(** ** Properties *)

(** A fetch of a chained source sends the records of the task's chunk through the operators behind the source, in order, each
    over the whole output of the one before it, and hands what leaves the last one to the collectors; it empties the chunk. *)
Theorem chained_source {K V W} `{!EqDecision K} (ops : list (op K V)) (cs : list (rec K V → M W ())) assigner ec sc
    (vals : list V) par i src ctx rs (ss ss' : chain_st ops) outs w w' :
  ops ≠ [] → open_collection (new_collection vals) par i = Ok (src, ctx) →
  source_records assigner ec 0 (default [] (values src)) = Ok rs → pipeline ops ss rs = (ss', outs, Ok ()) →
  for_each outs (collect cs) w = (Ok (), w') →
  ∃ src' ctx', chained_fetch ops cs assigner ec sc (src, (ctx, (ss, w))) = (Ok (), (src', (ctx', (ss', w')))) ∧
    values src' = Some [] ∧ num_fetched_records ctx' = Z.of_nat (length rs) ∧ (finished ctx' = true ↔ default [] (values src) ≠ []).
Proof.
  intros Hne Hopen Hrs Hp Hw.
  destruct (collection_source_fetch (forward ops cs) assigner ec sc vals par i src ctx rs (ss, w) (ss', w') Hopen Hrs) as (src' & ctx' & E & Hv & Hn & Hf).
  { rewrite for_each_forward. by apply (chain_pipeline cs ops ss ss' rs outs). }
  exists src', ctx'. split_and!; [done|done| |done]. rewrite Hn. f_equal. clear -Hrs. revert rs Hrs. generalize 0%Z.
  induction (default [] (values src)) as [|v vs IH]; intros n rs Hrs; cbn [source_records] in Hrs; inv_res; [done|]. cbn. f_equal. by eapply IH.
Qed.

(** If an operator behind the source raises on a record, the records before it have gone through, the exception ends the fetch,
    and the chunk is kept: the source is not finished and the next fetch starts again with its first value. *)
Theorem chained_source_raises {K V W} `{!EqDecision K} (ops : list (op K V)) (cs : list (rec K V → M W ())) assigner ec sc
    (pre : list V) v post src ctx rs r (ss ss' : chain_st ops) st outs w w' e :
  ops ≠ [] → values src = Some (pre ++ v :: post) → num_fetched_records ctx = 0%Z → finished ctx = false →
  num_records ctx = Some (Z.of_nat (length (pre ++ v :: post))) →
  source_records assigner ec 0 pre = Ok rs → source_record assigner ec (Z.of_nat (length pre)) v = Ok r →
  pipeline ops ss rs = (ss', outs, Ok ()) → for_each outs (collect cs) w = (Ok (), w') → chain_process ops cs r (ss', w') = (Raise e, st) →
  ∃ ctx', chained_fetch ops cs assigner ec sc (src, (ctx, (ss, w))) = (Raise e, (src, (ctx', st))) ∧
    num_fetched_records ctx' = Z.of_nat (length pre) ∧ finished ctx' = false.
Proof.
  intros Hne Hv H0 Hfin Hnum Hrs Hr Hp Hw He. rewrite <- H0 in Hrs.
  destruct (ctx_collect_all (forward ops cs) assigner ec sc pre ctx (ss, w) (ss', w') rs Hrs) as (ctx' & E & Hn & Hf & Hfin').
  { rewrite for_each_forward. by apply (chain_pipeline cs ops ss ss' rs outs). }
  exists ctx'. split_and!; [|rewrite Hf; lia|].
  - unfold chained_fetch, fetch_collection. rewrite Hv, for_each_app. unfold mbind, M_bind. rewrite E. cbn [for_each]. unfold mbind, M_bind, ctx_collect at 1.
    rewrite Hf, H0. cbn [Z.add]. unfold forward at 1. cbn [for_each]. unfold mbind, M_bind, liftR. by rewrite Z.add_0_l, Hr, He.
  - apply not_true_is_false. intros [Ef|(n & Hn' & Hlt)]%Hfin'; [congruence|]. rewrite Hnum in Hn'. injection Hn' as <-.
    rewrite length_app in Hlt. cbn in Hlt. lia.
Qed.

(** A chained join is the join followed by the operators behind it: the pairs it emits over a whole run go through them in order. *)
Theorem chained_join {K V W} `{!EqDecision K} (ops : list (op K V)) (cs : list (rec K V → M W ())) join ln rn
    xs (s s' : join_state K V) ys (ss ss' : chain_st ops) outs w w' :
  ops ≠ [] → run_op (two_input_process join ln rn) s xs = (s', ys, Ok ()) → pipeline ops ss ys = (ss', outs, Ok ()) →
  for_each outs (collect cs) w = (Ok (), w') →
  for_each xs (chained_two_input ops cs join ln rn) (s, (ss, w)) = (Ok (), (s', (ss', w'))).
Proof.
  intros Hne Hj Hp Hw. eapply for_each_process; [exact Hj|]. rewrite for_each_forward. by apply (chain_pipeline cs ops ss ss' ys outs).
Qed.

(** The description of a chain lists the classes of its operators, from head to tail. *)
Theorem description_lists {W} cls (ms : list (member W)) : ms ≠ [] →
  get_description cls ms = cls +:+ "(" +:+ String.concat "->" (map m_class ms) +:+ ")".
Proof.
  intros Hne. unfold get_description. rewrite description_fold by done. rewrite <- (string_app_assoc (cls +:+ "(")), removesuffix_app.
  by rewrite !string_app_assoc.
Qed.
