(* ===== verification/Callables.v ===== *)
(** * User functions
    ([volga/streaming/api/function/function.py], the coercions of
     [volga/streaming/api/stream/data_stream.py] and [StreamOperator] of
     [volga/streaming/api/operators/operators.py])

    The abstract classes of functions are type classes: what an operator calls on the function
    it was given.  A stream method takes an object of such a class or a plain callable, which
    it wraps; a function with a collector and one that yields its values become the same
    operator.  A user's function may keep state [W] and raise. *)

From S2P Require Import Prelude PyDict PyDecimal Message Operators.

(** ** The interfaces *)

(** [Function]: the hooks an operator calls around a run. *)
Class Function (F W : Type) := { fn_open : F → M W (); fn_close : F → M W () }.
Class MapFunction (F V W : Type) := fn_map : F → V → M W V.
Class FlatMapFunction (F V W : Type) := fn_flat_map : F → V → (V → M W ()) → M W ().
Class FilterFunction (F V W : Type) := fn_filter : F → V → M W bool.
Class KeyFunction (F V K W : Type) := fn_key_by : F → V → M W K.
Class ReduceFunction (F V W : Type) := fn_reduce : F → V → V → M W V.
Class JoinFunction (F V W : Type) := fn_join : F → V → V → M W V.
Class SinkFunction (F V W : Type) := fn_sink : F → V → M W ().

(** [SourceContext]: what a source function may ask of its operator; [Sp] are splits and [H] the handle of the master. *)
Class SourceContext (C V Sp H W : Type) := {
  sc_collect : C → V → M W ();
  sc_set_master_handle : C → H → M W ();
  sc_get_current_split : C → M W Sp;
  sc_poll_next_split : C → M W Sp;
}.

(** [SourceFunction]; a source that is not bounded does not override [num_records]. *)
Class SourceFunction (F C V W : Type) := {
  sf_init : F → nat → nat → M W ();
  sf_fetch : F → C → M W ();
  sf_num_records : F → M W nat;
}.
Definition unbounded_num_records {F W} (self : F) : M W nat := raise NotImplementedError.

(** [AggregateFunction] *)
Class AggregateFunction (F R A O : Type) := {
  af_create_accumulator : F → A;
  af_add : F → R → A → res A;
  af_get_result : F → A → res O;
  af_merge : F → A → A → res A;
}.

(** ** The wrappers *)

Definition EmptyFunction : Type := ().
Record SimpleMapFunction V W := mkMap { map_func : V → M W V }.
Record SimpleFilterFunction V W := mkFilter { filter_func : V → M W bool }.
Record SimpleKeyFunction V K W := mkKey { key_func : V → M W K }.
Record SimpleReduceFunction V W := mkReduce { reduce_func : V → V → M W V }.
Record SimpleJoinFunction V W := mkJoinF { join_func : V → V → M W V }.
Record SimpleSinkFunction V W := mkSinkF { sink_func : V → M W () }.
Arguments mkMap {V W}. Arguments map_func {V W}. Arguments mkFilter {V W}. Arguments filter_func {V W}.
Arguments mkKey {V K W}. Arguments key_func {V K W}. Arguments mkReduce {V W}. Arguments reduce_func {V W}.
Arguments mkJoinF {V W}. Arguments join_func {V W}. Arguments mkSinkF {V W}. Arguments sink_func {V W}.

(** [Function.open] and [Function.close], which the wrappers inherit. *)
Definition no_hooks {F W} : Function F W := {| fn_open := λ _, mret (); fn_close := λ _, mret () |}.
#[export] Instance empty_function {W} : Function EmptyFunction W := no_hooks.
#[export] Instance simple_map_base {V W} : Function (SimpleMapFunction V W) W := no_hooks.
#[export] Instance simple_filter_base {V W} : Function (SimpleFilterFunction V W) W := no_hooks.
#[export] Instance simple_key_base {V K W} : Function (SimpleKeyFunction V K W) W := no_hooks.
#[export] Instance simple_reduce_base {V W} : Function (SimpleReduceFunction V W) W := no_hooks.
#[export] Instance simple_join_base {V W} : Function (SimpleJoinFunction V W) W := no_hooks.
#[export] Instance simple_sink_base {V W} : Function (SimpleSinkFunction V W) W := no_hooks.
#[export] Instance simple_map {V W} : MapFunction (SimpleMapFunction V W) V W := map_func.
#[export] Instance simple_filter {V W} : FilterFunction (SimpleFilterFunction V W) V W := filter_func.
#[export] Instance simple_key {V K W} : KeyFunction (SimpleKeyFunction V K W) V K W := key_func.
#[export] Instance simple_reduce {V W} : ReduceFunction (SimpleReduceFunction V W) V W := reduce_func.
#[export] Instance simple_join {V W} : JoinFunction (SimpleJoinFunction V W) V W := join_func.
#[export] Instance simple_sink {V W} : SinkFunction (SimpleSinkFunction V W) V W := sink_func.

(** *** [SimpleFlatMapFunction] *)

(** What a generator does: it yields values, changing the state before each, and ends or raises. *)
Inductive generator (V W : Type) :=
| Return
| RaiseG (e : exn)
| Yield (next : W → V * W) (rest : V → generator V W).
Arguments Return {V W}. Arguments RaiseG {V W} e. Arguments Yield {V W} next rest.

(** [for elem in gen: collector.collect(elem)] *)
Fixpoint drain_generator {V W} (collect : V → M W ()) (g : generator V W) : M W () :=
  match g with
  | Return => mret ()
  | RaiseG e => raise e
  | Yield next rest => λ w, let '(v, w1) := next w in
                            match collect v w1 with
                            | (Ok _, w2) => drain_generator collect (rest v) w2
                            | (Raise e, w2) => (Raise e, w2)
                            end
  end.

(** A callable by the number of its parameters. *)
Inductive pyfunc (V W : Type) :=
| Fun0 (f : generator V W)
| Fun1 (f : V → generator V W)
| Fun2 (f : V → (V → M W ()) → M W ())
| FunMore (parameters : nat).
Arguments Fun0 {V W} f. Arguments Fun1 {V W} f. Arguments Fun2 {V W} f. Arguments FunMore {V W} parameters.

(** [len(inspect.signature(func).parameters)] *)
Definition num_parameters {V W} (f : pyfunc V W) : nat :=
  match f with Fun0 _ => 0 | Fun1 _ => 1 | Fun2 _ => 2 | FunMore n => 3 + n end.

Record SimpleFlatMapFunction V W := mkFlatMap { process_func : V → (V → M W ()) → M W () }.
Arguments mkFlatMap {V W}. Arguments process_func {V W}.

Definition new_SimpleFlatMapFunction {V W} (func : pyfunc V W) : res (SimpleFlatMapFunction V W) :=
  if decide (2 < num_parameters func) then Raise AssertionError
  else Ok (mkFlatMap (λ value collect,
         match func with
         | Fun2 f => f value collect
         | Fun1 f => drain_generator collect (f value)
         | _ => raise TypeError
         end)).
#[export] Instance simple_flat_map_base {V W} : Function (SimpleFlatMapFunction V W) W := no_hooks.
#[export] Instance simple_flat_map {V W} : FlatMapFunction (SimpleFlatMapFunction V W) V W := process_func.

(** ** What a stream method accepts *)

Section coercion.
Context {C Mt W : Type}.

(** An object given to a stream method: what a call of it does, if it is callable, and its methods with its hooks, if it is
    of the class the operator asks for. *)
Record user_object := mkObject {
  as_callable : option C;
  as_function : option (Mt * (M W () * M W ()));
}.

(** The method an operator will call and the hooks it runs when it is opened and closed. *)
Record bound_function := mkBound { bf_method : Mt; bf_open : M W (); bf_close : M W () }.

(** [if isinstance(func, Callable): func = Simple...Function(func)], then the assertion of the operator. *)
Definition coerce (wrap : C → res Mt) (func : user_object) : res bound_function :=
  match as_callable func with
  | Some c => m ← wrap c; Ok (mkBound m (mret ()) (mret ()))
  | None => match as_function func with
            | Some (m, (o, c)) => Ok (mkBound m o c)
            | None => Raise AssertionError
            end
  end.

(** [JoinStream.with_func] does the same without an assertion. *)
Definition with_func (wrap : C → res Mt) (func : user_object) : res (option bound_function) :=
  match as_callable func with
  | Some c => m ← wrap c; Ok (Some (mkBound m (mret ()) (mret ())))
  | None => Ok ((λ f, mkBound f.1 f.2.1 f.2.2) <$> as_function func)
  end.

(** ** Operators *)

(** [StreamOperator]: a join whose stream never got a function has none. *)
Record StreamOperator := mkOperator { so_func : option bound_function; so_collectors : option nat }.
Definition new_StreamOperator (func : option bound_function) : StreamOperator := mkOperator func None.

(** [open] keeps the collectors, then opens the function. *)
Definition so_open (collectors : nat) : M (StreamOperator * W) () := λ s,
  let self := mkOperator (so_func s.1) (Some collectors) in
  match so_func s.1 with
  | None => (Raise AttributeError, (self, s.2))
  | Some f => let '(r, w) := bf_open f s.2 in (r, (self, w))
  end.
Definition so_close : M (StreamOperator * W) () := λ s,
  match so_func s.1 with
  | None => (Raise AttributeError, s)
  | Some f => let '(r, w) := bf_close f s.2 in (r, (s.1, w))
  end.
Definition so_finish : M (StreamOperator * W) () := mret ().
End coercion.
Arguments user_object : clear implicits.
Arguments bound_function : clear implicits.
Arguments StreamOperator : clear implicits.

(** [FlatMapOperator.process_element]: every value is collected as a bare [Record]. *)
Definition flat_map_process {F K V W} `{FlatMapFunction F V W} (func : F) (collectors : list (rec K V → M W ())) (record : rec K V) : M W () :=
  fn_flat_map func (r_value record) (λ v, collect collectors (new_Record v None None)).

(** ** Lemmas *)

(** A generator that does not depend on the state. *)
Fixpoint pure_generator {V W} (vs : list V) (e : res ()) : generator V W :=
  match vs with
  | [] => match e with Ok _ => Return | Raise x => RaiseG x end
  | v :: vs' => Yield (λ w, (v, w)) (λ _, pure_generator vs' e)
  end.

Lemma drain_pure {V W} (c : V → M W ()) vs e w :
  drain_generator c (pure_generator vs e) w =
  match for_each vs c w with (Ok _, w') => (e, w') | (Raise x, w') => (Raise x, w') end.
Proof.
  revert w. induction vs as [|v vs IH]; intros w; cbn; [by destruct e as [[]|]|]. unfold mbind, M_bind.
  destruct (c v w) as [[[]|x] w1]; [apply IH|done].
Qed.

Lemma for_each_map {A B W} (f : A → B) (c : B → M W ()) l w : for_each (map f l) c w = for_each l (λ a, c (f a)) w.
Proof. revert w. induction l as [|a l IH]; intros w; cbn; [done|]. unfold mbind, M_bind. destruct (c (f a) w) as [[[]|] ?]; auto. Qed.

(** ** Properties *)

(** The two forms of a flat map function.  A function of one parameter that yields its values and a function of two
    that hands them to the collector make the same operator; where the values do not depend on state it is the flat
    map of the stream operators, exceptions of the function and of the collectors included.  A function of more
    parameters is refused, one without parameters is accepted and raises on the first record. *)
Theorem flat_map_forms {K V W} (f : V → generator V W) (vs : V → list V * res ()) (collectors : list (rec K V → M W ())) (record : rec K V) w :
  (∃ f1 f2, new_SimpleFlatMapFunction (Fun1 f) = Ok f1 ∧ new_SimpleFlatMapFunction (Fun2 (λ v c, drain_generator c (f v))) = Ok f2 ∧
     flat_map_process f1 collectors record w = flat_map_process f2 collectors record w) ∧
  (∃ f3, new_SimpleFlatMapFunction (Fun1 (λ v, pure_generator (vs v).1 (vs v).2)) = Ok f3 ∧
     flat_map_process f3 collectors record w =
     let '(r, (_, w')) := process (flat_map_step vs) collectors record ((), w) in (r, w')) ∧
  (∀ n, is_ok (new_SimpleFlatMapFunction (V := V) (W := W) (FunMore n)) = false) ∧
  (∀ g, ∃ f0, new_SimpleFlatMapFunction (V := V) (W := W) (Fun0 g) = Ok f0 ∧ flat_map_process f0 collectors record w = (Raise TypeError, w)).
Proof.
  split_and!.
  - by eexists _, _.
  - eexists. split; [done|]. unfold flat_map_process, fn_flat_map, simple_flat_map. cbn [process_func]. rewrite drain_pure.
    unfold process, flat_map_step. cbn [fst snd]. destruct (vs (r_value record)) as [l e]. cbn [fst snd]. rewrite for_each_map.
    by destruct (for_each l _ w) as [[[]|] w'].
  - done.
  - intros g. by eexists.
Qed.

(** What the coercion of a stream method keeps.  An object that is of the operator's class and not callable is used as it is,
    with its hooks; a callable is wrapped, and if it is also of the class, its own method and its hooks are never
    called; anything else is refused by the operator, while a join takes it and raises when it is opened. *)
Theorem coercion_cases {C Mt W : Type} (wrap : C → res Mt) (func : user_object C Mt W) :
  match as_callable func, as_function func with
  | Some c, _ => ∀ m, wrap c = Ok m → ∃ b, coerce wrap func = Ok b ∧ bf_method b = m ∧ (∀ w, bf_open b w = (Ok (), w)) ∧ ∀ w, bf_close b w = (Ok (), w)
  | None, Some (m, (o, c)) => coerce wrap func = Ok (mkBound m o c) ∧ with_func wrap func = Ok (Some (mkBound m o c))
  | None, None => coerce wrap func = Raise AssertionError ∧
      ∃ f, with_func wrap func = Ok f ∧ ∀ n w, (so_open (W := W) n (new_StreamOperator f, w)).1 = Raise AttributeError
  end.
Proof.
  unfold coerce, with_func. destruct func as [[c|] [[m [o c']]|]]; cbn.
  - intros m' ->. by eexists.
  - intros m' ->. by eexists.
  - done.
  - split; [done|]. by exists None.
Qed.
