(* ===== verification/JobGraph.v ===== *)
(** * Streams, the job graph, its builder and its optimizer
    ([volga/streaming/api/stream/*.py], [volga/streaming/api/context/streaming_context.py],
     [volga/streaming/api/job_graph/job_graph.py], [job_graph_builder.py],
     [job_graph_optimizer.py])

    A stream is the tree of its inputs; streams are created through a context
    that numbers them.  Vertex objects are identified by their id, which the
    builder keeps unique.  The optimizer's state has a ghost component [done],
    the edges whose loop round has begun. *)

From S2P Require Import Prelude PyDict Operators.

#[local] Set Warnings "-register-all".

Inductive partition_kind := PForward | PKey | PRoundRobin | PBroadcast | PSimple.
#[global] Instance partition_kind_eq_dec : EqDecision partition_kind.
Proof. solve_decision. Defined.

Inductive VertexType := VSOURCE | VPROCESS | VSINK | VUNION | VJOIN.
#[global] Instance VertexType_eq_dec : EqDecision VertexType.
Proof. solve_decision. Defined.

(** ** Streams *)

(** An operator object: a plain one with its class name and type, or a chained one. *)
Inductive operator :=
| Plain (class_name : string) (ty : OperatorType)
| Chained (ty : OperatorType) (ops : list operator).

Definition operator_type (o : operator) : OperatorType :=
  match o with Plain _ t => t | Chained t _ => t end.

Record stream_attrs := mkAttrs {
  s_id : Z;
  s_parallelism : Z;
  s_operator : operator;
  s_partition : partition_kind;
}.

Inductive stream :=
| StreamSource (a : stream_attrs)
| StreamSink (a : stream_attrs) (input_stream : stream)
| DataStream (a : stream_attrs) (input_stream : stream)
| JoinStream (a : stream_attrs) (input_stream right_stream : stream)
| UnionStream (union_streams : list stream).

(** The attributes [Stream.__init__] sets; a [UnionStream] never calls it. *)
Definition attrs (s : stream) : res stream_attrs :=
  match s with
  | StreamSource a | StreamSink a _ | DataStream a _ | JoinStream a _ _ => Ok a
  | UnionStream _ => Raise AttributeError
  end.

(** [StreamingContext]: the id counter and the registered sinks. *)
Record StreamingContext := mkContext { _id_generator : Z; stream_sinks : list stream }.
Definition new_context : StreamingContext := mkContext 0 [].

Definition generate_id : M StreamingContext Z := λ c,
  let n := (_id_generator c + 1)%Z in (Ok n, mkContext n (stream_sinks c)).

Definition add_sink (s : stream) : M StreamingContext () :=
  modS (λ c, mkContext (_id_generator c) (stream_sinks c ++ [s])).

(** [Stream.__init__] *)
Definition init_stream (op : operator) (input : option stream) (partition : option partition_kind)
    : M StreamingContext stream_attrs :=
  match input with
  | None => generate_id ≫= λ i, mret (mkAttrs i 1 op (default PForward partition))
  | Some s =>
      liftR (attrs s) ≫= λ a,
      generate_id ≫= λ i, mret (mkAttrs i (s_parallelism a) op (default PForward partition))
  end.

Definition source : M StreamingContext stream :=
  init_stream (Plain "SourceOperator" SOURCE) None None ≫= λ a, mret (StreamSource a).
(** [map], [flat_map], [filter], [reduce], [multi_window_agg] *)
Definition data_stream (class_name : string) (s : stream) : M StreamingContext stream :=
  init_stream (Plain class_name ONE_INPUT) (Some s) None ≫= λ a, mret (DataStream a s).
Definition key_by (s : stream) : M StreamingContext stream :=
  init_stream (Plain "KeyByOperator" ONE_INPUT) (Some s) (Some PKey) ≫= λ a, mret (DataStream a s).
Definition join (l r : stream) : M StreamingContext stream :=
  init_stream (Plain "JoinOperator" TWO_INPUT) (Some l) None ≫= λ a, mret (JoinStream a l r).
Definition sink (s : stream) : M StreamingContext stream :=
  init_stream (Plain "SinkOperator" ONE_INPUT) (Some s) None ≫= λ a,
  add_sink (StreamSink a s) ≫= λ _, mret (StreamSink a s).

(** ** The job graph *)

Record JobEdge := mkEdge {
  source_vertex_id : Z;
  target_vertex_id : Z;
  partition : partition_kind;
  source_operator_id : Z;
  target_operator_id : Z;
  is_join_right_edge : bool;
}.
#[global] Instance JobEdge_eq_dec : EqDecision JobEdge.
Proof. solve_decision. Defined.

(** [JobEdge(source, target, partition)]: the operator ids default to the vertex ids. *)
Definition new_edge (src tgt : Z) (p : partition_kind) : JobEdge := mkEdge src tgt p src tgt false.

Record JobVertex := mkVertex {
  vertex_id : Z;
  parallelism : Z;
  vertex_type : VertexType;
  stream_operator : operator;
}.

Record JobGraph := mkGraph { job_vertices : list JobVertex; job_edges : list JobEdge }.
Definition empty_graph : JobGraph := mkGraph [] [].

Definition add_vertex_if_not_exists (g : JobGraph) (v : JobVertex) : JobGraph :=
  if decide (vertex_id v ∈ map vertex_id (job_vertices g)) then g
  else mkGraph (job_vertices g ++ [v]) (job_edges g).

Definition edge_ends (e : JobEdge) : Z * Z := (source_vertex_id e, target_vertex_id e).

Definition add_edge_if_not_exists (g : JobGraph) (e : JobEdge) : JobGraph :=
  if decide (edge_ends e ∈ map edge_ends (job_edges g)) then g
  else mkGraph (job_vertices g) (job_edges g ++ [e]).

Definition get_vertex_output_edges (g : JobGraph) (v : Z) : list JobEdge :=
  filter (λ e, source_vertex_id e = v) (job_edges g).
Definition get_vertex_input_edges (g : JobGraph) (v : Z) : list JobEdge :=
  filter (λ e, target_vertex_id e = v) (job_edges g).
Definition get_source_vertices (g : JobGraph) : list JobVertex :=
  filter (λ v, vertex_type v = VSOURCE) (job_vertices g).

(** [max(self.job_vertices, key=parallelism).parallelism] *)
Definition get_max_parallelism (g : JobGraph) : res Z :=
  match job_vertices g with
  | [] => Raise (ValueError "max() arg is an empty sequence")
  | v :: vs => Ok (foldl (λ m v, Z.max m (parallelism v)) (parallelism v) vs)
  end.

(** ** [JobGraphBuilder] *)

Definition add_edge (e : JobEdge) : M JobGraph () := modS (λ g, add_edge_if_not_exists g e).
Definition add_vertex (a : stream_attrs) (t : VertexType) : M JobGraph () :=
  modS (λ g, add_vertex_if_not_exists g (mkVertex (s_id a) (s_parallelism a) t (s_operator a))).

(** The edge from a stream's parent. *)
Definition parent_edge (a : stream_attrs) (parent : stream) : M JobGraph () :=
  liftR (attrs parent) ≫= λ pa, add_edge (new_edge (s_id pa) (s_id a) (s_partition pa)).

Definition right_edge (a : stream_attrs) (right : stream) : M JobGraph () :=
  liftR (attrs right) ≫= λ ra,
  add_edge (mkEdge (s_id ra) (s_id a) (s_partition ra) (s_id ra) (s_id a) true).

(** Reading [stream.id] of a [UnionStream] raises, so the union branch is never reached. *)
Fixpoint _process_stream (s : stream) : M JobGraph () :=
  match s with
  | UnionStream _ => raise AttributeError
  | StreamSource a => add_vertex a VSOURCE
  | StreamSink a parent =>
      parent_edge a parent ≫= λ _, _process_stream parent ≫= λ _, add_vertex a VSINK
  | DataStream a parent =>
      parent_edge a parent ≫= λ _, _process_stream parent ≫= λ _, add_vertex a VPROCESS
  | JoinStream a parent right_stream =>
      parent_edge a parent ≫= λ _, _process_stream parent ≫= λ _,
      right_edge a right_stream ≫= λ _, _process_stream right_stream ≫= λ _, add_vertex a VJOIN
  end.

Definition build (sinks : list stream) : res () * JobGraph :=
  for_each sinks _process_stream empty_graph.

(** ** [JobGraphOptimizer] *)

Record opt_state := mkOpt {
  _visited : list Z;
  _chain_set : dict Z (list JobVertex);
  _tail_edges_map : dict Z (list JobEdge);
  done : list JobEdge;
}.
Definition new_opt : opt_state := mkOpt [] [] [] [].

Section optimizer.
Context (g : JobGraph).

Definition _vertex_map : dict Z JobVertex := dict_of (map (λ v, (vertex_id v, v)) (job_vertices g)).

Definition add_vertex_to_chain_set (root_id : Z) (v : JobVertex) (st : opt_state) : opt_state :=
  mkOpt (_visited st)
    (dset (_chain_set st) root_id (default [] (dget (_chain_set st) root_id) ++ [v]))
    (_tail_edges_map st) (done st).

Definition add_tail_edge (head_vertex_id : Z) (e : JobEdge) (src_op tgt_op : Z) (st : opt_state)
    : opt_state :=
  let new_edge := mkEdge (source_vertex_id e) (target_vertex_id e) (partition e) src_op tgt_op
                    (is_join_right_edge e) in
  mkOpt (_visited st) (_chain_set st)
    (dset (_tail_edges_map st) head_vertex_id
       (default [] (dget (_tail_edges_map st) head_vertex_id) ++ [new_edge])) (done st).

Definition add_visited (t : Z) (st : opt_state) : opt_state :=
  mkOpt (t :: _visited st) (_chain_set st) (_tail_edges_map st) (done st).
Definition begin_edge (e : JobEdge) (st : opt_state) : opt_state :=
  mkOpt (_visited st) (_chain_set st) (_tail_edges_map st) (done st ++ [e]).

Definition can_chain (src tgt : JobVertex) (e : JobEdge) : bool :=
  if decide (parallelism src ≠ parallelism tgt) then false
  else if decide (1 < length (get_vertex_input_edges g (vertex_id tgt)) ∨
                  1 < length (get_vertex_output_edges g (vertex_id src))) then false
  else bool_decide (partition e = PForward).

(** [divide_vertices]; [None] when the recursion is deeper than the fuel.  The loop over
    the output edges is the inner [fix]. *)
Fixpoint divide_vertices (fuel : nat) (head_vertex_id : Z) (src_vertex : JobVertex) (st : opt_state)
    : option (res opt_state) :=
  match fuel with
  | O => None
  | S fuel' =>
      (fix loop (output_edges : list JobEdge) (st : opt_state) : option (res opt_state) :=
         match output_edges with
         | [] => Some (Ok st)
         | e :: rest =>
             let st := begin_edge e st in
             let target_id := target_vertex_id e in
             match dget _vertex_map target_id with
             | None => Some (Raise KeyError)
             | Some target_vertex =>
                 match
                   (if can_chain src_vertex target_vertex e then
                      divide_vertices fuel' head_vertex_id target_vertex
                        (add_vertex_to_chain_set head_vertex_id target_vertex st)
                    else
                      let st := add_tail_edge head_vertex_id e (vertex_id src_vertex)
                                  (target_operator_id e) st in
                      if decide (target_id ∈ _visited st) then Some (Ok st)
                      else divide_vertices fuel' target_id target_vertex
                             (add_vertex_to_chain_set target_id target_vertex (add_visited target_id st)))
                 with
                 | Some (Ok st) => loop rest st
                 | other => other
                 end
             end
         end) (get_vertex_output_edges g (vertex_id src_vertex)) st
  end.

(** Every nested call places one more vertex, so the number of vertices bounds the depth. *)
Definition opt_fuel : nat := S (length (job_vertices g)).

Fixpoint divide_sources (sources : list JobVertex) (st : opt_state) : option (res opt_state) :=
  match sources with
  | [] => Some (Ok st)
  | s :: rest =>
      match divide_vertices opt_fuel (vertex_id s) s (add_vertex_to_chain_set (vertex_id s) s st) with
      | Some (Ok st) => divide_sources rest st
      | other => other
      end
  end.

Definition merge_vertices (st : opt_state) : res (list JobVertex) :=
  mapR (λ hc : Z * list JobVertex,
    head_vertex ← from_option_exn IndexError (head hc.2);
    if decide (length hc.2 = 1) then Ok head_vertex else
    operators ← mapR (λ v, w ← dgetitem _vertex_map (vertex_id v); Ok (stream_operator w)) hc.2;
    ty ← new_chained_operator (map operator_type operators);
    Ok (mkVertex (vertex_id head_vertex) (parallelism head_vertex) (vertex_type head_vertex)
          (Chained ty operators))) (_chain_set st).

Definition _change_partition (p : partition_kind) : partition_kind :=
  if decide (p = PForward) then PRoundRobin else p.

Definition right_le (a b : bool) : Prop := a = true → b = true.
#[global] Instance right_le_dec : RelDecision right_le.
Proof. intros [] []; [left|right|left|left]; unfold right_le; naive_solver. Defined.

Definition reset_edges (st : opt_state) : list JobEdge :=
  stable_sort is_join_right_edge right_le
    (concat (map (λ he : Z * list JobEdge,
       map (λ e, mkEdge he.1 (target_vertex_id e) (_change_partition (partition e))
                   (source_operator_id e) (target_operator_id e) (is_join_right_edge e)) he.2)
       (_tail_edges_map st))).

Definition optimize : option (res JobGraph) :=
  match divide_sources (get_source_vertices g) new_opt with
  | None => None
  | Some (Raise e) => Some (Raise e)
  | Some (Ok st) => Some (vs ← merge_vertices st; Ok (mkGraph vs (reset_edges st)))
  end.
End optimizer.

#[global] Instance right_le_trans : Transitive right_le.
Proof. intros a b c. unfold right_le. auto. Qed.
#[global] Instance right_le_total : Total right_le.
Proof. intros [] []; unfold right_le; auto. Qed.

(** ** Streams made through the API *)

Definition inputs (s : stream) : list stream :=
  match s with
  | StreamSource _ => []
  | StreamSink _ i | DataStream _ i => [i]
  | JoinStream _ l r => [l; r]
  | UnionStream ss => ss
  end.

Definition sid (s : stream) : Z := match attrs s with Ok a => s_id a | Raise _ => 0 end.

Definition is_source (s : stream) : Prop := match s with StreamSource _ => True | _ => False end.

(** The user's program: a sequence of API calls on streams created before.  [p] is the
    parallelism set on the new stream, if any. *)
Definition with_parallelism (p : option Z) (s : stream) : stream :=
  match p with
  | None => s
  | Some n =>
      let f a := mkAttrs (s_id a) n (s_operator a) (s_partition a) in
      match s with
      | StreamSource a => StreamSource (f a)
      | StreamSink a i => StreamSink (f a) i
      | DataStream a i => DataStream (f a) i
      | JoinStream a l r => JoinStream (f a) l r
      | UnionStream ss => UnionStream ss
      end
  end.

Inductive api_step : StreamingContext * list stream → StreamingContext * list stream → Prop :=
| ApiSource c c' S s p : source c = (Ok s, c') → api_step (c, S) (c', with_parallelism p s :: S)
| ApiData c c' S i s p name : i ∈ S → data_stream name i c = (Ok s, c') →
    api_step (c, S) (c', with_parallelism p s :: S)
| ApiKeyBy c c' S i s p : i ∈ S → key_by i c = (Ok s, c') → api_step (c, S) (c', with_parallelism p s :: S)
| ApiJoin c c' S l r s p : l ∈ S → r ∈ S → join l r c = (Ok s, c') →
    api_step (c, S) (c', with_parallelism p s :: S)
| ApiSink c c' S i s : i ∈ S → sink i c = (Ok s, c') → api_step (c, S) (c', s :: S).

Definition api_reachable : StreamingContext * list stream → Prop :=
  rtc api_step (new_context, []).

(** A set of streams closed under inputs, numbered upwards, with one stream per id. *)
Record streams_ok (S : list stream) : Prop := {
  so_attrs : ∀ s, s ∈ S → is_ok (attrs s) = true;
  so_inputs : ∀ s i, s ∈ S → i ∈ inputs s → i ∈ S ∧ (sid i < sid s)%Z;
  so_unique : ∀ s1 s2, s1 ∈ S → s2 ∈ S → sid s1 = sid s2 → s1 = s2;
}.

Definition context_ok (cs : StreamingContext * list stream) : Prop :=
  streams_ok cs.2 ∧ (∀ s, s ∈ cs.2 → sid s ≤ _id_generator cs.1)%Z ∧
  (∀ s, s ∈ stream_sinks cs.1 → s ∈ cs.2).

Lemma streams_ok_cons S s :
  streams_ok S → is_ok (attrs s) = true → (∀ i, i ∈ inputs s → i ∈ S) →
  (∀ x, x ∈ S → sid x < sid s)%Z → streams_ok (s :: S).
Proof.
  intros [Ha Hi Hu] Hs Hin Hlt. split.
  - intros x [->|Hx]%elem_of_cons; auto.
  - intros x i [->|Hx]%elem_of_cons Hxi.
    + apply Hin in Hxi. split; [set_solver|auto].
    + destruct (Hi x i Hx Hxi). split; [set_solver|done].
  - intros s1 s2 [->|H1]%elem_of_cons [->|H2]%elem_of_cons E; [done|..].
    + apply Hlt in H2. lia.
    + apply Hlt in H1. lia.
    + auto.
Qed.

Lemma init_stream_ok op input p c a c' :
  init_stream op input p c = (Ok a, c') →
  s_id a = (_id_generator c + 1)%Z ∧ _id_generator c' = (_id_generator c + 1)%Z ∧ stream_sinks c' = stream_sinks c.
Proof.
  unfold init_stream, generate_id, liftR, mbind, M_bind, mret, M_ret.
  destruct input as [i|]; [destruct (attrs i); [|done]|]; intros E; by simplify_eq/=.
Qed.

Lemma with_parallelism_attrs p s : is_ok (attrs (with_parallelism p s)) = is_ok (attrs s).
Proof. by destruct p, s. Qed.
Lemma with_parallelism_sid p s : sid (with_parallelism p s) = sid s.
Proof. by destruct p, s. Qed.
Lemma with_parallelism_inputs p s : inputs (with_parallelism p s) = inputs s.
Proof. by destruct p, s. Qed.

(** A new stream whose id is the next number extends the context. *)
Lemma context_ok_new c c' S s :
  context_ok (c, S) → is_ok (attrs s) = true → (∀ i, i ∈ inputs s → i ∈ S) →
  sid s = (_id_generator c + 1)%Z → _id_generator c' = (_id_generator c + 1)%Z →
  (stream_sinks c' = stream_sinks c ∨ stream_sinks c' = stream_sinks c ++ [s]) →
  context_ok (c', s :: S).
Proof.
  intros (Hok & Hle & Hs) Ha Hi Hid Hg Hk. simpl in *. split_and!; simpl.
  - apply streams_ok_cons; [done|done|done|]. intros x Hx. specialize (Hle x Hx). lia.
  - intros x [->|Hx]%elem_of_cons; [lia|]. specialize (Hle x Hx). lia.
  - intros x Hx. destruct Hk as [Hk|Hk]; rewrite Hk in Hx; [right; auto|].
    apply elem_of_app in Hx as [Hx| ->%list_elem_of_singleton]; [right; auto|left].
Qed.

Lemma api_step_ok cs cs' : context_ok cs → api_step cs cs' → context_ok cs'.
Proof.
  intros Hok Hst. destruct Hst as [c c' S s p E|c c' S i s p name Hi E|c c' S i s p Hi E|c c' S l r s p Hl Hr E|c c' S i s Hi E];
    unfold source, data_stream, key_by, join, sink, add_sink, modS, mbind, M_bind, mret, M_ret in E;
    (match type of E with (let (_, _) := ?x in _) = _ => destruct x as [[a|] c1] eqn:E1; [|done] end);
    apply init_stream_ok in E1 as (Hid & Hg & Hk); simplify_eq/=;
    (eapply context_ok_new; [exact Hok|rewrite ?with_parallelism_attrs; done|
      rewrite ?with_parallelism_inputs; simpl; set_solver|
      rewrite ?with_parallelism_sid; exact Hid|simpl; congruence|simpl; rewrite Hk; auto]).
Qed.

Lemma api_reachable_ok cs : api_reachable cs → context_ok cs.
Proof.
  unfold api_reachable. intros H.
  assert (context_ok (new_context, [])) as H0 by (split_and!; [split|..]; set_solver).
  revert H0. induction H as [x|x y z Hxy Hyz IH]; intros Hx; [done|]. by apply IH, (api_step_ok x).
Qed.

(** ** What the builder builds *)

Definition ids (g : JobGraph) : list Z := map vertex_id (job_vertices g).

Record graph_ok (g : JobGraph) : Prop := {
  go_vertices : NoDup (ids g);
  go_edges : NoDup (map edge_ends (job_edges g));
  go_closed : ∀ e, e ∈ job_edges g → source_vertex_id e ∈ ids g ∧ target_vertex_id e ∈ ids g;
  go_incr : ∀ e, e ∈ job_edges g → (source_vertex_id e < target_vertex_id e)%Z;
  go_source : ∀ v, v ∈ job_vertices g →
    (vertex_type v = VSOURCE ↔ ∀ e, e ∈ job_edges g → target_vertex_id e ≠ vertex_id v);
}.

Section builder.
Context (Strs : list stream) (HS : streams_ok Strs).

(** The invariant while some vertices of [X] are still to be added. *)
Record build_inv (X : list Z) (g : JobGraph) : Prop := {
  bi_vertices : NoDup (ids g);
  bi_edges : NoDup (map edge_ends (job_edges g));
  bi_closed : ∀ e, e ∈ job_edges g →
    source_vertex_id e ∈ ids g ++ X ∧ target_vertex_id e ∈ ids g ++ X;
  bi_edge_of : ∀ e, e ∈ job_edges g →
    ∃ s i, s ∈ Strs ∧ i ∈ inputs s ∧ target_vertex_id e = sid s ∧ source_vertex_id e = sid i;
  bi_vertex_of : ∀ v, v ∈ job_vertices g → ∃ s, s ∈ Strs ∧ vertex_id v = sid s ∧
    (vertex_type v = VSOURCE ↔ is_source s) ∧
    (¬ is_source s → ∃ e, e ∈ job_edges g ∧ target_vertex_id e = sid s);
}.

Definition grows (g g' : JobGraph) : Prop := ids g ⊆ ids g' ∧ job_edges g ⊆ job_edges g'.

Lemma build_inv_weaken x X g : build_inv (x :: X) g → x ∈ ids g → build_inv X g.
Proof.
  intros [Hv He Hc Hof Hvof] Hx. split; try done. intros e Hin. specialize (Hc e Hin). set_solver.
Qed.

Lemma add_edge_inv X g s i e :
  build_inv X g → s ∈ Strs → i ∈ inputs s → target_vertex_id e = sid s → source_vertex_id e = sid i →
  let g' := add_edge_if_not_exists g e in
  build_inv (sid i :: sid s :: X) g' ∧ grows g g' ∧
  (∃ e', e' ∈ job_edges g' ∧ target_vertex_id e' = sid s).
Proof.
  intros [Hv He Hc Hof Hvof] Hs Hi Ht Hsrc. cbn zeta. unfold add_edge_if_not_exists.
  case_decide as Hd.
  - split; [|split].
    + split; try done. intros e0 H0. specialize (Hc e0 H0). set_solver.
    + split; set_solver.
    + apply list_elem_of_fmap in Hd as (e' & Ee & Hin). exists e'. split; [done|].
      unfold edge_ends in Ee. congruence.
  - split; [|split].
    + split; simpl.
      * done.
      * rewrite map_app. apply NoDup_app. split_and!; [done| |apply NoDup_singleton].
        intros x Hx Hx'%list_elem_of_singleton. congruence.
      * intros e0 [H0| ->%list_elem_of_singleton]%elem_of_app; [specialize (Hc e0 H0)|rewrite Ht, Hsrc]; set_solver.
      * intros e0 [H0| ->%list_elem_of_singleton]%elem_of_app; [auto|eauto 10].
      * intros v Hin. destruct (Hvof v Hin) as (s0 & ? & ? & ? & Hex). exists s0. split_and!; try done.
        intros Hns. destruct (Hex Hns) as (e0 & ? & ?). exists e0. set_solver.
    + split; simpl; set_solver.
    + exists e. simpl. set_solver.
Qed.

Lemma add_vertex_inv X g s a t :
  build_inv (sid s :: X) g → s ∈ Strs → attrs s = Ok a → (t = VSOURCE ↔ is_source s) →
  (¬ is_source s → ∃ e, e ∈ job_edges g ∧ target_vertex_id e = sid s) →
  let g' := add_vertex_if_not_exists g (mkVertex (s_id a) (s_parallelism a) t (s_operator a)) in
  build_inv X g' ∧ grows g g' ∧ sid s ∈ ids g'.
Proof.
  intros Hinv Hs Ha Ht Hns. cbn zeta. unfold add_vertex_if_not_exists.
  assert (s_id a = sid s) as Hsid by (unfold sid; by rewrite Ha). cbn [vertex_id]. rewrite Hsid.
  case_decide as Hd.
  - split; [by eapply build_inv_weaken|]. split; [split; set_solver|done].
  - destruct Hinv as [Hv He Hc Hof Hvof]. unfold ids in *. split; [|split].
    + split; simpl; unfold ids in *; simpl; rewrite ?map_app; simpl.
      * apply NoDup_app. split_and!; [done|set_solver|apply NoDup_singleton].
      * done.
      * intros e Hin. specialize (Hc e Hin). set_solver.
      * done.
      * intros v [Hin| ->%list_elem_of_singleton]%elem_of_app; [auto|].
        exists s. split_and!; [done|done|done|done].
    + split; simpl; unfold ids; simpl; [rewrite map_app|]; set_solver.
    + simpl. rewrite map_app. set_solver.
Qed.

Lemma grows_trans g1 g2 g3 : grows g1 g2 → grows g2 g3 → grows g1 g3.
Proof. unfold grows. set_solver. Qed.

Definition built (X : list Z) (g : JobGraph) (s : stream) (r : res () * JobGraph) : Prop :=
  r.1 = Ok () ∧ build_inv X r.2 ∧ grows g r.2 ∧ sid s ∈ ids r.2.

(** The parent's edge, then the parent. *)
Lemma process_parent X g s a i (right_flag : bool) :
  build_inv X g → s ∈ Strs → attrs s = Ok a → i ∈ inputs s →
  (∀ X g, build_inv X g → built X g i (_process_stream i g)) →
  ∃ g', ((if right_flag then right_edge a i else parent_edge a i) ≫= λ _, _process_stream i) g = (Ok (), g') ∧
    build_inv (sid s :: X) g' ∧ grows g g' ∧ (∃ e, e ∈ job_edges g' ∧ target_vertex_id e = sid s).
Proof.
  intros Hinv Hs Ha Hi IH. destruct (so_inputs Strs HS s i Hs Hi) as [HiS _].
  pose proof (so_attrs Strs HS i HiS) as Hai. destruct (attrs i) as [ai|] eqn:Eai; [|done].
  assert (s_id a = sid s) as Hsid by (unfold sid; by rewrite Ha).
  assert (s_id ai = sid i) as Hisid by (unfold sid; by rewrite Eai).
  set (e := if right_flag then mkEdge (s_id ai) (s_id a) (s_partition ai) (s_id ai) (s_id a) true
            else new_edge (s_id ai) (s_id a) (s_partition ai)).
  destruct (add_edge_inv X g s i e Hinv Hs Hi) as (H1 & Hg1 & e' & He' & Ht'); [by destruct right_flag|by destruct right_flag|].
  destruct (IH _ _ H1) as (E & H2 & Hg2 & Hin).
  destruct (_process_stream i (add_edge_if_not_exists g e)) as [r g2] eqn:Ep. simpl in *. subst r.
  exists g2. split_and!.
  - unfold mbind, M_bind, right_edge, parent_edge, add_edge, liftR, modS.
    destruct right_flag; simpl; rewrite Eai; exact Ep.
  - by eapply build_inv_weaken.
  - by eapply grows_trans.
  - exists e'. split; [|done]. by apply Hg2.
Qed.

Lemma process_ok s : s ∈ Strs → ∀ X g, build_inv X g → built X g s (_process_stream s g).
Proof.
  induction s as [a|a i IHi|a i IHi|a l IHl r IHr|ss]; intros Hs X g Hinv.
  all: pose proof (so_attrs Strs HS _ Hs) as Ha.
  - destruct (add_vertex_inv X g (StreamSource a) a VSOURCE) as (H1 & H2 & H3); try done.
    destruct Hinv as [Hv He Hc Hof Hvof]. split; try done. intros e Hin. specialize (Hc e Hin). set_solver.
  - destruct (so_inputs Strs HS _ i Hs ltac:(simpl; set_solver)) as [HiS _].
    destruct (process_parent X g (StreamSink a i) a i false Hinv Hs eq_refl ltac:(simpl; set_solver) (IHi HiS))
      as (g1 & E1 & I1 & G1 & HE1). cbn [_process_stream].
    destruct (add_vertex_inv X g1 (StreamSink a i) a VSINK) as (H1 & H2 & H3); try done.
    unfold mbind, M_bind in *. destruct (parent_edge a i g) as [[u|] g0]; [|done]. rewrite E1.
    split; [done|]. split; [exact H1|]. split; [by eapply grows_trans|exact H3].
  - destruct (so_inputs Strs HS _ i Hs ltac:(simpl; set_solver)) as [HiS _].
    destruct (process_parent X g (DataStream a i) a i false Hinv Hs eq_refl ltac:(simpl; set_solver) (IHi HiS))
      as (g1 & E1 & I1 & G1 & HE1). cbn [_process_stream].
    destruct (add_vertex_inv X g1 (DataStream a i) a VPROCESS) as (H1 & H2 & H3); try done.
    unfold mbind, M_bind in *. destruct (parent_edge a i g) as [[u|] g0]; [|done]. rewrite E1.
    split; [done|]. split; [exact H1|]. split; [by eapply grows_trans|exact H3].
  - destruct (so_inputs Strs HS _ l Hs ltac:(simpl; set_solver)) as [HlS _].
    destruct (so_inputs Strs HS _ r Hs ltac:(simpl; set_solver)) as [HrS _].
    destruct (process_parent X g (JoinStream a l r) a l false Hinv Hs eq_refl ltac:(simpl; set_solver) (IHl HlS))
      as (g1 & E1 & I1 & G1 & HE1). cbn [_process_stream].
    destruct (process_parent _ g1 (JoinStream a l r) a r true I1 Hs eq_refl ltac:(simpl; set_solver) (IHr HrS))
      as (g2 & E2 & I2 & G2 & HE2).
    assert (build_inv (sid (JoinStream a l r) :: X) g2) as I2'.
    { destruct I2 as [Hv He Hc Hof Hvof]. split; try done. intros e Hin. specialize (Hc e Hin). set_solver. }
    destruct (add_vertex_inv X g2 (JoinStream a l r) a VJOIN) as (H1 & H2 & H3); try done.
    unfold mbind, M_bind in *. destruct (parent_edge a l g) as [[u|] g0]; [|done]. rewrite E1.
    destruct (right_edge a r g1) as [[u'|] g0']; [|done]. rewrite E2.
    split; [done|]. split; [exact H1|]. split; [|exact H3].
    eapply grows_trans; [exact G1|]. by eapply grows_trans.
  - done.
Qed.

Lemma build_ok sinks : (∀ s, s ∈ sinks → s ∈ Strs) → ∀ g, build_inv [] g →
  ∃ g', for_each sinks _process_stream g = (Ok (), g') ∧ build_inv [] g' ∧ grows g g' ∧
    ∀ s, s ∈ sinks → sid s ∈ ids g'.
Proof.
  induction sinks as [|s sinks IH]; intros Hs g Hinv.
  { exists g. split_and!; [done|done|split; set_solver|set_solver]. }
  destruct (process_ok s (Hs s ltac:(set_solver)) [] g Hinv) as (E & I1 & G1 & H1).
  destruct (_process_stream s g) as [r g1] eqn:Ep. simpl in *. subst r.
  destruct (IH ltac:(set_solver) g1 I1) as (g' & E' & I2 & G2 & H2).
  exists g'. cbn [for_each]. unfold mbind, M_bind. rewrite Ep. split_and!; [done|done|by eapply grows_trans|].
  intros x [->|Hx]%elem_of_cons; [by apply G2|auto].
Qed.

Lemma build_inv_graph_ok g : build_inv [] g → graph_ok g.
Proof.
  intros [Hv He Hc Hof Hvof]. split; try done.
  - intros e Hin. specialize (Hc e Hin). by rewrite app_nil_r in Hc.
  - intros e Hin. destruct (Hof e Hin) as (s & i & Hs & Hi & -> & ->). by apply (so_inputs Strs HS s i).
  - intros v Hin. destruct (Hvof v Hin) as (s & Hs & Hid & Hty & Hex). rewrite Hty. split.
    + intros Hsrc e He' Ht. destruct (Hof e He') as (s' & i & Hs' & Hi & Ht' & _).
      assert (s' = s) as -> by (apply (so_unique Strs HS); [done|done|congruence]).
      destruct s; try done. simpl in Hi. by apply elem_of_nil in Hi.
    + intros Hno. assert ({is_source s} + {¬ is_source s}) as [?|Hns] by (destruct s; simpl; auto); [done|].
      destruct (Hex Hns) as (e & He' & Ht). exfalso. apply (Hno e He'). congruence.
Qed.
End builder.

(** ** The optimizer divides the vertices into chains *)

Section optimizer_lemmas.
Context (g : JobGraph) (Hg : graph_ok g).
Implicit Types (st : opt_state) (v : JobVertex) (e : JobEdge).

Definition placed st : list Z := concat (map (λ hc : Z * list JobVertex, map vertex_id hc.2) (_chain_set st)).

Definition link (a b : JobVertex) : Prop :=
  ∃ e, e ∈ job_edges g ∧ source_vertex_id e = vertex_id a ∧ target_vertex_id e = vertex_id b ∧
    can_chain g a b e = true.

Definition linked (l : list JobVertex) : Prop :=
  ∀ i a b, l !! i = Some a → l !! S i = Some b → link a b.

Record opt_inv st : Prop := {
  oi_done : NoDup (done st) ∧ (∀ e, e ∈ done st → e ∈ job_edges g);
  oi_placed : NoDup (placed st) ∧ (∀ x, x ∈ placed st → x ∈ ids g);
  oi_why : ∀ x, x ∈ placed st →
    (∃ v, v ∈ job_vertices g ∧ vertex_id v = x ∧ vertex_type v = VSOURCE) ∨
    ∃ e, e ∈ done st ∧ target_vertex_id e = x ∧
      (length (get_vertex_input_edges g x) ≤ 1 ∨ x ∈ _visited st);
  oi_ends : ∀ e, e ∈ done st → source_vertex_id e ∈ placed st ∧ target_vertex_id e ∈ placed st;
  oi_visited : ∀ x, x ∈ _visited st → x ∈ dkeys (_chain_set st);
  oi_chains : dict_wf (_chain_set st) ∧ ∀ h l, (h, l) ∈ _chain_set st →
    (∃ v l', l = v :: l' ∧ vertex_id v = h) ∧ linked l ∧ ∀ v, v ∈ l → v ∈ job_vertices g;
  oi_tails : ∀ h l e, (h, l) ∈ _tail_edges_map st → e ∈ l →
    h ∈ dkeys (_chain_set st) ∧ target_vertex_id e ∈ dkeys (_chain_set st);
}.

Lemma vertex_map_get x : x ∈ ids g → ∃ v, dget (_vertex_map g) x = Some v ∧ v ∈ job_vertices g ∧ vertex_id v = x.
Proof.
  unfold _vertex_map, ids. intros Hx.
  assert (dict_wf (map (λ v, (vertex_id v, v)) (job_vertices g))) as Hwf.
  { unfold dict_wf, dkeys. rewrite <- list_fmap_compose. exact (go_vertices g Hg). }
  apply list_elem_of_fmap in Hx as (v & -> & Hv). exists v. split; [|done].
  unfold dict_of. rewrite dget_dmerge by done.
  by rewrite (dget_elem_wf _ (vertex_id v) v) by (done || (apply list_elem_of_fmap; eauto)).
Qed.

Lemma concat_dset_snoc (d : dict Z (list JobVertex)) k v :
  concat (map (λ hc : Z * list JobVertex, map vertex_id hc.2) (dset d k (default [] (dget d k) ++ [v])))
  ≡ₚ vertex_id v :: concat (map (λ hc : Z * list JobVertex, map vertex_id hc.2) d).
Proof.
  induction d as [|[k0 l] d IH]; simpl; [done|]. case_decide as Hk; simpl.
  - rewrite map_app. simpl. rewrite <- (assoc_L (++)). symmetry. apply Permutation_middle.
  - rewrite IH. symmetry. apply Permutation_middle.
Qed.

Lemma placed_add root v st : placed (add_vertex_to_chain_set root v st) ≡ₚ vertex_id v :: placed st.
Proof. apply concat_dset_snoc. Qed.

Lemma keys_placed st h : opt_inv st → h ∈ dkeys (_chain_set st) → h ∈ placed st.
Proof.
  intros Hinv Hh. apply list_elem_of_fmap in Hh as ([h' l] & -> & Hin). simpl.
  destruct (proj2 (oi_chains st Hinv) h' l Hin) as ((v & l' & -> & <-) & _ & _).
  unfold placed. apply elem_of_concat. exists (map vertex_id (v :: l')). split; [simpl; set_solver|].
  apply list_elem_of_fmap. by exists (vertex_id v, v :: l').
Qed.

Lemma input_unique e e' :
  e ∈ job_edges g → e' ∈ job_edges g → target_vertex_id e = target_vertex_id e' →
  length (get_vertex_input_edges g (target_vertex_id e)) ≤ 1 → e = e'.
Proof.
  intros He He' Ht Hl. unfold get_vertex_input_edges in Hl.
  assert (e ∈ filter (λ x, target_vertex_id x = target_vertex_id e) (job_edges g)) as H1
    by by apply list_elem_of_filter.
  assert (e' ∈ filter (λ x, target_vertex_id x = target_vertex_id e) (job_edges g)) as H2
    by by apply list_elem_of_filter.
  destruct (filter _ (job_edges g)) as [|x [|]]; simpl in *; [by apply elem_of_nil in H1| |lia].
  apply list_elem_of_singleton in H1 as ->. apply list_elem_of_singleton in H2 as ->. done.
Qed.

Lemma can_chain_spec src tgt e : can_chain g src tgt e = true →
  length (get_vertex_input_edges g (vertex_id tgt)) ≤ 1 ∧
  length (get_vertex_output_edges g (vertex_id src)) ≤ 1 ∧ partition e = PForward.
Proof.
  unfold can_chain. case_decide; [done|]. case_decide as H2; [done|]. intros H3%bool_decide_eq_true.
  split_and!; [lia|lia|done].
Qed.

(** A target that is not yet visited, or that only this edge reaches, is not yet placed. *)
Lemma fresh_target st e :
  opt_inv st → e ∈ job_edges g → e ∉ done st →
  length (get_vertex_input_edges g (target_vertex_id e)) ≤ 1 ∨ target_vertex_id e ∉ _visited st →
  target_vertex_id e ∉ placed st.
Proof.
  intros Hinv He Hd Hor Hp.
  destruct (oi_why st Hinv _ Hp) as [(v & Hv & Hid & Hty)|(e' & He' & Ht & Hc)].
  - rewrite (go_source g Hg v Hv) in Hty. by apply (Hty e He).
  - pose proof (proj2 (oi_done st Hinv) e' He') as Hin.
    assert (length (get_vertex_input_edges g (target_vertex_id e)) ≤ 1) as Hl by (destruct Hc; naive_solver).
    assert (e = e') as <- by (by apply input_unique). done.
Qed.

(** A vertex placed at the end of chain [h], or as a new chain. *)
Lemma chains_add st h v :
  opt_inv st → v ∈ job_vertices g → vertex_id v ∉ placed st →
  (match dget (_chain_set st) h with
   | Some l => ∃ u, last l = Some u ∧ link u v
   | None => h = vertex_id v
   end) →
  let cs := _chain_set (add_vertex_to_chain_set h v st) in
  (dict_wf cs ∧ ∀ h l, (h, l) ∈ cs →
    (∃ v l', l = v :: l' ∧ vertex_id v = h) ∧ linked l ∧ ∀ v, v ∈ l → v ∈ job_vertices g) ∧
  (∀ x, x ∈ dkeys (_chain_set st) → x ∈ dkeys cs) ∧ h ∈ dkeys cs.
Proof.
  intros Hinv Hv Hnp Hlast. cbn zeta. destruct (oi_chains st Hinv) as [Hwf Hch]. simpl.
  assert (∀ x, x ∈ dkeys (dset (_chain_set st) h (default [] (dget (_chain_set st) h) ++ [v])) ↔
    x = h ∨ x ∈ dkeys (_chain_set st)) as Hkeys.
  { intros x. rewrite dkeys_dset. destruct (dmem h (_chain_set st)) eqn:E; [|set_solver].
    apply dmem_elem in E. set_solver. }
  split; [|split]; [|intros x ?; apply Hkeys; by right|apply Hkeys; by left].
  split; [by apply dset_wf|]. intros h' l' Hin.
  apply dget_elem_wf in Hin; [|by apply dset_wf]. rewrite dget_dset in Hin. case_decide as Hh; [|by apply Hch, dget_Some_elem].
  subst h'. injection Hin as <-. destruct (dget (_chain_set st) h) as [l|] eqn:El; simpl.
  - apply dget_Some_elem in El. destruct (Hch h l El) as ((v0 & l0 & -> & Hv0) & Hl & Hmem).
    split; [exists v0, (l0 ++ [v]); done|]. destruct Hlast as (u & Hu & Hlink). split.
    + intros i a b Ha Hb. destruct (decide (S i < length (v0 :: l0))) as [Hi|Hi].
      * rewrite lookup_app_l in Ha, Hb by lia. by apply (Hl i).
      * apply lookup_lt_Some in Hb as Hlt. rewrite length_app in Hlt. cbn [length] in Hlt, Hi.
        assert (S i = length (v0 :: l0)) as Hsi by (simpl; lia).
        rewrite lookup_app_l in Ha by (simpl; lia). rewrite lookup_app_r in Hb by lia.
        rewrite Hsi, Nat.sub_diag in Hb. simpl in Hb. simplify_eq. rewrite last_lookup in Hu.
        simpl in Hu. assert (length l0 = i) as <- by (simpl in Hsi; lia). by simplify_eq.
    + intros x [Hx| ->%list_elem_of_singleton]%elem_of_app; auto.
  - subst h. split; [by exists v, []|]. split; [|by intros x ->%list_elem_of_singleton].
    intros i a b Ha Hb. apply lookup_lt_Some in Hb. simpl in Hb. lia.
Qed.

(** The state after one loop round that places the target [tv] in chain [h]. *)
Lemma opt_inv_place st st' h tv e :
  opt_inv st → e ∈ job_edges g → e ∉ done st → source_vertex_id e ∈ placed st →
  tv ∈ job_vertices g → target_vertex_id e = vertex_id tv → vertex_id tv ∉ placed st →
  (match dget (_chain_set st) h with
   | Some l => ∃ u, last l = Some u ∧ link u tv
   | None => h = vertex_id tv
   end) →
  done st' = done st ++ [e] → _chain_set st' = _chain_set (add_vertex_to_chain_set h tv st) →
  (_visited st' = _visited st ∧ length (get_vertex_input_edges g (vertex_id tv)) ≤ 1 ∨
   _visited st' = vertex_id tv :: _visited st ∧ h = vertex_id tv) →
  (∀ h' l' e', (h', l') ∈ _tail_edges_map st' → e' ∈ l' →
     h' ∈ dkeys (_chain_set st') ∧ target_vertex_id e' ∈ dkeys (_chain_set st')) →
  opt_inv st' ∧ placed st' ≡ₚ vertex_id tv :: placed st.
Proof.
  intros Hinv He Hd Hsrc Htv Ht Hnp Hlast Ed Ec Hvis Htails.
  destruct (chains_add st h tv Hinv Htv Hnp Hlast) as (Hch & Hkeys & Hh).
  assert (placed st' ≡ₚ vertex_id tv :: placed st) as Hp.
  { unfold placed. rewrite Ec. apply placed_add. }
  split; [|done]. rewrite <- Ec in Hch, Hkeys, Hh. split.
  - rewrite Ed. destruct (oi_done st Hinv) as [Hnd Hin]. split.
    + apply NoDup_app. split_and!; [done|set_solver|apply NoDup_singleton].
    + intros x [?| ->%list_elem_of_singleton]%elem_of_app; auto.
  - destruct (oi_placed st Hinv) as [Hnd Hin]. split.
    + rewrite Hp. by constructor.
    + intros x. rewrite Hp. intros [->|?]%elem_of_cons; [|auto]. apply list_elem_of_fmap. eauto.
  - intros x. rewrite Hp. intros [->|Hx]%elem_of_cons.
    + right. exists e. rewrite Ed. split_and!; [set_solver|done|]. destruct Hvis as [[_ ?]|[-> _]]; [by left|right; left].
    + destruct (oi_why st Hinv x Hx) as [?|(e' & He' & Ht' & Hc)]; [by left|]. right. exists e'.
      rewrite Ed. split_and!; [set_solver|done|]. destruct Hc as [?|?]; [by left|right].
      destruct Hvis as [[-> _]|[-> _]]; set_solver.
  - intros x. rewrite Ed, Hp, !elem_of_cons. intros [Hx| ->%list_elem_of_singleton]%elem_of_app; [|by auto].
    destruct (oi_ends st Hinv x Hx). by auto.
  - intros x Hx. destruct Hvis as [[E _]|[E Eh]]; rewrite E in Hx; [by apply Hkeys, (oi_visited st Hinv)|].
    apply elem_of_cons in Hx as [->|Hx]; [by rewrite <- Eh|by apply Hkeys, (oi_visited st Hinv)].
  - exact Hch.
  - exact Htails.
Qed.

(** The tail edge added for [e] under head [h]. *)
Lemma tails_add st h e a b (P : Z → Prop) :
  P h → P (target_vertex_id e) →
  (∀ h' l' e', (h', l') ∈ _tail_edges_map st → e' ∈ l' → P h' ∧ P (target_vertex_id e')) →
  ∀ h' l' e', (h', l') ∈ _tail_edges_map (add_tail_edge h e a b st) → e' ∈ l' →
    P h' ∧ P (target_vertex_id e').
Proof.
  intros Hh Ht Hold h' l' e'. unfold add_tail_edge. cbn [_tail_edges_map].
  generalize (_tail_edges_map st) Hold. intros d Hd. revert Hd.
  induction d as [|[k l] d IH]; intros Hd; simpl.
  - intros [= -> ->]%list_elem_of_singleton ->%list_elem_of_singleton. done.
  - case_decide as Hk; simpl.
    + intros [[= -> ->]|Hin]%elem_of_cons He'; [|by eapply Hd; [right|]].
      apply elem_of_app in He' as [He'| ->%list_elem_of_singleton]; [|by subst].
      eapply Hd; [left|done].
    + intros [[= -> ->]|Hin]%elem_of_cons He'; [by eapply Hd; [left|]|].
      apply IH; [|done|done]. intros ?????. eapply Hd; [by right|done].
Qed.

Lemma tails_weaken st (cs : dict Z (list JobVertex)) :
  opt_inv st → (∀ x, x ∈ dkeys (_chain_set st) → x ∈ dkeys cs) →
  ∀ h' l' e', (h', l') ∈ _tail_edges_map st → e' ∈ l' →
    h' ∈ dkeys cs ∧ target_vertex_id e' ∈ dkeys cs.
Proof. intros Hinv Hk h' l' e' Hin He'. destruct (oi_tails st Hinv h' l' e' Hin He'). auto. Qed.

Lemma opt_inv_tail st h e a b :
  opt_inv st → e ∈ job_edges g → e ∉ done st → source_vertex_id e ∈ placed st →
  target_vertex_id e ∈ _visited st → h ∈ dkeys (_chain_set st) →
  opt_inv (add_tail_edge h e a b (begin_edge e st)).
Proof.
  intros Hinv He Hd Hsrc Hv Hh. pose proof (oi_visited st Hinv _ Hv) as Htk. split.
  - simpl. destruct (oi_done st Hinv) as [Hnd Hin]. split.
    + apply NoDup_app. split_and!; [done|set_solver|apply NoDup_singleton].
    + intros x [?| ->%list_elem_of_singleton]%elem_of_app; auto.
  - apply (oi_placed st Hinv).
  - intros x Hx. destruct (oi_why st Hinv x Hx) as [?|(e' & He' & Ht' & Hc)]; [by left|]. right. exists e'.
    simpl. split_and!; [set_solver|done|done].
  - simpl. intros x [Hx| ->%list_elem_of_singleton]%elem_of_app; [by apply (oi_ends st Hinv)|].
    split; [done|]. exact (keys_placed st _ Hinv Htk).
  - apply (oi_visited st Hinv).
  - apply (oi_chains st Hinv).
  - apply (tails_add (begin_edge e st) h e a b (λ x, x ∈ dkeys (_chain_set st))); [done|done|].
    by apply (tails_weaken st).
Qed.

(** The loop of [divide_vertices] as a function of its own. *)
Fixpoint divide_loop (fuel : nat) (h : Z) (src : JobVertex) (es : list JobEdge) (st : opt_state)
    : option (res opt_state) :=
  match es with
  | [] => Some (Ok st)
  | e :: rest =>
      let st := begin_edge e st in
      match dget (_vertex_map g) (target_vertex_id e) with
      | None => Some (Raise KeyError)
      | Some tv =>
          match
            (if can_chain g src tv e then
               divide_vertices g fuel h tv (add_vertex_to_chain_set h tv st)
             else
               let st := add_tail_edge h e (vertex_id src) (target_operator_id e) st in
               if decide (target_vertex_id e ∈ _visited st) then Some (Ok st)
               else divide_vertices g fuel (target_vertex_id e) tv
                      (add_vertex_to_chain_set (target_vertex_id e) tv
                         (add_visited (target_vertex_id e) st)))
          with
          | Some (Ok st) => divide_loop fuel h src rest st
          | other => other
          end
      end
  end.

Lemma divide_unfold fuel h src st :
  divide_vertices g (S fuel) h src st
  = divide_loop fuel h src (get_vertex_output_edges g (vertex_id src)) st.
Proof.
  cbn [divide_vertices]. generalize (get_vertex_output_edges g (vertex_id src)) as es.
  intros es. revert st. induction es as [|e es IH]; intros st; [done|]. cbn [divide_loop].
  destruct (dget (_vertex_map g) (target_vertex_id e)) as [tv|]; [|done].
  match goal with |- match ?a with _ => _ end = match ?b with _ => _ end =>
    change a with b; destruct b as [[st'|]|]; [apply IH|done|done] end.
Qed.

(** What a call of [divide_vertices] (or its loop over [es]) achieves from [st]. *)
Record divided (mine : JobEdge → Prop) st st' : Prop := {
  dv_inv : opt_inv st';
  dv_placed : ∀ x, x ∈ placed st → x ∈ placed st';
  dv_done : ∀ e, e ∈ done st → e ∈ done st';
  dv_mine : ∀ e, mine e → e ∈ done st';
  dv_new : ∀ x e, x ∈ placed st' → x ∉ placed st → e ∈ job_edges g → source_vertex_id e = x → e ∈ done st';
  dv_frame : ∀ e, e ∈ done st' → e ∉ done st → mine e ∨ source_vertex_id e ∉ placed st;
  dv_keys : ∀ x, x ∈ dkeys (_chain_set st) → x ∈ dkeys (_chain_set st');
  dv_fresh : ∀ x, x ∈ placed st' → x ∉ placed st → ∃ e, e ∈ job_edges g ∧ target_vertex_id e = x;
}.

Definition divide_ok (fuel : nat) : Prop := ∀ h v st l,
  opt_inv st → v ∈ job_vertices g → vertex_id v ∈ placed st →
  (∀ e, e ∈ done st → source_vertex_id e ≠ vertex_id v) →
  dget (_chain_set st) h = Some l → last l = Some v →
  length (ids g) - length (placed st) < fuel →
  ∃ st', divide_vertices g fuel h v st = Some (Ok st') ∧
    divided (λ e, e ∈ job_edges g ∧ source_vertex_id e = vertex_id v) st st'.

Lemma placed_room st x : opt_inv st → x ∈ ids g → x ∉ placed st → S (length (placed st)) ≤ length (ids g).
Proof.
  intros Hinv Hx Hnp. destruct (oi_placed st Hinv) as [Hnd Hin].
  change (S (length (placed st))) with (length (x :: placed st)).
  apply NoDup_incl_length.
  - apply NoDup_ListNoDup. by constructor.
  - intros y Hy%list_elem_of_In. apply list_elem_of_In. set_solver.
Qed.

(** One nested call: the target was just placed at the end of chain [h]. *)
Lemma nested_ok fuel st st1 h tv e :
  divide_ok fuel → opt_inv st → opt_inv st1 → placed st1 ≡ₚ vertex_id tv :: placed st →
  done st1 = done st ++ [e] → vertex_id tv ∉ placed st → source_vertex_id e ∈ placed st →
  tv ∈ job_vertices g → e ∈ job_edges g → target_vertex_id e = vertex_id tv →
  (∃ l, dget (_chain_set st1) h = Some l ∧ last l = Some tv) →
  length (ids g) - length (placed st) < S fuel →
  (∀ x, x ∈ dkeys (_chain_set st) → x ∈ dkeys (_chain_set st1)) →
  ∃ st2, divide_vertices g fuel h tv st1 = Some (Ok st2) ∧ divided (λ x, x = e) st st2.
Proof.
  intros IH Hinv Hinv1 Hp Hd Hnp Hsrc Htv He Ht (l & El & Hl) Hfuel Hk.
  assert (vertex_id tv ∈ ids g) as Hid by (apply list_elem_of_fmap; eauto).
  pose proof (placed_room st _ Hinv Hid Hnp) as Hroom.
  destruct (IH h tv st1 l Hinv1 Htv) as (st2 & E & [I2 P2 D2 M2 N2 F2 K2 T2]); [| |done|done| |].
  - rewrite Hp. set_solver.
  - intros x. rewrite Hd. intros [Hx| ->%list_elem_of_singleton]%elem_of_app Heq.
    + apply Hnp. rewrite <- Heq. by apply (oi_ends st Hinv).
    + apply Hnp. by rewrite <- Heq.
  - rewrite (Permutation_length Hp). simpl. lia.
  - exists st2. split; [exact E|]. split; [done|..].
    + intros x Hx. apply P2. rewrite Hp. set_solver.
    + intros x Hx. apply D2. rewrite Hd. set_solver.
    + intros x ->. apply D2. rewrite Hd. set_solver.
    + intros x e' Hx Hnx He' Hse. destruct (decide (x = vertex_id tv)) as [->|Hne].
      * by apply M2.
      * apply (N2 x); [done| |done|done]. rewrite Hp. set_solver.
    + intros x Hx Hnx. destruct (decide (x ∈ done st1)) as [Hx1|Hx1].
      * rewrite Hd in Hx1. left. set_solver.
      * right. destruct (F2 x Hx Hx1) as [[_ ->]|Hns]; [done|]. rewrite Hp in Hns. set_solver.
    + auto.
    + intros x Hx Hnx. destruct (decide (x = vertex_id tv)) as [->|Hne]; [by exists e|].
      apply T2; [done|]. rewrite Hp. set_solver.
Qed.

Lemma chain_last_add st h tv :
  ∃ l, dget (_chain_set (add_vertex_to_chain_set h tv st)) h = Some l ∧ last l = Some tv.
Proof. simpl. rewrite dget_dset_eq. eexists. split; [done|]. by rewrite last_snoc. Qed.

(** One round of the loop. *)
Lemma round_ok fuel h v st e tv l :
  divide_ok fuel → opt_inv st → v ∈ job_vertices g → vertex_id v ∈ placed st →
  e ∈ job_edges g → source_vertex_id e = vertex_id v → e ∉ done st → tv ∈ job_vertices g →
  target_vertex_id e = vertex_id tv → dget (_chain_set st) h = Some l →
  (length (get_vertex_output_edges g (vertex_id v)) ≤ 1 → last l = Some v) →
  length (ids g) - length (placed st) < S fuel →
  ∃ st2, (if can_chain g v tv e then
            divide_vertices g fuel h tv (add_vertex_to_chain_set h tv (begin_edge e st))
          else
            let st := add_tail_edge h e (vertex_id v) (target_operator_id e) (begin_edge e st) in
            if decide (target_vertex_id e ∈ _visited st) then Some (Ok st)
            else divide_vertices g fuel (target_vertex_id e) tv
                   (add_vertex_to_chain_set (target_vertex_id e) tv
                      (add_visited (target_vertex_id e) st))) = Some (Ok st2) ∧
    divided (λ x, x = e) st st2.
Proof.
  intros IH Hinv Hv Hvp He Hs Hd Htv Ht El Hlast Hfuel.
  assert (source_vertex_id e ∈ placed st) as Hsrc by by rewrite Hs.
  assert (h ∈ dkeys (_chain_set st)) as Hhk by (apply dget_Some_elem in El; apply list_elem_of_fmap; by exists (h, l)).
  destruct (can_chain g v tv e) eqn:Ecan.
  - destruct (can_chain_spec v tv e Ecan) as (Hin1 & Hout1 & _).
    assert (vertex_id tv ∉ placed st) as Hnp.
    { rewrite <- Ht. apply fresh_target; [done|done|done|]. left. by rewrite Ht. }
    assert (match dget (_chain_set st) h with
            | Some l => ∃ u, last l = Some u ∧ link u tv | None => h = vertex_id tv end) as Hl.
    { rewrite El. exists v. split; [auto|]. by exists e. }
    destruct (chains_add st h tv Hinv Htv Hnp Hl) as (_ & Hk & _).
    destruct (opt_inv_place st (add_vertex_to_chain_set h tv (begin_edge e st)) h tv e) as [Hinv1 Hp]; try done.
    { by left. }
    { by apply (tails_weaken st). }
    eapply (nested_ok fuel st); try done. apply (chain_last_add (begin_edge e st)).
  - cbn zeta. case_decide as Hvis.
    + change (target_vertex_id e ∈ _visited st) in Hvis. eexists. split; [reflexivity|].
      split; [by apply opt_inv_tail|done|simpl; set_solver|simpl; set_solver|..]; simpl; try done.
      intros x [Hx| ->%list_elem_of_singleton]%elem_of_app ?; [done|by left].
    + change (target_vertex_id e ∉ _visited st) in Hvis.
      assert (vertex_id tv ∉ placed st) as Hnp.
      { rewrite <- Ht. apply fresh_target; [done|done|done|]. by right. }
      assert (dget (_chain_set st) (target_vertex_id e) = None) as Hnone.
      { apply dget_None. intros Hin. apply Hnp. rewrite <- Ht. by apply keys_placed. }
      destruct (chains_add st (target_vertex_id e) tv Hinv Htv Hnp) as (_ & Hk & Htk); [by rewrite Hnone|].
      set (st1 := add_vertex_to_chain_set _ _ _).
      destruct (opt_inv_place st st1 (target_vertex_id e) tv e) as [Hinv1 Hp]; try done.
      { by rewrite Hnone. }
      { right. simpl. by rewrite Ht. }
      { apply (tails_add (begin_edge e st) h e _ _ (λ x, x ∈ dkeys (_chain_set st1)));
          [by apply Hk|done|]. by apply (tails_weaken st). }
      eapply (nested_ok fuel st); try done. apply chain_last_add.
Qed.

Lemma divided_trans e mine st st1 st2 :
  divided (λ x, x = e) st st1 → divided mine st1 st2 → divided (λ x, x = e ∨ mine x) st st2.
Proof.
  intros [I1 P1 D1 M1 N1 F1 K1 T1] [I2 P2 D2 M2 N2 F2 K2 T2]. split; auto.
  - intros x [->|Hx]; auto.
  - intros x e' Hx Hnx He' Hs. destruct (decide (x ∈ placed st1)); [apply D2; eauto|eauto].
  - intros x Hx Hnx. destruct (decide (x ∈ done st1)) as [H1|H1].
    + destruct (F1 x H1 Hnx); auto.
    + destruct (F2 x Hx H1) as [?|?]; [auto|]. right. auto.
  - intros x Hx Hnx. destruct (decide (x ∈ placed st1)); auto.
Qed.

Lemma loop_ok fuel h v es : ∀ st l,
  divide_ok fuel → opt_inv st → v ∈ job_vertices g → vertex_id v ∈ placed st →
  NoDup es → (∀ e, e ∈ es → e ∈ job_edges g ∧ source_vertex_id e = vertex_id v ∧ e ∉ done st) →
  dget (_chain_set st) h = Some l →
  (es ≠ [] → length (get_vertex_output_edges g (vertex_id v)) ≤ 1 → last l = Some v) →
  (length (get_vertex_output_edges g (vertex_id v)) ≤ 1 → length es ≤ 1) →
  length (ids g) - length (placed st) < S fuel →
  ∃ st', divide_loop fuel h v es st = Some (Ok st') ∧ divided (λ e, e ∈ es) st st'.
Proof.
  induction es as [|e es IH]; intros st l Hok Hinv Hv Hvp Hnd Hes El Hlast Hlen Hfuel.
  { exists st. split; [done|]. split; try done; set_solver. }
  apply NoDup_cons in Hnd as [Hne Hnd]. destruct (Hes e ltac:(set_solver)) as (He & Hs & Hd).
  destruct (vertex_map_get (target_vertex_id e)) as (tv & Etv & Htv & Hid); [by apply (go_closed g Hg)|].
  destruct (round_ok fuel h v st e tv l) as (st1 & E1 & Hdiv); try done; [auto|].
  cbn [divide_loop]. rewrite Etv. cbn zeta in E1 |- *. rewrite E1.
  destruct Hdiv as [I1 P1 D1 M1 N1 F1 K1 T1].
  assert (∃ l1, dget (_chain_set st1) h = Some l1) as [l1 El1].
  { destruct (dget (_chain_set st1) h) eqn:E0; [eauto|]. apply dget_None in E0. exfalso. apply E0, K1.
    apply dget_Some_elem in El. apply list_elem_of_fmap. by exists (h, l). }
  destruct (IH st1 l1) as (st2 & E2 & Hdiv2); try done.
  - auto.
  - intros x Hx. destruct (Hes x ltac:(set_solver)) as (? & Hsx & Hdx). split_and!; [done|done|].
    intros Hx1. destruct (F1 x Hx1 Hdx) as [->|Hns]; [done|]. by rewrite Hsx in Hns.
  - intros Hne' Hl1. specialize (Hlen Hl1). destruct es; [done|]. simpl in Hlen. lia.
  - intros Hl1. specialize (Hlen Hl1). simpl in Hlen. lia.
  - pose proof (proj1 (oi_placed st Hinv)) as Hnd0.
    assert (length (placed st) ≤ length (placed st1)); [|lia].
    apply NoDup_incl_length; [by apply NoDup_ListNoDup|].
    intros y Hy%list_elem_of_In. apply list_elem_of_In. auto.
  - exists st2. split; [done|]. pose proof (divided_trans e (λ x, x ∈ es) st st1 st2) as Htr.
    destruct Htr as [I P D M N F K T]; [by split|done|]. split; auto.
    + intros x Hx%elem_of_cons. auto.
    + intros x Hx Hnx. rewrite elem_of_cons. auto.
Qed.

Lemma divide_vertices_ok fuel : divide_ok fuel.
Proof.
  induction fuel as [|fuel IH]; intros h v st l Hinv Hv Hvp Hnew El Hl Hfuel; [lia|].
  rewrite divide_unfold.
  assert (NoDup (job_edges g)) as Hnde.
  { apply (NoDup_fmap_1 edge_ends). exact (go_edges g Hg). }
  destruct (loop_ok fuel h v (get_vertex_output_edges g (vertex_id v)) st l) as (st' & E & [I P D M N F K T]); try done.
  - by apply NoDup_filter.
  - intros e [Hs He]%list_elem_of_filter. split_and!; [done|done|]. intros Hd. by apply (Hnew e Hd).
  - exists st'. split; [done|]. split; try done.
    + intros e [He Hs]. apply M. by apply list_elem_of_filter.
    + intros e He Hne. destruct (F e He Hne) as [[??]%list_elem_of_filter|?]; auto.
Qed.

(** Everything placed has had its output edges processed. *)
Definition saturated st : Prop := ∀ e, e ∈ job_edges g → source_vertex_id e ∈ placed st → e ∈ done st.

Lemma opt_inv_new : opt_inv new_opt.
Proof. split; simpl; try set_solver; repeat split; try constructor; set_solver. Qed.

Lemma opt_inv_source st s :
  opt_inv st → s ∈ job_vertices g → vertex_type s = VSOURCE → vertex_id s ∉ placed st →
  opt_inv (add_vertex_to_chain_set (vertex_id s) s st).
Proof.
  intros Hinv Hs Hty Hnp.
  assert (dget (_chain_set st) (vertex_id s) = None) as Hnone.
  { apply dget_None. intros Hin. apply Hnp. by apply keys_placed. }
  destruct (chains_add st (vertex_id s) s Hinv Hs Hnp) as (Hch & Hk & Hh); [by rewrite Hnone|].
  pose proof (placed_add (vertex_id s) s st) as Hp. split.
  - apply (oi_done st Hinv).
  - destruct (oi_placed st Hinv) as [Hnd Hin]. split; [rewrite Hp; by constructor|].
    intros x. rewrite Hp. intros [->|?]%elem_of_cons; [|auto]. apply list_elem_of_fmap. eauto.
  - intros x. rewrite Hp. intros [->|Hx]%elem_of_cons; [left; eauto|]. by apply (oi_why st Hinv).
  - intros e He. rewrite Hp. destruct (oi_ends st Hinv e He). set_solver.
  - intros x Hx. by apply Hk, (oi_visited st Hinv).
  - exact Hch.
  - by apply (tails_weaken st).
Qed.

Lemma divide_sources_ok srcs : ∀ st,
  opt_inv st → saturated st → NoDup (map vertex_id srcs) →
  (∀ s, s ∈ srcs → s ∈ job_vertices g ∧ vertex_type s = VSOURCE ∧ vertex_id s ∉ placed st) →
  ∃ st', divide_sources g srcs st = Some (Ok st') ∧ opt_inv st' ∧ saturated st' ∧
    (∀ x, x ∈ placed st → x ∈ placed st') ∧ (∀ s, s ∈ srcs → vertex_id s ∈ placed st').
Proof.
  induction srcs as [|s srcs IH]; intros st Hinv Hsat Hnd Hsrcs.
  { exists st. split_and!; try done. set_solver. }
  cbn [map] in Hnd. apply NoDup_cons in Hnd as [Hns Hnd].
  destruct (Hsrcs s ltac:(set_solver)) as (Hs & Hty & Hnp).
  set (st1 := add_vertex_to_chain_set (vertex_id s) s st).
  pose proof (placed_add (vertex_id s) s st : placed st1 ≡ₚ _) as Hp.
  pose proof (opt_inv_source st s Hinv Hs Hty Hnp : opt_inv st1) as Hinv1.
  destruct (chain_last_add st (vertex_id s) s) as (l & El & Hl).
  destruct (divide_vertices_ok (opt_fuel g) (vertex_id s) s st1 l) as (st2 & E & [I P D M N F K T]); try done.
  - rewrite Hp. set_solver.
  - intros e He Heq. apply Hnp. rewrite <- Heq. by apply (oi_ends st Hinv).
  - unfold opt_fuel, ids. rewrite length_map. lia.
  - assert (saturated st2) as Hsat2.
    { intros e He Hse. destruct (decide (source_vertex_id e ∈ placed st1)) as [Hp1|Hp1]; [|by eapply N].
      rewrite Hp in Hp1. apply elem_of_cons in Hp1 as [Heq|Hp1]; [by apply M|]. by apply D, Hsat. }
    destruct (IH st2 I Hsat2 Hnd) as (st' & E' & I' & Hsat' & P' & S').
    { intros x Hx. destruct (Hsrcs x ltac:(set_solver)) as (Hxv & Hxt & Hxp). split_and!; [done|done|].
      intros Hx2. destruct (decide (vertex_id x ∈ placed st1)) as [Hx1|Hx1].
      - rewrite Hp in Hx1. apply elem_of_cons in Hx1 as [Heq|?]; [|done]. apply Hns. rewrite <- Heq.
        apply list_elem_of_fmap. eauto.
      - destruct (T _ Hx2 Hx1) as (e & He & Ht). rewrite (go_source g Hg x Hxv) in Hxt. by apply (Hxt e He). }
    exists st'. cbn [divide_sources]. fold st1. rewrite E. split_and!; [done|done|done|..].
    + intros x Hx. apply P', P. rewrite Hp. set_solver.
    + intros x [->|Hx]%elem_of_cons; [|auto]. apply P', P. rewrite Hp. set_solver.
Qed.

Lemma ids_bound (vs : list JobVertex) : ∃ m, ∀ v, v ∈ vs → (m ≤ vertex_id v)%Z.
Proof.
  induction vs as [|v vs [m IH]]; [exists 0%Z; set_solver|].
  exists (Z.min m (vertex_id v)). intros x [->|Hx]%elem_of_cons; [lia|]. specialize (IH x Hx). lia.
Qed.

(** Every vertex lies on a path from a source, so all are placed. *)
Lemma all_placed st :
  opt_inv st → saturated st → (∀ v, v ∈ job_vertices g → vertex_type v = VSOURCE → vertex_id v ∈ placed st) →
  placed st ≡ₚ ids g.
Proof.
  intros Hinv Hsat Hsrc. destruct (ids_bound (job_vertices g)) as [m Hpos].
  assert (∀ n v, v ∈ job_vertices g → (vertex_id v < m + Z.of_nat n)%Z → vertex_id v ∈ placed st) as Hall.
  { induction n as [|n IH]; intros v Hv Hlt; [specialize (Hpos v Hv); lia|].
    destruct (decide (vertex_type v = VSOURCE)) as [?|Hns]; [auto|].
    destruct (decide (Exists (λ e, target_vertex_id e = vertex_id v) (job_edges g))) as [Hex|Hex].
    - apply Exists_exists in Hex as (e & He & Ht). destruct (go_closed g Hg e He) as [Hse _].
      apply list_elem_of_fmap in Hse as (u & Hu & Huv). pose proof (go_incr g Hg e He).
      rewrite <- Ht. apply (oi_ends st Hinv). apply Hsat; [done|]. rewrite Hu. apply IH; [done|lia].
    - exfalso. apply Hns, (go_source g Hg v Hv). intros e He Ht. apply Hex, Exists_exists. eauto. }
  destruct (oi_placed st Hinv) as [Hnd Hin].
  apply NoDup_Permutation; [done|apply (go_vertices g Hg)|]. intros x. split; [auto|].
  intros Hx. apply list_elem_of_fmap in Hx as (v & -> & Hv). apply (Hall (S (Z.to_nat (vertex_id v - m)))); [done|].
  specialize (Hpos v Hv). lia.
Qed.

Lemma merge_vertices_ok st : opt_inv st →
  ∃ vs, merge_vertices g st = Ok vs ∧ map vertex_id vs = dkeys (_chain_set st).
Proof.
  intros Hinv. destruct (oi_chains st Hinv) as [_ Hch]. unfold merge_vertices, dkeys. revert Hch.
  induction (_chain_set st) as [|[h l] cs IH]; intros Hch; [by exists []|].
  destruct IH as (vs & E & Hm); [intros ???; apply Hch; by right|]. cbn [mapR]. rewrite E.
  destruct (Hch h l ltac:(left)) as ((v & l' & -> & Hv) & _ & Hmem). cbn [head snd from_option_exn mbind res_bind].
  case_decide as Hlen.
  - exists (v :: vs). split; [done|]. simpl. by rewrite Hv, Hm.
  - assert (∃ ops, mapR (λ v, w ← dgetitem (_vertex_map g) (vertex_id v); Ok (stream_operator w)) (v :: l') = Ok ops ∧
      length ops = length (v :: l')) as (ops & Eops & Hops).
    { revert Hmem. generalize (v :: l') as k. induction k as [|w k IHk]; intros Hk; [by exists []|].
      destruct IHk as (ops & E1 & E2); [intros; apply Hk; by right|].
      destruct (vertex_map_get (vertex_id w)) as (w' & Ew & _); [apply list_elem_of_fmap; exists w; split; [done|apply Hk; left]|].
      exists (stream_operator w' :: ops). cbn [mapR]. unfold dgetitem. rewrite Ew. cbn [from_option_exn mbind res_bind].
      unfold dgetitem in E1. rewrite E1. simpl. by rewrite E2. }
    rewrite Eops. cbn [mbind res_bind]. destruct ops as [|o ops]; [done|]. unfold new_chained_operator.
    cbn [map head from_option_exn mbind res_bind]. rewrite decide_True by (simpl in *; rewrite length_map; lia).
    cbn [mbind res_bind]. eexists. split; [done|]. simpl. by rewrite Hv, Hm.
Qed.
End optimizer_lemmas.

Lemma reset_edges_elem st e :
  e ∈ reset_edges st → ∃ h l e0, (h, l) ∈ _tail_edges_map st ∧ e0 ∈ l ∧ source_vertex_id e = h ∧
    target_vertex_id e = target_vertex_id e0 ∧ partition e = _change_partition (partition e0) ∧
    is_join_right_edge e = is_join_right_edge e0.
Proof.
  unfold reset_edges. rewrite stable_sort_perm. intros (l & He & Hl)%elem_of_concat.
  apply list_elem_of_fmap in Hl as ([h es] & -> & Hin). simpl in He.
  apply list_elem_of_fmap in He as (e0 & -> & He0). by exists h, es, e0.
Qed.

(** ** Properties *)

Lemma api_build_ok c Ss :
  api_reachable (c, Ss) →
  ∃ g, build (stream_sinks c) = (Ok (), g) ∧ graph_ok g ∧
    ∀ s, s ∈ stream_sinks c → sid s ∈ ids g.
Proof.
  intros Hr. destruct (api_reachable_ok _ Hr) as (HS & _ & Hsinks). simpl in *.
  destruct (build_ok Ss HS (stream_sinks c) Hsinks empty_graph) as (g & E & Hinv & _ & Hin).
  { split; simpl; try constructor; set_solver. }
  exists g. split; [exact E|]. split; [|done]. by eapply build_inv_graph_ok.
Qed.

Lemma optimize_ok g :
  graph_ok g →
  ∃ st g', divide_sources g (get_source_vertices g) new_opt = Some (Ok st) ∧
    optimize g = Some (Ok g') ∧
    placed st ≡ₚ ids g ∧ (∀ h l, (h, l) ∈ _chain_set st → linked g l) ∧
    ids g' = dkeys (_chain_set st) ∧
    (∀ e, e ∈ job_edges g' → source_vertex_id e ∈ ids g' ∧ target_vertex_id e ∈ ids g' ∧
       partition e ≠ PForward) ∧
    key_sorted is_join_right_edge right_le (job_edges g').
Proof.
  intros Hg.
  destruct (divide_sources_ok g Hg (get_source_vertices g) new_opt (opt_inv_new g Hg))
    as (st & E & Hinv & Hsat & _ & Hsrc).
  { intros e He Hp. by apply elem_of_nil in Hp. }
  { apply (sublist_NoDup _ (ids g)); [apply (go_vertices g Hg)|].
    apply sublist_map, sublist_filter. }
  { intros s [Hty Hs]%list_elem_of_filter. split_and!; [done|done|set_solver]. }
  destruct (merge_vertices_ok g Hg st Hinv) as (vs & Em & Hvs).
  exists st, (mkGraph vs (reset_edges st)). split_and!; [done| | | |done| |].
  - unfold optimize. by rewrite E, Em.
  - apply (all_placed g Hg); [done|done|]. intros v Hv Hty. apply Hsrc. by apply list_elem_of_filter.
  - intros h l Hin. by destruct (proj2 (oi_chains g st Hinv) h l Hin) as (_ & ? & _).
  - intros e He. apply reset_edges_elem in He as (h & l & e0 & Hin & He0 & -> & -> & -> & _).
    unfold ids. simpl. rewrite Hvs. destruct (oi_tails g st Hinv h l e0 Hin He0). split_and!; [done|done|].
    unfold _change_partition. by case_decide.
  - apply stable_sort_sorted; apply _.
Qed.

(** C16. Whatever sequence of API calls the user makes, the builder succeeds on the
    registered sinks and yields a well-formed graph: unique vertices and edges,
    every edge between vertices of the graph and pointing to a later stream,
    sources exactly the vertices without input, and every sink present. *)
Theorem build_well_formed c Ss :
  api_reachable (c, Ss) →
  ∃ g, build (stream_sinks c) = (Ok (), g) ∧ graph_ok g ∧
    ∀ s, s ∈ stream_sinks c → sid s ∈ ids g.
Proof. apply api_build_ok. Qed.


(** ** Witnesses *)

(** A word-count like job with a join: two sources, the left mapped and keyed, the
    right keyed, joined and written to a sink. *)
Definition ex_src (i : Z) : stream := StreamSource (mkAttrs i 2 (Plain "SourceOperator" SOURCE) PForward).
Definition ex_map : stream := DataStream (mkAttrs 3 2 (Plain "MapOperator" ONE_INPUT) PForward) (ex_src 1).
Definition ex_lkey : stream := DataStream (mkAttrs 4 2 (Plain "KeyByOperator" ONE_INPUT) PKey) ex_map.
Definition ex_rkey : stream := DataStream (mkAttrs 5 2 (Plain "KeyByOperator" ONE_INPUT) PKey) (ex_src 2).
Definition ex_join : stream := JoinStream (mkAttrs 6 2 (Plain "JoinOperator" TWO_INPUT) PForward) ex_lkey ex_rkey.
Definition ex_sink : stream := StreamSink (mkAttrs 7 2 (Plain "SinkOperator" ONE_INPUT) PForward) ex_join.
Definition ex_streams : list stream := [ex_sink; ex_join; ex_rkey; ex_lkey; ex_map; ex_src 2; ex_src 1].
Definition ex_context : StreamingContext := mkContext 7 [ex_sink].

Lemma ex_api_reachable : api_reachable (ex_context, ex_streams).
Proof.
  unfold api_reachable, ex_streams.
  eapply rtc_l. { eapply (ApiSource _ _ _ _ (Some 2%Z)). reflexivity. }
  eapply rtc_l. { eapply (ApiSource _ _ _ _ (Some 2%Z)). reflexivity. }
  eapply rtc_l. { eapply (ApiData _ _ _ (ex_src 1) _ None "MapOperator"); [right; left|reflexivity]. }
  eapply rtc_l. { eapply (ApiKeyBy _ _ _ ex_map _ None); [left|reflexivity]. }
  eapply rtc_l. { eapply (ApiKeyBy _ _ _ (ex_src 2) _ None); [right; right; left|reflexivity]. }
  eapply rtc_l. { eapply (ApiJoin _ _ _ ex_lkey ex_rkey _ None); [right; left|left|reflexivity]. }
  eapply rtc_l. { eapply (ApiSink _ _ _ ex_join); [left|reflexivity]. }
  apply rtc_refl.
Qed.

Lemma build_well_formed_witness :
  ∃ g, build [ex_sink] = (Ok (), g) ∧ graph_ok g ∧ ∀ s, s ∈ [ex_sink] → sid s ∈ ids g.
Proof. apply (build_well_formed ex_context ex_streams). apply ex_api_reachable. Defined.

Definition ex_graph : JobGraph := (build [ex_sink]).2.

Lemma ex_graph_ok : graph_ok ex_graph.
Proof.
  destruct (api_reachable_ok _ ex_api_reachable) as (HS & _ & Hsinks).
  destruct (build_ok ex_streams HS [ex_sink] Hsinks empty_graph) as (g & E & Hinv & _ & _).
  { split; simpl; try constructor; set_solver. }
  unfold ex_graph, build. rewrite E. by eapply build_inv_graph_ok.
Qed.


(** The chains of the example: the left source with map and key-by, the right source with
    its key-by, the join with the sink. *)
Example ex_chains :
  (st ← divide_sources ex_graph (get_source_vertices ex_graph) new_opt;
   match st with Ok st => Some (map (λ hc, (hc.1, map vertex_id hc.2)) (_chain_set st)) | _ => None end)
  = Some [(1, [1; 3; 4]); (6, [6; 7]); (2, [2; 5])]%Z.
Proof. reflexivity. Qed.

(** A keyed stream joined with itself leaves one edge into the join. *)
Example self_join_keeps_one_edge :
  let j := JoinStream (mkAttrs 6 1 (Plain "JoinOperator" TWO_INPUT) PForward) ex_lkey ex_lkey in
  length (get_vertex_input_edges (_process_stream j empty_graph).2 6) = 1.
Proof. reflexivity. Qed.
