(* ===== verification/Execution.v ===== *)
(** * The execution graph and the assignment of nodes
    ([volga/streaming/runtime/core/execution_graph/execution_graph.py],
     [volga/streaming/runtime/master/resource_manager/resource_manager.py],
     [node_assign_strategy.py])

    Execution vertices are objects shared by two indexes; the model keeps the
    objects in [execution_vertices_by_id] and the other index holds their ids.
    Edges name their end points by id, so the edge lists of a vertex are the
    matching edges in creation order.  Amounts of resources are floats, modelled as rationals; a
    configured amount is a text, which [float] turns into a number everywhere but for the memory
    proposed for an operator ([set_resources] keeps the text), so a memory is a number or a text. *)

From S2P Require Import Prelude PyDict Operators JobGraph.
From Stdlib Require Import Ascii DecimalString DecimalPos DecimalZ Lqa.

(** [f'{z}'] *)
Definition str (z : Z) : string := NilZero.string_of_int (Z.to_int z).

(** ** Resources *)

(** A memory amount as it is at run time. *)
Inductive mem := Number (q : Q) | Text (t : string).
Definition number (m : mem) : option Q := match m with Number q => Some q | Text _ => None end.

Record Resources := mkResources { num_cpus : option Q; num_gpus : option Q; memory : option mem }.

Inductive res_kind := CPU | GPU | MEM.
#[global] Instance res_kind_eq_dec : EqDecision res_kind.
Proof. solve_decision. Defined.

Definition amount (k : res_kind) (r : Resources) : option Q :=
  match k with CPU => num_cpus r | GPU => num_gpus r | MEM => memory r ≫= number end.

(** A configured amount: its text, one that [float] accepts, and the number [float] makes of it. *)
Record configured := mkConfigured { conf_text : string; conf_float : Q }.

(** [Resources.from_dict] *)
Definition from_dict (d : dict res_kind configured) : Resources :=
  mkResources (conf_float <$> dget d CPU) (conf_float <$> dget d GPU) (Number ∘ conf_float <$> dget d MEM).

(** [<=], [-] and [+] on memory amounts: a number and a text do not go together. *)
Definition mem_le (w h : mem) : res bool :=
  match w, h with
  | Number w, Number h => Ok (Qle_bool w h)
  | Text w, Text h => Ok (String.leb w h)
  | _, _ => Raise TypeError
  end.
Definition mem_sub (h w : mem) : res mem :=
  match h, w with Number h, Number w => Ok (Number (h - w)) | _, _ => Raise TypeError end.
Definition mem_add (h b : mem) : res mem :=
  match h, b with
  | Number h, Number b => Ok (Number (h + b))
  | Text h, Text b => Ok (Text (h +:+ b))
  | _, _ => Raise TypeError
  end.

(** [self.x -= allocated.x] where [allocated.x] is set *)
Definition acquire1 (have want : option Q) : res (option Q) :=
  match want with
  | None => Ok have
  | Some w => match have with None => Raise AssertionError | Some h => Ok (Some (h - w)%Q) end
  end.

Definition acquire_mem (have want : option mem) : res (option mem) :=
  match want with
  | None => Ok have
  | Some w => match have with None => Raise AssertionError | Some h => m ← mem_sub h w; Ok (Some m) end
  end.

Definition acquire_resources (self allocated : Resources) : res Resources :=
  c ← acquire1 (num_cpus self) (num_cpus allocated);
  m ← acquire_mem (memory self) (memory allocated);
  g ← acquire1 (num_gpus self) (num_gpus allocated);
  Ok (mkResources c g m).

Definition release1 (have back : option Q) : option Q :=
  match back with
  | None => have
  | Some b => match have with Some h => Some (h + b)%Q | None => Some b end
  end.

Definition release_mem (have back : option mem) : res (option mem) :=
  match back with
  | None => Ok have
  | Some b => match have with Some h => m ← mem_add h b; Ok (Some m) | None => Ok (Some b) end
  end.

Definition release_resources (self released : Resources) : res Resources :=
  m ← release_mem (memory self) (memory released);
  Ok (mkResources (release1 (num_cpus self) (num_cpus released)) (release1 (num_gpus self) (num_gpus released)) m).

Definition combine (rs : list Resources) : res Resources := foldR release_resources (mkResources None None None) rs.

(** ** The execution graph *)

Record ExecutionVertex := mkEV {
  job_vertex : JobVertex;
  execution_vertex_index : nat;
  resources : option Resources;
}.

(** [ExecutionVertex._gen_id] *)
Definition execution_vertex_id (v : ExecutionVertex) : string :=
  str (vertex_id (job_vertex v)) +:+ "_" +:+ str (Z.of_nat (execution_vertex_index v)).

Record ExecutionEdge := mkEE {
  source_execution_vertex : string;
  target_execution_vertex : string;
  ee_partition : partition_kind;
}.

(** [ExecutionEdge._gen_id], also the channel id *)
Definition edge_id (e : ExecutionEdge) : string :=
  source_execution_vertex e +:+ "-" +:+ target_execution_vertex e.

Record ExecutionGraph := mkEG {
  execution_vertices_by_id : dict string ExecutionVertex;
  execution_edges : list ExecutionEdge;
  execution_vertices_by_job_vertex : dict Z (list string);
  _max_parallelism : option Z;
}.

Definition output_edges (g : ExecutionGraph) (id : string) : list ExecutionEdge :=
  filter (λ e, source_execution_vertex e = id) (execution_edges g).
Definition input_edges (g : ExecutionGraph) (id : string) : list ExecutionEdge :=
  filter (λ e, target_execution_vertex e = id) (execution_edges g).

(** The loop body over [range(job_vertex.parallelism)]. *)
Definition add_execution_vertex (jv : JobVertex) (g : ExecutionGraph) (i : nat) : ExecutionGraph :=
  let v := mkEV jv i None in
  let id := execution_vertex_id v in
  mkEG (dset (execution_vertices_by_id g) id v) (execution_edges g)
    (dset (execution_vertices_by_job_vertex g) (vertex_id jv)
       (default [] (dget (execution_vertices_by_job_vertex g) (vertex_id jv)) ++ [id]))
    (_max_parallelism g).

Definition add_job_vertex (g : ExecutionGraph) (jv : JobVertex) : ExecutionGraph :=
  foldl (add_execution_vertex jv) g (seq 0 (Z.to_nat (parallelism jv))).

Definition edge_partition (p : partition_kind) (num_targets : nat) : partition_kind :=
  if decide (p = PForward ∧ 1 < num_targets) then PRoundRobin else p.

(** The edges made for one job edge: every source instance to every target instance. *)
Definition job_edge_edges (e : JobEdge) (srcs tgts : list string) : list ExecutionEdge :=
  concat (map (λ s, map (λ t, mkEE s t (edge_partition (partition e) (length tgts))) tgts) srcs).

Definition add_job_edge (g : ExecutionGraph) (e : JobEdge) : res ExecutionGraph :=
  srcs ← dgetitem (execution_vertices_by_job_vertex g) (source_vertex_id e);
  tgts ← (if decide (srcs = []) then Ok []
          else dgetitem (execution_vertices_by_job_vertex g) (target_vertex_id e));
  Ok (mkEG (execution_vertices_by_id g) (execution_edges g ++ job_edge_edges e srcs tgts)
        (execution_vertices_by_job_vertex g) (_max_parallelism g)).

Definition from_job_graph (jg : JobGraph) : res ExecutionGraph :=
  mp ← get_max_parallelism jg;
  let g := foldl add_job_vertex (mkEG [] [] [] (Some mp)) (job_vertices jg) in
  foldR add_job_edge g (job_edges jg).

Definition vertices_of_type (P : VertexType → bool) (g : ExecutionGraph) : list ExecutionVertex :=
  filter (λ v, P (vertex_type (job_vertex v)) = true) (dvalues (execution_vertices_by_id g)).
Definition get_source_vertices (g : ExecutionGraph) := vertices_of_type (λ t, bool_decide (t = VSOURCE)) g.
Definition get_non_source_vertices (g : ExecutionGraph) :=
  vertices_of_type (λ t, negb (bool_decide (t = VSOURCE))) g.

Definition get_max_par (g : ExecutionGraph) : res Z :=
  from_option_exn (RuntimeError "Execution graph is not inited") (_max_parallelism g).

(** [JobVertex.get_name()] *)
Definition get_name (v : JobVertex) : string :=
  str (vertex_id v) +:+ "_" +:+
  match stream_operator v with
  | Plain c _ => c
  | Chained SOURCE _ => "ChainedSourceOperator"
  | Chained ONE_INPUT _ => "ChainedOneInputOperator"
  | Chained TWO_INPUT _ => "ChainedTwoInputOperator"
  end.

Definition override {A} (o : option A) (d : dict res_kind configured) (k : res_kind) (conv : configured → A) : option A :=
  match dget d k with Some c => Some (conv c) | None => o end.

(** The resources of one vertex: the proposed CPUs and GPUs go through [float], the proposed memory
    is taken as it is. *)
Definition vertex_resources (default_worker_resources : dict res_kind configured)
    (proposed : option (dict string (dict res_kind configured))) (v : ExecutionVertex) : Resources :=
  let r := from_dict default_worker_resources in
  match proposed ≫= λ p, dget p (get_name (job_vertex v)) with
  | None => r
  | Some d => mkResources (override (num_cpus r) d CPU conf_float) (override (num_gpus r) d GPU conf_float)
                (override (memory r) d MEM (Text ∘ conf_text))
  end.

Definition set_resources (defaults : dict res_kind configured) (proposed : option (dict string (dict res_kind configured)))
    (g : ExecutionGraph) : ExecutionGraph :=
  mkEG (map (λ kv, (kv.1, mkEV (job_vertex kv.2) (execution_vertex_index kv.2)
                           (Some (vertex_resources defaults proposed kv.2)))) (execution_vertices_by_id g))
    (execution_edges g) (execution_vertices_by_job_vertex g) (_max_parallelism g).

(** ** Node assignment *)

Record Node := mkNode { node_id : string; node_resources : Resources }.

Definition enough1 (want have : option Q) : bool :=
  match want with
  | None => true
  | Some w => match have with Some h => Qle_bool w h | None => false end
  end.

Definition enough_mem (want have : option mem) : res bool :=
  match want with
  | None => Ok true
  | Some w => match have with Some h => mem_le w h | None => Ok false end
  end.

Definition _has_enough_resources (required : Resources) (n : Node) : res bool :=
  let c := enough1 (num_cpus required) (num_cpus (node_resources n)) in
  m ← enough_mem (memory required) (memory (node_resources n));
  Ok (c && m && enough1 (num_gpus required) (num_gpus (node_resources n))).

(** [Node.allocate_execution_vertex] *)
Definition allocate (v : ExecutionVertex) (n : Node) : res Node :=
  r ← from_option_exn (RuntimeError "Vertex resources is None") (resources v);
  r' ← acquire_resources (node_resources n) r;
  Ok (mkNode (node_id n) r').

(** The state of an assignment: the nodes, which operator owns a node, and the result as
    indices of nodes. *)
Record assignment := mkAssign {
  nodes : list Node;
  node_to_operator : dict string Z;
  curr_node_index : nat;
  assigned : dict string nat;
}.
Definition new_assignment (ns : list Node) : assignment := mkAssign ns [] 0 [].

(** Putting [v] on node [i]. *)
Definition place (v : ExecutionVertex) (i : nat) (s : assignment) : res assignment :=
  if dmem (execution_vertex_id v) (assigned s) then Raise AssertionError else
  n ← from_option_exn IndexError (nodes s !! i);
  n' ← allocate v n;
  Ok (mkAssign (<[i := n']> (nodes s)) (node_to_operator s) (curr_node_index s)
        (dset (assigned s) (execution_vertex_id v) i)).

(** [v.resources] *)
Definition need (v : ExecutionVertex) : res Resources := from_option_exn AttributeError (resources v).

(** [total_capacity] and [required_capacity], summed up before the vertices are placed. *)
Definition total_capacity (ns : list Node) : res Resources := combine (map node_resources ns).
Definition required_capacity (vs : list ExecutionVertex) : res Resources :=
  foldR (λ acc v, r ← need v; release_resources acc r) (mkResources None None None) vs.

(** [OperatorFirst._find_matched_node]: the first node free or owned by this operator. *)
Fixpoint find_operator_node (r : Resources) (operator_id : Z) (owner : dict string Z)
    (ns : list Node) (i : nat) : res (option (nat * Node)) :=
  match ns with
  | [] => Ok None
  | n :: ns' =>
      if match dget owner (node_id n) with None => true | Some o => bool_decide (o = operator_id) end then
        b ← _has_enough_resources r n;
        if (b : bool) then Ok (Some (i, n)) else find_operator_node r operator_id owner ns' (S i)
      else find_operator_node r operator_id owner ns' (S i)
  end.

Definition operator_first_vertex (v : ExecutionVertex) (s : assignment) : res assignment :=
  r ← need v;
  let op := vertex_id (job_vertex v) in
  found ← find_operator_node r op (node_to_operator s) (nodes s) 0;
  match found with
  | None => Raise (RuntimeError "Not enough resources")
  | Some (i, n) =>
      place v i (mkAssign (nodes s) (dset (node_to_operator s) (node_id n) op) (curr_node_index s)
                   (assigned s))
  end.

(** The vertices of one operator, in order. *)
Definition group (g : ExecutionGraph) (ids : list string) : res (list ExecutionVertex) :=
  mapR (dgetitem (execution_vertices_by_id g)) ids.

Definition operator_first (ns : list Node) (g : ExecutionGraph) : res assignment :=
  _ ← total_capacity ns;
  groups ← mapR (group g) (dvalues (execution_vertices_by_job_vertex g));
  _ ← required_capacity (concat groups);
  foldR (λ s v, operator_first_vertex v s) (new_assignment ns) (concat groups).

(** [ParallelismFirst._find_matched_node]: from the current node on, never back. *)
Fixpoint find_next_node (r : Resources) (ns : list Node) (i : nat) : res nat :=
  match ns with
  | [] => Ok i
  | n :: ns' => b ← _has_enough_resources r n; if (b : bool) then Ok i else find_next_node r ns' (S i)
  end.

Definition parallelism_first_vertex (v : ExecutionVertex) (s : assignment) : res assignment :=
  r ← from_option_exn AssertionError (resources v);
  i ← find_next_node r (drop (curr_node_index s) (nodes s)) (curr_node_index s);
  if decide (i < length (nodes s)) then
    place v i (mkAssign (nodes s) (node_to_operator s) i (assigned s))
  else Raise (RuntimeError "Not enough resources").

Definition parallelism_first (ns : list Node) (g : ExecutionGraph) : res assignment :=
  _ ← total_capacity ns;
  groups ← mapR (group g) (dvalues (execution_vertices_by_job_vertex g));
  _ ← required_capacity (concat groups);
  mp ← get_max_par g;
  foldR (λ s v, parallelism_first_vertex v s) (new_assignment ns)
    (concat (map (λ i, omap (λ grp : list ExecutionVertex, grp !! i) groups) (seq 0 (Z.to_nat mp)))).

(** An entry of [ray.nodes()]: its id, its amounts by resource name, and whether it is alive. *)
Record ray_node := mkRayNode { NodeID : string; ray_Resources : dict string Q; Alive : bool }.

(** [ResourceManager._fetch_nodes]; amounts are numbers, so [float] keeps them. *)
Definition fetched (n : ray_node) : Node :=
  mkNode (NodeID n) (mkResources (dget (ray_Resources n) "CPU") (dget (ray_Resources n) "GPU") (Number <$> dget (ray_Resources n) "memory")).
Fixpoint _fetch_nodes (all_nodes : list ray_node) : list Node :=
  match all_nodes with
  | [] => []
  | n :: ns => if Alive n then fetched n :: _fetch_nodes ns else _fetch_nodes ns
  end.
(** [ResourceManager.init] on a manager whose [nodes] are [None]. *)
Definition init_nodes (all_nodes : list ray_node) : option (list Node) := Some (_fetch_nodes all_nodes).

(** [ResourceManager.assign_resources]: the nodes are fetched by [init], the strategy is a
    parameter. *)
Inductive NodeAssignStrategy := ParallelismFirst | OperatorFirst.
Definition assign_resources (self_nodes : option (list Node)) (g : ExecutionGraph)
    (strategy : NodeAssignStrategy) : res assignment :=
  ns ← from_option_exn (RuntimeError "ResourceManager not inited") self_nodes;
  match strategy with
  | ParallelismFirst => parallelism_first ns g
  | OperatorFirst => operator_first ns g
  end.

(** ** Lemmas: identifiers *)

Fixpoint no_char (c : Ascii.ascii) (s : string) : Prop :=
  match s with EmptyString => True | String x s' => x ≠ c ∧ no_char c s' end.

Lemma no_char_app c s1 s2 : no_char c s1 → no_char c s2 → no_char c (s1 +:+ s2).
Proof. induction s1 as [|x s1 IH]; simpl; [done|]. intros [??] ?. auto. Qed.

Lemma split_unique c s1 t1 s2 t2 :
  no_char c s1 → no_char c s2 → s1 +:+ String c t1 = s2 +:+ String c t2 → s1 = s2 ∧ t1 = t2.
Proof.
  revert s2. induction s1 as [|x s1 IH]; intros [|y s2] H1 H2 E; simpl in *.
  - by simplify_eq.
  - injection E as <- _. by destruct H2.
  - injection E as -> _. by destruct H1.
  - injection E as -> E. destruct H1, H2. destruct (IH s2) as [-> ->]; auto.
Qed.

Lemma uint_no_char c d :
  (c = "_"%char ∨ c = "-"%char) → no_char c (NilEmpty.string_of_uint d).
Proof. intros Hc. induction d; simpl; [done|..]; (split; [by destruct Hc; subst|done]). Qed.

Lemma nil_zero_no_char c d : (c = "_"%char ∨ c = "-"%char) → no_char c (NilZero.string_of_uint d).
Proof.
  intros Hc. unfold NilZero.string_of_uint. destruct d; try by apply uint_no_char.
  simpl. split; [by destruct Hc; subst|done].
Qed.

Lemma str_no_underscore z : no_char "_"%char (str z).
Proof.
  unfold str. destruct (Z.to_int z); simpl; [apply nil_zero_no_char; by left|].
  split; [done|]. apply nil_zero_no_char. by left.
Qed.

Lemma str_no_dash z : (0 ≤ z)%Z → no_char "-"%char (str z).
Proof.
  intros Hz. unfold str. destruct z as [|p|p]; simpl; [split; done| |lia].
  apply nil_zero_no_char. by right.
Qed.

Lemma str_inj a b : str a = str b → a = b.
Proof.
  assert (∀ z, NilZero.int_of_string (str z) = Some (Z.to_int z)) as H.
  { intros z. unfold str. apply NilZero.isi; destruct z as [|p|p]; simpl; try done; intros [= E];
      by apply (DecimalPos.Unsigned.to_uint_nonnil p). }
  intros E. apply (f_equal NilZero.int_of_string) in E. rewrite !H in E. injection E as E.
  apply (f_equal Z.of_int) in E. by rewrite !DecimalZ.of_to in E.
Qed.

Lemma execution_vertex_id_inj v w :
  execution_vertex_id v = execution_vertex_id w →
  vertex_id (job_vertex v) = vertex_id (job_vertex w) ∧ execution_vertex_index v = execution_vertex_index w.
Proof.
  unfold execution_vertex_id. intros E.
  apply split_unique in E as [E1%str_inj E2%str_inj]; [|apply str_no_underscore..]. split; [done|lia].
Qed.

Lemma edge_id_inj (v1 w1 v2 w2 : ExecutionVertex) p1 p2 :
  (0 ≤ vertex_id (job_vertex v1))%Z → (0 ≤ vertex_id (job_vertex v2))%Z →
  edge_id (mkEE (execution_vertex_id v1) (execution_vertex_id w1) p1)
  = edge_id (mkEE (execution_vertex_id v2) (execution_vertex_id w2) p2) →
  execution_vertex_id v1 = execution_vertex_id v2 ∧ execution_vertex_id w1 = execution_vertex_id w2.
Proof.
  intros H1 H2 E. unfold edge_id in E. simpl in E.
  apply split_unique in E as [??]; [done|..]; unfold execution_vertex_id;
    (apply no_char_app; [by apply str_no_dash|split; [done|apply str_no_dash; lia]]).
Qed.

(** ** Lemmas: expansion of the job graph *)

Definition instances (jv : JobVertex) : list ExecutionVertex :=
  map (λ i, mkEV jv i None) (seq 0 (Z.to_nat (parallelism jv))).
Definition instance_ids (jv : JobVertex) : list string := map execution_vertex_id (instances jv).

Lemma add_executions jv l : ∀ g, l ≠ [] →
  let vs := map (λ i, mkEV jv i None) l in
  foldl (add_execution_vertex jv) g l =
  mkEG (foldl (λ d v, dset d (execution_vertex_id v) v) (execution_vertices_by_id g) vs)
    (execution_edges g)
    (dset (execution_vertices_by_job_vertex g) (vertex_id jv)
       (default [] (dget (execution_vertices_by_job_vertex g) (vertex_id jv)) ++ map execution_vertex_id vs))
    (_max_parallelism g).
Proof.
  induction l as [|i l IH]; intros g Hne; [done|]. cbn zeta. cbn [foldl map].
  destruct (decide (l = [])) as [->|Hl]; [done|]. rewrite IH by done. cbn zeta. simpl. f_equal.
  rewrite dget_dset_eq. simpl. rewrite dset_dset, <- (assoc_L (++)). done.
Qed.

(** The graph after the vertices [jvs]. *)
Definition expanded (jvs : list JobVertex) (mp : Z) : ExecutionGraph :=
  mkEG (map (λ v, (execution_vertex_id v, v)) (concat (map instances jvs))) []
    (map (λ jv, (vertex_id jv, instance_ids jv)) jvs) (Some mp).

Lemma foldl_dset_new (d : dict string ExecutionVertex) vs :
  NoDup (dkeys d ++ map execution_vertex_id vs) →
  foldl (λ d v, dset d (execution_vertex_id v) v) d vs = d ++ map (λ v, (execution_vertex_id v, v)) vs.
Proof.
  revert d. induction vs as [|v vs IH]; intros d Hnd; simpl; [by rewrite app_nil_r|].
  simpl in Hnd. rewrite dset_app_new.
  - rewrite IH; [by rewrite <- (assoc_L (++))|]. unfold dkeys. rewrite fmap_app. simpl.
    by rewrite <- (assoc_L (++)).
  - apply NoDup_app in Hnd as (_ & Hd & _). intros Hin. apply (Hd _ Hin). set_solver.
Qed.

Lemma instance_ids_elem id jvs :
  id ∈ map execution_vertex_id (concat (map instances jvs)) ↔
  ∃ jv i, jv ∈ jvs ∧ i < Z.to_nat (parallelism jv) ∧ id = execution_vertex_id (mkEV jv i None).
Proof.
  rewrite list_elem_of_fmap. setoid_rewrite elem_of_concat. setoid_rewrite list_elem_of_fmap. split.
  - intros (v & -> & l & Hv & jv & -> & Hjv). apply list_elem_of_fmap in Hv as (i & -> & Hi%elem_of_seq).
    exists jv, i. split_and!; [done|lia|done].
  - intros (jv & i & Hjv & Hi & ->). exists (mkEV jv i None). split; [done|]. exists (instances jv).
    split; [|eauto]. apply list_elem_of_fmap. exists i. rewrite elem_of_seq. split; [done|lia].
Qed.

Lemma all_ids_NoDup jvs : NoDup (map vertex_id jvs) →
  NoDup (map execution_vertex_id (concat (map instances jvs))).
Proof.
  induction jvs as [|jv jvs IH]; intros Hnd; [constructor|]. simpl in *. apply NoDup_cons in Hnd as [Hn Hnd].
  rewrite map_app. apply NoDup_app. split_and!; [| |by apply IH].
  - unfold instances. rewrite map_map. apply NoDup_fmap_2_strong; [|apply NoDup_seq].
    intros i j _ _ E. by apply execution_vertex_id_inj in E as [_ ?].
  - intros id Hid Hid'. apply list_elem_of_fmap in Hid as (v & -> & Hv).
    apply list_elem_of_fmap in Hv as (i & -> & _). apply instance_ids_elem in Hid' as (jv' & j & Hjv' & _ & E).
    apply execution_vertex_id_inj in E as [E _]. simpl in E. apply Hn. rewrite E. apply list_elem_of_fmap. eauto.
Qed.

Lemma expand_ok jvs mp :
  NoDup (map vertex_id jvs) → Forall (λ jv, 0 < parallelism jv)%Z jvs →
  foldl add_job_vertex (mkEG [] [] [] (Some mp)) jvs = expanded jvs mp.
Proof.
  intros Hnd Hpar. induction jvs as [|jv jvs IH] using rev_ind; [done|].
  rewrite map_app in Hnd. apply Forall_app in Hpar as [Hpar Hp]. rewrite Forall_singleton in Hp. simpl in Hp.
  pose proof Hnd as Hnd'. apply NoDup_app in Hnd' as (Hnd1 & Hdisj & _).
  rewrite foldl_app, IH by done. simpl. unfold add_job_vertex.
  rewrite add_executions by (destruct (Z.to_nat (parallelism jv)) eqn:E; [lia|done]).
  cbn zeta. unfold expanded. simpl. f_equal.
  - rewrite foldl_dset_new.
    + rewrite !map_app, concat_app, map_app. simpl. by rewrite app_nil_r.
    + unfold dkeys. rewrite <- list_fmap_compose.
      pose proof (all_ids_NoDup (jvs ++ [jv])) as H. rewrite map_app, map_app, concat_app, map_app in H.
      simpl in H. rewrite app_nil_r in H. apply H. exact Hnd.
  - rewrite (proj2 (dget_None _ _)).
    + simpl. rewrite map_app. rewrite dset_app_new; [done|]. unfold dkeys. rewrite <- list_fmap_compose.
      intros Hin. apply (Hdisj _ Hin). set_solver.
    + unfold dkeys. rewrite <- list_fmap_compose. intros Hin. apply (Hdisj _ Hin). set_solver.
Qed.


(** The instances of a job vertex, as the index by job vertex lists them. *)
Definition ids_of (jvs : list JobVertex) (v : Z) : list string :=
  default [] (dget (map (λ jv, (vertex_id jv, instance_ids jv)) jvs) v).

Lemma ids_of_vertex jvs jv : NoDup (map vertex_id jvs) → jv ∈ jvs → ids_of jvs (vertex_id jv) = instance_ids jv.
Proof.
  intros Hnd Hin. unfold ids_of. rewrite (dget_elem_wf _ _ (instance_ids jv)); [done|..].
  - unfold dict_wf, dkeys. by rewrite <- list_fmap_compose.
  - apply list_elem_of_fmap. by exists jv.
Qed.

Lemma instance_ids_length jv : length (instance_ids jv) = Z.to_nat (parallelism jv).
Proof. unfold instance_ids, instances. by rewrite !length_map, length_seq. Qed.

Lemma instance_ids_elem1 id jv :
  id ∈ instance_ids jv ↔ ∃ i, i < Z.to_nat (parallelism jv) ∧ id = execution_vertex_id (mkEV jv i None).
Proof.
  unfold instance_ids, instances. rewrite map_map. setoid_rewrite list_elem_of_fmap.
  setoid_rewrite elem_of_seq. split; intros (i & H1 & H2); exists i; (split; [lia || done|lia || done]).
Qed.

Definition edges_of (jvs : list JobVertex) (e : JobEdge) : list ExecutionEdge :=
  job_edge_edges e (ids_of jvs (source_vertex_id e)) (ids_of jvs (target_vertex_id e)).
Definition by_job_vertex (jvs : list JobVertex) : dict Z (list string) :=
  map (λ jv, (vertex_id jv, instance_ids jv)) jvs.

Lemma add_edge_ok jvs mp e vs ees :
  source_vertex_id e ∈ map vertex_id jvs → target_vertex_id e ∈ map vertex_id jvs →
  add_job_edge (mkEG vs ees (by_job_vertex jvs) mp) e
  = Ok (mkEG vs (ees ++ edges_of jvs e) (by_job_vertex jvs) mp).
Proof.
  assert (∀ v, v ∈ map vertex_id jvs → dgetitem (by_job_vertex jvs) v = Ok (ids_of jvs v)) as Hget.
  { intros v Hv. unfold dgetitem, ids_of, by_job_vertex. destruct (dget _ v) eqn:E; [done|].
    apply dget_None in E. destruct E. unfold dkeys. by rewrite <- list_fmap_compose. }
  intros Hs Ht. unfold add_job_edge. cbn [execution_vertices_by_job_vertex]. rewrite !Hget by done.
  unfold edges_of. simpl. by destruct (decide (ids_of jvs (source_vertex_id e) = [])) as [->|].
Qed.

Lemma add_edges_ok jvs mp (es : list JobEdge) : ∀ vs ees,
  (∀ e, e ∈ es → source_vertex_id e ∈ map vertex_id jvs ∧ target_vertex_id e ∈ map vertex_id jvs) →
  foldR add_job_edge (mkEG vs ees (by_job_vertex jvs) mp) es
  = Ok (mkEG vs (ees ++ concat (map (edges_of jvs) es)) (by_job_vertex jvs) mp).
Proof.
  induction es as [|e es IH]; intros vs ees Hcl; cbn [foldR map concat]; [by rewrite app_nil_r|].
  destruct (Hcl e) as [Hs Ht]; [set_solver|]. rewrite add_edge_ok by done. cbn [mbind res_bind].
  rewrite IH; [by rewrite <- (assoc_L (++))|]. intros; apply Hcl; set_solver.
Qed.

Lemma from_job_graph_eq jg :
  NoDup (map vertex_id (job_vertices jg)) → Forall (λ jv, 0 < parallelism jv)%Z (job_vertices jg) →
  (∀ e, e ∈ job_edges jg → source_vertex_id e ∈ map vertex_id (job_vertices jg)
                         ∧ target_vertex_id e ∈ map vertex_id (job_vertices jg)) →
  job_vertices jg ≠ [] →
  ∃ mp, from_job_graph jg =
    Ok (mkEG (execution_vertices_by_id (expanded (job_vertices jg) mp))
          (concat (map (edges_of (job_vertices jg)) (job_edges jg)))
          (by_job_vertex (job_vertices jg)) (Some mp))
    ∧ get_max_parallelism jg = Ok mp.
Proof.
  intros Hnd Hp Hcl Hne. unfold from_job_graph.
  assert (∃ mp, get_max_parallelism jg = Ok mp) as [mp Hmp].
  { unfold get_max_parallelism. destruct (job_vertices jg); [done|eauto]. }
  exists mp. rewrite Hmp. cbn [mbind res_bind]. rewrite expand_ok by done. split; [|done].
  exact (add_edges_ok (job_vertices jg) (Some mp) (job_edges jg) _ [] Hcl).
Qed.

Lemma job_edge_edges_elem e ss ts x :
  x ∈ job_edge_edges e ss ts ↔
  ∃ s t, s ∈ ss ∧ t ∈ ts ∧ x = mkEE s t (edge_partition (partition e) (length ts)).
Proof.
  unfold job_edge_edges. rewrite elem_of_concat. setoid_rewrite list_elem_of_fmap. split.
  - intros (l & Hx & s & -> & Hs). apply list_elem_of_fmap in Hx as (t & -> & Ht). eauto 6.
  - intros (s & t & Hs & Ht & ->). eexists. split; [|eexists; split; [reflexivity|done]].
    apply list_elem_of_fmap. eauto.
Qed.

Definition ends (e : ExecutionEdge) : string * string := (source_execution_vertex e, target_execution_vertex e).

Lemma NoDup_map_finer {A B C} (f : A → B) (h : A → C) l :
  (∀ x y, x ∈ l → y ∈ l → h x = h y → f x = f y) → NoDup (map f l) → NoDup (map h l).
Proof.
  induction l as [|x l IH]; intros Hfh Hnd; simpl in *; [constructor|].
  apply NoDup_cons in Hnd as [Hx Hnd]. constructor.
  - intros Hin. apply list_elem_of_fmap in Hin as (y & E & Hy). apply Hx.
    rewrite (Hfh x y) by (set_solver || done). apply list_elem_of_fmap. eauto.
  - apply IH; [|done]. intros; apply Hfh; set_solver.
Qed.

(** A concatenation has no duplicates when the parts have none and an element names its part. *)
Lemma NoDup_concat_map {A B C} (f : A → list B) (h : A → C) (part : B → C) l :
  NoDup (map h l) → (∀ x, x ∈ l → NoDup (f x)) → (∀ x y, x ∈ l → y ∈ f x → part y = h x) →
  NoDup (concat (map f l)).
Proof.
  induction l as [|x l IH]; intros Hnd Hf Hp; simpl in *; [constructor|].
  apply NoDup_cons in Hnd as [Hx Hnd]. apply NoDup_app. split_and!.
  - apply Hf; set_solver.
  - intros y Hy Hy'. apply elem_of_concat in Hy' as (k & Hk & Hin).
    apply list_elem_of_fmap in Hin as (x' & -> & Hx'). apply Hx.
    rewrite <- (Hp x y) by set_solver. rewrite (Hp x' y) by set_solver. apply list_elem_of_fmap. eauto.
  - apply IH; [done|..]; intros; [apply Hf|apply (Hp x0)]; set_solver.
Qed.

Lemma job_edge_edges_NoDup e ss ts : NoDup ss → NoDup ts → NoDup (map ends (job_edge_edges e ss ts)).
Proof.
  intros Hs Ht. unfold job_edge_edges. rewrite concat_map, map_map.
  apply (NoDup_concat_map _ id fst); [by rewrite map_id| |].
  - intros s _. rewrite map_map. apply NoDup_fmap_2_strong; [|done]. intros t t' _ _ E. by injection E.
  - intros s y _ Hy. rewrite map_map in Hy. by apply list_elem_of_fmap in Hy as (t & -> & _).
Qed.

Lemma instance_ids_NoDup jv : NoDup (instance_ids jv).
Proof. pose proof (all_ids_NoDup [jv]) as H. simpl in H. rewrite app_nil_r in H. apply H, NoDup_singleton. Qed.

(** What the expansion needs of a job graph: distinct vertices and edges, edges between its vertices,
    at least one instance of every vertex, and the ids the streaming context generates. *)
Record runnable (jg : JobGraph) : Prop := {
  rn_vertices : NoDup (map vertex_id (job_vertices jg));
  rn_edges : NoDup (map edge_ends (job_edges jg));
  rn_closed : ∀ e, e ∈ job_edges jg → source_vertex_id e ∈ map vertex_id (job_vertices jg)
                                     ∧ target_vertex_id e ∈ map vertex_id (job_vertices jg);
  rn_par : Forall (λ jv, 0 < parallelism jv)%Z (job_vertices jg);
  rn_ids : Forall (λ jv, 0 ≤ vertex_id jv)%Z (job_vertices jg);
  rn_ne : job_vertices jg ≠ [];
}.

(** [ee] is the channel from instance [i] of [e]'s source to instance [j] of its target. *)
Definition channel_of (jg : JobGraph) (ee : ExecutionEdge) (e : JobEdge) (src tgt : JobVertex) (i j : nat)
    : Prop :=
  e ∈ job_edges jg ∧ src ∈ job_vertices jg ∧ tgt ∈ job_vertices jg ∧
  vertex_id src = source_vertex_id e ∧ vertex_id tgt = target_vertex_id e ∧
  i < Z.to_nat (parallelism src) ∧ j < Z.to_nat (parallelism tgt) ∧
  ee = mkEE (execution_vertex_id (mkEV src i None)) (execution_vertex_id (mkEV tgt j None))
         (edge_partition (partition e) (Z.to_nat (parallelism tgt))).

Lemma edges_of_elem jg e ee : runnable jg → e ∈ job_edges jg →
  ee ∈ edges_of (job_vertices jg) e ↔ ∃ src tgt i j, channel_of jg ee e src tgt i j.
Proof.
  intros [Hv He Hcl Hp Hids Hne] Hin. unfold edges_of. rewrite job_edge_edges_elem. split.
  - destruct (Hcl e Hin) as [Hs Ht]. apply list_elem_of_fmap in Hs as (src & Es & Hs).
    apply list_elem_of_fmap in Ht as (tgt & Et & Ht). rewrite Es, Et, !ids_of_vertex by done.
    intros (s & t & (i & Hi & ->)%instance_ids_elem1 & (j & Hj & ->)%instance_ids_elem1 & ->).
    exists src, tgt, i, j. rewrite instance_ids_length. unfold channel_of. rewrite <- Es, <- Et. done.
  - intros (src & tgt & i & j & _ & Hs & Ht & Es & Et & Hi & Hj & ->). rewrite <- Es, <- Et.
    rewrite !ids_of_vertex by done. rewrite instance_ids_length. eexists _, _.
    split_and!; [apply instance_ids_elem1; eauto..|done].
Qed.

Lemma edges_unique jg : runnable jg →
  NoDup (map edge_id (concat (map (edges_of (job_vertices jg)) (job_edges jg)))).
Proof.
  intros Hr. pose proof Hr as [Hv He Hcl Hp Hids Hne].
  assert (∀ x, x ∈ concat (map (edges_of (job_vertices jg)) (job_edges jg)) →
    ∃ e src tgt i j, channel_of jg x e src tgt i j) as Hall.
  { intros x Hx. apply elem_of_concat in Hx as (l & Hx & Hl). apply list_elem_of_fmap in Hl as (e & -> & Hl).
    apply edges_of_elem in Hx; [|done..]. eauto. }
  rewrite Forall_forall in Hids.
  apply (NoDup_map_finer ends).
  { intros x y Hx Hy E. destruct (Hall x Hx) as (e1 & s1 & t1 & i1 & j1 & _ & Hs1 & _ & _ & _ & _ & _ & ->).
    destruct (Hall y Hy) as (e2 & s2 & t2 & i2 & j2 & _ & Hs2 & _ & _ & _ & _ & _ & ->).
    apply edge_id_inj in E as [E1 E2]; [|by apply Hids..]. unfold ends. simpl. by rewrite E1, E2. }
  rewrite concat_map, map_map.
  apply (NoDup_concat_map _ (λ e, Some (edge_ends e))
    (λ st : string * string, list_find (λ e, st ∈ map ends (edges_of (job_vertices jg) e)) (job_edges jg)
       ≫= λ ie, Some (edge_ends ie.2))).
  - rewrite <- map_map. by apply NoDup_fmap_2_strong; [intros ?? _ _ [= ?]|].
  - intros e Hin. apply job_edge_edges_NoDup; destruct (Hcl e Hin) as [Hs Ht];
      [apply list_elem_of_fmap in Hs as (jv & -> & ?)|apply list_elem_of_fmap in Ht as (jv & -> & ?)];
      rewrite ids_of_vertex by done; apply instance_ids_NoDup.
  - intros e st Hin Hst. destruct (list_find _ _) as [[k e']|] eqn:Ef; simpl.
    + apply list_find_Some in Ef as (Hk & Hst' & _). apply list_elem_of_lookup_2 in Hk.
      apply list_elem_of_fmap in Hst as (x & -> & Hx). apply list_elem_of_fmap in Hst' as (x' & E & Hx').
      apply edges_of_elem in Hx as (s1 & t1 & i1 & j1 & _ & _ & _ & Es1 & Et1 & _ & _ & ->); [|done..].
      apply edges_of_elem in Hx' as (s2 & t2 & i2 & j2 & _ & _ & _ & Es2 & Et2 & _ & _ & ->); [|done..].
      injection E as [E1 _]%execution_vertex_id_inj [E2 _]%execution_vertex_id_inj. simpl in *.
      unfold edge_ends. congruence.
    + apply list_find_None in Ef. rewrite Forall_forall in Ef. by destruct (Ef e Hin).
Qed.

(** C19. Expansion of the job graph.  From a job graph with distinct vertices and edges, every vertex
    of parallelism at least 1, [from_job_graph] returns a graph whose execution vertices are exactly
    the instances [0 .. parallelism-1] of every job vertex, each under its own id, and whose channels
    are exactly the pairs (instance of the source, instance of the target) of the job edges - with a
    forward partition turned into round robin when the target has several instances - no two channels
    having the same id. *)
Theorem execution_graph_complete jg : runnable jg →
  ∃ g, from_job_graph jg = Ok g ∧
    NoDup (dkeys (execution_vertices_by_id g)) ∧
    (∀ id v, (id, v) ∈ execution_vertices_by_id g ↔
       ∃ jv i, jv ∈ job_vertices jg ∧ i < Z.to_nat (parallelism jv) ∧ v = mkEV jv i None ∧
               id = execution_vertex_id v) ∧
    (∀ ee, ee ∈ execution_edges g ↔ ∃ e src tgt i j, channel_of jg ee e src tgt i j) ∧
    NoDup (map edge_id (execution_edges g)).
Proof.
  intros Hr. pose proof Hr as [Hv He Hcl Hp Hids Hne].
  destruct (from_job_graph_eq jg Hv Hp Hcl Hne) as (mp & Eg & _). eexists. split; [exact Eg|].
  cbn [execution_vertices_by_id execution_edges]. split_and!.
  - unfold expanded, dkeys. simpl. rewrite <- list_fmap_compose. by apply all_ids_NoDup.
  - intros id v. unfold expanded. simpl. rewrite list_elem_of_fmap. setoid_rewrite elem_of_concat.
    setoid_rewrite list_elem_of_fmap. split.
    + intros (v' & [= -> ->] & l & Hv' & jv & -> & Hjv). apply list_elem_of_fmap in Hv' as (i & -> & Hi%elem_of_seq).
      exists jv, i. split_and!; [done|lia|done..].
    + intros (jv & i & Hjv & Hi & -> & ->). eexists. split; [done|]. exists (instances jv). split; [|eauto].
      apply list_elem_of_fmap. exists i. rewrite elem_of_seq. split; [done|lia].
  - intros ee. rewrite elem_of_concat. split.
    + intros (l & Hee & Hl). apply list_elem_of_fmap in Hl as (e & -> & Hin). exists e. by apply edges_of_elem.
    + intros (e & Hx). assert (e ∈ job_edges jg) as Hin by (destruct Hx as (? & ? & ? & ? & []); done).
      exists (edges_of (job_vertices jg) e). split; [by apply edges_of_elem|]. apply list_elem_of_fmap. eauto.
  - by apply edges_unique.
Qed.

(** ** Lemmas: assignment *)

Definition demand (k : res_kind) (v : ExecutionVertex) : option Q := resources v ≫= amount k.
Definition on_node (a : dict string nat) (i : nat) (v : ExecutionVertex) : Prop :=
  dget a (execution_vertex_id v) = Some i.
#[global] Instance on_node_dec a i v : Decision (on_node a i v).
Proof. unfold on_node. apply _. Defined.

(** What the vertices [vs] put on node [i] take of [k]. *)
Definition usage (a : dict string nat) (i : nat) (k : res_kind) (vs : list ExecutionVertex) : Q :=
  foldr (λ v q, ((if decide (on_node a i v) then default 0 (demand k v) else 0) + q)%Q) 0%Q vs.

(** Node [n] is node [n0] less what [vs] take, and nothing is overdrawn. *)
Definition drawn (a : dict string nat) (vs : list ExecutionVertex) (i : nat) (n0 n : Node) (k : res_kind) : Prop :=
  match amount k (node_resources n0), amount k (node_resources n) with
  | Some q0, Some q => (q == q0 - usage a i k vs ∧ 0 <= q)%Q
  | None, None => ∀ v, v ∈ vs → on_node a i v → demand k v = None
  | _, _ => False
  end.

(** The memory, if any, is a number. *)
Definition plain (r : Resources) : Prop := ∀ t, memory r ≠ Some (Text t).
(** The vertex was given a memory that is a text. *)
Definition text_memory (v : ExecutionVertex) : Prop := ∃ r t, resources v = Some r ∧ memory r = Some (Text t).

Record assign_inv (ns : list Node) (vs : list ExecutionVertex) (s : assignment) : Prop := {
  ai_keys : dkeys (assigned s) = map execution_vertex_id vs;
  ai_nodes : node_id <$> nodes s = node_id <$> ns;
  ai_range : ∀ v, v ∈ vs → ∃ i, on_node (assigned s) i v ∧ i < length ns;
  ai_plain : Forall (λ n, plain (node_resources n)) (nodes s);
  ai_numbers : ∀ v, v ∈ vs → ¬ text_memory v;
  ai_drawn : ∀ i n0 n, ns !! i = Some n0 → nodes s !! i = Some n → ∀ k, drawn (assigned s) vs i n0 n k;
}.

Lemma usage_app a i k vs ws : (usage a i k (vs ++ ws) == usage a i k vs + usage a i k ws)%Q.
Proof. induction vs as [|v vs IH]; simpl; [lra|]. rewrite IH. lra. Qed.

Lemma usage_dset a i k vs id j :
  id ∉ map execution_vertex_id vs → usage (dset a id j) i k vs = usage a i k vs.
Proof.
  induction vs as [|v vs IH]; intros Hn; simpl; [done|]. rewrite IH by set_solver.
  assert (dget (dset a id j) (execution_vertex_id v) = dget a (execution_vertex_id v)) as E
    by (apply dget_dset_ne; set_solver).
  assert (on_node (dset a id j) i v ↔ on_node a i v) as Hon by (unfold on_node; by rewrite E).
  destruct (decide (on_node (dset a id j) i v)), (decide (on_node a i v)); naive_solver.
Qed.

Lemma on_node_dset a v i j : on_node (dset a (execution_vertex_id v) i) j v ↔ i = j.
Proof. unfold on_node. rewrite dget_dset_eq. split; congruence. Qed.

Lemma enough1_acquire w h : enough1 w h = true →
  ∃ h', acquire1 h w = Ok h' ∧
    match h, h' with
    | Some q, Some q' => (q' == q - default 0 w ∧ (0 <= q → 0 <= q'))%Q
    | None, None => w = None
    | _, _ => False
    end.
Proof.
  destruct w as [w|], h as [h|]; simpl; intros E; try done.
  - eexists. split; [done|]. apply Qle_bool_iff in E. simpl. split; lra.
  - eexists. split; [done|]. simpl. split; [lra|done].
  - by exists None.
Qed.

Lemma enough_mem_acquire w h : enough_mem w h = Ok true → (∀ t, h ≠ Some (Text t)) →
  ∃ h', acquire_mem h w = Ok h' ∧ (∀ t, w ≠ Some (Text t)) ∧ (∀ t, h' ≠ Some (Text t)) ∧
    match h ≫= number, h' ≫= number with
    | Some q, Some q' => (q' == q - default 0 (w ≫= number) ∧ (0 <= q → 0 <= q'))%Q
    | None, None => w = None
    | _, _ => False
    end.
Proof.
  destruct w as [[w|w]|], h as [[h|h]|]; cbn; intros E Hh; try done; try (exfalso; by apply (Hh h)).
  - injection E as E. eexists. split; [done|]. apply Qle_bool_iff in E. cbn. split_and!; [done|done|lra|lra].
  - eexists. split; [done|]. cbn. split_and!; [done|done|lra|done].
  - by exists None.
Qed.

(** Comparing with a node whose memory is a number or missing fails only on a text. *)
Lemma has_enough_cases r n : plain (node_resources n) →
  (∃ b, _has_enough_resources r n = Ok b) ∨ (_has_enough_resources r n = Raise TypeError ∧ ∃ t, memory r = Some (Text t)).
Proof.
  intros Hp. unfold _has_enough_resources. destruct (memory r) as [[w|w]|], (memory (node_resources n)) as [[h|h]|] eqn:Eh; cbn; eauto.
  all: exfalso; by apply (Hp h).
Qed.

Lemma allocate_ok v n r : resources v = Some r → _has_enough_resources r n = Ok true → plain (node_resources n) →
  ∃ n', allocate v n = Ok n' ∧ node_id n' = node_id n ∧ plain (node_resources n') ∧ ¬ text_memory v ∧
    ∀ k, match amount k (node_resources n), amount k (node_resources n') with
         | Some q, Some q' => (q' == q - default 0 (demand k v) ∧ (0 <= q → 0 <= q'))%Q
         | None, None => demand k v = None
         | _, _ => False
         end.
Proof.
  intros Er Hen Hp. unfold _has_enough_resources in Hen. destruct (enough_mem _ _) as [bm|] eqn:Em'; [|done]. cbn in Hen.
  injection Hen as [[Hc ->]%andb_prop Hg]%andb_prop.
  apply enough1_acquire in Hc as (c & Ec & Hc). apply enough_mem_acquire in Em' as (m & Em & Hw & Hm & Hmk); [|exact Hp].
  apply enough1_acquire in Hg as (g & Eg & Hg).
  unfold allocate, acquire_resources. rewrite Er. simpl. rewrite Ec. simpl. rewrite Em. simpl. rewrite Eg. simpl.
  eexists. split; [done|]. split_and!; [done|done| |].
  - intros (r' & t & Er' & Ht). simplify_eq. by apply (Hw t).
  - unfold demand. rewrite Er. intros []; cbn; [done|done|]. destruct (memory _ ≫= number), (m ≫= number); try done. by rewrite Hmk.
Qed.

(** Placing [v] on a node that has enough for it, whatever the bookkeeping of the strategy. *)
Lemma place_inv ns vs s owner c v i n r :
  assign_inv ns vs s → execution_vertex_id v ∉ map execution_vertex_id vs →
  resources v = Some r → nodes s !! i = Some n → _has_enough_resources r n = Ok true →
  ∃ s', place v i (mkAssign (nodes s) owner c (assigned s)) = Ok s' ∧ assign_inv ns (vs ++ [v]) s' ∧
    node_to_operator s' = owner ∧ assigned s' = dset (assigned s) (execution_vertex_id v) i.
Proof.
  intros [Hk Hn Hr Hpl Hnum Hd] Hnew Er Hi Hen.
  destruct (allocate_ok v n r Er Hen) as (n' & Ea & Eid & Hp' & Hnt & Ha).
  { by apply (proj1 (Forall_lookup _ _) Hpl i). }
  unfold place. cbn [assigned nodes]. rewrite (proj2 (dmem_false _ _)) by (rewrite Hk; done).
  rewrite Hi. cbn [from_option_exn mbind res_bind]. rewrite Ea. cbn [mbind res_bind].
  eexists. split; [reflexivity|]. split; [|done].
  assert (i < length ns) as Hlen.
  { apply (f_equal length) in Hn. rewrite !length_fmap in Hn. rewrite <- Hn. by apply lookup_lt_Some in Hi. }
  assert (∀ w, w ∈ vs → ∀ j, on_node (dset (assigned s) (execution_vertex_id v) i) j w ↔
    on_node (assigned s) j w) as Hold.
  { intros w Hw j. unfold on_node. rewrite dget_dset_ne; [done|]. intros E. apply Hnew. rewrite <- E.
    apply list_elem_of_fmap. eauto. }
  split; cbn [assigned nodes].
  - rewrite dset_app_new by (rewrite Hk; done). unfold dkeys in *. rewrite fmap_app, Hk, map_app. done.
  - rewrite list_fmap_insert, Eid, list_insert_id; [done|]. by rewrite list_lookup_fmap, Hi.
  - intros w [Hw| ->%list_elem_of_singleton]%elem_of_app.
    + destruct (Hr w Hw) as (j & Hj & Hlt). exists j. split; [by apply Hold|done].
    + exists i. split; [by apply on_node_dset|done].
  - by apply Forall_insert.
  - intros w [Hw| ->%list_elem_of_singleton]%elem_of_app; [by apply Hnum|done].
  - intros j n0 nj Hn0 Hnj k. unfold drawn.
    assert (usage (dset (assigned s) (execution_vertex_id v) i) j k (vs ++ [v]) ==
            usage (assigned s) j k vs + if decide (i = j) then default 0 (demand k v) else 0)%Q as Eu.
    { rewrite usage_app, usage_dset by done. unfold usage at 2. cbn [foldr].
      pose proof (on_node_dset (assigned s) v i j).
      destruct (decide (on_node _ j v)), (decide (i = j)); (lra || naive_solver). }
    destruct (decide (i = j)) as [->|Hij].
    + rewrite list_lookup_insert_eq in Hnj by (by apply lookup_lt_Some in Hi). injection Hnj as <-.
      specialize (Hd j n0 n Hn0 Hi k). unfold drawn in Hd. specialize (Ha k).
      destruct (amount k (node_resources n0)), (amount k (node_resources n)), (amount k (node_resources n')); try done.
      * destruct Hd, Ha. split; [rewrite Eu|]; lra || auto.
      * intros w [Hw| ->%list_elem_of_singleton]%elem_of_app Hon; [|done]. apply (Hd w); [done|]. by apply Hold.
    + rewrite list_lookup_insert_ne in Hnj by done. specialize (Hd j n0 nj Hn0 Hnj k). unfold drawn in Hd.
      destruct (amount k (node_resources n0)), (amount k (node_resources nj)); try done.
      * destruct Hd. split; [rewrite Eu|]; lra || auto.
      * intros w [Hw| ->%list_elem_of_singleton]%elem_of_app Hon; [by apply (Hd w), Hold|].
        by apply on_node_dset in Hon.
Qed.

Definition not_enough : exn := RuntimeError "Not enough resources".

(** A node hosts the instances of the operator that owns it. *)
Definition owned (ns : list Node) (vs : list ExecutionVertex) (s : assignment) : Prop :=
  ∀ v i n0, v ∈ vs → on_node (assigned s) i v → ns !! i = Some n0 →
    dget (node_to_operator s) (node_id n0) = Some (vertex_id (job_vertex v)).

(** A search over plain nodes ends with an answer unless the memory asked for is a text. *)
Lemma find_operator_node_cases r op owner ns : Forall (λ n, plain (node_resources n)) ns → ∀ i0,
  (find_operator_node r op owner ns i0 = Raise TypeError ∧ ∃ t, memory r = Some (Text t)) ∨
  (find_operator_node r op owner ns i0 = Ok None ∧ ∀ i n, ns !! i = Some n →
     (dget owner (node_id n) = None ∨ dget owner (node_id n) = Some op) → _has_enough_resources r n = Ok false) ∨
  ∃ i n, find_operator_node r op owner ns i0 = Ok (Some (i, n)) ∧ i0 ≤ i ∧ ns !! (i - i0) = Some n ∧
    _has_enough_resources r n = Ok true ∧ (dget owner (node_id n) = None ∨ dget owner (node_id n) = Some op).
Proof.
  induction 1 as [|n ns Hn Hns IH]; intros i0; cbn [find_operator_node]; [right; left; split; [done|]; intros ?? [=]|].
  assert ((if match dget owner (node_id n) with None => true | Some o => bool_decide (o = op) end then true else false) = true ↔
    (dget owner (node_id n) = None ∨ dget owner (node_id n) = Some op)) as Hb.
  { destruct (dget owner (node_id n)) as [o|]; [|naive_solver]. case_bool_decide; naive_solver. }
  assert ((∀ i m, ns !! i = Some m → (dget owner (node_id m) = None ∨ dget owner (node_id m) = Some op) → _has_enough_resources r m = Ok false) →
    ((dget owner (node_id n) = None ∨ dget owner (node_id n) = Some op) → _has_enough_resources r n = Ok false) →
    ∀ i m, (n :: ns) !! i = Some m → (dget owner (node_id m) = None ∨ dget owner (node_id m) = Some op) → _has_enough_resources r m = Ok false) as Hcons.
  { intros H1 H2 [|i] m Hm; cbn in Hm; [by simplify_eq|by apply (H1 i)]. }
  assert (∀ i m, S i0 ≤ i → ns !! (i - S i0) = Some m → (n :: ns) !! (i - i0) = Some m) as Hshift.
  { intros i m Hle Hm. by replace (i - i0) with (S (i - S i0)) by lia. }
  destruct (match dget owner (node_id n) with None => true | Some o => bool_decide (o = op) end) eqn:Eo;
    [destruct (has_enough_cases r n Hn) as [([] & Ee)|[Ee Ht]]; rewrite Ee; cbn [mbind res_bind]|].
  - right; right. exists i0, n. rewrite Nat.sub_diag. split_and!; [done|lia|done|done|by apply Hb].
  - destruct (IH (S i0)) as [?|[[-> ?]|(i & m & -> & ? & ? & ?)]]; [by left|right; left|right; right; exists i, m; split_and!; [done|lia|auto|naive_solver..]].
    split; [done|]. by apply Hcons.
  - by left.
  - destruct (IH (S i0)) as [?|[[-> ?]|(i & m & -> & ? & ? & ?)]]; [by left|right; left|right; right; exists i, m; split_and!; [done|lia|auto|naive_solver..]].
    split; [done|]. apply Hcons; [done|]. intros Ho%Hb. done.
Qed.

Lemma find_next_node_cases r ns : Forall (λ n, plain (node_resources n)) ns → ∀ i0,
  (find_next_node r ns i0 = Raise TypeError ∧ ∃ t, memory r = Some (Text t)) ∨
  (find_next_node r ns i0 = Ok (i0 + length ns) ∧ ∀ i n, ns !! i = Some n → _has_enough_resources r n = Ok false) ∨
  ∃ i n, find_next_node r ns i0 = Ok i ∧ i0 ≤ i < i0 + length ns ∧ ns !! (i - i0) = Some n ∧ _has_enough_resources r n = Ok true.
Proof.
  induction 1 as [|n ns Hn Hns IH]; intros i0; cbn [find_next_node length]; [right; left; rewrite Nat.add_0_r; by split|].
  destruct (has_enough_cases r n Hn) as [([] & Ee)|[Ee Ht]]; rewrite Ee; cbn [mbind res_bind]; [| |by left].
  - right; right. exists i0, n. rewrite Nat.sub_diag. split_and!; [done|lia..|done|done].
  - destruct (IH (S i0)) as [?|[[-> Hno]|(i & m & -> & ? & ? & ?)]]; [by left|right; left|right; right].
    + split; [f_equal; lia|]. intros [|i] m Hm; cbn in Hm; [by simplify_eq|by apply (Hno i)].
    + exists i, m. split_and!; [done|lia|lia| |done]. by replace (i - i0) with (S (i - S i0)) by lia.
Qed.

(** No node that [eligible] admits has what [v] needs. *)
Definition stuck (eligible : assignment → ExecutionVertex → nat → Node → Prop) (s : assignment)
    (v : ExecutionVertex) : Prop :=
  ∀ i n r, nodes s !! i = Some n → resources v = Some r → eligible s v i n → _has_enough_resources r n = Ok false.

(** [OperatorFirst] may use any node that is free or owned by the operator of the vertex;
    [ParallelismFirst] may use any node from its current one on. *)
Definition eligible (strategy : NodeAssignStrategy) (s : assignment) (v : ExecutionVertex) (i : nat) (n : Node)
    : Prop :=
  match strategy with
  | OperatorFirst => dget (node_to_operator s) (node_id n) = None ∨
                     dget (node_to_operator s) (node_id n) = Some (vertex_id (job_vertex v))
  | ParallelismFirst => curr_node_index s ≤ i
  end.

(** What a strategy does with one more vertex. *)
Definition sound_step (ns : list Node) (st : NodeAssignStrategy) (J : list ExecutionVertex → assignment → Prop)
    (f : assignment → ExecutionVertex → res assignment) : Prop :=
  ∀ vs v s, assign_inv ns vs s → J vs s → execution_vertex_id v ∉ map execution_vertex_id vs →
    is_Some (resources v) →
    (f s v = Raise not_enough ∧ stuck (eligible st) s v) ∨ (f s v = Raise TypeError ∧ text_memory v) ∨
    ∃ s', f s v = Ok s' ∧ assign_inv ns (vs ++ [v]) s' ∧ J (vs ++ [v]) s'.

Lemma sound_fold ns st J f : sound_step ns st J f → ∀ ws vs s,
  assign_inv ns vs s → J vs s → NoDup (map execution_vertex_id (vs ++ ws)) →
  (∀ w, w ∈ ws → is_Some (resources w)) →
  (foldR f s ws = Raise not_enough ∧
   ∃ vs' v ws' s', vs ++ ws = vs' ++ v :: ws' ∧ assign_inv ns vs' s' ∧ stuck (eligible st) s' v) ∨
  (foldR f s ws = Raise TypeError ∧ ∃ w, w ∈ ws ∧ text_memory w) ∨
  ∃ s', foldR f s ws = Ok s' ∧ assign_inv ns (vs ++ ws) s' ∧ J (vs ++ ws) s'.
Proof.
  intros Hf ws. induction ws as [|w ws IH]; intros vs s Hi HJ Hnd Hr; simpl.
  - right; right. exists s. by rewrite app_nil_r.
  - pose proof Hnd as Hnd'. rewrite map_app in Hnd'. apply NoDup_app in Hnd' as (_ & Hd & _).
    assert (execution_vertex_id w ∉ map execution_vertex_id vs) as Hnew
      by (intros Hin; apply (Hd _ Hin); simpl; set_solver).
    assert (is_Some (resources w)) as Hw by (apply Hr; set_solver).
    destruct (Hf vs w s Hi HJ Hnew Hw) as [[-> Hst]|[[-> Htx]|(s' & -> & Hi' & HJ')]].
    { left. split; [done|]. by exists vs, w, ws, s. }
    { right; left. split; [done|]. exists w. split; [by left|done]. }
    replace (vs ++ w :: ws) with ((vs ++ [w]) ++ ws) in * by (by rewrite <- (assoc_L (++))).
    destruct (IH (vs ++ [w]) s' Hi' HJ' Hnd) as [?|[[E (x & Hx & Htx)]|?]]; [intros; apply Hr; set_solver|by left| |by right; right].
    right; left. split; [done|]. exists x. split; [by right|done].
Qed.

Lemma operator_first_sound ns :
  sound_step ns OperatorFirst (owned ns) (λ s v, operator_first_vertex v s).
Proof.
  intros vs v s Hi HJ Hnew [r Er]. unfold operator_first_vertex, need. rewrite Er. cbn [from_option_exn mbind res_bind].
  destruct (find_operator_node_cases r (vertex_id (job_vertex v)) (node_to_operator s) (nodes s) (ai_plain _ _ _ Hi) 0)
    as [[-> [t Ht]]|[[-> Hno]|(i & n & -> & _ & Hn & Hen & Hown)]]; cbn [mbind res_bind].
  { right; left. split; [done|]. by exists r, t. }
  { left. split; [done|]. intros i n r' Hn Er' Hel. simplify_eq. by apply (Hno i n). }
  right; right. rewrite Nat.sub_0_r in Hn.
  pose proof (ai_nodes _ _ _ Hi) as Hids.
  destruct (place_inv ns vs s (dset (node_to_operator s) (node_id n) (vertex_id (job_vertex v)))
    (curr_node_index s) v i n r) as (s' & -> & Hi' & Eo & Ea); [done..|].
  exists s'. split_and!; [done|done|]. intros w j n0 Hw Hon Hj. rewrite Ea in Hon. rewrite Eo.
  apply elem_of_app in Hw as [Hw| ->%list_elem_of_singleton].
  - unfold on_node in Hon. rewrite dget_dset_ne in Hon.
    2: { intros E. apply Hnew. rewrite <- E. apply list_elem_of_fmap. eauto. }
    pose proof (HJ w j n0 Hw Hon Hj) as Hw'. rewrite dget_dset. case_decide as Ec; [|done].
    rewrite <- Ec, Hw' in Hown. destruct Hown; congruence.
  - apply on_node_dset in Hon as <-. rewrite dget_dset. rewrite decide_True; [done|].
    apply (f_equal (.!! i)) in Hids. rewrite !list_lookup_fmap, Hn, Hj in Hids. by injection Hids.
Qed.

Lemma parallelism_first_sound ns :
  sound_step ns ParallelismFirst (λ _ _, True) (λ s v, parallelism_first_vertex v s).
Proof.
  intros vs v s Hi _ Hnew [r Er]. unfold parallelism_first_vertex. rewrite Er. cbn [from_option_exn mbind res_bind].
  destruct (find_next_node_cases r (drop (curr_node_index s) (nodes s)) (Forall_drop _ _ _ (ai_plain _ _ _ Hi)) (curr_node_index s))
    as [[-> [t Ht]]|[[-> Hno]|(i & n & -> & Hb & Hn & Hen)]]; cbn [mbind res_bind]; rewrite ?length_drop in *.
  { right; left. split; [done|]. by exists r, t. }
  { left. rewrite decide_False by lia. split; [done|]. intros j n r' Hn' Er' Hel. simplify_eq. simpl in Hel.
    apply (Hno (j - curr_node_index s)). rewrite lookup_drop. by replace (curr_node_index s + (j - curr_node_index s)) with j by lia. }
  right; right. rewrite decide_True by lia. rewrite lookup_drop in Hn.
  replace (curr_node_index s + (i - curr_node_index s)) with i in Hn by lia.
  destruct (place_inv ns vs s (node_to_operator s) i v i n r) as (s' & -> & Hi' & _); [done..|]. eauto.
Qed.

(** ** The vertices in the order each strategy visits them *)

Lemma concat_map_app_perm {A B} (f h : A → list B) l :
  concat (map (λ x, f x ++ h x) l) ≡ₚ concat (map f l) ++ concat (map h l).
Proof.
  induction l as [|x l IH]; simpl; [done|]. rewrite IH. solve_Permutation.
Qed.

Lemma concat_lookup_seq {A} (l : list A) n :
  concat (map (λ i, option_list (l !! i)) (seq 0 n)) = take n l.
Proof.
  revert n. induction l as [|x l IH]; intros n.
  - rewrite take_nil. induction (seq 0 n); simpl; auto.
  - destruct n as [|n]; [done|]. cbn [seq]. rewrite <- seq_shift, map_cons, map_map. simpl. by rewrite IH.
Qed.

Lemma Permutation_refl_eq {A} (l k : list A) : l = k → l ≡ₚ k.
Proof. by intros ->. Qed.

Lemma columns_perm {A} (groups : list (list A)) n :
  Forall (λ g, length g ≤ n) groups →
  concat (map (λ i, omap (λ g : list A, g !! i) groups) (seq 0 n)) ≡ₚ concat groups.
Proof.
  induction groups as [|g groups IH]; intros Hall.
  - simpl. induction (seq 0 n); simpl; auto.
  - apply Forall_cons in Hall as [Hg Hall]. cbn [concat]. rewrite <- (IH Hall).
    transitivity (concat (map (λ i, option_list (g !! i)) (seq 0 n))
                  ++ concat (map (λ i, omap (λ g : list A, g !! i) groups) (seq 0 n))).
    + rewrite <- concat_map_app_perm. apply Permutation_refl_eq. f_equal. apply map_ext. intros i. simpl.
      by destruct (g !! i).
    + by rewrite concat_lookup_seq, take_ge.
Qed.

Lemma max_parallelism_ge jg mp jv :
  get_max_parallelism jg = Ok mp → jv ∈ job_vertices jg → (parallelism jv ≤ mp)%Z.
Proof.
  unfold get_max_parallelism. destruct (job_vertices jg) as [|v vs]; intros E Hin; [done|]. injection E as <-.
  assert (∀ l m, m ≤ foldl (λ m v, Z.max m (parallelism v)) m l ∧
    ∀ v, v ∈ l → parallelism v ≤ foldl (λ m v, Z.max m (parallelism v)) m l)%Z as Hf.
  { clear. induction l as [|w l IH]; intros m; simpl; [split; [lia|set_solver]|].
    destruct (IH (Z.max m (parallelism w))) as [H1 H2]. split; [lia|].
    intros x [->|Hx]%elem_of_cons; [lia|by apply H2]. }
  destruct (Hf vs (parallelism v)) as [H1 H2]. apply elem_of_cons in Hin as [->|Hin]; auto.
Qed.

Section placed.
Context (defaults : dict res_kind configured) (proposed : option (dict string (dict res_kind configured))).

(** A vertex with its resources set. *)
Definition with_res (v : ExecutionVertex) : ExecutionVertex :=
  mkEV (job_vertex v) (execution_vertex_index v) (Some (vertex_resources defaults proposed v)).

Lemma with_res_ids vs : map execution_vertex_id (map with_res vs) = map execution_vertex_id vs.
Proof. rewrite map_map. by apply map_ext. Qed.

Lemma set_resources_groups jvs mp es : NoDup (map vertex_id jvs) →
  mapR (group (set_resources defaults proposed
         (mkEG (execution_vertices_by_id (expanded jvs mp)) es (by_job_vertex jvs) (Some mp))))
    (dvalues (by_job_vertex jvs)) = Ok (map (λ jv, map with_res (instances jv)) jvs).
Proof.
  intros Hnd. replace (dvalues (by_job_vertex jvs)) with (map instance_ids jvs)
    by (unfold dvalues, by_job_vertex; by rewrite map_map).
  set (g := set_resources _ _ _).
  assert (∀ jv, jv ∈ jvs → group g (instance_ids jv) = Ok (map with_res (instances jv))) as Hg.
  { intros jv Hjv. unfold group, instance_ids. rewrite mapR_map.
    rewrite (mapR_ok _ with_res); [done|]. intros v Hv. unfold dgetitem.
    rewrite (dget_elem_wf _ _ (with_res v)); [done|..].
    - unfold dict_wf, g, set_resources, expanded, dkeys. cbn [execution_vertices_by_id].
      rewrite !map_map. by apply all_ids_NoDup.
    - unfold g, set_resources, expanded. cbn [execution_vertices_by_id]. rewrite map_map.
      apply list_elem_of_fmap. exists v. split; [done|]. apply elem_of_concat. exists (instances jv).
      split; [done|]. apply list_elem_of_fmap. eauto. }
  rewrite mapR_map. by apply mapR_ok.
Qed.
End placed.

Lemma usage_perm a i k vs ws : vs ≡ₚ ws → (usage a i k vs == usage a i k ws)%Q.
Proof.
  induction 1 as [|v vs ws _ IH|v w vs|vs ws xs _ IH1 _ IH2]; simpl; [lra|rewrite IH; lra|lra|].
  by rewrite IH1.
Qed.

(** What [ResourceManager] makes of a node: numbers that are not negative. *)
Definition nonneg_node (n : Node) : Prop := plain (node_resources n) ∧ ∀ k q, amount k (node_resources n) = Some q → (0 <= q)%Q.

Lemma new_assignment_inv ns : Forall nonneg_node ns → assign_inv ns [] (new_assignment ns).
Proof.
  intros Hnn. split; simpl; [done|done|set_solver|by eapply Forall_impl; [exact Hnn|]; intros n []|set_solver|]. intros i n0 n H1 H2 k. assert (n0 = n) as -> by congruence. unfold drawn.
  rewrite Forall_forall in Hnn. apply list_elem_of_lookup_2 in H2.
  destruct (amount k (node_resources n)) eqn:E; [|set_solver].
  split; [simpl; lra|]. by apply (proj2 (Hnn n H2) k).
Qed.

(** Nothing is overdrawn: on node [i] the demands of its vertices sum up to at most what it has, and
    none of them asks for a resource the node does not have. *)
Definition within_capacity (ns : list Node) (vs : list ExecutionVertex) (a : dict string nat) : Prop :=
  ∀ i n0, ns !! i = Some n0 → ∀ k,
    match amount k (node_resources n0) with
    | Some q0 => (usage a i k vs <= q0)%Q
    | None => ∀ v, v ∈ vs → on_node a i v → demand k v = None
    end.

Lemma assign_inv_capacity ns vs ws s : assign_inv ns vs s → ws ≡ₚ vs → within_capacity ns ws (assigned s).
Proof.
  intros [_ Hn _ _ _ Hd] Hp i n0 Hi k.
  assert (∃ n, nodes s !! i = Some n) as [n Hi'].
  { apply lookup_lt_is_Some. apply lookup_lt_Some in Hi. apply (f_equal length) in Hn.
    rewrite !length_fmap in Hn. lia. }
  specialize (Hd i n0 n Hi Hi' k). unfold drawn in Hd.
  destruct (amount k (node_resources n0)), (amount k (node_resources n)); try done.
  - rewrite (usage_perm _ _ _ _ _ Hp). destruct Hd. lra.
  - intros v Hv. apply Hd. by rewrite <- Hp.
Qed.

(** The run of a strategy over vertices in some order. *)
Lemma strategy_run ns st J f ws :
  sound_step ns st J f → Forall nonneg_node ns → J [] (new_assignment ns) →
  NoDup (map execution_vertex_id ws) → (∀ w, w ∈ ws → is_Some (resources w)) →
  (foldR f (new_assignment ns) ws = Raise not_enough ∧
   ∃ vs v s, v ∈ ws ∧ (v ∉ vs) ∧ assign_inv ns vs s ∧ stuck (eligible st) s v) ∨
  (foldR f (new_assignment ns) ws = Raise TypeError ∧ ∃ v, v ∈ ws ∧ text_memory v) ∨
  ∃ s, foldR f (new_assignment ns) ws = Ok s ∧ assign_inv ns ws s ∧ J ws s.
Proof.
  intros Hf Hnn HJ Hnd Hr.
  destruct (sound_fold ns st J f Hf ws [] (new_assignment ns)) as [[E (vs & v & ws' & s & Ews & Hi & Hst)]|[?|(s & E & Hi & HJ')]];
    [by apply new_assignment_inv|done..| |by right; left|].
  - left. split; [done|]. exists vs, v, s. simpl in Ews. subst ws. split_and!; [set_solver| |done..].
    rewrite map_app in Hnd. apply NoDup_app in Hnd as (_ & Hd & _). intros Hin.
    apply (Hd (execution_vertex_id v)); [by apply list_elem_of_fmap_2|simpl; set_solver].
  - right; right. eauto.
Qed.

Lemma assign_inv_range ns vs s : assign_inv ns vs s → NoDup (map execution_vertex_id vs) →
  Forall (λ kv, kv.2 < length ns) (assigned s).
Proof.
  intros [Hk _ Hr _ _ _] Hnd. apply Forall_forall. intros [id i] Hin. simpl.
  assert (id ∈ map execution_vertex_id vs) as Hid.
  { rewrite <- Hk. unfold dkeys. by apply (list_elem_of_fmap_2 fst) in Hin. }
  apply list_elem_of_fmap in Hid as (v & -> & Hv). destruct (Hr v Hv) as (j & Hj & Hlt).
  unfold on_node in Hj. rewrite (dget_elem_wf _ _ i) in Hj; [congruence|unfold dict_wf; by rewrite Hk|done].
Qed.

(** The vertices a strategy visits: all of them, the operators one after the other or in rounds. *)
Definition visit_order (st : NodeAssignStrategy) (mp : nat) (groups : list (list ExecutionVertex))
    : list ExecutionVertex :=
  match st with
  | OperatorFirst => concat groups
  | ParallelismFirst => concat (map (λ i, omap (λ grp : list ExecutionVertex, grp !! i) groups) (seq 0 mp))
  end.

Definition strategy_step (st : NodeAssignStrategy) (s : assignment) (v : ExecutionVertex) : res assignment :=
  match st with
  | OperatorFirst => operator_first_vertex v s
  | ParallelismFirst => parallelism_first_vertex v s
  end.

Lemma release_cases acc r :
  (∃ a, release_resources acc r = Ok a ∧ (plain acc → plain r → plain a)) ∨
  (release_resources acc r = Raise TypeError ∧ ¬ (plain acc ∧ plain r)).
Proof.
  unfold release_resources. destruct (memory r) as [[w|w]|] eqn:Er, (memory acc) as [[h|h]|] eqn:Ea; cbn.
  all: try (left; eexists; split; [reflexivity|]; intros Ha Hr t Ht; cbn in Ht; simplify_eq; first [done|by apply (Hr w)|by apply (Ha h)|by apply (Ha t)|by apply (Hr t)]).
  all: right; split; [done|]; intros [Ha Hr]; first [by apply (Hr w)|by apply (Ha h)].
Qed.

Lemma combine_plain rs : Forall plain rs → ∀ acc, plain acc → ∃ r, foldR release_resources acc rs = Ok r.
Proof.
  induction 1 as [|r rs Hr Hrs IH]; intros acc Ha; cbn [foldR]; [eauto|].
  destruct (release_cases acc r) as [(a & -> & Hp)|[_ Hn]]; [apply IH; auto|tauto].
Qed.

Lemma text_memory_spec v r : resources v = Some r → ¬ text_memory v → plain r.
Proof. intros Er Hn t Ht. apply Hn. by exists r, t. Qed.

#[global] Instance text_memory_dec v : Decision (text_memory v).
Proof.
  refine (match resources v as o return resources v = o → Decision (text_memory v) with
          | Some (mkResources _ _ (Some (Text t))) => λ E, left _ | _ => λ E, right _ end eq_refl); unfold text_memory.
  all: first [by eexists _, t|by intros (? & ? & ? & ?); simplify_eq].
Defined.

(** Summing up what the vertices need fails only when a text is among the numbers. *)
Lemma required_cases vs : (∀ v, v ∈ vs → is_Some (resources v)) →
  (∃ r, required_capacity vs = Ok r) ∨ (required_capacity vs = Raise TypeError ∧ ∃ v, v ∈ vs ∧ text_memory v).
Proof.
  unfold required_capacity. set (f := λ (acc : Resources) v, _). intros Hr.
  assert (∀ acc, (∃ r, foldR f acc vs = Ok r) ∨ (foldR f acc vs = Raise TypeError ∧ (plain acc → ∃ v, v ∈ vs ∧ text_memory v))) as H.
  { induction vs as [|v vs IH]; intros acc; cbn [foldR]; [left; eauto|]. destruct (Hr v ltac:(set_solver)) as [r Er].
    assert (f acc v = release_resources acc r) as -> by (unfold f, need; by rewrite Er).
    assert (plain acc → ¬ plain r → ∃ w, w ∈ v :: vs ∧ text_memory w) as Hv.
    { intros _ Hn. destruct (decide (text_memory v)); [exists v; split; [by left|done]|]. exfalso. eauto using text_memory_spec. }
    destruct (release_cases acc r) as [(a & -> & Hp)|[-> Hn]]; [|right; split; [done|]; intros Ha; apply Hv; tauto].
    cbn [mbind res_bind]. destruct (IH ltac:(set_solver) a) as [?|[-> Hw]]; [by left|right; split; [done|]]. intros Ha.
    destruct (decide (text_memory v)); [exists v; split; [by left|done]|].
    destruct Hw as (w & Hw & Ht); [eauto using text_memory_spec|]. exists w. split; [by right|done]. }
  destruct (H (mkResources None None None)) as [?|[? Hw]]; [by left|right]. split; [done|]. by apply Hw.
Qed.

(** Once the capacities could be summed up, a strategy is a fold over the vertices it visits. *)
Lemma assign_resources_eq st ns g groups mp :
  mapR (group g) (dvalues (execution_vertices_by_job_vertex g)) = Ok groups → Forall nonneg_node ns →
  (∀ v, v ∈ concat groups → is_Some (resources v)) → _max_parallelism g = Some mp →
  (assign_resources (Some ns) g st = Raise TypeError ∧ ∃ v, v ∈ concat groups ∧ text_memory v) ∨
  assign_resources (Some ns) g st =
  foldR (strategy_step st) (new_assignment ns) (visit_order st (Z.to_nat mp) groups).
Proof.
  intros Eg Hnn Hr Emp. unfold assign_resources, operator_first, parallelism_first, get_max_par, total_capacity, combine.
  cbn [from_option_exn mbind res_bind].
  destruct (combine_plain (map node_resources ns)) with (acc := mkResources None None None) as [c Ec]; [|done|].
  { apply Forall_map. eapply Forall_impl; [exact Hnn|]. by intros n []. }
  rewrite Ec, Eg. cbn [mbind res_bind]. rewrite Emp.
  destruct (required_cases (concat groups) Hr) as [[c' ->]|[-> Ht]]; [right|left]; by destruct st.
Qed.

Lemma strategy_step_sound ns st :
  sound_step ns st (λ vs s, st = OperatorFirst → owned ns vs s) (strategy_step st).
Proof.
  destruct st.
  - intros vs v s Hi _ Hnew Hr.
    destruct (parallelism_first_sound ns vs v s Hi I Hnew Hr) as [?|[?|(s' & ? & ? & _)]]; [by left|by right; left|right; right].
    exists s'. by split_and!.
  - intros vs v s Hi HJ Hnew Hr.
    destruct (operator_first_sound ns vs v s Hi (HJ eq_refl) Hnew Hr) as [?|[?|(s' & ? & ? & ?)]]; [by left|by right; left|right; right].
    exists s'. by split_and!.
Qed.

Section graph_values.
Context (defaults : dict res_kind configured) (proposed : option (dict string (dict res_kind configured))) (jvs : list JobVertex).
Let wr := with_res defaults proposed.
Let groups := map (λ jv, map wr (instances jv)) jvs.

Lemma concat_map_map {A B C} (f : B → C) (h : A → list B) l :
  map f (concat (map h l)) = concat (map (λ x, map f (h x)) l).
Proof. by rewrite concat_map, map_map. Qed.

Lemma set_resources_values mp es bj :
  dvalues (execution_vertices_by_id (set_resources defaults proposed
    (mkEG (execution_vertices_by_id (expanded jvs mp)) es bj (Some mp)))) = concat groups.
Proof.
  unfold groups. rewrite <- concat_map_map. unfold set_resources, expanded, dvalues. simpl. by rewrite !map_map.
Qed.

Lemma set_resources_keys mp es bj :
  let g := set_resources defaults proposed (mkEG (execution_vertices_by_id (expanded jvs mp)) es bj (Some mp)) in
  dkeys (execution_vertices_by_id g) = map execution_vertex_id (dvalues (execution_vertices_by_id g)).
Proof. unfold set_resources, expanded, dkeys, dvalues. simpl. by rewrite !map_map. Qed.

Lemma groups_res v : v ∈ concat groups → is_Some (resources v).
Proof.
  unfold groups. rewrite <- concat_map_map. intros Hv. apply list_elem_of_fmap in Hv as (w & -> & _). simpl. eauto.
Qed.
End graph_values.

Lemma groups_length jg mp defaults proposed : get_max_parallelism jg = Ok mp →
  Forall (λ g : list ExecutionVertex, length g ≤ Z.to_nat mp)
    (map (λ jv, map (with_res defaults proposed) (instances jv)) (job_vertices jg)).
Proof.
  intros Emp. apply Forall_forall. intros g Hg. apply list_elem_of_fmap in Hg as (jv & -> & Hjv).
  unfold instances. rewrite !length_map, length_seq. pose proof (max_parallelism_ge jg mp jv Emp Hjv). lia.
Qed.

Lemma assignment_cases jg ns defaults proposed g0 st :
  runnable jg → from_job_graph jg = Ok g0 → Forall nonneg_node ns →
  let g := set_resources defaults proposed g0 in
  let vs := dvalues (execution_vertices_by_id g) in
  (assign_resources (Some ns) g st = Raise not_enough ∧
   ∃ us v s, v ∈ vs ∧ (v ∉ us) ∧ assign_inv ns us s ∧ stuck (eligible st) s v) ∨
  (assign_resources (Some ns) g st = Raise TypeError ∧ ∃ v, v ∈ vs ∧ text_memory v) ∨
  ∃ s, assign_resources (Some ns) g st = Ok s ∧ (∀ v, v ∈ vs → ¬ text_memory v) ∧
    dkeys (assigned s) ≡ₚ dkeys (execution_vertices_by_id g) ∧
    Forall (λ kv, kv.2 < length ns) (assigned s) ∧
    within_capacity ns vs (assigned s) ∧
    (st = OperatorFirst → ∀ v w i, v ∈ vs → w ∈ vs → on_node (assigned s) i v → on_node (assigned s) i w →
       vertex_id (job_vertex v) = vertex_id (job_vertex w)).
Proof.
  intros Hr E0 Hnn g vs. pose proof Hr as [Hv _ Hcl Hp _ Hne].
  destruct (from_job_graph_eq jg Hv Hp Hcl Hne) as (mp & Eg & Emp). rewrite E0 in Eg. injection Eg as ->.
  pose proof (set_resources_groups defaults proposed (job_vertices jg) mp
    (concat (map (edges_of (job_vertices jg)) (job_edges jg))) Hv) as Egr.
  set (groups := map _ (job_vertices jg)) in Egr.
  assert (vs = concat groups) as Evs by apply set_resources_values.
  assert (dkeys (execution_vertices_by_id g) = map execution_vertex_id vs) as Ekeys
    by apply set_resources_keys.
  assert (∀ v, v ∈ concat groups → is_Some (resources v)) as Hres by apply groups_res.
  assert (visit_order st (Z.to_nat mp) groups ≡ₚ vs) as Hperm.
  { rewrite Evs. destruct st; [|done]. apply columns_perm. by apply (groups_length jg). }
  assert (NoDup (map execution_vertex_id vs)) as Hnd.
  { rewrite Evs. unfold groups. rewrite <- concat_map_map, with_res_ids. by apply all_ids_NoDup. }
  destruct (assign_resources_eq st ns g groups mp Egr Hnn Hres eq_refl) as [[E (v & Hv' & Ht)]| ->].
  { right; left. split; [done|]. exists v. by rewrite Evs. }
  destruct (strategy_run ns st _ _ (visit_order st (Z.to_nat mp) groups) (strategy_step_sound ns st) Hnn)
    as [[E (us & v & s & Hin & Hrest)]|[[E (v & Hin & Ht)]|(s & E & Hi & HJ)]].
  - intros _ v i n0 Hin. by apply elem_of_nil in Hin.
  - by rewrite Hperm.
  - intros w. rewrite Hperm, Evs. apply Hres.
  - left. split; [done|]. exists us, v, s. by rewrite <- Hperm.
  - right; left. split; [done|]. exists v. by rewrite <- Hperm.
  - right; right. exists s. split_and!; [done|..].
    + intros v. rewrite <- Hperm. apply (ai_numbers _ _ _ Hi).
    + by rewrite (ai_keys _ _ _ Hi), Hperm, Ekeys.
    + apply (assign_inv_range _ _ _ Hi). by rewrite Hperm.
    + by apply (assign_inv_capacity _ _ _ _ Hi).
    + intros Est v w i Hv' Hw Hon1 Hon2. rewrite <- Hperm in Hv', Hw.
      destruct (ai_range _ _ _ Hi v Hv') as (i' & Hon & Hlt). unfold on_node in *. simplify_eq.
      apply lookup_lt_is_Some in Hlt as [n0 Hn0].
      pose proof (HJ eq_refl v i n0 Hv' Hon1 Hn0). pose proof (HJ eq_refl w i n0 Hw Hon2 Hn0). congruence.
Qed.

Lemma fetch_nodes_alive rns n : n ∈ _fetch_nodes rns → ∃ r, r ∈ rns ∧ Alive r = true ∧ n = fetched r.
Proof.
  induction rns as [|r rns IH]; intros Hn; [by apply elem_of_nil in Hn|]. cbn [_fetch_nodes] in Hn. destruct (Alive r) eqn:Ea.
  - apply elem_of_cons in Hn as [->|Hn]; [exists r; split_and!; [by left|done|done]|].
    destruct (IH Hn) as (r' & Hr & H1 & H2). exists r'. split_and!; [by right|done|done].
  - destruct (IH Hn) as (r' & Hr & H1 & H2). exists r'. split_and!; [by right|done|done].
Qed.

(** The amounts Ray reports are not negative. *)
Definition nonneg_report (r : ray_node) : Prop := ∀ name q, dget (ray_Resources r) name = Some q → (0 <= q)%Q.

Lemma fetch_nodes_nonneg rns : Forall nonneg_report rns → Forall nonneg_node (_fetch_nodes rns).
Proof.
  rewrite !Forall_forall. intros Hr n (r & Hin & _ & ->)%fetch_nodes_alive. split.
  - intros t. cbn. by destruct (dget _ "memory").
  - intros k q. destruct k; cbn; try apply (Hr r Hin). destruct (dget _ "memory") eqn:E; [|done]. cbn. intros [= <-]. by apply (Hr r Hin "memory").
Qed.


(** ** Concrete instances *)

Definition ex_jg : JobGraph :=
  mkGraph [mkVertex 1 2 VSOURCE (Plain "SourceOperator" SOURCE);
           mkVertex 2 3 VPROCESS (Plain "MapOperator" ONE_INPUT);
           mkVertex 3 1 VSINK (Plain "SinkOperator" ONE_INPUT)]
    [new_edge 1 2 PForward; new_edge 2 3 PForward].
Definition ex_defaults : dict res_kind configured := [(CPU, mkConfigured "1" 1%Q)].
Definition ex_nodes : list Node :=
  map (λ id, mkNode id (mkResources (Some 3%Q) None (Some (Number 8%Q)))) ["n0"; "n1"; "n2"].
(** The cluster with a node that has died. *)
Definition ex_cluster : list ray_node :=
  map (λ id, mkRayNode id [("CPU", 3%Q); ("memory", 8%Q)] true) ["n0"; "n1"] ++
  [mkRayNode "gone" [] false; mkRayNode "n2" [("CPU", 3%Q); ("memory", 8%Q)] true].

Lemma ex_jg_runnable : runnable ex_jg.
Proof.
  split; try (apply (bool_decide_unpack _); reflexivity).
  intros e He. repeat (apply elem_of_cons in He as [->|He]; [split; apply (bool_decide_unpack _); reflexivity|]).
  by apply elem_of_nil in He.
Qed.

Lemma ex_nodes_nonneg : Forall nonneg_node ex_nodes.
Proof.
  apply Forall_forall. intros n Hn.
  repeat (apply elem_of_cons in Hn as [->|Hn]; [split; [by intros t|intros [] q E; cbn in E; simplify_eq; apply Qle_bool_iff; reflexivity]|]).
  by apply elem_of_nil in Hn.
Qed.

Example ex_edges :
  (λ g, (map edge_id (execution_edges g), map ee_partition (input_edges g "2_0")))
    <$> from_job_graph ex_jg =
  Ok (["1_0-2_0"; "1_0-2_1"; "1_0-2_2"; "1_1-2_0"; "1_1-2_1"; "1_1-2_2";
         "2_0-3_0"; "2_1-3_0"; "2_2-3_0"], [PRoundRobin; PRoundRobin]).
Proof. vm_compute. reflexivity. Qed.

Lemma execution_graph_complete_witness :
  runnable ex_jg ∧
  ∃ g, from_job_graph ex_jg = Ok g ∧ NoDup (map edge_id (execution_edges g)).
Proof.
  split; [exact ex_jg_runnable|].
  destruct (execution_graph_complete ex_jg ex_jg_runnable) as (g & E & _ & _ & _ & Hnd).
  exists g. exact (conj E Hnd).
Defined.

(** The two strategies on three nodes of three CPUs. *)
Definition ex_assign (st : NodeAssignStrategy) : res (dict string nat) :=
  g ← from_job_graph ex_jg; assigned <$> assign_resources (Some ex_nodes) (set_resources ex_defaults None g) st.
Example ex_operator_first :
  ex_assign OperatorFirst = Ok [("1_0", 0); ("1_1", 0); ("2_0", 1); ("2_1", 1); ("2_2", 1); ("3_0", 2)].
Proof. vm_compute. reflexivity. Qed.
Example ex_parallelism_first :
  ex_assign ParallelismFirst = Ok [("1_0", 0); ("2_0", 0); ("3_0", 0); ("1_1", 1); ("2_1", 1); ("2_2", 1)].
Proof. vm_compute. reflexivity. Qed.

Lemma ex_cluster_nonneg : Forall nonneg_report ex_cluster.
Proof.
  apply Forall_forall. intros r Hr. repeat (apply elem_of_cons in Hr as [->|Hr];
    [intros name q E; cbn in E; repeat case_decide; simplify_eq; apply Qle_bool_iff; reflexivity|]). by apply elem_of_nil in Hr.
Qed.

(** A memory proposed for the map operator makes the assignment raise. *)
Definition ex_proposed : dict string (dict res_kind configured) := [("2_MapOperator", [(MEM, mkConfigured "1" 1%Q)])].

