(* ===== verification/Sinks.v ===== *)
(** * Buffering sinks
    ([SinkToCacheFunctionBase] and its two subclasses in
     [volga/streaming/api/function/function.py], [BulkSinkToCacheActorFunction]
     and [SingleEventSinkToCacheActorFunction] in
     [volga/storage/common/simple_in_memory_actor_storage.py], and
     [volga/streaming/api/stream/sink_cache_actor.py])

    The task thread appends to [self.buffer]; a dumper thread, and [close] on a
    third thread, hand the buffer to an actor and rebind [self.buffer] to a fresh
    one.  None of them takes a lock, so the model has a store of buffer objects
    and a small-step semantics whose actions are the single accesses; the whole
    methods are the runs in which a thread is not interrupted.

    What a sink needs of its buffer and of the actor is the class {!SinkBuffer};
    the three sinks are its instances. *)

From S2P Require Import Prelude PyDict PyDecimal KeyIndex Storage.

(** ** The interface between a sink, its buffer and the actor *)

Class SinkBuffer (X B D : Type) := {
  b_empty : B;
  b_len : B → nat;
  b_add : X → B → B;
  b_wf : B → Prop;
  (** the remote call with the buffer as argument *)
  b_deliver : B → D → D;
  (** the effect of one value on the actor, were it sent alone *)
  b_put : X → D → D;
}.

Class SinkBufferOk {X B D} (SB : SinkBuffer X B D) : Prop := {
  sb_wf_empty : b_wf b_empty;
  sb_wf_add x b : b_wf b → b_wf (b_add x b);
  sb_len b : b_len b = 0 ↔ b = b_empty;
  sb_deliver_empty d : b_deliver b_empty d = d;
  sb_deliver_add x b d : b_wf b → b_deliver (b_add x b) d = b_put x (b_deliver b d);
}.

(** ** The sink object *)

Section sink.
Context {X B D : Type} `{SB : SinkBuffer X B D}.

(** Who calls [dump_buffer_if_needed]: the dumper thread or [close]. *)
Inductive dumper := Loop | Closer.
Inductive dump_pc := Idle | Checked | Sent.
#[global] Instance dump_pc_eq_dec : EqDecision dump_pc.
Proof. solve_decision. Defined.

Record SinkFunction := mkSink {
  buffers : list B;              (* the buffer objects, by address *)
  buffer : nat;                  (* [self.buffer] *)
  cache_actor : D;
  running : bool;
  loaded : option (X * nat);     (* [sink] of the task thread has read [self.buffer] *)
  loop_pc : dump_pc;
  closer_pc : dump_pc;
}.

Definition new_sink (actor : D) : SinkFunction := mkSink [b_empty] 0 actor false None Idle Idle.
Definition current (s : SinkFunction) : B := default b_empty (buffers s !! buffer s).

Definition set_buffer (s : SinkFunction) (b : B) : SinkFunction :=
  mkSink (<[buffer s := b]> (buffers s)) (buffer s) (cache_actor s) (running s) (loaded s) (loop_pc s) (closer_pc s).
Definition set_running (b : bool) (s : SinkFunction) : SinkFunction :=
  mkSink (buffers s) (buffer s) (cache_actor s) b (loaded s) (loop_pc s) (closer_pc s).

(** [open]: the thread itself is started; what it does are [Loop]'s actions. *)
Definition open (s : SinkFunction) : SinkFunction := set_running true s.

(** [sink]: the value, already transformed, is put into [self.buffer]. *)
Definition sink (x : X) (s : SinkFunction) : SinkFunction := set_buffer s (b_add x (current s)).

(** [self.buffer = []] *)
Definition reset_buffer (s : SinkFunction) : SinkFunction :=
  mkSink (buffers s ++ [b_empty]) (length (buffers s)) (cache_actor s) (running s) (loaded s)
    (loop_pc s) (closer_pc s).
Definition send_buffer (s : SinkFunction) : SinkFunction :=
  mkSink (buffers s) (buffer s) (b_deliver (current s) (cache_actor s)) (running s) (loaded s)
    (loop_pc s) (closer_pc s).

Definition dump_buffer_if_needed (s : SinkFunction) : SinkFunction :=
  if decide (b_len (current s) = 0) then s else reset_buffer (send_buffer s).

(** One round of [_dump_buffer_loop]. *)
Definition dump_round (s : SinkFunction) : SinkFunction :=
  if running s then dump_buffer_if_needed s else s.

Definition close (s : SinkFunction) : SinkFunction := dump_buffer_if_needed (set_running false s).

(** ** Single accesses *)

Inductive access :=
| SinkLoad (x : X)
| SinkAppend
| DumpCheck (t : dumper)
| DumpSend (t : dumper)
| DumpReset (t : dumper).

Definition pc (t : dumper) (s : SinkFunction) : dump_pc :=
  match t with Loop => loop_pc s | Closer => closer_pc s end.
Definition set_pc (t : dumper) (p : dump_pc) (s : SinkFunction) : SinkFunction :=
  match t with
  | Loop => mkSink (buffers s) (buffer s) (cache_actor s) (running s) (loaded s) p (closer_pc s)
  | Closer => mkSink (buffers s) (buffer s) (cache_actor s) (running s) (loaded s) (loop_pc s) p
  end.
Definition set_loaded (o : option (X * nat)) (s : SinkFunction) : SinkFunction :=
  mkSink (buffers s) (buffer s) (cache_actor s) (running s) o (loop_pc s) (closer_pc s).

(** An action, where its thread is at that point. *)
Definition step (a : access) (s : SinkFunction) : option SinkFunction :=
  match a with
  | SinkLoad x => match loaded s with None => Some (set_loaded (Some (x, buffer s)) s) | Some _ => None end
  | SinkAppend =>
      match loaded s with
      | Some (x, r) =>
          Some (mkSink (<[r := b_add x (default b_empty (buffers s !! r))]> (buffers s)) (buffer s)
                  (cache_actor s) (running s) None (loop_pc s) (closer_pc s))
      | None => None
      end
  | DumpCheck t =>
      if decide (pc t s = Idle) then
        Some (if decide (b_len (current s) = 0) then s else set_pc t Checked s)
      else None
  | DumpSend t => if decide (pc t s = Checked) then Some (set_pc t Sent (send_buffer s)) else None
  | DumpReset t => if decide (pc t s = Sent) then Some (set_pc t Idle (reset_buffer s)) else None
  end.

Fixpoint steps (l : list access) (s : SinkFunction) : option SinkFunction :=
  match l with [] => Some s | a :: l' => s' ← step a s; steps l' s' end.
End sink.

Arguments SinkFunction : clear implicits.
Arguments access : clear implicits.
Arguments new_sink {X B D _} _.

(** ** The instances *)

(** [SinkCacheActor] *)
Record SinkCacheActor (A K V : Type) := mkSinkCache { _list : list A; _dict : dict K V }.
Arguments mkSinkCache {A K V} _ _.
Arguments _list {A K V} _.
Arguments _dict {A K V} _.

Section cache_actor.
Context {A K V : Type} `{!EqDecision K}.
Abbreviation SCA := (SinkCacheActor A K V).

Definition new_sink_cache : SCA := mkSinkCache [] [].
Definition append_to_list (v : A) (s : SCA) : SCA := mkSinkCache (_list s ++ [v]) (_dict s).
Definition extend_list (vals : list A) (s : SCA) : SCA := mkSinkCache (_list s ++ vals) (_dict s).
Definition set_item (kv : K * V) (s : SCA) : SCA := mkSinkCache (_list s) (dset (_dict s) kv.1 kv.2).
Definition extend_dict (d : dict K V) (s : SCA) : SCA := mkSinkCache (_list s) (dmerge (_dict s) d).

(** [SinkToCacheListFunction] *)
#[global] Instance list_sink : SinkBuffer A (list A) SCA := {
  b_empty := []; b_len := length; b_add x b := b ++ [x]; b_wf _ := True;
  b_deliver := extend_list; b_put := append_to_list;
}.

(** [SinkToCacheDictFunction], its values already split by [_key_value_extractor] *)
#[global] Instance dict_sink : SinkBuffer (K * V) (dict K V) SCA := {
  b_empty := []; b_len := length; b_add kv b := dset b kv.1 kv.2; b_wf := dict_wf;
  b_deliver := extend_dict; b_put := set_item;
}.

#[global] Instance list_sink_ok : SinkBufferOk list_sink.
Proof.
  split; simpl; try done.
  - intros b. by destruct b.
  - intros [l d]. unfold extend_list. simpl. by rewrite app_nil_r.
  - intros x b [l d] _. unfold extend_list, append_to_list. simpl. by rewrite (assoc_L (++)).
Qed.

Lemma dset_swap (m : dict K V) k v k2 v2 :
  k ∈ dkeys m → k ≠ k2 → dset (dset m k2 v2) k v = dset (dset m k v) k2 v2.
Proof.
  unfold dkeys. induction m as [|[k' v'] m IH]; simpl; [set_solver|]. intros Hin Hne.
  destruct (decide (k2 = k')) as [->|], (decide (k = k')) as [->|]; simpl;
    repeat ((rewrite decide_True by done) || (rewrite decide_False by done)); try done.
  f_equal. apply IH; [set_solver|done].
Qed.

Lemma dset_comm_dmerge (d b : dict K V) k v :
  dict_wf b → dmerge d (dset b k v) = dset (dmerge d b) k v.
Proof.
  unfold dmerge, dict_wf, dkeys. revert d. induction b as [|[k' v'] b IH]; intros d Hnd; simpl; [done|].
  simpl in Hnd. apply NoDup_cons in Hnd as [Hn Hnd]. case_decide as Hk; simpl; [|by apply IH].
  subst k'. clear IH. induction b as [|[k2 v2] b IHb] using rev_ind; simpl; [by rewrite dset_dset|].
  rewrite fmap_app in Hn, Hnd. rewrite !foldl_app. simpl. rewrite IHb.
  - symmetry. apply dset_swap; [|set_solver].
    change (k ∈ dkeys (dmerge (dset d k v') b)). apply dmem_elem. unfold dmem. rewrite dget_dmerge.
    + rewrite dget_dset_eq. by destruct (dget b k).
    + by apply NoDup_app in Hnd as (? & _ & _).
  - set_solver.
  - by apply NoDup_app in Hnd as (? & _ & _).
Qed.

#[global] Instance dict_sink_ok : SinkBufferOk dict_sink.
Proof.
  split; simpl.
  - apply dict_wf_nil.
  - intros [k v] b Hb. by apply dset_wf.
  - intros b. by destruct b.
  - by intros [l d].
  - intros [k v] b [l d] Hb. unfold extend_dict, set_item. simpl. by rewrite dset_comm_dmerge.
Qed.
End cache_actor.

(** ** The sinks of the in-memory storage *)

(** [BulkSinkToCacheActorFunction]: the buffer is a list of records; the actor's side is the log of
    the records it was called with. *)
#[global] Instance bulk_sink_buffer {A} : SinkBuffer A (list A) (list A) := {
  b_empty := []; b_len := length; b_add x b := b ++ [x]; b_wf _ := True;
  b_deliver b log := log ++ b; b_put x log := log ++ [x];
}.
#[global] Instance bulk_sink_ok {A} : SinkBufferOk (@bulk_sink_buffer A).
Proof.
  split; simpl; try done.
  - intros b. by destruct b.
  - intros d. by rewrite app_nil_r.
  - intros x b d _. by rewrite (assoc_L (++)).
Qed.

Section storage_sinks.
Context {PV : Type} `{!PyCompare (dict string PV)} (py_str : PV → string) `{!SetOrder}.
Context (datetime_str_to_ts : PV → res dec).

Record OutputSchema := mkOutputSchema { schema_keys : list string; schema_timestamp : string }.
Abbreviation event := (dict string PV).
Abbreviation stored_record := (dict string PV * dec * dict string PV)%type.

(** The keys and the timestamp taken from a value by [sink]. *)
Definition event_record (sch : OutputSchema) (value : event) : res stored_record :=
  kvs ← mapR (λ k, v ← dgetitem value k; Ok (k, v)) (schema_keys sch);
  t ← dgetitem value (schema_timestamp sch);
  ts ← datetime_str_to_ts t;
  Ok (dict_of kvs, ts, value).

(** [BulkSinkToCacheActorFunction.sink] *)
Definition bulk_sink (sch : OutputSchema) (value : event)
    : M (SinkFunction stored_record (list stored_record) (list stored_record)) () := λ s,
  match event_record sch value with
  | Ok r => (Ok (), sink r s)
  | Raise e => (Raise e, s)
  end.

(** [SingleEventSinkToCacheActorFunction.sink]: the result of the remote call is not awaited, so an
    exception of the actor stays there. *)
Definition single_event_sink (dataset_name : string) (sch : OutputSchema) (value : event)
    : M (CacheActor event) () := λ actor,
  match event_record sch value with
  | Ok r => (Ok (), (put_records py_str dataset_name [r] actor).2)
  | Raise e => (Raise e, actor)
  end.

Inductive sink_class := SingleEventSink | BulkSink.
(** [SimpleInMemoryActorStorage.gen_sink_function] *)
Definition gen_sink_function (hot : bool) : sink_class := if hot then SingleEventSink else BulkSink.
End storage_sinks.

(** ** Lemmas *)

Section sink_lemmas.
Context {X B D : Type} `{SB : SinkBuffer X B D} `{!SinkBufferOk SB}.
Abbreviation SF := (SinkFunction X B D).

(** [self.buffer] names a buffer object. *)
Definition sink_ok (s : SF) : Prop := buffer s < length (buffers s) ∧ Forall b_wf (buffers s).

(** What the actor will have received once the current buffer is dumped. *)
Definition total (s : SF) : D := b_deliver (current s) (cache_actor s).

Lemma new_sink_ok (d : D) : sink_ok (new_sink d) ∧ total (new_sink d) = d.
Proof.
  split; [|unfold total; apply sb_deliver_empty].
  split; simpl; [lia|]. apply Forall_singleton, sb_wf_empty.
Qed.

Lemma current_wf (s : SF) : sink_ok s → b_wf (current s).
Proof.
  intros [Hlt Hwf]. unfold current. apply lookup_lt_is_Some in Hlt as [b Hb]. rewrite Hb. simpl.
  by eapply Forall_lookup_1 in Hwf.
Qed.

Lemma sink_spec (s : SF) x :
  sink_ok s → sink_ok (sink x s) ∧ total (sink x s) = b_put x (total s).
Proof.
  intros Hok. pose proof (current_wf s Hok) as Hwf. destruct Hok as [Hlt Hall]. unfold total, sink, set_buffer, current.
  simpl. rewrite list_lookup_insert_eq by done. simpl. split.
  - split; simpl; [by rewrite length_insert|]. apply Forall_insert; [done|]. by apply sb_wf_add.
  - by apply sb_deliver_add.
Qed.

Lemma current_reset (s : SF) : current (reset_buffer s) = b_empty.
Proof. unfold current. simpl. by rewrite lookup_app_r, Nat.sub_diag by lia. Qed.

Lemma dump_spec (s : SF) :
  sink_ok s → let s' := dump_buffer_if_needed s in
  sink_ok s' ∧ total s' = total s ∧ current s' = b_empty.
Proof.
  intros Hok. unfold dump_buffer_if_needed. destruct (decide (b_len (current s) = 0)) as [E|E]; cbn zeta.
  - by apply sb_len in E.
  - destruct Hok as [Hlt Hall]. split_and!.
    + split; simpl; [rewrite length_app; simpl; lia|]. apply Forall_app. split; [done|].
      apply Forall_singleton, sb_wf_empty.
    + unfold total at 1. rewrite current_reset, sb_deliver_empty. done.
    + apply current_reset.
Qed.

(** The methods, called one after the other. *)
Inductive call := CSink (x : X) | CDump.
Definition do_call (s : SF) (c : call) : SF :=
  match c with CSink x => sink x s | CDump => dump_round s end.
Definition sunk (cs : list call) : list X := omap (λ c, match c with CSink x => Some x | CDump => None end) cs.

Lemma calls_spec cs : ∀ s, sink_ok s →
  sink_ok (foldl do_call s cs) ∧ total (foldl do_call s cs) = foldl (λ d x, b_put x d) (total s) (sunk cs).
Proof.
  induction cs as [|c cs IH]; intros s Hok; simpl; [done|]. destruct c as [x|]; simpl.
  - destruct (sink_spec s x Hok) as [Hok' E]. destruct (IH _ Hok') as [? ->]. by rewrite E.
  - unfold dump_round. destruct (running s); [|by apply IH].
    destruct (dump_spec s Hok) as (Hok' & E & _). destruct (IH _ Hok') as [? ->]. by rewrite E.
Qed.

(** The methods are the uninterrupted runs of their accesses. *)
Lemma sink_steps (s : SF) x : loaded s = None → steps [SinkLoad x; SinkAppend] s = Some (sink x s).
Proof.
  intros E. destruct s as [bs b d r l p q]. simpl in E. subst l. simpl. unfold set_loaded, sink, set_buffer, current.
  done.
Qed.

Lemma dump_steps (s : SF) t : pc t s = Idle →
  steps (if decide (b_len (current s) = 0) then [DumpCheck t] else [DumpCheck t; DumpSend t; DumpReset t]) s
  = Some (dump_buffer_if_needed s).
Proof.
  intros E. unfold dump_buffer_if_needed.
  destruct s as [bs b d r l p q]. destruct (decide (b_len (current _) = 0)) as [El|El];
    destruct t; simpl in E; subst; simpl;
    rewrite ?decide_True by done; simpl;
    repeat (first [rewrite (decide_True (P := b_len _ = 0)) by exact El
                  |rewrite (decide_False (P := b_len _ = 0)) by exact El]); simpl; done.
Qed.
End sink_lemmas.

(** ** Interleavings with one dumper *)

Definition loads {X} (l : list (access X)) : list X :=
  omap (λ a, match a with SinkLoad x => Some x | _ => None end) l.
Definition no_closer {X} (a : access X) : Prop :=
  match a with DumpCheck Closer | DumpSend Closer | DumpReset Closer => False | _ => True end.

Section interleavings.
Context {A : Type}.
Abbreviation SF := (SinkFunction A (list A) (list A)).

(** [xs] are the values whose [sink] has begun, [ys] those already appended somewhere. *)
Record race_inv (xs ys : list A) (s : SF) : Prop := {
  ri_pending : xs = ys ++ match loaded s with Some (x, _) => [x] | None => [] end;
  ri_addr : buffer s < length (buffers s);
  ri_loaded : ∀ x r, loaded s = Some (x, r) → r < length (buffers s);
  ri_sub : (cache_actor s ++ if decide (loop_pc s = Sent) then [] else current s) `sublist_of` ys;
}.

Lemma race_append xs ys x r (s : SF) : race_inv xs ys s → loaded s = Some (x, r) → ∀ s',
  step SinkAppend s = Some s' → race_inv xs (ys ++ [x]) s'.
Proof.
  intros [Hp Ha Hl Hs] El s' Es. simpl in Es. rewrite El in Es. injection Es as <-. rewrite El in Hp. split; simpl.
  - by rewrite app_nil_r.
  - by rewrite length_insert.
  - done.
  - destruct (decide (loop_pc s = Sent)); [by apply sublist_inserts_r|].
    unfold current in *. simpl. destruct (decide (r = buffer s)) as [->|Hr].
    + rewrite list_lookup_insert_eq by done. simpl. rewrite (assoc_L (++)). by apply sublist_app.
    + rewrite list_lookup_insert_ne by done. by apply sublist_inserts_r.
Qed.

Lemma race_step xs ys a (s : SF) s' : race_inv xs ys s → no_closer a → step a s = Some s' →
  ∃ ys', race_inv (xs ++ loads [a]) ys' s'.
Proof.
  intros Hinv Ha Es. destruct a as [x| |t|t|t].
  - simpl in Es. pose proof Hinv as [Hp Hb Hl Hs]. destruct (loaded s) eqn:El; [done|]. injection Es as <-.
    exists ys. split; simpl; [by rewrite Hp, app_nil_r|done| |done]. by intros ?? [= <- <-].
  - simpl in Es. destruct (loaded s) as [[x r]|] eqn:El; [|done]. exists (ys ++ [x]). rewrite app_nil_r.
    apply (race_append xs ys x r s Hinv El). simpl. by rewrite El.
  - destruct t; [|done]. pose proof Hinv as [Hp Hb Hl Hs]. exists ys. rewrite app_nil_r. cbn [step pc] in Es.
    destruct (decide (loop_pc s = Idle)) as [Ei|]; [|done]. rewrite (decide_False (P := loop_pc s = Sent)) in Hs by congruence.
    destruct (decide (b_len (current s) = 0)); injection Es as <-; [done|]. by split.
  - destruct t; [|done]. pose proof Hinv as [Hp Hb Hl Hs]. exists ys. rewrite app_nil_r. cbn [step pc] in Es.
    destruct (decide (loop_pc s = Checked)) as [Ei|]; [|done].
    rewrite (decide_False (P := loop_pc s = Sent)) in Hs by congruence. injection Es as <-.
    split; simpl; try done. by rewrite app_nil_r.
  - destruct t; [|done]. pose proof Hinv as [Hp Hb Hl Hs]. exists ys. rewrite app_nil_r. cbn [step pc] in Es.
    destruct (decide (loop_pc s = Sent)) as [Ei|]; [|done]. injection Es as <-. rewrite app_nil_r in Hs.
    split; cbn [set_pc reset_buffer loaded buffer buffers cache_actor loop_pc]; [done|rewrite length_app; simpl; lia| |].
    + intros x r E. specialize (Hl x r E). rewrite length_app. lia.
    + rewrite decide_False by done. change (current _) with (current (reset_buffer s)).
      by rewrite current_reset, app_nil_r.
Qed.

Lemma race_steps l : ∀ xs ys (s : SF) s', race_inv xs ys s → Forall no_closer l → steps l s = Some s' →
  ∃ ys', race_inv (xs ++ loads l) ys' s'.
Proof.
  induction l as [|a l IH]; intros xs ys s s' Hinv Hno Es.
  - injection Es as <-. simpl. rewrite app_nil_r. eauto.
  - apply Forall_cons in Hno as [Ha Hno]. cbn [steps] in Es.
    destruct (step a s) as [s1|] eqn:E1; [|done]. simpl in Es.
    destruct (race_step _ _ _ _ _ Hinv Ha E1) as [ys1 H1].
    destruct (IH _ _ _ _ H1 Hno Es) as [ys2 H2]. exists ys2.
    change (a :: l) with ([a] ++ l). unfold loads in *. by rewrite omap_app, (assoc_L (++)).
Qed.
End interleavings.

(** ** Batches in the store *)

Section batches.
Context {V : Type} `{!PyCompare V} {KV : Type} (py_str : KV → string) `{Hso : SetOrderOk}.
Abbreviation actor := (CacheActor V).
Abbreviation records := (list (dict string KV * dec * V)).

(** A batch that goes through can be split. *)
Lemma put_records_app name (b1 b2 : records) (s s' : actor) :
  actor_inv s → put_records py_str name (b1 ++ b2) s = (Ok (), s') →
  ∃ s1, put_records py_str name b1 s = (Ok (), s1) ∧ actor_inv s1 ∧
        put_records py_str name b2 s1 = (Ok (), s').
Proof.
  intros Hs E. unfold put_records in *. unfold mbind, M_bind in *.
  destruct (ensure_dataset_inv name s Hs) as (Ee & Hs0 & Hd). rewrite Ee in *.
  rewrite for_each_app in E.
  pose proof (for_each_inv (λ s, actor_inv s ∧ has_dataset name s) (put_record py_str name) b1 _
    (λ x s0 H, put_record_inv py_str name x s0 (proj1 H) (proj2 H)) (conj Hs0 Hd)) as [H1 H2].
  destruct (for_each b1 _ _) as [[[]|e] s1]; [|done]. simpl in H1, H2. exists s1. split_and!; [done|done|].
  destruct (actor_inv_lookup _ _ H1 H2) as (pk & idx & Hp & Hi & _).
  unfold ensure_dataset. by rewrite Hp, Hi.
Qed.

Definition put_batches name (s : actor) (batches : list records) : actor :=
  foldl (λ s b, (put_records py_str name b s).2) s batches.

Lemma put_batches_concat name (batches : list records) : ∀ (s s' : actor),
  batches ≠ [] → actor_inv s → put_records py_str name (concat batches) s = (Ok (), s') →
  put_batches name s batches = s'.
Proof.
  induction batches as [|b batches IH]; intros s s' Hne Hs E; [done|]. unfold put_batches. cbn [foldl concat] in *.
  destruct (decide (batches = [])) as [->|Hb].
  - simpl in *. rewrite app_nil_r in E. by rewrite E.
  - apply put_records_app in E as (s1 & E1 & H1 & E2); [|done]. rewrite E1. by apply IH.
Qed.
End batches.

(** ** Theorems *)

(** Hot and cold sinks agree: as long as no record is refused, how the records are cut into
    batches (one by one, or by the dumper) does not change the store. *)
Theorem batching_irrelevant {V} `{!PyCompare V} {KV} (py_str : KV → string) `{SetOrderOk}
    name (batches1 batches2 : list (list (dict string KV * dec * V))) (s s' : CacheActor V) :
  actor_inv s → batches1 ≠ [] → batches2 ≠ [] → concat batches1 = concat batches2 →
  put_records py_str name (concat batches1) s = (Ok (), s') →
  put_batches py_str name s batches1 = put_batches py_str name s batches2.
Proof.
  intros Hs H1 H2 E Ep. rewrite (put_batches_concat py_str name batches1 s s') by done.
  symmetry. apply put_batches_concat; [done..|]. by rewrite <- E.
Qed.

(** C27. Calls that do not overlap lose nothing: for every sequence of [sink] calls and dumper rounds
    on an opened sink, followed by [close], the actor has received exactly the values sunk, each
    once and in order (for the dictionary sink: every key has its latest value), and the buffer is
    empty. *)
Theorem sink_exactly_once {X B D} `{SB : SinkBuffer X B D} `{!SinkBufferOk SB} (actor : D) (cs : list (call (X := X))) :
  let s := close (foldl do_call (open (new_sink actor)) cs) in
  cache_actor s = foldl (λ d x, b_put x d) actor (sunk cs) ∧ current s = b_empty.
Proof.
  destruct (new_sink_ok (SB := SB) actor) as [Hok Et].
  assert (sink_ok (open (new_sink (X := X) actor))) as Hok' by exact Hok.
  destruct (calls_spec cs _ Hok') as [Hok2 E]. unfold close.
  set (s1 := foldl do_call _ cs) in *.
  assert (sink_ok (set_running false s1)) as Hok3 by exact Hok2.
  destruct (dump_spec _ Hok3) as (_ & Ed & Ec). cbn zeta. split; [|exact Ec].
  unfold total in Ed at 1. rewrite Ec, sb_deliver_empty in Ed. rewrite Ed.
  transitivity (total s1); [done|]. rewrite E. f_equal. exact Et.
Qed.

(** Without a lock, but with the dumper thread only: in every interleaving of the single accesses
    of [sink] and of the dumper, the records handed to the actor are a subsequence of the
    records sunk - nothing is duplicated, invented or reordered. *)
Theorem sink_interleaving_sublist {A} (l : list (access A)) (s : SinkFunction A (list A) (list A)) :
  Forall no_closer l → steps l (open (new_sink [])) = Some s → cache_actor s `sublist_of` loads l.
Proof.
  intros Hno Es. destruct (race_steps l [] [] (open (new_sink [])) s) as [ys [Hp _ _ Hs]]; [|done..|].
  - split; simpl; [done|lia|done|constructor].
  - simpl in Hp. rewrite Hp. apply sublist_inserts_r. etransitivity; [|exact Hs]. by apply sublist_inserts_r.
Qed.

(** C38. The missing lock shows: in any state with a non-empty buffer a value sunk between the remote
    call and the rebinding of [self.buffer] reaches neither the actor nor the new buffer, and a
    [close] that runs while the dumper thread is between the two sends the whole buffer a second
    time. *)
Theorem sink_race_loses_and_repeats {X B D} `{SB : SinkBuffer X B D} `{!SinkBufferOk SB}
    (s : SinkFunction X B D) y :
  sink_ok s → loaded s = None → loop_pc s = Idle → closer_pc s = Idle → current s ≠ b_empty →
  (∃ s', steps [DumpCheck Loop; DumpSend Loop; SinkLoad y; SinkAppend; DumpReset Loop] s = Some s' ∧
     cache_actor s' = b_deliver (current s) (cache_actor s) ∧ current s' = b_empty) ∧
  (∃ s', steps [DumpCheck Loop; DumpSend Loop; DumpCheck Closer; DumpSend Closer] s = Some s' ∧
     cache_actor s' = b_deliver (current s) (b_deliver (current s) (cache_actor s))).
Proof.
  destruct s as [bs b d r l p q]. intros Hok El Ep Eq Hne. simpl in El, Ep, Eq. subst l p q.
  assert (b_len (current (mkSink bs b d r None Idle Idle)) ≠ 0) as Hlen by (by rewrite sb_len).
  split.
  - simpl. rewrite (decide_False (P := b_len _ = 0)) by exact Hlen. simpl. eexists. split; [reflexivity|].
    split; [done|]. unfold current. simpl. by rewrite lookup_app_r, Nat.sub_diag by lia.
  - simpl. rewrite (decide_False (P := b_len _ = 0)) by exact Hlen. simpl.
    rewrite (decide_False (P := b_len _ = 0)) by exact Hlen. simpl. eexists. split; [reflexivity|done].
Qed.

(** ** Concrete instances *)

Lemma sink_exactly_once_witness :
  let s := close (foldl do_call (open (new_sink (new_sink_cache (A := nat) (K := string) (V := nat))))
             [CSink ("a", 1); CSink ("b", 2); CDump; CSink ("a", 3)]) in
  _dict (cache_actor s) = [("a", 3); ("b", 2)] ∧ current s = [].
Proof.
  destruct (sink_exactly_once (SB := dict_sink (A := nat)) new_sink_cache
    [CSink ("a", 1); CSink ("b", 2); CDump; CSink ("a", 3)]) as [E Hc].
  split; [etransitivity; [exact (f_equal _dict E)|reflexivity]|exact Hc].
Defined.

Definition ex_schedule : list (access nat) :=
  [SinkLoad 1; SinkAppend; DumpCheck Loop; DumpSend Loop; SinkLoad 2; DumpReset Loop; SinkAppend;
   SinkLoad 3; SinkAppend; DumpCheck Loop; DumpSend Loop].
Definition ex_final : SinkFunction nat (list nat) (list nat) :=
  default (new_sink []) (steps ex_schedule (open (new_sink []))).
Lemma sink_interleaving_sublist_witness :
  steps ex_schedule (open (new_sink [])) = Some ex_final ∧ cache_actor ex_final = [1; 3] ∧
  cache_actor ex_final `sublist_of` loads ex_schedule.
Proof.
  assert (steps ex_schedule (open (new_sink [])) = Some ex_final) as E by (vm_compute; reflexivity).
  split; [exact E|]. split; [vm_compute; reflexivity|].
  apply (sink_interleaving_sublist ex_schedule ex_final); [by repeat constructor|exact E].
Defined.

Lemma sink_race_loses_and_repeats_witness :
  ∃ s', steps [DumpCheck Loop; DumpSend Loop; SinkLoad 8; SinkAppend; DumpReset Loop]
          (sink 7 (new_sink (X := nat) [])) = Some s' ∧ cache_actor s' = [7] ∧ current s' = [].
Proof.
  destruct (sink_race_loses_and_repeats (sink 7 (new_sink (X := nat) [])) 8) as [H _];
    [split; simpl; [lia|by repeat constructor]|done..|]. exact H.
Defined.
