(* ===== verification/Workers.v ===== *)
(** * Workers, channels and transfer actors
    ([volga/streaming/runtime/master/worker_lifecycle_controller.py],
     [volga/streaming/runtime/master/transfer_controller.py],
     [volga/streaming/runtime/network/channel.py],
     [volga/streaming/runtime/network/remote/transfer_actor.py])

    The master creates one worker per execution vertex, asks every worker where
    Ray placed it, makes a channel for every execution edge - local when both ends
    are on one node, else remote, with a port per pair of nodes - and one transfer
    actor per node with remote channels.  What Ray answers ([get_host_info], the
    start results) is a parameter. *)

From S2P Require Import Prelude PyDict Operators JobGraph Execution.
From Stdlib Require Import Ascii.

(** ** Channels *)

Definition IPC_DIR : string := "/tmp/volga_ipc".

Definition gen_ipc_addr (job_name channel_id : string) (node_id : option string) : string :=
  let path := "ipc://" +:+ IPC_DIR +:+ "/" +:+ job_name in
  match node_id with
  | None => path +:+ "/ipc_" +:+ channel_id
  | Some n => path +:+ "/ipc_" +:+ channel_id +:+ "_" +:+ n
  end.

Record RemoteInfo := mkRemote {
  source_local_ipc_addr : string;
  source_node_ip : string;
  source_node_id : string;
  target_local_ipc_addr : string;
  target_node_ip : string;
  target_node_id : string;
  port : Z;
}.

Inductive Channel :=
| LocalChannel (id ipc_addr : string)
| RemoteChannel (id : string) (info : RemoteInfo).

Definition channel_id (c : Channel) : string :=
  match c with LocalChannel i _ => i | RemoteChannel i _ => i end.

(** ** Ports *)

Definition port_pool_per_node : list Z := [1234; 1235; 1236; 1237]%Z.

(** [reserved_node_ports[conn_id] = (port, node_id)] *)
Abbreviation reservations := (dict string (Z * string)).

Definition port_used (reserved : reservations) (node : string) (p : Z) : bool :=
  existsb (λ e : string * (Z * string), bool_decide (node = e.2.2) && bool_decide (e.2.1 = p)) reserved.

Definition gen_port (conn_id node : string) (reserved : reservations) : res (Z * reservations) :=
  match dget reserved conn_id with
  | Some (p, _) => Ok (p, reserved)
  | None =>
      match list_find (λ p, port_used reserved node p = false) port_pool_per_node with
      | None => Raise (RuntimeError "Port pool is too small for node, all used")
      | Some (_, p) => Ok (p, dset reserved conn_id (p, node))
      end
  end.

(** ** Creating the workers *)

Record WorkerNodeInfo := mkWNI { node_ip : string; wni_node_id : string }.

(** [isinstance(operator, ChainedOperator)] looks at the tail, else at the vertex type. *)
Definition is_sink (jv : JobVertex) : bool :=
  match stream_operator jv with
  | Chained _ ops => match last ops with Some (Plain c _) => bool_decide (c = "SinkOperator") | _ => false end
  | Plain _ _ => bool_decide (vertex_type jv = VSINK)
  end.

Record Worker := mkWorker {
  w_vertex : ExecutionVertex;
  w_host : string;             (* node the worker is pinned to *)
  w_options : Resources;       (* num_cpus, num_gpus and memory passed to Ray *)
  w_stats : bool;              (* registered with the stats manager *)
}.

Definition create_worker (ns : list Node) (node_assignment : dict string nat) (v : ExecutionVertex)
    : res Worker :=
  i ← from_option_exn (RuntimeError "Can not find vertex_id in node assignment")
        (dget node_assignment (execution_vertex_id v));
  host_node ← from_option_exn IndexError (ns !! i);
  r ← from_option_exn AttributeError (resources v);
  Ok (mkWorker v (node_id host_node) r
        (is_sink (job_vertex v) || bool_decide (vertex_type (job_vertex v) = VSOURCE))).

(** [create_workers]: the assignment, one worker per vertex, then where each of them runs. *)
Definition create_workers (ns : list Node) (st : NodeAssignStrategy) (g : ExecutionGraph)
    (get_host_info : string → string * string)
    : res (list Worker * dict string WorkerNodeInfo) :=
  a ← assign_resources (Some ns) g st;
  ws ← mapR (create_worker ns (assigned a)) (dvalues (execution_vertices_by_id g));
  Ok (ws, map (λ v, (v, let '(n, ip) := get_host_info v in mkWNI ip n)) (dkeys (execution_vertices_by_id g))).

(** ** Connecting the workers *)

Record connections := mkConn {
  reserved_node_ports : reservations;
  (* in and out channels of every node *)
  remote_channels_per_node : dict string (list (string * RemoteInfo) * list (string * RemoteInfo));
  channels : list Channel;
}.
Definition new_connections (reserved : reservations) : connections := mkConn reserved [] [].

Abbreviation per_node := (dict string (list (string * RemoteInfo) * list (string * RemoteInfo))).

Definition add_out (node : string) (c : string * RemoteInfo) (d : per_node) : per_node :=
  let io := default ([], []) (dget d node) in dset d node (io.1, io.2 ++ [c]).
Definition add_in (node : string) (c : string * RemoteInfo) (d : per_node) : per_node :=
  let io := default ([], []) (dget d node) in dset d node (io.1 ++ [c], io.2).

(** The body of the loop over the edges. *)
Definition connect_edge (job_name : string) (infos : dict string WorkerNodeInfo) (s : connections)
    (e : ExecutionEdge) : res connections :=
  src ← from_option_exn (RuntimeError "No worker network info") (dget infos (source_execution_vertex e));
  tgt ← from_option_exn (RuntimeError "No worker network info") (dget infos (target_execution_vertex e));
  if decide (wni_node_id src = wni_node_id tgt) then
    Ok (mkConn (reserved_node_ports s) (remote_channels_per_node s)
          (channels s ++ [LocalChannel (edge_id e) (gen_ipc_addr job_name (edge_id e) None)]))
  else
    let sn := wni_node_id src in let tn := wni_node_id tgt in
    pr ← gen_port (sn +:+ "-" +:+ tn) tn (reserved_node_ports s);
    let info := mkRemote (gen_ipc_addr job_name (edge_id e) (Some sn)) (node_ip src) sn
                  (gen_ipc_addr job_name (edge_id e) (Some tn)) (node_ip tgt) tn pr.1 in
    Ok (mkConn pr.2
          (add_in tn (edge_id e, info) (add_out sn (edge_id e, info) (remote_channels_per_node s)))
          (channels s ++ [RemoteChannel (edge_id e) info])).

(** ** Transfer actors *)

Record TransferActor := mkTransfer {
  t_name : string;
  t_receiver : option (list (string * RemoteInfo));
  t_sender : option (list (string * RemoteInfo));
}.

(** [TransferActor.__init__]: a sender for the out channels, a receiver for the in channels. *)
Definition new_transfer_actor (name : string) (ins outs : list (string * RemoteInfo)) : TransferActor :=
  mkTransfer name (match ins with [] => None | _ => Some ins end) (match outs with [] => None | _ => Some outs end).

(** The two loops that check that the channels of a node point to it. *)
Fixpoint check_channels (node : string) (ip : option string) (ends : list (string * string)) (msg : string)
    : res (option string) :=
  match ends with
  | [] => Ok ip
  | (n, i) :: ends' =>
      let ip' := default i ip in
      if decide (node ≠ n ∨ ip' ≠ i) then Raise (RuntimeError msg)
      else check_channels node (Some ip') ends' msg
  end.

Definition target_end (c : string * RemoteInfo) : string * string := (target_node_id c.2, target_node_ip c.2).
Definition source_end (c : string * RemoteInfo) : string * string := (source_node_id c.2, source_node_ip c.2).

Definition create_transfer_actor (actors : dict string TransferActor)
    (entry : string * (list (string * RemoteInfo) * list (string * RemoteInfo)))
    : res (dict string TransferActor) :=
  let '(node, (ins, outs)) := entry in
  if dmem node actors then Raise (RuntimeError "Duplicate node_id during transfer actors init") else
  ip ← check_channels node None (map target_end ins) "Mismatched in channels for transfer actor";
  ip ← check_channels node ip (map source_end outs) "Mismatched out channels for transfer actor";
  Ok (dset actors node (new_transfer_actor ("transfer-" +:+ default "None" ip) ins outs)).

Definition create_transfer_actors (d : per_node) (actors : dict string TransferActor)
    : res (dict string TransferActor) := foldR create_transfer_actor actors d.

(** [connect_and_init_workers]: the channels, then the transfer actors. *)
Definition connect_and_init_workers (job_name : string) (infos : dict string WorkerNodeInfo)
    (reserved : reservations) (actors : dict string TransferActor) (edges : list ExecutionEdge)
    : res (connections * dict string TransferActor) :=
  c ← foldR (connect_edge job_name infos) (new_connections reserved) edges;
  ts ← create_transfer_actors (remote_channels_per_node c) actors;
  Ok (c, ts).

(** The loop over what the actors answered: the errors are collected, and any of them makes the whole start fail. *)
Definition report_errors (big_err : string) (results : list (string * option string)) : res () :=
  match omap (λ ne : string * option string, (λ err, (ne.1, err)) <$> ne.2) results with
  | [] => Ok ()
  | errs => Raise (RuntimeError (big_err +:+
              String.concat "" (map (λ ne : string * string, String (Ascii.ascii_of_nat 10) "[" +:+ ne.1 +:+ "]: " +:+ ne.2) errs)))
  end.

(** [start_workers]: all transfer actors and workers are started. *)
Definition start_workers (actors : dict string TransferActor) (g : ExecutionGraph)
    (start_transfer start_worker : string → option string) : res () :=
  report_errors "Unable to start workers:"
    (map (λ kv : string * TransferActor, (t_name kv.2, start_transfer kv.1)) actors ++
     map (λ id, (id, start_worker id)) (dkeys (execution_vertices_by_id g))).

(** [TransferController.start_transfer_actors] asks every actor for [connect_and_start]; the class has these methods. *)
Definition transfer_actor_methods : list string := ["get_pid"; "start"; "close"].
Definition actor_method (name : string) : res string := if decide (name ∈ transfer_actor_methods) then Ok name else Raise AttributeError.
Definition start_transfer_actors (actors : dict string TransferActor) (answer : string → option string) : res () :=
  errs ← mapR (λ kv : string * TransferActor, _ ← actor_method "connect_and_start"; Ok (t_name kv.2, answer kv.1)) actors;
  report_errors "Unable to start transfer actors:" errs.

(** It can only be called when there is no transfer actor: the class has no such method, [start_workers] calls [start]. *)
Theorem start_transfer_actors_broken actors answer :
  start_transfer_actors actors answer = (if decide (actors = []) then Ok () else Raise AttributeError) ∧ actor_method "start" = Ok "start".
Proof. by destruct actors. Qed.

(** ** Lemmas: ports *)

(** A node never has two reservations with one port. *)
Record ports_ok (reserved : reservations) : Prop := {
  po_wf : dict_wf reserved;
  po_pool : ∀ conn p n, (conn, (p, n)) ∈ reserved → p ∈ port_pool_per_node;
  po_inj : ∀ c1 c2 p n, (c1, (p, n)) ∈ reserved → (c2, (p, n)) ∈ reserved → c1 = c2;
}.

Lemma port_used_true reserved node p :
  port_used reserved node p = true ↔ ∃ conn, (conn, (p, node)) ∈ reserved.
Proof.
  unfold port_used. rewrite existsb_exists. split.
  - intros ([conn [q n]] & Hin & [E1%bool_decide_eq_true E2%bool_decide_eq_true]%andb_prop).
    simpl in E1, E2. subst. exists conn. by apply list_elem_of_In.
  - intros (conn & Hin). exists (conn, (p, node)). split; [by apply list_elem_of_In|].
    by rewrite !bool_decide_eq_true_2.
Qed.

Lemma elem_of_dset_new {K V} `{!EqDecision K} (d : dict K V) k v x :
  dget d k = None → x ∈ dset d k v ↔ x ∈ d ∨ x = (k, v).
Proof.
  intros Hk%dget_None. rewrite dset_app_new by done. rewrite elem_of_app, list_elem_of_singleton. done.
Qed.

Lemma gen_port_ok conn node reserved p r' :
  ports_ok reserved → (∀ q n, dget reserved conn = Some (q, n) → n = node) →
  gen_port conn node reserved = Ok (p, r') →
  ports_ok r' ∧ dget r' conn = Some (p, node) ∧ (∀ c x, dget reserved c = Some x → dget r' c = Some x) ∧
  (∀ c x, (c, x) ∈ r' → (c, x) ∈ reserved ∨ (c, x) = (conn, (p, node))).
Proof.
  intros Hok Hn E. unfold gen_port in E. destruct (dget reserved conn) as [[q n]|] eqn:Ed.
  - injection E as <- <-. pose proof (Hn q n eq_refl) as ->. split_and!; auto.
  - destruct (list_find _ _) as [[i q]|] eqn:Ef; [|done]. injection E as <- <-.
    apply list_find_Some in Ef as (Hi & Hu & _). apply list_elem_of_lookup_2 in Hi.
    assert (∀ c, (c, (q, node)) ∉ reserved) as Hfree.
    { intros c Hc. assert (port_used reserved node q = true) by (apply port_used_true; eauto). congruence. }
    destruct Hok as [Hwf Hpool Hinj]. split_and!.
    + split.
      * by apply dset_wf.
      * intros c p n [Hin|[= -> -> ->]]%elem_of_dset_new; [by eapply Hpool|done|done].
      * intros c1 c2 p n [H1|[= -> -> ->]]%elem_of_dset_new [H2|H2]%elem_of_dset_new; try done;
          [by eapply Hinj|injection H2 as -> -> ->; by apply Hfree in H1|by apply Hfree in H2|congruence].
    + by rewrite dget_dset_eq.
    + intros c x Hc. rewrite dget_dset_ne; [done|]. congruence.
    + intros c x Hc%elem_of_dset_new; done.
Qed.

(** When the pool of a node is used up, as many other connections lead to it as there are ports. *)
Lemma gen_port_raise conn node reserved e :
  ports_ok reserved → gen_port conn node reserved = Raise e →
  dget reserved conn = None ∧
  ∃ conns, NoDup conns ∧ length conns = length port_pool_per_node ∧
    ∀ c, c ∈ conns → ∃ p, (c, (p, node)) ∈ reserved.
Proof.
  intros Hok E. unfold gen_port in E. destruct (dget reserved conn) as [[q n]|]; [done|]. split; [done|].
  destruct (list_find _ _) as [[i q]|] eqn:Ef; [done|]. clear E.
  apply list_find_None in Ef.
  assert (∀ l, NoDup l → Forall (λ p, port_used reserved node p ≠ false) l → ∃ conns, NoDup conns ∧
    length conns = length l ∧ ∀ c, c ∈ conns → ∃ p, p ∈ l ∧ (c, (p, node)) ∈ reserved) as Hl.
  { clear Ef. induction l as [|p l IH]; intros Hnd Hall.
    - exists []. split_and!; [constructor|done|set_solver].
    - apply NoDup_cons in Hnd as [Hp Hnd]. apply Forall_cons in Hall as [Hu Hall].
      destruct (IH Hnd Hall) as (conns & Hc & Hlen & Hin).
      apply not_false_is_true, port_used_true in Hu as [c Hc'].
      exists (c :: conns). split_and!; [|simpl; lia|].
      + constructor; [|done]. intros Hx. destruct (Hin c Hx) as (p' & Hp' & Hr).
        assert ((p, node) = (p', node)) as [= ->]; [|done].
        pose proof (dget_elem_wf _ _ _ (po_wf _ Hok) Hc'). pose proof (dget_elem_wf _ _ _ (po_wf _ Hok) Hr). congruence.
      + intros x [->|Hx]%elem_of_cons; [exists p; set_solver|]. destruct (Hin x Hx) as (p' & ? & ?).
        exists p'. set_solver. }
  destruct (Hl port_pool_per_node) as (conns & H1 & H2 & H3); [|done|].
  - apply (bool_decide_unpack _). reflexivity.
  - exists conns. split_and!; [done|done|]. intros c Hc. destruct (H3 c Hc) as (p & _ & ?). eauto.
Qed.

(** ** Lemmas: connecting *)

Definition remotes (cs : list Channel) : list (string * RemoteInfo) :=
  omap (λ c, match c with RemoteChannel i r => Some (i, r) | LocalChannel _ _ => None end) cs.

Definition ins_of (n : string) (cs : list Channel) : list (string * RemoteInfo) :=
  filter (λ c, target_node_id c.2 = n) (remotes cs).
Definition outs_of (n : string) (cs : list Channel) : list (string * RemoteInfo) :=
  filter (λ c, source_node_id c.2 = n) (remotes cs).

Section connecting.
Context (job_name : string) (infos : dict string WorkerNodeInfo).

(** The nodes an edge connects. *)
Definition edge_nodes (e : ExecutionEdge) (src tgt : WorkerNodeInfo) : Prop :=
  dget infos (source_execution_vertex e) = Some src ∧ dget infos (target_execution_vertex e) = Some tgt.

(** The channel made for an edge, given the reservations. *)
Definition channel_for (reserved : reservations) (e : ExecutionEdge) (c : Channel) : Prop :=
  ∃ src tgt, edge_nodes e src tgt ∧
    let sn := wni_node_id src in let tn := wni_node_id tgt in
    if decide (sn = tn) then c = LocalChannel (edge_id e) (gen_ipc_addr job_name (edge_id e) None)
    else ∃ p, dget reserved (sn +:+ "-" +:+ tn) = Some (p, tn) ∧
      c = RemoteChannel (edge_id e)
            (mkRemote (gen_ipc_addr job_name (edge_id e) (Some sn)) (node_ip src) sn
               (gen_ipc_addr job_name (edge_id e) (Some tn)) (node_ip tgt) tn p).

(** Node [s] sends to another node [n] over some edge. *)
Definition sends (es : list ExecutionEdge) (s n : string) : Prop :=
  s ≠ n ∧ ∃ e src tgt, e ∈ es ∧ edge_nodes e src tgt ∧ wni_node_id src = s ∧ wni_node_id tgt = n.

Record conn_inv (es : list ExecutionEdge) (s : connections) : Prop := {
  ci_ports : ports_ok (reserved_node_ports s);
  ci_conns : ∀ conn p n, (conn, (p, n)) ∈ reserved_node_ports s → ∃ sn, conn = sn +:+ "-" +:+ n ∧ sends es sn n;
  ci_channels : Forall2 (channel_for (reserved_node_ports s)) es (channels s);
  ci_wf : dict_wf (remote_channels_per_node s);
  ci_nodes : ∀ n, default ([], []) (dget (remote_channels_per_node s) n)
                  = (ins_of n (channels s), outs_of n (channels s));
  ci_keys : ∀ n, n ∈ dkeys (remote_channels_per_node s) →
    ins_of n (channels s) ≠ [] ∨ outs_of n (channels s) ≠ [];
}.

Lemma dget_add_out n c d n' :
  default ([], []) (dget (add_out n c d) n') =
  let io := default ([], []) (dget d n') in if decide (n' = n) then (io.1, io.2 ++ [c]) else io.
Proof. unfold add_out. rewrite dget_dset. by case_decide; subst. Qed.

Lemma dget_add_in n c d n' :
  default ([], []) (dget (add_in n c d) n') =
  let io := default ([], []) (dget d n') in if decide (n' = n) then (io.1 ++ [c], io.2) else io.
Proof. unfold add_in. rewrite dget_dset. by case_decide; subst. Qed.

Lemma ins_of_app n cs c : ins_of n (cs ++ [c]) = ins_of n cs ++ ins_of n [c].
Proof. unfold ins_of, remotes. by rewrite omap_app, filter_app. Qed.
Lemma outs_of_app n cs c : outs_of n (cs ++ [c]) = outs_of n cs ++ outs_of n [c].
Proof. unfold outs_of, remotes. by rewrite omap_app, filter_app. Qed.

Lemma ins_of_remote n i r : ins_of n [RemoteChannel i r] = if decide (target_node_id r = n) then [(i, r)] else [].
Proof. unfold ins_of. change (remotes _) with [(i, r)]. by rewrite filter_cons, filter_nil. Qed.
Lemma outs_of_remote n i r : outs_of n [RemoteChannel i r] = if decide (source_node_id r = n) then [(i, r)] else [].
Proof. unfold outs_of. change (remotes _) with [(i, r)]. by rewrite filter_cons, filter_nil. Qed.

Lemma channel_for_mono r r' e c : (∀ c x, dget r c = Some x → dget r' c = Some x) →
  channel_for r e c → channel_for r' e c.
Proof.
  intros Hm (src & tgt & Hn & Hc). exists src, tgt. split; [done|]. cbn zeta in *.
  destruct (decide _); [done|]. destruct Hc as (p & Hp & ->). eauto.
Qed.

Lemma sends_app es e s n : sends es s n → sends (es ++ [e]) s n.
Proof. intros (Hne & e' & src & tgt & Hin & H). split; [done|]. exists e', src, tgt. set_solver. Qed.

(** A local edge. *)
Lemma connect_local es s e src tgt : conn_inv es s → edge_nodes e src tgt → wni_node_id src = wni_node_id tgt →
  ∃ s', connect_edge job_name infos s e = Ok s' ∧ conn_inv (es ++ [e]) s'.
Proof.
  intros [Hp Hc Hch Hwf Hn Hk] He Eq. pose proof He as [Es Et]. unfold connect_edge. rewrite Es, Et. simpl.
  rewrite decide_True by done. eexists. split; [reflexivity|]. split; simpl.
  - done.
  - intros conn p n Hin. destruct (Hc conn p n Hin) as (sn & ? & ?). exists sn. split; [done|]. by apply sends_app.
  - apply Forall2_app; [done|]. constructor; [|constructor]. exists src, tgt. split; [done|]. cbn zeta.
    by rewrite decide_True.
  - done.
  - intros n. rewrite Hn, ins_of_app, outs_of_app. unfold ins_of at 3, outs_of at 3. simpl. by rewrite !app_nil_r.
  - intros n Hin. rewrite ins_of_app, outs_of_app. destruct (Hk n Hin); [left|right]; by intros [? _]%app_eq_nil.
Qed.

(** Ray's node ids are hexadecimal: no dash in them. *)
Context (Hdash : ∀ v i, dget infos v = Some i → no_char "-"%char (wni_node_id i)).

Lemma sends_no_dash es s n : sends es s n → no_char "-"%char s.
Proof. intros (_ & e & src & tgt & _ & [Es _] & <- & _). by eapply Hdash. Qed.

Lemma conn_id_inj es s1 n1 s2 n2 : sends es s1 n1 → sends es s2 n2 →
  s1 +:+ "-" +:+ n1 = s2 +:+ "-" +:+ n2 → s1 = s2 ∧ n1 = n2.
Proof. intros H1 H2 E. apply split_unique in E; [done|by eapply sends_no_dash..]. Qed.

Lemma remote_nodes n sn tn (d : per_node) cs i r :
  sn ≠ tn → source_node_id r = sn → target_node_id r = tn →
  default ([], []) (dget d n) = (ins_of n cs, outs_of n cs) →
  default ([], []) (dget (add_in tn (i, r) (add_out sn (i, r) d)) n)
  = (ins_of n (cs ++ [RemoteChannel i r]), outs_of n (cs ++ [RemoteChannel i r])).
Proof.
  intros Hne Es Et Hd. rewrite dget_add_in, dget_add_out. cbn zeta. rewrite Hd, ins_of_app, outs_of_app.
  rewrite ins_of_remote, outs_of_remote, Es, Et. clear Hd.
  repeat case_decide; subst; simpl; rewrite ?app_nil_r; done.
Qed.

(** A remote edge that gets its port. *)
Lemma connect_remote es s e src tgt p r' : conn_inv es s → edge_nodes e src tgt →
  let sn := wni_node_id src in let tn := wni_node_id tgt in sn ≠ tn →
  gen_port (sn +:+ "-" +:+ tn) tn (reserved_node_ports s) = Ok (p, r') →
  ∃ s', connect_edge job_name infos s e = Ok s' ∧ conn_inv (es ++ [e]) s'.
Proof.
  intros [Hp Hc Hch Hwf Hn Hk] He sn tn Hne Eg. pose proof He as [Es Et].
  assert (sends (es ++ [e]) sn tn) as Hsend.
  { split; [done|]. exists e, src, tgt. set_solver. }
  assert (∀ q n, dget (reserved_node_ports s) (sn +:+ "-" +:+ tn) = Some (q, n) → n = tn) as Hsame.
  { intros q n Hq%dget_Some_elem. destruct (Hc _ _ _ Hq) as (sn' & Ec & Hs').
    apply sends_app with (e := e) in Hs'. by destruct (conn_id_inj _ _ _ _ _ Hsend Hs' Ec). }
  destruct (gen_port_ok _ _ _ _ _ Hp Hsame Eg) as (Hp' & Hd & Hm & Hin).
  unfold connect_edge. rewrite Es, Et. cbn [from_option_exn mbind res_bind]. rewrite decide_False by done.
  fold sn tn. rewrite Eg. cbn [mbind res_bind fst snd]. eexists. split; [reflexivity|]. split; simpl.
  - done.
  - intros conn q n Hq. destruct (Hin _ _ Hq) as [Hold|[= -> -> ->]]; [|by exists sn].
    destruct (Hc conn q n Hold) as (sn' & ? & ?). exists sn'. split; [done|]. by apply sends_app.
  - apply Forall2_app.
    + eapply Forall2_impl; [exact Hch|]. intros e' c'. by apply channel_for_mono.
    + constructor; [|constructor]. exists src, tgt. split; [done|]. cbn zeta. fold sn tn.
      rewrite decide_False by done. eauto.
  - unfold add_in, add_out. auto with volga.
  - intros n. by apply remote_nodes.
  - intros n Hkey. rewrite ins_of_app, outs_of_app, ins_of_remote, outs_of_remote. simpl.
    destruct (decide (tn = n)), (decide (sn = n)); try (by left; intros [_ ?]%app_eq_nil);
      try (by right; intros [_ ?]%app_eq_nil).
    rewrite !app_nil_r. apply Hk. unfold add_in, add_out in Hkey. apply dmem_elem in Hkey. unfold dmem in Hkey.
    rewrite !dget_dset in Hkey. rewrite !decide_False in Hkey by congruence.
    apply dmem_elem. done.
Qed.

(** At most as many nodes send to a node as it has ports. *)
Definition fan_in_ok (es : list ExecutionEdge) : Prop :=
  ∀ n ss, NoDup ss → (∀ s, s ∈ ss → sends es s n) → length ss ≤ length port_pool_per_node.

Lemma sends_prefix es es' s n : sends es s n → sends (es ++ es') s n.
Proof. intros (Hne & e & src & tgt & Hin & H). split; [done|]. exists e, src, tgt. set_solver. Qed.

(** The sources behind the connections to a node. *)
Lemma conns_sources es s n conns : conn_inv es s → NoDup conns →
  (∀ c, c ∈ conns → ∃ p, (c, (p, n)) ∈ reserved_node_ports s) →
  ∃ ss, conns = map (λ sn, sn +:+ "-" +:+ n) ss ∧ (∀ x, x ∈ ss → sends es x n).
Proof.
  intros Hinv. induction conns as [|c conns IH]; intros Hnd Hall; [by exists []; split; [|set_solver]|].
  apply NoDup_cons in Hnd as [Hc Hnd]. destruct IH as (ss & -> & Hss); [done|intros; apply Hall; set_solver|].
  destruct (Hall c) as [p Hp]; [set_solver|]. destruct (ci_conns _ _ Hinv _ _ _ Hp) as (sn & -> & Hsn).
  exists (sn :: ss). split; [done|]. intros x [->|Hx]%elem_of_cons; auto.
Qed.

Lemma connect_step es e es' s src tgt : fan_in_ok (es ++ e :: es') → conn_inv es s → edge_nodes e src tgt →
  ∃ s', connect_edge job_name infos s e = Ok s' ∧ conn_inv (es ++ [e]) s'.
Proof.
  intros Hfan Hinv He. destruct (decide (wni_node_id src = wni_node_id tgt)) as [Eq|Hne].
  { by eapply connect_local. }
  set (sn := wni_node_id src). set (tn := wni_node_id tgt).
  destruct (gen_port (sn +:+ "-" +:+ tn) tn (reserved_node_ports s)) as [[p r']|x] eqn:Eg.
  { by eapply connect_remote. }
  exfalso. apply gen_port_raise in Eg as (Hnone & conns & Hnd & Hlen & Hall); [|apply Hinv].
  destruct (conns_sources es s tn conns Hinv Hnd Hall) as (ss & -> & Hss).
  assert (sn ∉ ss) as Hnew.
  { intros Hin. destruct (Hall (sn +:+ "-" +:+ tn)) as [p Hp]; [by apply (list_elem_of_fmap_2 (λ sn, sn +:+ "-" +:+ tn))|].
    apply dget_None in Hnone. apply Hnone. unfold dkeys. by apply (list_elem_of_fmap_2 fst) in Hp. }
  assert (length (sn :: ss) ≤ length port_pool_per_node) as Hle.
  { apply (Hfan tn).
    - constructor; [done|]. by apply NoDup_fmap_1 in Hnd.
    - intros y [->|Hy]%elem_of_cons; [|by apply sends_prefix, Hss].
      split; [done|]. exists e, src, tgt. set_solver. }
  rewrite length_map in Hlen. simpl in *. lia.
Qed.

Lemma connect_all es' : ∀ es s, fan_in_ok (es ++ es') → conn_inv es s →
  (∀ e, e ∈ es' → ∃ src tgt, edge_nodes e src tgt) →
  ∃ s', foldR (connect_edge job_name infos) s es' = Ok s' ∧ conn_inv (es ++ es') s'.
Proof.
  induction es' as [|e es' IH]; intros es s Hfan Hinv Hcov; simpl; [rewrite app_nil_r; eauto|].
  destruct (Hcov e) as (src & tgt & He); [set_solver|].
  destruct (connect_step es e es' s src tgt Hfan Hinv He) as (s1 & E1 & H1). rewrite E1. cbn [mbind res_bind].
  replace (es ++ e :: es') with ((es ++ [e]) ++ es') in * by (by rewrite <- (assoc_L (++))).
  apply IH; [done..|]. intros; apply Hcov; set_solver.
Qed.

Lemma new_conn_inv : conn_inv [] (new_connections []).
Proof.
  split; simpl.
  - split; [apply dict_wf_nil|set_solver..].
  - set_solver.
  - constructor.
  - apply dict_wf_nil.
  - done.
  - set_solver.
Qed.

End connecting.

(** ** Lemmas: transfer actors *)

Lemma check_channels_ok node i0 ends msg ip :
  (∀ x, x ∈ ends → x = (node, i0)) → (ip = None ∨ ip = Some i0) →
  ∃ ip', check_channels node ip ends msg = Ok ip' ∧ (ip' = None ∨ ip' = Some i0) ∧
    (ends ≠ [] ∨ ip = Some i0 → ip' = Some i0).
Proof.
  revert ip. induction ends as [|[n i] ends IH]; intros ip Hall Hip; simpl.
  - exists ip. split_and!; [done|done|]. by intros [?|?].
  - assert ((n, i) = (node, i0)) as [= -> ->] by (apply Hall; set_solver). assert (default i0 ip = i0) as -> by (by destruct Hip as [->| ->]).
    rewrite decide_False by naive_solver.
    destruct (IH (Some i0)) as (ip' & -> & H1 & H2); [intros; apply Hall; set_solver|by right|].
    exists ip'. split_and!; [done|done|]. intros _. apply H2. by right.
Qed.
Section transfer.
Context (ip_of : string → string).

(** The channels of a node point to it, with its address. *)
Definition entry_ok (e : string * (list (string * RemoteInfo) * list (string * RemoteInfo))) : Prop :=
  (∀ c, c ∈ e.2.1 → target_end c = (e.1, ip_of e.1)) ∧ (∀ c, c ∈ e.2.2 → source_end c = (e.1, ip_of e.1)) ∧
  (e.2.1 ≠ [] ∨ e.2.2 ≠ []).

Definition transfer_of (e : string * (list (string * RemoteInfo) * list (string * RemoteInfo)))
    : string * TransferActor :=
  (e.1, new_transfer_actor ("transfer-" +:+ ip_of e.1) e.2.1 e.2.2).

Lemma create_transfer_actor_ok actors e : e.1 ∉ dkeys actors → entry_ok e →
  create_transfer_actor actors e = Ok (actors ++ [transfer_of e]).
Proof.
  destruct e as [n [ins outs]]. intros Hn (Hi & Ho & Hne). simpl in *. unfold create_transfer_actor.
  rewrite (proj2 (dmem_false _ _)) by done.
  destruct (check_channels_ok n (ip_of n) (map target_end ins) "Mismatched in channels for transfer actor" None)
    as (ip1 & -> & H1 & H1').
  { intros x Hx. apply list_elem_of_fmap in Hx as (c & -> & Hc). by apply Hi. }
  { by left. }
  cbn [mbind res_bind].
  destruct (check_channels_ok n (ip_of n) (map source_end outs) "Mismatched out channels for transfer actor" ip1)
    as (ip2 & -> & H2 & H2'); [|done|].
  { intros x Hx. apply list_elem_of_fmap in Hx as (c & -> & Hc). by apply Ho. }
  cbn [mbind res_bind]. rewrite H2'; [by rewrite dset_app_new|].
  destruct Hne as [Hne|Hne].
  - right. apply H1'. left. by destruct ins.
  - left. by destruct outs.
Qed.

Lemma create_transfer_actors_ok d : ∀ actors,
  NoDup (dkeys actors ++ dkeys d) → (∀ e, e ∈ d → entry_ok e) →
  create_transfer_actors d actors = Ok (actors ++ map transfer_of d).
Proof.
  unfold create_transfer_actors. induction d as [|e d IH]; intros actors Hnd Hall; cbn [foldR map].
  - by rewrite app_nil_r.
  - unfold dkeys in Hnd. rewrite fmap_cons in Hnd. rewrite create_transfer_actor_ok.
    + cbn [mbind res_bind]. rewrite IH; [by rewrite <- (assoc_L (++))| |intros; apply Hall; set_solver].
      unfold dkeys. rewrite fmap_app. simpl. by rewrite <- (assoc_L (++)).
    + apply NoDup_app in Hnd as (_ & Hd & _). intros Hin. apply (Hd _ Hin). set_solver.
    + apply Hall. set_solver.
Qed.
End transfer.

Lemma remotes_elem c i r : (i, r) ∈ remotes c ↔ RemoteChannel i r ∈ c.
Proof.
  unfold remotes. rewrite list_elem_of_omap. split.
  - intros (x & Hx & E). destruct x; [done|]. by injection E as -> ->.
  - intros H. by exists (RemoteChannel i r).
Qed.

(** A remote channel and the edge it was made for. *)
Lemma remote_of_inv job infos es s i r : conn_inv job infos es s → (i, r) ∈ remotes (channels s) →
  ∃ e src tgt, e ∈ es ∧ edge_nodes infos e src tgt ∧ i = edge_id e ∧
    source_node_id r = wni_node_id src ∧ target_node_id r = wni_node_id tgt ∧ source_node_id r ≠ target_node_id r ∧
    source_node_ip r = node_ip src ∧ target_node_ip r = node_ip tgt ∧
    dget (reserved_node_ports s) (source_node_id r +:+ "-" +:+ target_node_id r) = Some (port r, target_node_id r).
Proof.
  intros Hinv Hin. apply remotes_elem, list_elem_of_lookup in Hin as [k Hk].
  destruct (Forall2_lookup_r _ _ _ _ _ (ci_channels _ _ _ _ Hinv) Hk) as (e & He & src & tgt & Hn & Hc).
  cbn zeta in Hc. destruct (decide (wni_node_id src = wni_node_id tgt)) as [|Hne]; [done|].
  destruct Hc as (p & Hp & [= -> ->]). exists e, src, tgt. apply list_elem_of_lookup_2 in He.
  split_and!; done.
Qed.

(** What is known of the workers: every end of an edge has told its node, the address belongs to
    the node, and node ids have no dash in them. *)
Record hosts_ok (ip_of : string → string) (infos : dict string WorkerNodeInfo) (es : list ExecutionEdge)
    : Prop := {
  ho_edges : ∀ e, e ∈ es → ∃ src tgt, edge_nodes infos e src tgt;
  ho_ips : ∀ v i, dget infos v = Some i → node_ip i = ip_of (wni_node_id i);
  ho_ids : ∀ v i, dget infos v = Some i → no_char "-"%char (wni_node_id i);
}.

Lemma per_node_entry_ok ip_of job infos es s e : hosts_ok ip_of infos es → conn_inv job infos es s →
  e ∈ remote_channels_per_node s → entry_ok ip_of e.
Proof.
  intros Hh Hinv Hin. destruct e as [n [ins outs]].
  pose proof (dget_elem_wf _ _ _ (ci_wf _ _ _ _ Hinv) Hin) as Hd.
  pose proof (ci_nodes _ _ _ _ Hinv n) as Hn. rewrite Hd in Hn. simpl in Hn. injection Hn as -> ->.
  split_and!; simpl.
  - intros [i r] Hc. unfold ins_of in Hc. apply list_elem_of_filter in Hc as [Ht Hr]. simpl in Ht.
    destruct (remote_of_inv _ _ _ _ _ _ Hinv Hr) as (e & src & tgt & He & [_ Et] & _ & _ & Etn & _ & _ & Eti & _).
    unfold target_end. simpl. rewrite Eti, (ho_ips _ _ _ Hh _ _ Et). congruence.
  - intros [i r] Hc. unfold outs_of in Hc. apply list_elem_of_filter in Hc as [Ht Hr]. simpl in Ht.
    destruct (remote_of_inv _ _ _ _ _ _ Hinv Hr) as (e & src & tgt & He & [Es _] & _ & Esn & _ & _ & Esi & _ & _).
    unfold source_end. simpl. rewrite Esi, (ho_ips _ _ _ Hh _ _ Es). congruence.
  - apply (ci_keys _ _ _ _ Hinv n). unfold dkeys. by apply (list_elem_of_fmap_2 fst) in Hin.
Qed.

Lemma ports_per_pair ip_of job infos es s i1 r1 i2 r2 : hosts_ok ip_of infos es → conn_inv job infos es s →
  (i1, r1) ∈ remotes (channels s) → (i2, r2) ∈ remotes (channels s) → target_node_id r1 = target_node_id r2 →
  port r1 = port r2 ↔ source_node_id r1 = source_node_id r2.
Proof.
  intros Hh Hinv H1 H2 Et.
  destruct (remote_of_inv _ _ _ _ _ _ Hinv H1) as (e1 & s1 & t1 & He1 & Hn1 & _ & Es1 & Et1 & Hne1 & _ & _ & Hp1).
  destruct (remote_of_inv _ _ _ _ _ _ Hinv H2) as (e2 & s2 & t2 & He2 & Hn2 & _ & Es2 & Et2 & Hne2 & _ & _ & Hp2).
  rewrite <- Et in *. split; intros E.
  - rewrite <- E in Hp2. apply dget_Some_elem in Hp1, Hp2.
    pose proof (po_inj _ (ci_ports _ _ _ _ Hinv) _ _ _ _ Hp1 Hp2) as Ec.
    apply (conn_id_inj infos (ho_ids _ _ _ Hh) es) in Ec as [? _]; [done|split; [congruence|eauto 10]..].
  - rewrite E in Hp1. congruence.
Qed.

Lemma dget_transfer ip_of d n :
  dget (map (transfer_of ip_of) d) n = (λ io, (transfer_of ip_of (n, io)).2) <$> dget d n.
Proof.
  induction d as [|[k [i o]] d IH]; [done|]. cbn [map transfer_of dget fst snd].
  destruct (decide (n = k)) as [->|]; [done|]. exact IH.
Qed.

Lemma connect_and_init_ok job_name ip_of infos es :
  hosts_ok ip_of infos es → fan_in_ok infos es →
  ∃ c ts, connect_and_init_workers job_name infos [] [] es = Ok (c, ts) ∧
    Forall2 (channel_for job_name infos (reserved_node_ports c)) es (channels c) ∧
    (∀ i1 r1 i2 r2, (i1, r1) ∈ remotes (channels c) → (i2, r2) ∈ remotes (channels c) →
       target_node_id r1 = target_node_id r2 → (port r1 = port r2 ↔ source_node_id r1 = source_node_id r2)) ∧
    (∀ n, dget ts n = if decide (ins_of n (channels c) = [] ∧ outs_of n (channels c) = []) then None
       else Some (new_transfer_actor ("transfer-" +:+ ip_of n) (ins_of n (channels c)) (outs_of n (channels c)))).
Proof.
  intros Hh Hfan. unfold connect_and_init_workers.
  destruct (connect_all job_name infos (ho_ids _ _ _ Hh) es [] (new_connections []) Hfan
    (new_conn_inv job_name infos (ho_ids _ _ _ Hh)) (ho_edges _ _ _ Hh)) as (c & -> & Hinv). simpl in Hinv.
  cbn [mbind res_bind].
  assert (NoDup (dkeys (K := string) (V := TransferActor) [] ++ dkeys (remote_channels_per_node c))) as Hnd
    by exact (ci_wf _ _ _ _ Hinv).
  rewrite (create_transfer_actors_ok ip_of _ [] Hnd) by (intros; by eapply per_node_entry_ok).
  cbn [mbind res_bind]. eexists c, _. split; [reflexivity|]. split_and!.
  - apply Hinv.
  - intros. by eapply ports_per_pair.
  - intros n. pose proof (ci_nodes _ _ _ _ Hinv n) as Hn. pose proof (ci_keys _ _ _ _ Hinv n) as Hk.
    assert (dget ([] ++ map (transfer_of ip_of) (remote_channels_per_node c)) n =
      (λ io, (transfer_of ip_of (n, io)).2) <$> dget (remote_channels_per_node c) n) as ->.
    { apply dget_transfer. }
    destruct (dget (remote_channels_per_node c) n) as [[ins outs]|] eqn:E; simpl in *.
    + injection Hn as -> ->. rewrite decide_False; [done|]. apply dget_Some_elem in E.
      apply (list_elem_of_fmap_2 fst) in E. specialize (Hk E). tauto.
    + injection Hn as <- <-. by rewrite decide_True.
Qed.

(** C28. Wiring of the workers.  If every node receives from at most four other nodes (the size of the
    port pool), [connect_and_init_workers] succeeds: every execution edge gets one channel, with its
    id, local exactly when both workers are on one node; remote channels into a node use the same
    port exactly when they come from the same node; and there is a transfer actor exactly on the
    nodes with remote channels, receiving all those into the node and sending all those out of
    it, in order. *)
Theorem workers_wired job_name ip_of infos es :
  hosts_ok ip_of infos es → fan_in_ok infos es →
  ∃ c ts, connect_and_init_workers job_name infos [] [] es = Ok (c, ts) ∧
    Forall2 (channel_for job_name infos (reserved_node_ports c)) es (channels c) ∧
    (∀ i1 r1 i2 r2, (i1, r1) ∈ remotes (channels c) → (i2, r2) ∈ remotes (channels c) →
       target_node_id r1 = target_node_id r2 → (port r1 = port r2 ↔ source_node_id r1 = source_node_id r2)) ∧
    (∀ n, dget ts n = if decide (ins_of n (channels c) = [] ∧ outs_of n (channels c) = []) then None
       else Some (new_transfer_actor ("transfer-" +:+ ip_of n) (ins_of n (channels c)) (outs_of n (channels c)))).
Proof. exact (connect_and_init_ok job_name ip_of infos es). Qed.

(** ** One worker per vertex *)

Lemma create_worker_ok ns a v i n r :
  dget a (execution_vertex_id v) = Some i → ns !! i = Some n → resources v = Some r →
  create_worker ns a v = Ok (mkWorker v (node_id n) r
    (is_sink (job_vertex v) || bool_decide (vertex_type (job_vertex v) = VSOURCE))).
Proof. intros H1 H2 H3. unfold create_worker. rewrite H1. simpl. rewrite H2. simpl. by rewrite H3. Qed.

(** [v] has a node and its resources. *)
Definition placed_on (ns : list Node) (a : dict string nat) (v : ExecutionVertex) : Prop :=
  ∃ i n r, on_node a i v ∧ ns !! i = Some n ∧ resources v = Some r.

(** [w] runs on the node of its vertex, with its resources. *)
Definition pinned (ns : list Node) (a : dict string nat) (w : Worker) : Prop :=
  ∃ i n, on_node a i (w_vertex w) ∧ ns !! i = Some n ∧ w_host w = node_id n ∧
    resources (w_vertex w) = Some (w_options w).

Lemma create_worker_all ns a vs : Forall (placed_on ns a) vs →
  ∃ ws, mapR (create_worker ns a) vs = Ok ws ∧ map w_vertex ws = vs ∧ Forall (pinned ns a) ws.
Proof.
  induction 1 as [|v vs (i & n & r & Hon & Hn & Hres) _ (ws & Ew & Emap & Hws)]; [by exists []|].
  cbn [mapR]. rewrite (create_worker_ok ns _ v i n r Hon Hn Hres), Ew. cbn [mbind res_bind].
  eexists. split; [reflexivity|]. split; [simpl; by rewrite Emap|]. constructor; [by exists i, n|done].
Qed.

Lemma assigned_placed ns a vs :
  dkeys (assigned a) ≡ₚ map execution_vertex_id vs → Forall (λ kv, kv.2 < length ns) (assigned a) →
  (∀ v, v ∈ vs → is_Some (resources v)) → Forall (placed_on ns (assigned a)) vs.
Proof.
  intros Hkeys Hrange Hres. apply Forall_forall. intros v Hv.
  assert (execution_vertex_id v ∈ dkeys (assigned a)) as Hin by (rewrite Hkeys; by apply list_elem_of_fmap_2).
  apply dmem_elem in Hin. unfold dmem in Hin.
  destruct (dget (assigned a) (execution_vertex_id v)) as [i|] eqn:Ei; [|done].
  pose proof Ei as Ei'. apply dget_Some_elem in Ei'. rewrite Forall_forall in Hrange.
  specialize (Hrange _ Ei'). simpl in Hrange. apply lookup_lt_is_Some in Hrange as [n Hn].
  destruct (Hres v Hv) as [r Hr]. by exists i, n, r.
Qed.

(** Given an assignment, every execution vertex gets one worker, pinned to its node with its
    resources. *)
Lemma workers_created jg ns defaults proposed g0 st host a :
  runnable jg → from_job_graph jg = Ok g0 → Forall nonneg_node ns →
  let g := set_resources defaults proposed g0 in
  assign_resources (Some ns) g st = Ok a →
  ∃ ws infos, create_workers ns st g host = Ok (ws, infos) ∧
    map w_vertex ws = dvalues (execution_vertices_by_id g) ∧ dkeys infos = dkeys (execution_vertices_by_id g) ∧
    Forall (pinned ns (assigned a)) ws.
Proof.
  intros Hr E0 Hnn g Ea.
  destruct (assignment_cases jg ns defaults proposed g0 st Hr E0 Hnn) as [[E _]|[[E _]|(s & E & _ & Hkeys & Hrange & _)]];
    fold g in E; rewrite E in Ea; [done..|]. injection Ea as ->. fold g in Hkeys.
  pose proof Hr as [Hv _ Hcl Hp _ Hne]. destruct (from_job_graph_eq jg Hv Hp Hcl Hne) as (mp & Eg & _).
  rewrite E0 in Eg. injection Eg as ->.
  destruct (create_worker_all ns (assigned a) (dvalues (execution_vertices_by_id g))) as (ws & Ew & Emap & Hws).
  { apply assigned_placed; [|done|].
    - rewrite Hkeys. apply Permutation_refl_eq, set_resources_keys.
    - intros v Hv'. apply (groups_res defaults proposed (job_vertices jg)).
      erewrite <- set_resources_values. exact Hv'. }
  unfold create_workers. rewrite E. cbn [mbind res_bind]. rewrite Ew. cbn [mbind res_bind].
  eexists ws, _. split_and!; [reflexivity|done| |done]. unfold dkeys. rewrite map_map. apply map_id.
Qed.

(** ** Concrete instances *)

Definition ex_edges3 : list ExecutionEdge :=
  [mkEE "1_0" "2_0" PRoundRobin; mkEE "1_0" "2_1" PRoundRobin; mkEE "1_1" "2_0" PRoundRobin; mkEE "1_1" "2_1" PRoundRobin].
Definition ex_infos : dict string WorkerNodeInfo :=
  [("1_0", mkWNI "10.0.0.1" "a"); ("1_1", mkWNI "10.0.0.2" "b"); ("2_0", mkWNI "10.0.0.1" "a"); ("2_1", mkWNI "10.0.0.3" "c")].
Definition ex_ip (n : string) : string :=
  if decide (n = "a") then "10.0.0.1" else if decide (n = "b") then "10.0.0.2" else "10.0.0.3".

Lemma ex_infos_cases v i : dget ex_infos v = Some i → i ∈ dvalues ex_infos.
Proof. intros H%dget_Some_elem. by apply (list_elem_of_fmap_2 snd) in H. Qed.

Lemma ex_hosts_ok : hosts_ok ex_ip ex_infos ex_edges3.
Proof.
  split.
  - intros e He. repeat (apply elem_of_cons in He as [->|He]; [eexists _, _; split; reflexivity|]).
    by apply elem_of_nil in He.
  - intros v i Hi%ex_infos_cases. unfold dvalues in Hi. simpl in Hi.
    repeat (apply elem_of_cons in Hi as [->|Hi]; [reflexivity|]). by apply elem_of_nil in Hi.
  - intros v i Hi%ex_infos_cases. unfold dvalues in Hi. simpl in Hi.
    repeat (apply elem_of_cons in Hi as [->|Hi]; [by repeat split|]). by apply elem_of_nil in Hi.
Qed.

Lemma ex_fan_in : fan_in_ok ex_infos ex_edges3.
Proof.
  intros n ss Hnd Hall.
  assert (ss ⊆ ["a"; "b"; "c"]) as Hsub.
  { intros x Hx. destruct (Hall x Hx) as (_ & e & src & tgt & _ & [Es _] & <- & _).
    apply ex_infos_cases in Es. unfold dvalues in Es. simpl in Es.
    repeat (apply elem_of_cons in Es as [->|Es]; [simpl; set_solver|]). by apply elem_of_nil in Es. }
  apply NoDup_submseteq in Hsub; [|done]. apply submseteq_length in Hsub. simpl in *. lia.
Qed.

Lemma workers_wired_witness :
  hosts_ok ex_ip ex_infos ex_edges3 ∧ fan_in_ok ex_infos ex_edges3 ∧
  ∃ c ts, connect_and_init_workers "job" ex_infos [] [] ex_edges3 = Ok (c, ts) ∧
    dget ts "a" = Some (new_transfer_actor "transfer-10.0.0.1" (ins_of "a" (channels c)) (outs_of "a" (channels c))).
Proof.
  split; [exact ex_hosts_ok|]. split; [exact ex_fan_in|].
  destruct (workers_wired "job" ex_ip ex_infos ex_edges3 ex_hosts_ok ex_fan_in) as (c & ts & E & _ & _ & Ht).
  exists c, ts. split; [exact E|]. rewrite (Ht "a"). vm_compute in E. injection E as <- <-. reflexivity.
Defined.
