(* ===== verification/Tasks.v ===== *)
(** * Stream tasks and job workers
    ([volga/streaming/runtime/worker/task/stream_task.py],
     [volga/streaming/runtime/worker/job_worker.py],
     [volga/streaming/runtime/core/processor/processor.py])

    A worker makes the task of its execution vertex: which kind of task, which
    readers and writers, and one output collector per downstream operator.  Threads
    are not modelled: a task's loop is its rounds. *)

From S2P Require Import Prelude PyDict Message Operators JobGraph Execution Workers.

(** ** Output collectors *)

(** An output edge as [_open_processor] sees it. *)
Record out_edge := mkOut { op_name : string; out_channel_id : string; out_partition : partition_kind }.

(** The loop over the output edges: channel ids and partition by name of the target operator. *)
Definition group_edge (s : dict string (list string) * dict string partition_kind) (e : out_edge)
    : dict string (list string) * dict string partition_kind :=
  (dset s.1 (op_name e) (default [] (dget s.1 (op_name e)) ++ [out_channel_id e]),
   dset s.2 (op_name e) (out_partition e)).

Definition group_edges (es : list out_edge) : dict string (list string) * dict string partition_kind :=
  foldl group_edge ([], []) es.

Record OutputCollector := mkCollector { output_channel_ids : list string; collector_partition : partition_kind }.

(** [_open_processor]: the collectors, in the order the operators were first seen. *)
Definition open_collectors (es : list out_edge) : res (list OutputCollector) :=
  let '(ids, parts) := group_edges es in
  mapR (λ np : string * partition_kind, l ← dgetitem ids np.1; Ok (mkCollector l np.2)) parts.

(** The output edges of a vertex, with the names of their targets. *)
Definition out_edge_of (g : ExecutionGraph) (e : ExecutionEdge) : res out_edge :=
  t ← from_option_exn KeyError (dget (execution_vertices_by_id g) (target_execution_vertex e));
  Ok (mkOut (get_name (job_vertex t)) (edge_id e) (ee_partition e)).

Definition task_collectors (g : ExecutionGraph) (id : string) : res (list OutputCollector) :=
  es ← mapR (out_edge_of g) (output_edges g id);
  open_collectors es.

(** ** [_prepare_task] *)

Record task_io := mkIO { data_writer : option (string * list string); data_reader : option (list string) }.

(** The writer is named after the operator, its records carry that name; sinks get no writer and
    sources no reader. *)
Definition prepare_task (g : ExecutionGraph) (v : ExecutionVertex) : task_io :=
  let outs := output_edges g (execution_vertex_id v) in
  let ins := input_edges g (execution_vertex_id v) in
  mkIO (if decide (outs = [] ∨ vertex_type (job_vertex v) = VSINK) then None
        else Some (str (vertex_id (job_vertex v)), map edge_id outs))
       (if decide (ins = [] ∨ vertex_type (job_vertex v) = VSOURCE) then None
        else Some (map edge_id ins)).

(** ** [JobWorker._create_stream_task] *)

Inductive StreamTask :=
| SourceStreamTask
| OneInputStreamTask
| TwoInputStreamTask (left_stream_name right_stream_name : string).

(** [list(s)] for a set of integers: some order of its elements. *)
Class IntSetOrder := int_set_list : list Z → list Z.
Class IntSetOrderOk `{IntSetOrder} : Prop := {
  int_set_nodup l : NoDup (int_set_list l);
  int_set_elem l x : x ∈ int_set_list l ↔ x ∈ l;
}.

Definition input_op_ids (g : ExecutionGraph) (id : string) : list Z :=
  omap (λ e, (λ v, vertex_id (job_vertex v)) <$> dget (execution_vertices_by_id g) (source_execution_vertex e))
    (input_edges g id).

Definition create_stream_task `{IntSetOrder} (g : ExecutionGraph) (v : ExecutionVertex) : res StreamTask :=
  match build_processor (operator_type (stream_operator (job_vertex v))) with
  | SourceProcessor => Ok SourceStreamTask
  | OneInputProcessor => Ok OneInputStreamTask
  | TwoInputProcessor =>
      match int_set_list (input_op_ids g (execution_vertex_id v)) with
      | [l; r] => Ok (TwoInputStreamTask (str l) (str r))
      | _ => Raise (RuntimeError "Two input vertex should have exactly 2 edges")
      end
  end.

(** ** [StreamTask.collect_stats] *)

Inductive stats_kind := Throughput | Latency.

Definition tail_operator (o : operator) : option operator :=
  match o with Plain _ _ => Some o | Chained _ ops => last ops end.

Definition collect_stats (o : operator) : res stats_kind :=
  match build_processor (operator_type o) with
  | SourceProcessor => Ok Throughput
  | _ =>
      match tail_operator o with
      | Some (Plain c _) =>
          if decide (c = "SinkOperator") then Ok Latency
          else Raise (RuntimeError "Trying to collect stats from worker that does not implement it")
      | _ => Raise (RuntimeError "Trying to collect stats from worker that does not implement it")
      end
  end.

(** ** The task loops *)

(** One round of [InputStreamTask.run]: the messages of a batch, decoded and processed in order. *)
Definition input_round {K V St} (process : rec K V → M St ()) (messages : option (list (dict string (field K V))))
    : M St () :=
  match messages with
  | None => mret ()
  | Some ms => for_each ms (λ m, liftR (record_from_channel_message m) ≫= process)
  end.

(** ** Lemmas: grouping *)

(** Blocks of edges, one per target operator. *)
Record block := mkBlock { b_name : string; b_ids : list string; b_part : partition_kind }.
Definition block_edges (b : block) : list out_edge := map (λ i, mkOut (b_name b) i (b_part b)) (b_ids b).

Lemma group_block b ids parts : b_ids b ≠ [] → b_name b ∉ dkeys ids → b_name b ∉ dkeys parts →
  foldl group_edge (ids, parts) (block_edges b)
  = (ids ++ [(b_name b, b_ids b)], parts ++ [(b_name b, b_part b)]).
Proof.
  destruct b as [n l p]. unfold block_edges. cbn [b_name b_ids b_part]. intros Hne Hi Hp.
  rewrite <- !(dset_app_new _ n) by done.
  induction l as [|j l IH] using rev_ind; [done|]. rewrite map_app, foldl_app.
  destruct (decide (l = [])) as [->|Hl].
  - simpl. unfold group_edge. simpl. by rewrite (proj2 (dget_None ids n)).
  - rewrite IH by done. simpl. unfold group_edge. cbn [fst snd op_name out_channel_id out_partition].
    by rewrite dget_dset_eq, !dset_dset.
Qed.

Lemma group_blocks bs : ∀ ids parts,
  Forall (λ b, b_ids b ≠ []) bs → NoDup (dkeys ids ++ map b_name bs) → dkeys parts = dkeys ids →
  foldl group_edge (ids, parts) (concat (map block_edges bs))
  = (ids ++ map (λ b, (b_name b, b_ids b)) bs, parts ++ map (λ b, (b_name b, b_part b)) bs).
Proof.
  induction bs as [|b bs IH]; intros ids parts Hne Hnd Hk; cbn [map concat foldl]; [by rewrite !app_nil_r|].
  apply Forall_cons in Hne as [Hb Hne]. rewrite foldl_app. cbn [map] in Hnd.
  assert (b_name b ∉ dkeys ids) as Hnew.
  { apply NoDup_app in Hnd as (_ & Hd & _). intros Hin. apply (Hd _ Hin). set_solver. }
  rewrite group_block by (done || by rewrite Hk).
  rewrite IH; [by rewrite <- !(assoc_L (++))|done| |].
  - unfold dkeys in *. rewrite fmap_app. simpl. by rewrite <- (assoc_L (++)).
  - unfold dkeys in *. by rewrite !fmap_app, Hk.
Qed.

(** One collector per block. *)
Lemma collectors_of_blocks bs : Forall (λ b, b_ids b ≠ []) bs → NoDup (map b_name bs) →
  open_collectors (concat (map block_edges bs)) = Ok (map (λ b, mkCollector (b_ids b) (b_part b)) bs).
Proof.
  intros Hne Hnd. unfold open_collectors, group_edges. rewrite group_blocks by done. simpl.
  rewrite mapR_map. apply mapR_ok. intros b Hb. simpl. unfold dgetitem.
  rewrite (dget_elem_wf _ _ (b_ids b)); [done| |].
  - unfold dict_wf, dkeys. by rewrite map_map.
  - apply list_elem_of_fmap. by exists b.
Qed.

(** ** Lemmas: the output edges of an instance *)

Lemma filter_concat {A} (P : A → Prop) `{!∀ x, Decision (P x)} (ls : list (list A)) :
  filter P (concat ls) = concat (map (filter P) ls).
Proof. induction ls as [|l ls IH]; simpl; [done|]. by rewrite filter_app, IH. Qed.

Lemma concat_if {A B} (P : A → Prop) `{!∀ x, Decision (P x)} (f : A → list B) l :
  concat (map (λ x, if decide (P x) then f x else []) l) = concat (map f (filter P l)).
Proof.
  induction l as [|x l IH]; [done|]. rewrite filter_cons. cbn [map concat]. rewrite IH.
  by destruct (decide (P x)).
Qed.

Lemma concat_single {A B} `{!EqDecision A} (f : A → list B) (x : A) l : NoDup l →
  concat (map (λ y, if decide (y = x) then f y else []) l) = if decide (x ∈ l) then f x else [].
Proof.
  intros Hnd. rewrite (concat_if (λ y, y = x)).
  assert (filter (λ y, y = x) l = if decide (x ∈ l) then [x] else []) as ->.
  { induction Hnd as [|y l Hy Hnd IH]; [done|]. rewrite filter_cons, IH.
    destruct (decide (y = x)) as [->|Hne].
    - rewrite (decide_False (P := x ∈ l)) by done. by rewrite decide_True by set_solver.
    - destruct (decide (x ∈ l)); [by rewrite decide_True by set_solver|].
      rewrite decide_False; [done|]. set_solver. }
  destruct (decide (x ∈ l)); [|done]. simpl. by rewrite app_nil_r.
Qed.

Lemma filter_job_edge_edges e srcs tgts id : NoDup srcs →
  filter (λ x, source_execution_vertex x = id) (job_edge_edges e srcs tgts) =
  if decide (id ∈ srcs) then map (λ t, mkEE id t (edge_partition (partition e) (length tgts))) tgts else [].
Proof.
  intros Hnd. unfold job_edge_edges. rewrite filter_concat, map_map.
  rewrite <- (concat_single (λ s, map (λ t, mkEE s t (edge_partition (partition e) (length tgts))) tgts) id srcs Hnd).
  f_equal. apply map_ext. intros s. generalize (edge_partition (partition e) (length tgts)) as p. intros p.
  destruct (decide (s = id)) as [->|Hne]; induction tgts as [|t tgts IH]; try done; cbn [map];
    rewrite filter_cons; [rewrite decide_True by done; by rewrite IH|rewrite decide_False by done; done].
Qed.

Lemma NoDup_map_inj {A B} (f : A → B) l x y : NoDup (map f l) → x ∈ l → y ∈ l → f x = f y → x = y.
Proof.
  induction l as [|z l IH]; intros Hnd Hx Hy E; [set_solver|]. simpl in Hnd. apply NoDup_cons in Hnd as [Hz Hnd].
  assert (∀ w, w ∈ l → f w ≠ f z) as Hno by (intros w Hw Ew; apply Hz; rewrite <- Ew; by apply list_elem_of_fmap_2).
  apply elem_of_cons in Hx as [->|Hx], Hy as [->|Hy]; [done|by destruct (Hno y)|by destruct (Hno x)|by apply IH].
Qed.

Definition dummy_vertex : JobVertex := mkVertex 0 0 VSOURCE (Plain "" SOURCE).
Definition vertex_of (jg : JobGraph) (v : Z) : JobVertex :=
  default dummy_vertex (snd <$> list_find (λ x, vertex_id x = v) (job_vertices jg)).

Lemma vertex_of_ok jg v : v ∈ map vertex_id (job_vertices jg) →
  vertex_of jg v ∈ job_vertices jg ∧ vertex_id (vertex_of jg v) = v.
Proof.
  intros Hv. unfold vertex_of. destruct (list_find _ _) as [[k x]|] eqn:E; simpl.
  - apply list_find_Some in E as (Hk & Hx & _). split; [by eapply list_elem_of_lookup_2|done].
  - apply list_find_None in E. rewrite Forall_forall in E. apply list_elem_of_fmap in Hv as (x & -> & Hx).
    by destruct (E x Hx).
Qed.

(** The collector [jg] calls for between instance [id] and the target of a job edge. *)
Definition block_of (jg : JobGraph) (id : string) (e : JobEdge) : block :=
  let t := vertex_of jg (target_vertex_id e) in
  mkBlock (get_name t) (map (λ x, id +:+ "-" +:+ x) (instance_ids t))
    (edge_partition (partition e) (Z.to_nat (parallelism t))).

Lemma expanded_lookup jg g t j : runnable jg → from_job_graph jg = Ok g → t ∈ job_vertices jg →
  j < Z.to_nat (parallelism t) →
  dget (execution_vertices_by_id g) (execution_vertex_id (mkEV t j None)) = Some (mkEV t j None).
Proof.
  intros Hr Eg Ht Hj. pose proof Hr as [Hv _ Hcl Hp _ Hne].
  destruct (from_job_graph_eq jg Hv Hp Hcl Hne) as (mp & Eg' & _). rewrite Eg in Eg'. injection Eg' as ->.
  cbn [execution_vertices_by_id]. apply dget_elem_wf.
  - unfold dict_wf, dkeys, expanded. cbn [execution_vertices_by_id]. rewrite <- list_fmap_compose.
    by apply all_ids_NoDup.
  - unfold expanded. cbn [execution_vertices_by_id]. apply list_elem_of_fmap. exists (mkEV t j None). split; [done|].
    apply elem_of_concat. exists (instances t). split; [|by apply list_elem_of_fmap_2].
    apply list_elem_of_fmap. exists j. rewrite elem_of_seq. split; [done|lia].
Qed.

Section expanded.
Context (jg : JobGraph) (Hr : runnable jg) (jv : JobVertex) (i : nat).
Context (Hjv : jv ∈ job_vertices jg) (Hi : i < Z.to_nat (parallelism jv)).
Let id := execution_vertex_id (mkEV jv i None).
Let out_jobs := filter (λ e, source_vertex_id e = vertex_id jv) (job_edges jg).

Lemma id_of_source e : e ∈ job_edges jg →
  id ∈ ids_of (job_vertices jg) (source_vertex_id e) ↔ source_vertex_id e = vertex_id jv.
Proof.
  intros He. destruct (rn_closed _ Hr e He) as [Hs _]. destruct (vertex_of_ok jg _ Hs) as [Hin Hid].
  rewrite <- Hid, ids_of_vertex by (done || apply Hr). rewrite instance_ids_elem1. split.
  - intros (j & _ & E%execution_vertex_id_inj). destruct E as [E _]. done.
  - intros E. assert (vertex_of jg (source_vertex_id e) = jv) as ->; [|by exists i].
    by apply (NoDup_map_inj vertex_id (job_vertices jg)); [apply Hr|..].
Qed.

Lemma output_edges_of g : from_job_graph jg = Ok g →
  output_edges g id = concat (map (λ e,
    let t := vertex_of jg (target_vertex_id e) in
    map (λ x, mkEE id x (edge_partition (partition e) (Z.to_nat (parallelism t)))) (instance_ids t)) out_jobs).
Proof.
  intros Eg. pose proof Hr as [Hv _ Hcl Hp _ Hne]. destruct (from_job_graph_eq jg Hv Hp Hcl Hne) as (mp & Eg' & _).
  rewrite Eg in Eg'. injection Eg' as ->. unfold output_edges. cbn [execution_edges].
  rewrite filter_concat, map_map. unfold out_jobs. rewrite <- (concat_if (λ e, source_vertex_id e = vertex_id jv)).
  f_equal. apply map_ext_in. intros e He%list_elem_of_In. destruct (Hcl e He) as [Hs Ht].
  destruct (vertex_of_ok jg _ Hs) as [Hs1 Hs2]. destruct (vertex_of_ok jg _ Ht) as [Ht1 Ht2].
  unfold edges_of. rewrite filter_job_edge_edges by (rewrite <- Hs2, ids_of_vertex by done; apply instance_ids_NoDup).
  assert (ids_of (job_vertices jg) (target_vertex_id e) = instance_ids (vertex_of jg (target_vertex_id e))) as ->
    by (rewrite <- Ht2 at 1; by apply ids_of_vertex).
  rewrite instance_ids_length.
  pose proof (id_of_source e He). destruct (decide (id ∈ _)), (decide (source_vertex_id e = vertex_id jv)); tauto || done.
Qed.

Lemma out_edges_ok g : from_job_graph jg = Ok g →
  mapR (out_edge_of g) (output_edges g id) = Ok (concat (map block_edges (map (block_of jg id) out_jobs))).
Proof.
  intros Eg. rewrite (output_edges_of g Eg). rewrite map_map. cbn zeta.
  assert (∀ e, e ∈ out_jobs → target_vertex_id e ∈ map vertex_id (job_vertices jg)) as Hout.
  { intros e He. apply list_elem_of_filter in He as [_ He]. by apply (rn_closed _ Hr). }
  induction out_jobs as [|e es IH]; [done|]. cbn [map concat]. rewrite mapR_app, IH by set_solver.
  destruct (vertex_of_ok jg (target_vertex_id e)) as [Ht1 Ht2]; [apply Hout; set_solver|].
  rewrite mapR_map. set (t := vertex_of jg (target_vertex_id e)) in *.
  rewrite (mapR_ok _ (λ x, mkOut (get_name t) (id +:+ "-" +:+ x) (edge_partition (partition e) (Z.to_nat (parallelism t))))).
  - cbn [mbind res_bind]. f_equal. f_equal. unfold block_edges, block_of. simpl. fold t. by rewrite map_map.
  - intros x Hx. apply instance_ids_elem1 in Hx as (j & Hj & ->). unfold out_edge_of. simpl.
    rewrite (expanded_lookup jg g t j Hr Eg Ht1 Hj). done.
Qed.

Lemma get_name_inj v w : get_name v = get_name w → vertex_id v = vertex_id w.
Proof.
  unfold get_name. intros E. apply split_unique in E as [E%str_inj _]; [done|apply str_no_underscore..].
Qed.

Lemma blocks_ok :
  Forall (λ b, b_ids b ≠ []) (map (block_of jg id) out_jobs) ∧ NoDup (map b_name (map (block_of jg id) out_jobs)).
Proof.
  assert (∀ e, e ∈ out_jobs → e ∈ job_edges jg ∧ source_vertex_id e = vertex_id jv) as Hout.
  { intros e He. by apply list_elem_of_filter in He as [? ?]. }
  split.
  - apply Forall_fmap, Forall_forall. intros e He%Hout. destruct He as [He _].
    destruct (vertex_of_ok jg (target_vertex_id e)) as [Ht _]; [by apply (rn_closed _ Hr)|].
    pose proof (rn_par _ Hr) as Hp. rewrite Forall_forall in Hp. specialize (Hp _ Ht).
    unfold block_of. simpl. intros E%(f_equal length). rewrite length_map, instance_ids_length in E. simpl in E. lia.
  - rewrite map_map. apply (NoDup_map_finer edge_ends).
    + intros x y Hx%Hout Hy%Hout E. simpl in E. apply get_name_inj in E.
      destruct Hx as [Hx Ex], Hy as [Hy Ey].
      destruct (vertex_of_ok jg (target_vertex_id x)) as [_ E1]; [by apply (rn_closed _ Hr)|].
      destruct (vertex_of_ok jg (target_vertex_id y)) as [_ E2]; [by apply (rn_closed _ Hr)|].
      unfold edge_ends. congruence.
    + eapply sublist_NoDup; [exact (rn_edges _ Hr)|]. apply sublist_map. unfold out_jobs. apply sublist_filter.
Qed.

Lemma collectors_eq g : from_job_graph jg = Ok g →
  task_collectors g id =
  Ok (map (λ b, mkCollector (b_ids b) (b_part b)) (map (block_of jg id) out_jobs)).
Proof.
  intros Eg. unfold task_collectors. rewrite (out_edges_ok g Eg). cbn [mbind res_bind].
  destruct blocks_ok. by apply collectors_of_blocks.
Qed.
End expanded.

(** ** Lemmas: two inputs *)

(** The order that lists [first] before the other elements. *)
Definition order_first (first : Z) : IntSetOrder := λ l,
  let d := remove_dups l in if decide (first ∈ d) then first :: filter (λ x, x ≠ first) d else d.

Lemma order_first_ok first : @IntSetOrderOk (order_first first).
Proof.
  split; intros l; unfold int_set_list, order_first; pose proof (NoDup_remove_dups l) as Hnd;
    [|intros x]; destruct (decide (first ∈ remove_dups l)) as [Hin|Hin].
  - constructor; [|by apply NoDup_filter]. intros [? _]%list_elem_of_filter. done.
  - done.
  - rewrite elem_of_cons, list_elem_of_filter, elem_of_remove_dups. rewrite elem_of_remove_dups in Hin.
    destruct (decide (x = first)); naive_solver.
  - by rewrite elem_of_remove_dups.
Qed.

Lemma two_elements (d : list Z) l r : NoDup d → l ≠ r → (∀ x, x ∈ d ↔ x = l ∨ x = r) → d = [l; r] ∨ d = [r; l].
Proof.
  intros Hnd Hne Hel. assert (d ≡ₚ [l; r]) as Hp.
  { apply NoDup_Permutation; [done| |].
    - apply NoDup_cons. split; [set_solver|apply NoDup_singleton].
    - intros x. rewrite Hel. set_solver. }
  symmetry in Hp. apply Permutation_length_2_inv in Hp. naive_solver.
Qed.

(** ** Lemmas: statistics *)

(** What the job graph builder and the optimizer make: the operator of a source vertex is a source,
    that of an unchained sink vertex is a sink. *)
Definition vertex_typed (jv : JobVertex) : Prop :=
  (vertex_type jv = VSOURCE → operator_type (stream_operator jv) = SOURCE) ∧
  (vertex_type jv = VSINK → ∀ c t, stream_operator jv = Plain c t → c = "SinkOperator").

Lemma registered_collects jv : vertex_typed jv → is_sink jv || bool_decide (vertex_type jv = VSOURCE) = true →
  collect_stats (stream_operator jv) =
  Ok (if decide (operator_type (stream_operator jv) = SOURCE) then Throughput else Latency).
Proof.
  intros [Hsrc Hsink] Hreg. unfold collect_stats.
  destruct (operator_type (stream_operator jv)) eqn:Et; [done|..]; cbn [build_processor]; rewrite decide_False by done;
    (apply orb_prop in Hreg as [Hreg|Hreg]; [|apply bool_decide_eq_true in Hreg; by apply Hsrc in Hreg]);
    unfold is_sink in Hreg; destruct (stream_operator jv) as [c t|t ops] eqn:Eo; simpl.
  1,3: (apply bool_decide_eq_true in Hreg; rewrite (Hsink Hreg c t eq_refl); by rewrite decide_True).
  all: destruct (last ops) as [[c' t'|]|]; try done; apply bool_decide_eq_true in Hreg as ->; by rewrite decide_True.
Qed.

(** ** Theorems *)

(** The output collectors of a task.  In an expanded job graph a task opens one collector per job
    edge leaving its operator, in the order of the edges, over exactly the channels from this
    instance to all instances of the target operator, in instance order, with the partition of the
    edge (round robin for a forward edge to a parallel target). *)
Theorem task_collectors_complete jg g jv i :
  runnable jg → from_job_graph jg = Ok g → jv ∈ job_vertices jg → i < Z.to_nat (parallelism jv) →
  let id := execution_vertex_id (mkEV jv i None) in
  task_collectors g id =
  Ok (map (λ e, let t := vertex_of jg (target_vertex_id e) in
            mkCollector (map (λ x, id +:+ "-" +:+ x) (instance_ids t))
              (edge_partition (partition e) (Z.to_nat (parallelism t))))
        (filter (λ e, source_vertex_id e = vertex_id jv) (job_edges jg))).
Proof. intros Hr Eg Hjv Hi id. unfold id. rewrite (collectors_eq jg Hr jv i Hjv Hi g Eg). by rewrite map_map. Qed.

(** The sides of a join.  A two-input task whose inputs are the operators [l] and [r] gets their two
    names, but which becomes the left one is decided by the iteration order of a set: some lawful
    order swaps them, and then a record of the left stream is joined as a right record. *)
Theorem join_sides_depend_on_set_order g v l r :
  operator_type (stream_operator (job_vertex v)) = TWO_INPUT → l ≠ r →
  (∀ x, x ∈ input_op_ids g (execution_vertex_id v) ↔ x = l ∨ x = r) →
  (∀ O, @IntSetOrderOk O → @create_stream_task O g v = Ok (TwoInputStreamTask (str l) (str r)) ∨
                           @create_stream_task O g v = Ok (TwoInputStreamTask (str r) (str l))) ∧
  (∃ O, @IntSetOrderOk O ∧ @create_stream_task O g v = Ok (TwoInputStreamTask (str l) (str r))) ∧
  (∃ O, @IntSetOrderOk O ∧ @create_stream_task O g v = Ok (TwoInputStreamTask (str r) (str l))).
Proof.
  intros Ht Hne Hel.
  assert (∀ O, @IntSetOrderOk O → @int_set_list O (input_op_ids g (execution_vertex_id v)) = [l; r] ∨
    @int_set_list O (input_op_ids g (execution_vertex_id v)) = [r; l]) as Hcases.
  { intros O HO. apply two_elements; [apply int_set_nodup|done|]. intros x. by rewrite int_set_elem. }
  assert (∀ f, f = l ∨ f = r → ∃ rest, @int_set_list (order_first f) (input_op_ids g (execution_vertex_id v)) = f :: rest)
    as Hhead.
  { intros f Hf. unfold int_set_list, order_first. rewrite decide_True; [eauto|].
    apply elem_of_remove_dups. by apply Hel. }
  unfold create_stream_task. rewrite Ht. cbn [build_processor]. split_and!.
  - intros O HO. destruct (Hcases O HO) as [-> | ->]; [by left|by right].
  - exists (order_first l). split; [apply order_first_ok|]. destruct (Hhead l) as [rest E]; [by left|].
    destruct (Hcases _ (order_first_ok l)) as [->|E2]; [done|]. congruence.
  - exists (order_first r). split; [apply order_first_ok|]. destruct (Hhead r) as [rest E]; [by right|].
    destruct (Hcases _ (order_first_ok r)) as [E2| ->]; [congruence|done].
Qed.

(** ** Concrete instances *)

Lemma task_collectors_complete_witness :
  ∃ g, from_job_graph ex_jg = Ok g ∧
    task_collectors g "1_1" = Ok [mkCollector ["1_1-2_0"; "1_1-2_1"; "1_1-2_2"] PRoundRobin].
Proof.
  destruct (from_job_graph ex_jg) as [g|e] eqn:E; [|by vm_compute in E]. exists g. split; [done|].
  refine (eq_trans (task_collectors_complete ex_jg g (mkVertex 1 2 VSOURCE (Plain "SourceOperator" SOURCE)) 1
    ex_jg_runnable E _ _) _); [by left|simpl; lia|vm_compute; reflexivity].
Defined.

Definition ex_join_jg : JobGraph :=
  mkGraph [mkVertex 1 1 VSOURCE (Plain "SourceOperator" SOURCE); mkVertex 2 1 VSOURCE (Plain "SourceOperator" SOURCE);
           mkVertex 3 1 VJOIN (Plain "JoinOperator" TWO_INPUT)]
    [new_edge 1 3 PKey; new_edge 2 3 PKey].
Definition ex_join_graph : ExecutionGraph :=
  match from_job_graph ex_join_jg with Ok g => g | Raise _ => mkEG [] [] [] None end.
Definition ex_join_vertex : ExecutionVertex := mkEV (mkVertex 3 1 VJOIN (Plain "JoinOperator" TWO_INPUT)) 0 None.

Lemma join_sides_depend_on_set_order_witness :
  ∃ O, @IntSetOrderOk O ∧ @create_stream_task O ex_join_graph ex_join_vertex = Ok (TwoInputStreamTask "2" "1").
Proof.
  destruct (join_sides_depend_on_set_order ex_join_graph ex_join_vertex 1 2) as (_ & _ & O & HO & E).
  - reflexivity.
  - discriminate.
  - intros x. change (input_op_ids _ _) with [1; 2]%Z. set_solver.
  - exists O. split; [exact HO|]. rewrite E. reflexivity.
Defined.
