(* ===== verification/Deployment.v ===== *)
(** * From a job graph to a running job
    ([_prepare_task] and [_open_processor] of [volga/streaming/runtime/worker/task/stream_task.py],
     [_create_stream_task] of [worker/job_worker.py])

    The tasks of an execution graph, with the readers, writers and collectors their workers
    make, are the tasks of [Dataflow].  Their channels form a topology, whatever the job
    graph, and an operator behind key partitions is a keyed stage, so the theorems about
    running jobs hold of every job that can be submitted. *)

From S2P Require Import Prelude PyDict PyDecimal Message Partition Network Operators Dataflow Keyed.
From S2P Require Import JobGraph Execution Workers Tasks.

Section deployment.
Context {K V : Type}.

(** What the runtime is given besides the graph: the operator of a job vertex with the state
    its [open] leaves in instance [i], the function of a simple partition, the writer's
    configuration and the clocks. *)
Record runtime := mkRuntime {
  operator_of : Z → nat → sigT (@op_st K V);
  simple_func : rec K V → Z → list Z;
  rt_batch_size : nat;
  rt_flush_period_s : Qc;
  rt_perf : string → nat → Qc;
  rt_wall : string → nat → Qc;
}.
Context (rt : runtime).

(** The partition object an edge carries. *)
Definition partition_object (p : partition_kind) : Partition K V :=
  match p with
  | PForward => new_Forward
  | PKey => new_Key
  | PRoundRobin => new_RoundRobin
  | PBroadcast => new_Broadcast
  | PSimple => SimplePartition (simple_func rt)
  end.

Definition collector_object (c : OutputCollector) : collector K V :=
  Partition.mkCollector (Tasks.output_channel_ids c) (partition_object (collector_partition c)).

(** The task of an execution vertex. *)
Definition deploy_vertex (g : ExecutionGraph) (v : ExecutionVertex) : res (vertex K V) :=
  cs ← task_collectors g (execution_vertex_id v);
  let io := prepare_task g v in
  let o := operator_of rt (vertex_id (job_vertex v)) (execution_vertex_index v) in
  Ok (mkVx (projT1 o) (projT2 o)
        (match build_processor (operator_type (stream_operator (job_vertex v))) with SourceProcessor => true | _ => false end)
        (str (vertex_id (job_vertex v))) (default [] (data_reader io)) (map collector_object cs)
        (rt_batch_size rt) (rt_flush_period_s rt)
        (rt_perf rt (execution_vertex_id v)) (rt_wall rt (execution_vertex_id v))).

Definition deploy (g : ExecutionGraph) : res (list (vertex K V)) :=
  mapR (λ e, deploy_vertex g e.2) (execution_vertices_by_id g).
End deployment.

Arguments runtime : clear implicits.

(** ** Lemmas: grouping edges by vertex *)

Lemma concat_group_NoDup {A B} (f : A → string) (key : A → B) `{!EqDecision B} (ids : list B) (l : list A) :
  NoDup (map f l) → NoDup ids → NoDup (concat (map (λ b, map f (filter (λ x, key x = b) l)) ids)).
Proof.
  intros Hl Hids. induction Hids as [|b ids Hb Hids IH]; cbn; [constructor|]. apply NoDup_app. split_and!; [| |done].
  - eapply sublist_NoDup; [exact Hl|]. apply sublist_map. apply sublist_filter.
  - intros s Hs Hs'. apply list_elem_of_fmap in Hs as (x & -> & [Hx1 Hx2]%list_elem_of_filter).
    apply elem_of_concat in Hs' as (l' & Hin & (b' & -> & Hb')%list_elem_of_fmap).
    apply list_elem_of_fmap in Hin as (y & E & [Hy1 Hy2]%list_elem_of_filter).
    assert (x = y) as -> by (by eapply (NoDup_map_inj f l)). congruence.
Qed.

(** ** The tasks of an expanded job graph *)

Section topology.
Context {K V : Type} (rt : runtime K V) (jg : JobGraph) (g : ExecutionGraph).
Context (Hr : runnable jg) (Eg : from_job_graph jg = Ok g).
Context (Hsimple : ∀ e, e ∈ job_edges jg → partition e ≠ PSimple).

Local Abbreviation all := (concat (map instances (job_vertices jg))).

Lemma graph_eq : execution_vertices_by_id g = map (λ v, (execution_vertex_id v, v)) all ∧
  execution_edges g = concat (map (edges_of (job_vertices jg)) (job_edges jg)).
Proof.
  pose proof Hr as [Hv _ Hcl Hp _ Hne]. destruct (from_job_graph_eq jg Hv Hp Hcl Hne) as (mp & E & _).
  rewrite Eg in E. injection E as ->. done.
Qed.

Lemma all_elem v : v ∈ all ↔ ∃ jv i, jv ∈ job_vertices jg ∧ i < Z.to_nat (parallelism jv) ∧ v = mkEV jv i None.
Proof.
  rewrite elem_of_concat. setoid_rewrite list_elem_of_fmap. split.
  - intros (l & Hv & jv & -> & Hjv). apply list_elem_of_fmap in Hv as (i & -> & Hi%elem_of_seq). exists jv, i. split_and!; [done|lia|done].
  - intros (jv & i & Hjv & Hi & ->). exists (instances jv). split; [|eauto]. apply list_elem_of_fmap. exists i.
    rewrite elem_of_seq. split; [done|lia].
Qed.

(** The collectors of a task: one per outgoing job edge. *)
Definition task_blocks (v : ExecutionVertex) : list block :=
  map (block_of jg (execution_vertex_id v)) (filter (λ e, source_vertex_id e = vertex_id (job_vertex v)) (job_edges jg)).

Lemma collectors_of v : v ∈ all →
  task_collectors g (execution_vertex_id v) = Ok (map (λ b, Tasks.mkCollector (b_ids b) (b_part b)) (task_blocks v)) ∧
  map edge_id (output_edges g (execution_vertex_id v)) = concat (map b_ids (task_blocks v)) ∧
  Forall (λ b, b_ids b ≠ []) (task_blocks v).
Proof.
  intros (jv & i & Hjv & Hi & ->)%all_elem. split_and!.
  - by rewrite (collectors_eq jg Hr jv i Hjv Hi g Eg).
  - rewrite (output_edges_of jg Hr jv i Hjv Hi g Eg). rewrite concat_map, !map_map. unfold task_blocks. rewrite map_map.
    f_equal. apply map_ext. intros e. cbn. by rewrite map_map.
  - by apply (blocks_ok jg Hr jv i).
Qed.

(** The task [deploy_vertex] makes. *)
Definition deployed (v : ExecutionVertex) : vertex K V :=
  let o := operator_of rt (vertex_id (job_vertex v)) (execution_vertex_index v) in
  mkVx (projT1 o) (projT2 o)
    (match build_processor (operator_type (stream_operator (job_vertex v))) with SourceProcessor => true | _ => false end)
    (str (vertex_id (job_vertex v)))
    (if decide (vertex_type (job_vertex v) = VSOURCE) then [] else map edge_id (input_edges g (execution_vertex_id v)))
    (map (λ b, Partition.mkCollector (b_ids b) (partition_object rt (b_part b))) (task_blocks v))
    (rt_batch_size rt) (rt_flush_period_s rt) (rt_perf rt (execution_vertex_id v)) (rt_wall rt (execution_vertex_id v)).

Lemma deploy_ok : deploy rt g = Ok (map deployed all).
Proof.
  unfold deploy. rewrite (proj1 graph_eq), mapR_map. apply mapR_ok. intros v Hv. cbn [snd]. unfold deploy_vertex.
  rewrite (proj1 (collectors_of v Hv)). cbn. unfold deployed. do 2 f_equal.
  - case_decide as H1; destruct (decide (vertex_type (job_vertex v) = VSOURCE)) as [H2|H2]; try done.
    + destruct H1 as [H1|]; [|done]. by rewrite H1.
    + destruct H1. by right.
  - by rewrite map_map.
Qed.

Lemma deployed_outs v : v ∈ all → v_outs (deployed v) = map edge_id (output_edges g (execution_vertex_id v)).
Proof.
  intros Hv. rewrite (proj1 (proj2 (collectors_of v Hv))). unfold v_outs, deployed. cbn [v_collectors]. by rewrite map_map.
Qed.

Lemma deployed_NoDup (f : ExecutionEdge → string) (P : ExecutionVertex → Prop) `{!∀ v, Decision (P v)} :
  NoDup (concat (map (λ v, if decide (P v) then [] else map edge_id (filter (λ e, f e = execution_vertex_id v) (execution_edges g))) all)).
Proof.
  eapply sublist_NoDup.
  - apply (concat_group_NoDup edge_id f (map execution_vertex_id all) (execution_edges g)).
    + rewrite (proj2 graph_eq). by apply edges_unique.
    + apply all_ids_NoDup, Hr.
  - rewrite map_map. generalize all as l. intros l. induction l as [|v l IH]; cbn [map concat]; [done|].
    apply sublist_app; [|done]. destruct (decide (P v)); [apply sublist_nil_l|done].
Qed.

Lemma edge_part_wf e n : e ∈ job_edges jg → partition_wf (partition_object rt (edge_partition (partition e) n)).
Proof.
  intros He. specialize (Hsimple e He). unfold edge_partition. case_decide; [done|]. by destruct (partition e).
Qed.

Lemma deploy_topology_ok : topology (map deployed all).
Proof.
  split.
  - rewrite map_map. rewrite (map_ext_in _ (λ v, if decide False then [] else map edge_id (output_edges g (execution_vertex_id v)))).
    + apply (deployed_NoDup source_execution_vertex (λ _, False)).
    + intros v Hv%list_elem_of_In. by apply deployed_outs.
  - rewrite map_map. apply (deployed_NoDup target_execution_vertex (λ v, vertex_type (job_vertex v) = VSOURCE)).
  - intros v ch Hv Hch. apply list_elem_of_fmap in Hv as (w & -> & Hw). unfold deployed in Hch. cbn [v_ins] in Hch.
    case_decide; [set_solver|]. apply list_elem_of_fmap in Hch as (e & -> & [_ He]%list_elem_of_filter).
    pose proof He as He'. rewrite (proj2 graph_eq) in He.
    apply elem_of_concat in He as (l & He & (je & -> & Hje)%list_elem_of_fmap).
    apply edges_of_elem in He as (src & tgt & i & k & _ & Hs & _ & _ & _ & Hi & _ & ->); [|done..].
    assert (mkEV src i None ∈ all) as Hin by (apply all_elem; eauto).
    exists (deployed (mkEV src i None)). split; [by apply list_elem_of_fmap_2|]. rewrite deployed_outs by done.
    apply list_elem_of_fmap_2. by apply list_elem_of_filter.
  - apply Forall_fmap, Forall_forall. intros v Hv. cbn. destruct (collectors_of v Hv) as (_ & _ & Hne).
    apply Forall_fmap. unfold task_blocks in *. rewrite Forall_fmap in *. rewrite Forall_forall in *. intros e He.
    specialize (Hne e He). apply list_elem_of_filter in He as [_ He]. split; [by apply edge_part_wf|exact Hne].
Qed.

(** *** Input channels *)

Lemma filter_edges_target e srcs tgts id : NoDup tgts →
  filter (λ x, target_execution_vertex x = id) (job_edge_edges e srcs tgts) =
  if decide (id ∈ tgts) then map (λ s, mkEE s id (edge_partition (partition e) (length tgts))) srcs else [].
Proof.
  intros Hnd. unfold job_edge_edges. rewrite filter_concat, map_map.
  generalize (edge_partition (partition e) (length tgts)) as p. intros p.
  assert (∀ s, filter (λ x, target_execution_vertex x = id) (map (λ t, mkEE s t p) tgts) =
    if decide (id ∈ tgts) then [mkEE s id p] else []) as Hs.
  { intros s. rewrite <- (concat_single (λ t, [mkEE s t p]) id tgts Hnd). clear Hnd. induction tgts as [|t tgts IH]; [done|].
    cbn [map concat]. rewrite filter_cons, IH. cbn. by destruct (decide (t = id)). }
  induction srcs as [|s srcs IH]; cbn [map concat]; [by case_decide|]. rewrite Hs, IH. by case_decide.
Qed.

Context (t : JobVertex) (Ht : t ∈ job_vertices jg).

Definition in_jobs : list JobEdge := filter (λ e, target_vertex_id e = vertex_id t) (job_edges jg).

Lemma target_vertex e : e ∈ in_jobs → e ∈ job_edges jg ∧ vertex_of jg (target_vertex_id e) = t ∧
  vertex_of jg (source_vertex_id e) ∈ job_vertices jg.
Proof.
  intros [E He]%list_elem_of_filter. destruct (rn_closed _ Hr e He) as [Hs Htg].
  destruct (vertex_of_ok jg _ Hs) as [Hs1 _]. destruct (vertex_of_ok jg _ Htg) as [Ht1 Ht2]. split_and!; [done| |done].
  apply (NoDup_map_inj vertex_id (job_vertices jg)); [apply Hr|done|done|congruence].
Qed.

Lemma input_edges_of id : id ∈ instance_ids t →
  map edge_id (input_edges g id) =
  concat (map (λ e, map (λ s, s +:+ "-" +:+ id) (instance_ids (vertex_of jg (source_vertex_id e)))) in_jobs).
Proof.
  intros Hid. unfold input_edges. rewrite (proj2 graph_eq), filter_concat, map_map, concat_map, map_map. unfold in_jobs.
  rewrite <- (concat_if (λ e, target_vertex_id e = vertex_id t)). f_equal. apply map_ext_in. intros e He%list_elem_of_In.
  pose proof Hr as [Hv _ Hcl _ _ _]. destruct (Hcl e He) as [Hs Htg].
  destruct (vertex_of_ok jg _ Hs) as [Hs1 Hs2]. destruct (vertex_of_ok jg _ Htg) as [Ht1 Ht2].
  unfold edges_of. rewrite <- Hs2, <- Ht2 at 1. rewrite !ids_of_vertex by done.
  rewrite filter_edges_target by apply instance_ids_NoDup.
  assert (id ∈ instance_ids (vertex_of jg (target_vertex_id e)) ↔ target_vertex_id e = vertex_id t) as Hiff.
  { split.
    - intros Hid'. apply instance_ids_elem1 in Hid as (i & _ & ->), Hid' as (i' & _ & E).
      apply execution_vertex_id_inj in E as [E _]. cbn in E. congruence.
    - intros E. assert (vertex_of jg (target_vertex_id e) = t) as ->; [|done].
      apply (NoDup_map_inj vertex_id (job_vertices jg)); [done|done|done|congruence]. }
  destruct (decide (target_vertex_id e = vertex_id t)), (decide (id ∈ _)); try tauto; try done. by rewrite map_map.
Qed.

(** *** Positions *)

Definition pos (id : string) : nat := default 0 (fst <$> list_find (λ v, execution_vertex_id v = id) all).

Lemma pos_ok v : v ∈ all → all !! pos (execution_vertex_id v) = Some v.
Proof.
  intros Hv. unfold pos. destruct (list_find _ all) as [[k w]|] eqn:E; cbn.
  - apply list_find_Some in E as (Hk & Hid & _). rewrite Hk. f_equal.
    apply (NoDup_map_inj execution_vertex_id all); [by apply all_ids_NoDup, Hr|by eapply list_elem_of_lookup_2|done|done].
  - apply list_find_None in E. rewrite Forall_forall in E. by destruct (E v Hv).
Qed.

Lemma instance_pos jv id : jv ∈ job_vertices jg → id ∈ instance_ids jv →
  ∃ i, i < Z.to_nat (parallelism jv) ∧ id = execution_vertex_id (mkEV jv i None) ∧
    all !! pos id = Some (mkEV jv i None) ∧ mkEV jv i None ∈ all.
Proof.
  intros Hjv (i & Hi & ->)%instance_ids_elem1. exists i. assert (mkEV jv i None ∈ all) as Hin by (apply all_elem; eauto).
  split_and!; [done|done|by apply pos_ok|done].
Qed.

(** The tasks before [t], the tasks of [t] and the channels between them. *)
Definition sender_ids : list string := concat (map (λ e, instance_ids (vertex_of jg (source_vertex_id e))) in_jobs).
Definition sender_positions : list nat := map pos sender_ids.
Definition instance_positions : list nat := map pos (instance_ids t).
Definition channel_between (s k : nat) : string :=
  default "" (execution_vertex_id <$> all !! s) +:+ "-" +:+ nth k (instance_ids t) "".

Lemma channel_between_ok jv id k : jv ∈ job_vertices jg → id ∈ instance_ids jv →
  channel_between (pos id) k = id +:+ "-" +:+ nth k (instance_ids t) "".
Proof. intros Hjv Hid. destruct (instance_pos jv id Hjv Hid) as (i & _ & -> & E & _). unfold channel_between. by rewrite E. Qed.

Lemma map_nth_seq {A B} (f : A → B) d l : map (λ k, f (nth k l d)) (seq 0 (length l)) = map f l.
Proof.
  induction l as [|x l IH]; [done|]. cbn [length seq map nth]. f_equal. rewrite <- seq_shift, map_map. exact IH.
Qed.

Lemma sender_id_vertex id : id ∈ sender_ids → ∃ e, e ∈ in_jobs ∧ id ∈ instance_ids (vertex_of jg (source_vertex_id e)).
Proof. intros (l & Hid & (e & -> & He)%list_elem_of_fmap)%elem_of_concat. eauto. Qed.

(** The tasks of an operator and those before it, between which all edges have one kind of partition. *)
Definition deployed_partition (p : partition_kind) : Partition K V := partition_object rt (edge_partition p (Z.to_nat (parallelism t))).

Lemma deployed_exchange p : vertex_type t ≠ VSOURCE → operator_type (stream_operator t) ≠ SOURCE →
  (∀ e, e ∈ in_jobs → partition e = p) →
  exchange (deployed_partition p) (map deployed all) sender_positions instance_positions channel_between.
Proof.
  intros Hvt Hot Hkey. split.
  - unfold instance_positions. intros E%(f_equal length). rewrite length_map, instance_ids_length in E. cbn in E.
    pose proof (rn_par _ Hr) as Hp. rewrite Forall_forall in Hp. specialize (Hp t Ht). lia.
  - intros s (id & -> & Hid)%list_elem_of_fmap. destruct (sender_id_vertex id Hid) as (e & He & Hid').
    destruct (target_vertex e He) as (Hej & Etg & Hsrc). destruct (instance_pos _ _ Hsrc Hid') as (i & Hi & Eid & Epos & Hin).
    destruct (rn_closed _ Hr e Hej) as [Hs _]. destruct (vertex_of_ok jg _ Hs) as [_ Hsid].
    assert (e ∈ filter (λ e', source_vertex_id e' = vertex_id (job_vertex (mkEV (vertex_of jg (source_vertex_id e)) i None))) (job_edges jg))
      as [ci Hci]%list_elem_of_lookup_1 by (apply list_elem_of_filter; by split).
    eexists _, ci. split; [by rewrite list_lookup_fmap, Epos|].
    unfold deployed, task_blocks. cbn [v_collectors]. rewrite map_map. rewrite list_lookup_fmap, Hci. cbn [fmap option_fmap option_map].
    unfold block_of. cbn [b_ids b_part]. rewrite Etg, (Hkey e He). fold (deployed_partition p). do 2 f_equal.
    unfold instance_positions. rewrite length_map. rewrite <- Eid, <- (map_nth_seq (λ x, id +:+ "-" +:+ x) "" (instance_ids t)).
    apply map_ext. intros k. symmetry. by eapply channel_between_ok.
  - intros k i Hk. unfold instance_positions in Hk. change (map pos) with (fmap pos (M := list)) in Hk.
    rewrite list_lookup_fmap in Hk. destruct (instance_ids t !! k) as [id|] eqn:Eid; [|done]. injection Hk as <-.
    pose proof (list_elem_of_lookup_2 _ _ _ Eid) as Hid. destruct (instance_pos t id Ht Hid) as (i & Hi & Ei & Epos & Hin).
    eexists. split_and!; [by rewrite list_lookup_fmap, Epos| |].
    + unfold deployed. cbn [v_source job_vertex]. by destruct (operator_type (stream_operator t)).
    + unfold deployed. cbn [v_ins job_vertex]. rewrite decide_False by done. rewrite <- Ei, (input_edges_of id Hid).
      unfold sender_positions, sender_ids. rewrite map_map, concat_map, map_map. apply Permutation_refl_eq. f_equal. apply map_ext_in. intros e He%list_elem_of_In.
      destruct (target_vertex e He) as (_ & _ & Hsrc). apply map_ext_in. intros s Hs%list_elem_of_In.
      rewrite (channel_between_ok _ s k Hsrc Hs). by rewrite (nth_lookup_Some _ _ "" id Eid).
Qed.

(** An operator that takes its input through key partitions only is a keyed stage. *)
Lemma deployed_keyed : vertex_type t ≠ VSOURCE → operator_type (stream_operator t) ≠ SOURCE →
  (∀ e, e ∈ in_jobs → partition e = PKey) →
  keyed_stage (map deployed all) sender_positions instance_positions channel_between.
Proof.
  intros Hvt Hot Hkey. pose proof (deployed_exchange PKey Hvt Hot Hkey) as Hx. unfold deployed_partition, edge_partition in Hx.
  by rewrite decide_False in Hx by by intros [? _].
Qed.

(** Which targets the partition of an edge chooses. *)
Lemma deployed_one p : p ≠ PBroadcast → p ≠ PSimple → one_target (deployed_partition p).
Proof. intros Hb Hs. unfold deployed_partition, edge_partition. case_decide; [done|]. by destruct p. Qed.
Lemma deployed_all : all_targets (deployed_partition PBroadcast).
Proof. unfold deployed_partition, edge_partition. by rewrite decide_False by by intros [? _]. Qed.
End topology.

(** The writer of a task names its records after the operator. *)
Lemma name_of_instance {K V} (rt : runtime K V) jg g jv s : runnable jg → jv ∈ job_vertices jg →
  s ∈ map (pos jg) (instance_ids jv) →
  name_of (map (deployed rt jg g) (concat (map instances (job_vertices jg)))) s = str (vertex_id jv).
Proof.
  intros Hr Hjv (id & -> & Hid)%list_elem_of_fmap. destruct (instance_pos jg Hr jv id Hjv Hid) as (i & _ & _ & E & _).
  unfold name_of. by rewrite list_lookup_fmap, E.
Qed.

(** Every instance of an operator starts with the operator and the state the runtime gives it. *)
Lemma instance_operator {K V} (rt : runtime K V) jg g (Hr : runnable jg) t (Ht : t ∈ job_vertices jg) (o : sigT op_st) k s v :
  (∀ i, operator_of rt (vertex_id t) i = o) → instance_positions jg t !! k = Some s →
  map (deployed rt jg g) (concat (map instances (job_vertices jg))) !! s = Some v →
  existT (v_op v) (v_init v) = o :> sigT op_st.
Proof.
  intros Hop Hk Hs. apply list_elem_of_lookup_2, list_elem_of_fmap in Hk as (id & -> & Hid).
  destruct (instance_pos jg Hr t id Ht Hid) as (i & _ & _ & Epos & _).
  rewrite list_lookup_fmap, Epos in Hs. injection Hs as <-. cbn. rewrite Hop. by destruct o.
Qed.

Lemma instance_position jg t i : i < Z.to_nat (parallelism t) →
  instance_positions jg t !! i = Some (pos jg (execution_vertex_id (mkEV t i None))).
Proof.
  intros Hi. unfold instance_positions, instance_ids, instances. change (@map ?A ?B) with (fmap (M := list) (A := A) (B := B)).
  by rewrite !list_lookup_fmap, lookup_seq_lt.
Qed.

Lemma length_instance_positions jg t : length (instance_positions jg t) = Z.to_nat (parallelism t).
Proof. unfold instance_positions. by rewrite length_map, instance_ids_length. Qed.

(** The operators a task takes its input from. *)
Lemma input_op_ids_elem jg g t i x : runnable jg → from_job_graph jg = Ok g → t ∈ job_vertices jg →
  i < Z.to_nat (parallelism t) →
  x ∈ input_op_ids g (execution_vertex_id (mkEV t i None)) ↔ ∃ e, e ∈ in_jobs jg t ∧ source_vertex_id e = x.
Proof.
  intros Hr Eg Ht Hi. unfold input_op_ids. rewrite list_elem_of_omap.
  assert (∀ ee, ee ∈ input_edges g (execution_vertex_id (mkEV t i None)) ↔ ∃ e src k, e ∈ in_jobs jg t ∧
    channel_of jg ee e src t k i) as Hin.
  { intros ee. unfold input_edges. rewrite list_elem_of_filter, (proj2 (graph_eq jg g Hr Eg)), elem_of_concat. split.
    - intros (Et & l & He & (e & -> & Hje)%list_elem_of_fmap). apply edges_of_elem in He as (src & tgt & k & i' & Hch); [|done..].
      pose proof Hch as (_ & _ & Htg & _ & Etg & _ & _ & ->). cbn in Et. apply execution_vertex_id_inj in Et as [E1 E2]. cbn in E1, E2. subst i'.
      assert (tgt = t) as -> by (apply (NoDup_map_inj vertex_id (job_vertices jg)); [apply Hr|done..]).
      exists e, src, k. split; [apply list_elem_of_filter; split; [congruence|done]|done].
    - intros (e & src & k & [_ Hje]%list_elem_of_filter & Hch). split; [by destruct Hch as (_ & _ & _ & _ & _ & _ & _ & ->)|].
      exists (edges_of (job_vertices jg) e). split; [apply edges_of_elem; eauto|by apply list_elem_of_fmap_2]. }
  setoid_rewrite Hin. split.
  - intros (ee & (e & src & k & He & Hch) & E). exists e. split; [done|].
    destruct Hch as (_ & Hs & _ & Es & _ & Hk & _ & ->). cbn [source_execution_vertex] in E.
    rewrite (expanded_lookup jg g src k Hr Eg Hs Hk) in E. cbn in E. injection E as <-. done.
  - intros (e & He & <-). destruct (target_vertex jg Hr t Ht e He) as (Hje & _ & Hs).
    destruct (rn_closed _ Hr e Hje) as [Hse _]. destruct (vertex_of_ok jg _ Hse) as [_ Hid].
    pose proof (rn_par _ Hr) as Hp. rewrite Forall_forall in Hp. specialize (Hp _ Hs).
    eexists. split; [exists e, (vertex_of jg (source_vertex_id e)), 0; split; [done|]|].
    + split_and!; [done..|apply list_elem_of_filter in He as [-> _]; done|lia|done|reflexivity].
    + cbn [source_execution_vertex]. rewrite (expanded_lookup jg g _ 0 Hr Eg Hs) by lia. cbn. by rewrite Hid.
Qed.

(** The sides a worker chooses are the two input operators, in some order. *)
Lemma join_sides `{!IntSetOrder, !IntSetOrderOk} jg g t i ea eb ln rn : runnable jg → from_job_graph jg = Ok g →
  t ∈ job_vertices jg → i < Z.to_nat (parallelism t) → operator_type (stream_operator t) = TWO_INPUT →
  in_jobs jg t = [ea; eb] → create_stream_task g (mkEV t i None) = Ok (TwoInputStreamTask ln rn) →
  ∃ l r, ln = str l ∧ rn = str r ∧ l ≠ r ∧
    ((l, r) = (source_vertex_id ea, source_vertex_id eb) ∨ (l, r) = (source_vertex_id eb, source_vertex_id ea)).
Proof.
  intros Hr Eg Ht Hi Hot Hin. unfold create_stream_task. cbn [job_vertex]. rewrite Hot. cbn [build_processor].
  destruct (int_set_list _) as [|l [|r [|]]] eqn:E; try done. intros [= <- <-]. exists l, r.
  pose proof (int_set_nodup (input_op_ids g (execution_vertex_id (mkEV t i None)))) as Hnd. rewrite E in Hnd.
  apply NoDup_cons in Hnd as [Hlr _].
  assert (∀ x, x ∈ [l; r] → x = source_vertex_id ea ∨ x = source_vertex_id eb) as Hx.
  { intros x Hx. rewrite <- E in Hx. apply int_set_elem, (input_op_ids_elem jg g t i x Hr Eg Ht Hi) in Hx as (e & He & <-).
    rewrite Hin in He. set_solver. }
  split_and!; [done..|set_solver|]. destruct (Hx l) as [->| ->], (Hx r) as [->| ->]; set_solver.
Qed.

Lemma sender_positions_two jg t ea eb : in_jobs jg t = [ea; eb] → sender_positions jg t =
  instance_positions jg (vertex_of jg (source_vertex_id ea)) ++ instance_positions jg (vertex_of jg (source_vertex_id eb)).
Proof. intros Hin. unfold sender_positions, sender_ids. rewrite Hin. cbn. by rewrite app_nil_r, map_app. Qed.

(** ** Properties *)

(** C1. Reduce, from the job graph to the running job.  In every job graph that can be submitted, let [t] be a
    reduce operator of any parallelism whose input edges are partitioned by key.  The tasks deployed for the
    graph run with any schedule of their threads, any back-pressure of the transport and any hash; once the job
    is at rest, the states of the instances of [t] are together the state of one reduce over everything the
    upstream tasks emitted: a key is held by the instance its hash selects, with the value a single instance
    would have, and by no other.  This is for a reduce function that never raises and is associative and
    commutative (a sum, a maximum); one that keeps the last value it saw is not covered, since the schedule
    decides the order in which the records of several senders arrive. *)
Theorem deployed_reduce {K V T Bytes} `{FifoTransport T Bytes} `{!EqDecision K} (hash : K → Z)
    (dumps : list (dict string (field K V)) → res Bytes) (loads : Bytes → res (list (dict string (field K V))))
    (empty : V) (rt : runtime K V) (jg : JobGraph) (t : JobVertex) (f : V → V → res V) (F : V → V → V)
    (tr : T) (acts : list action) :
  (∀ b bs, dumps b = Ok bs → loads bs = Ok b) → (∀ c, in_flight tr c = []) →
  runnable jg → (∀ e, e ∈ job_edges jg → partition e ≠ PSimple) →
  t ∈ job_vertices jg → vertex_type t ≠ VSOURCE → operator_type (stream_operator t) ≠ SOURCE →
  (∀ e, e ∈ in_jobs jg t → partition e = PKey) →
  (∀ i, operator_of rt (vertex_id t) i = existT (reduce_op f) ([] : dict K V)) →
  (∀ a b, f a b = Ok (F a b)) → (∀ a b c, F (F a b) c = F a (F b c)) → (∀ a b, F a b = F b a) →
  ∃ g vs, from_job_graph jg = Ok g ∧ deploy rt g = Ok vs ∧
    let j := job_run hash dumps loads empty (new_job vs tr) acts in
    quiescent j →
    ∃ whole outs, run_op (reduce_step f) [] (concat (map (emitted_by j) (sender_positions jg t))) = (whole, outs, Ok ()) ∧
      ∀ i tk, i < Z.to_nat (parallelism t) → tasks j !! pos jg (execution_vertex_id (mkEV t i None)) = Some tk →
        ∃ st : dict K V, existT (v_op (t_vertex tk)) (t_st tk) = existT (reduce_op f) st :> sigT op_st ∧
          ∀ key, dget st key = if decide (bucket hash (Z.to_nat (parallelism t)) key = i) then dget whole key else None.
Proof.
  intros codec Htr Hr Hsimple Ht Hvt Hot Hkey Hop Hf Ha Hc. pose proof Hr as [Hv _ Hcl Hp _ Hne].
  destruct (from_job_graph_eq jg Hv Hp Hcl Hne) as (mp & Eg & _). eexists _, _.
  split; [exact Eg|]. split; [exact (deploy_ok rt jg _ Hr Eg)|]. intros j Hq.
  destruct (stage_reduce hash dumps loads empty f F _ tr acts _ _ _ codec
    (deploy_topology_ok rt jg _ Hr Eg Hsimple) Htr Hf Ha Hc (deployed_keyed rt jg _ Hr Eg t Ht Hvt Hot Hkey)) as (whole & outs & E & Hall).
  - intros k s v. by apply (instance_operator rt jg _ Hr t Ht).
  - exact Hq.
  - exists whole, outs. split; [exact E|]. intros i tk Hi Htk.
    destruct (Hall i _ tk (instance_position jg t i Hi) Htk) as (st & Est & Hst). exists st. split; [done|].
    intros key. by rewrite Hst, length_instance_positions.
Qed.

(** C2. Join, from the job graph to the running job.  In every job graph that can be submitted, let [t] be a join
    of any parallelism with two input edges partitioned by key.  However its tasks are scheduled, once the job is
    at rest the instances of [t] have together emitted, up to order, exactly one record per pair of records with
    equal keys that the instances of the two operators before it emitted.  Which operator is the left side is the
    choice of the workers ([create_stream_task]); either choice gives the complete join for that choice. *)
Theorem deployed_join {K V T Bytes} `{FifoTransport T Bytes} `{!EqDecision K} `{!IntSetOrder, !IntSetOrderOk} (hash : K → Z)
    (dumps : list (dict string (field K V)) → res Bytes) (loads : Bytes → res (list (dict string (field K V))))
    (empty : V) (rt : runtime K V) (jg : JobGraph) (g : ExecutionGraph) (t : JobVertex) (ea eb : JobEdge)
    (join : V → V → res V) (J : V → V → V) (ln rn : string) (tr : T) (acts : list action) :
  (∀ b bs, dumps b = Ok bs → loads bs = Ok b) → (∀ c, in_flight tr c = []) →
  runnable jg → (∀ e, e ∈ job_edges jg → partition e ≠ PSimple) → from_job_graph jg = Ok g →
  t ∈ job_vertices jg → vertex_type t ≠ VSOURCE → operator_type (stream_operator t) = TWO_INPUT →
  in_jobs jg t = [ea; eb] → partition ea = PKey → partition eb = PKey →
  (∀ i, i < Z.to_nat (parallelism t) → create_stream_task g (mkEV t i None) = Ok (TwoInputStreamTask ln rn)) →
  (∀ i, operator_of rt (vertex_id t) i = existT (join_op join ln rn) new_join) → (∀ a b, join a b = Ok (J a b)) →
  ∃ vs l r, deploy rt g = Ok vs ∧ ln = str l ∧ rn = str r ∧
    ((l, r) = (source_vertex_id ea, source_vertex_id eb) ∨ (l, r) = (source_vertex_id eb, source_vertex_id ea)) ∧
    let j := job_run hash dumps loads empty (new_job vs tr) acts in
    quiescent j →
    concat (map (emitted_by j) (instance_positions jg t))
    ≡ₚ join_pairs J (concat (map (emitted_by j) (instance_positions jg (vertex_of jg l))))
                    (concat (map (emitted_by j) (instance_positions jg (vertex_of jg r)))).
Proof.
  intros codec Htr Hr Hsimple Eg Ht Hvt Hot Hin Hka Hkb Hcst Hop HJ.
  assert (0 < Z.to_nat (parallelism t)) as Hpar.
  { pose proof (rn_par _ Hr) as Hp. rewrite Forall_forall in Hp. specialize (Hp _ Ht). lia. }
  destruct (join_sides jg g t 0 ea eb ln rn Hr Eg Ht Hpar Hot Hin (Hcst 0 Hpar)) as (l & r & -> & -> & Hne & Hlr).
  eexists _, l, r. split; [exact (deploy_ok rt jg _ Hr Eg)|]. split_and!; [done..|]. intros j Hq.
  assert (∀ e, e ∈ in_jobs jg t → partition e = PKey) as Hkey by (rewrite Hin; set_solver).
  pose proof (deployed_keyed rt jg g Hr Eg t Ht Hvt ltac:(by rewrite Hot) Hkey) as Hst.
  apply (keyed_stage_perm _ _ (instance_positions jg (vertex_of jg l) ++ instance_positions jg (vertex_of jg r))) in Hst; cycle 1.
  { rewrite (sender_positions_two jg t ea eb Hin). destruct Hlr as [[= -> ->]|[= -> ->]]; [done|apply Permutation_app_comm]. }
  assert (∀ v, v = l ∨ v = r → vertex_of jg v ∈ job_vertices jg ∧ vertex_id (vertex_of jg v) = v) as Hvo.
  { intros v Hv. apply vertex_of_ok.
    assert (∀ e, e ∈ in_jobs jg t → source_vertex_id e ∈ map vertex_id (job_vertices jg)) as Hs.
    { intros e [_ He]%list_elem_of_filter. by apply (rn_closed _ Hr). }
    rewrite Hin in Hs. destruct Hlr as [[= -> ->]|[= -> ->]], Hv as [->| ->]; apply Hs; set_solver. }
  apply (stage_join hash dumps loads empty join J _ tr acts _ _ _ _ (str l) (str r) codec
    (deploy_topology_ok rt jg g Hr Eg Hsimple) Htr HJ Hst); [by intros ?%str_inj|..|exact Hq].
  - intros s Hs. destruct (Hvo l) as [V1 V2]; [by left|]. by rewrite (name_of_instance rt jg g _ s Hr V1 Hs), V2.
  - intros s Hs. destruct (Hvo r) as [V1 V2]; [by right|]. by rewrite (name_of_instance rt jg g _ s Hr V1 Hs), V2.
  - intros k s v. by apply (instance_operator rt jg g Hr t Ht).
Qed.

(** C4. Exactly once between operators.  In every job graph that can be submitted, let all edges into [t] have the same kind
    of partition (a user function apart), between operators of any parallelism.  However the tasks are scheduled, once
    the job is at rest the instances of [t] together have processed exactly the records the instances before it
    emitted, each once, named after the operator that emitted it; behind a broadcast partition every instance has
    processed exactly these. *)
Theorem deployed_exactly_once {K V T Bytes} `{FifoTransport T Bytes} (hash : K → Z)
    (dumps : list (dict string (field K V)) → res Bytes) (loads : Bytes → res (list (dict string (field K V))))
    (empty : V) (rt : runtime K V) (jg : JobGraph) (t : JobVertex) (p : partition_kind) (tr : T) (acts : list action) :
  (∀ b bs, dumps b = Ok bs → loads bs = Ok b) → (∀ c, in_flight tr c = []) →
  runnable jg → (∀ e, e ∈ job_edges jg → partition e ≠ PSimple) →
  t ∈ job_vertices jg → vertex_type t ≠ VSOURCE → operator_type (stream_operator t) ≠ SOURCE →
  (∀ e, e ∈ in_jobs jg t → partition e = p) → p ≠ PSimple →
  ∃ g vs, from_job_graph jg = Ok g ∧ deploy rt g = Ok vs ∧
    let j := job_run hash dumps loads empty (new_job vs tr) acts in
    let sent := concat (map (λ s, map (set_stream_name (Some (name_of vs s))) (emitted_by j s)) (sender_positions jg t)) in
    quiescent j →
    if decide (p = PBroadcast) then ∀ i, i < Z.to_nat (parallelism t) → consumed_by j (pos jg (execution_vertex_id (mkEV t i None))) ≡ₚ sent
    else concat (map (consumed_by j) (instance_positions jg t)) ≡ₚ sent.
Proof.
  intros codec Htr Hr Hsimple Ht Hvt Hot Hin Hp. pose proof Hr as [Hv _ Hcl Hpar _ Hne].
  destruct (from_job_graph_eq jg Hv Hpar Hcl Hne) as (mp & Eg & _). eexists _, _.
  split; [exact Eg|]. split; [exact (deploy_ok rt jg _ Hr Eg)|]. intros j sent Hq.
  pose proof (deploy_topology_ok rt jg _ Hr Eg Hsimple) as Htop.
  pose proof (job_run_inv hash dumps loads empty codec _ Htop _ acts (new_job_inv hash loads _ Htop tr Htr)) as Hj.
  pose proof (deployed_exchange rt jg _ Hr Eg t Ht p Hvt Hot Hin) as Hst. case_decide as Hb.
  - subst p. intros i Hi. apply (exchange_all hash loads _ Htop j Hj Hq _ _ _ _ Hst i); [apply deployed_all|by apply instance_position].
  - apply (exchange_once hash loads _ Htop j Hj Hq _ _ _ _ Hst). by apply deployed_one.
Qed.

(** ** Witnesses *)

Abbreviation ex_msgs := (list (dict string (field Z Z))).
Definition ex_red_vertex : JobVertex := mkVertex 2 2 VPROCESS (Plain "ReduceOperator" ONE_INPUT).
Definition ex_red_jg : JobGraph :=
  mkGraph [mkVertex 1 2 VSOURCE (Plain "SourceOperator" SOURCE); ex_red_vertex] [new_edge 1 2 PKey].
Definition ex_split (i : nat) : list (rec Z Z) :=
  match i with 0 => [ex_kr 1 10; ex_kr 2 5; ex_kr 1 7] | _ => [ex_kr 3 1; ex_kr 2 2] end.
Definition ex_rt (o : sigT (@op_st Z Z)) (last : Z) : runtime Z Z :=
  mkRuntime (λ v i, if decide (v = last) then o else existT ex_source (ex_split (i + Z.to_nat v - 1)))
    (λ _ _, []) 2 0%Qc (λ _, ticks) (λ _, ticks).
Definition ex_turns : list action :=
  concat (replicate 14 [Run 0; Run 1; Flush 0 0; Run 2; Flush 1 1; Run 3; Flush 0 1; Flush 1 0; Tick]).
Definition ok_or {A} (d : A) (r : res A) : A := match r with Ok a => a | Raise _ => d end.

Lemma ex_red_runnable : runnable ex_red_jg.
Proof.
  split; try (apply (bool_decide_unpack _); reflexivity).
  intros e He. repeat (apply elem_of_cons in He as [->|He]; [split; apply (bool_decide_unpack _); reflexivity|]).
  by apply elem_of_nil in He.
Qed.

Lemma deployed_reduce_witness : ∃ g vs, from_job_graph ex_red_jg = Ok g ∧
  deploy (ex_rt (existT (reduce_op (λ a b, Ok (a + b)%Z)) []) 2) g = Ok vs ∧
  let j := job_run (λ k : Z, k) ex_codec_dumps Ok 0%Z (new_job vs ([] : queues ex_msgs)) ex_turns in
  ∃ whole outs, run_op (reduce_step (λ a b, Ok (a + b)%Z)) [] (concat (map (emitted_by j) (sender_positions ex_red_jg ex_red_vertex)))
      = (whole, outs, Ok ()) ∧ whole = [(1, 17); (2, 7); (3, 1)]%Z ∧
    ∀ i tk, i < 2 → tasks j !! pos ex_red_jg (execution_vertex_id (mkEV ex_red_vertex i None)) = Some tk →
      ∃ st : dict Z Z, existT (v_op (t_vertex tk)) (t_st tk) = existT (reduce_op (λ a b, Ok (a + b)%Z)) st :> sigT op_st ∧
        ∀ key, dget st key = if decide (bucket (λ k, k) 2 key = i) then dget whole key else None.
Proof.
  destruct (deployed_reduce (λ k : Z, k) ex_codec_dumps Ok 0%Z (ex_rt (existT (reduce_op (λ a b, Ok (a + b)%Z)) []) 2)
    ex_red_jg ex_red_vertex (λ a b, Ok (a + b)%Z) Z.add ([] : queues ex_msgs) ex_turns) as (g & vs & Eg & Ev & Hj).
  - exact packs_roundtrip.
  - intros c. reflexivity.
  - apply ex_red_runnable.
  - intros e He. apply elem_of_cons in He as [->|He]; [done|set_solver].
  - by right; left.
  - done.
  - done.
  - intros e He. apply list_elem_of_filter in He as [_ He]. apply elem_of_cons in He as [->|He]; [done|set_solver].
  - intros i. reflexivity.
  - done.
  - intros a b c. lia.
  - intros a b. lia.
  - assert (vs = ok_or [] (deploy (ex_rt (existT (reduce_op (λ a b, Ok (a + b)%Z)) []) 2)
      (ok_or (mkEG [] [] [] None) (from_job_graph ex_red_jg)))) as Evs by (rewrite Eg; cbn [ok_or]; by rewrite Ev).
    exists g, vs. split; [exact Eg|]. split; [exact Ev|]. cbn zeta in *.
    destruct Hj as (whole & outs & Hw & Hall); [rewrite Evs; apply queues_quiescent; vm_compute; repeat constructor|].
    exists whole, outs. split; [exact Hw|]. split; [|exact Hall].
    apply (f_equal (λ o, o.1.1)) in Hw. cbn [fst] in Hw. rewrite <- Hw, Evs. vm_compute. reflexivity.
Defined.

(** A join of two sources in two instances, in a worker whose set lists the second source first. *)
Definition ex_two_join : JobVertex := mkVertex 3 2 VJOIN (Plain "JoinOperator" TWO_INPUT).
Definition ex_two_jg : JobGraph :=
  mkGraph [mkVertex 1 1 VSOURCE (Plain "SourceOperator" SOURCE); mkVertex 2 1 VSOURCE (Plain "SourceOperator" SOURCE); ex_two_join]
    [new_edge 1 3 PKey; new_edge 2 3 PKey].
Definition ex_two_rt : runtime Z Z := ex_rt (existT (join_op (λ a b, Ok (10 * a + b)%Z) "2" "1") new_join) 3.

Lemma ex_two_runnable : runnable ex_two_jg.
Proof.
  split; try (apply (bool_decide_unpack _); reflexivity).
  intros e He. repeat (apply elem_of_cons in He as [->|He]; [split; apply (bool_decide_unpack _); reflexivity|]).
  by apply elem_of_nil in He.
Qed.

Lemma deployed_join_witness : ∃ g vs, from_job_graph ex_two_jg = Ok g ∧ deploy ex_two_rt g = Ok vs ∧
  let j := job_run (λ k : Z, k) ex_codec_dumps Ok 0%Z (new_job vs ([] : queues ex_msgs)) ex_turns in
  concat (map (emitted_by j) [2; 3])
  ≡ₚ join_pairs (λ a b, 10 * a + b)%Z (concat (map (emitted_by j) [1])) (concat (map (emitted_by j) [0])) ∧
  map r_value (concat (map (emitted_by j) [2; 3])) = [25]%Z.
Proof.
  destruct (from_job_graph ex_two_jg) as [g|e] eqn:Eg; [|vm_compute in Eg; discriminate Eg].
  assert (g = ok_or (mkEG [] [] [] None) (from_job_graph ex_two_jg)) as Egs by by rewrite Eg.
  destruct (@deployed_join Z Z (queues ex_msgs) ex_msgs _ _ _ (order_first 2) (order_first_ok 2) (λ k : Z, k) ex_codec_dumps Ok 0%Z
    ex_two_rt ex_two_jg g ex_two_join (new_edge 1 3 PKey) (new_edge 2 3 PKey) (λ a b, Ok (10 * a + b)%Z) (λ a b, 10 * a + b)%Z
    "2" "1" [] ex_turns) as (vs & l & r & Ev & El & Er & Hlr & Hj).
  - exact packs_roundtrip.
  - intros c. reflexivity.
  - apply ex_two_runnable.
  - intros e He. repeat (apply elem_of_cons in He as [->|He]; [done|]). by apply elem_of_nil in He.
  - exact Eg.
  - by right; right; left.
  - done.
  - done.
  - done.
  - done.
  - done.
  - intros [|[|i]] Hi; [..|cbn in Hi; lia]; rewrite Egs; vm_compute; reflexivity.
  - intros i. reflexivity.
  - done.
  - assert (vs = ok_or [] (deploy ex_two_rt (ok_or (mkEG [] [] [] None) (from_job_graph ex_two_jg)))) as Evs
      by (rewrite Eg; cbn [ok_or]; by rewrite Ev).
    exists g, vs. split; [reflexivity|]. split; [exact Ev|]. cbn zeta in *.
    assert (l = 2 ∧ r = 1)%Z as [-> ->].
    { split; apply str_inj; [rewrite <- El|rewrite <- Er]; vm_compute; reflexivity. }
    split; [apply Hj|]; rewrite Evs; [apply queues_quiescent|]; vm_compute; repeat constructor.
Defined.

(** Two sources and two instances behind a forward edge, which becomes a round-robin one. *)
Definition ex_fwd_jg : JobGraph :=
  mkGraph [mkVertex 1 2 VSOURCE (Plain "SourceOperator" SOURCE); ex_red_vertex] [new_edge 1 2 PForward].

Lemma ex_fwd_runnable : runnable ex_fwd_jg.
Proof.
  split; try (apply (bool_decide_unpack _); reflexivity).
  intros e He. repeat (apply elem_of_cons in He as [->|He]; [split; apply (bool_decide_unpack _); reflexivity|]).
  by apply elem_of_nil in He.
Qed.

Lemma deployed_exactly_once_witness : ∃ g vs, from_job_graph ex_fwd_jg = Ok g ∧
  deploy (ex_rt (existT (reduce_op (λ a b, Ok (a + b)%Z)) []) 2) g = Ok vs ∧
  let j := job_run (λ k : Z, k) ex_codec_dumps Ok 0%Z (new_job vs ([] : queues ex_msgs)) ex_turns in
  concat (map (consumed_by j) [2; 3]) ≡ₚ concat (map (λ s, map (set_stream_name (Some (name_of vs s))) (emitted_by j s)) [0; 1]) ∧
  map (length ∘ consumed_by j) [2; 3] = [2; 3].
Proof.
  destruct (deployed_exactly_once (λ k : Z, k) ex_codec_dumps Ok 0%Z (ex_rt (existT (reduce_op (λ a b, Ok (a + b)%Z)) []) 2)
    ex_fwd_jg ex_red_vertex PForward ([] : queues ex_msgs) ex_turns) as (g & vs & Eg & Ev & Hj).
  - exact packs_roundtrip.
  - intros c. reflexivity.
  - apply ex_fwd_runnable.
  - intros e He. apply elem_of_cons in He as [->|He]; [done|set_solver].
  - by right; left.
  - done.
  - done.
  - intros e He. apply list_elem_of_filter in He as [_ He]. apply elem_of_cons in He as [->|He]; [done|set_solver].
  - done.
  - assert (vs = ok_or [] (deploy (ex_rt (existT (reduce_op (λ a b, Ok (a + b)%Z)) []) 2)
      (ok_or (mkEG [] [] [] None) (from_job_graph ex_fwd_jg)))) as Evs by (rewrite Eg; cbn [ok_or]; by rewrite Ev).
    exists g, vs. split; [exact Eg|]. split; [exact Ev|]. cbn zeta in *. rewrite decide_False in Hj by done.
    change (sender_positions ex_fwd_jg ex_red_vertex) with [0; 1] in Hj. change (instance_positions ex_fwd_jg ex_red_vertex) with [2; 3] in Hj.
    split; [apply Hj|]; rewrite Evs; [apply queues_quiescent|]; vm_compute; repeat constructor.
Defined.
