(* ===== verification/Master.v ===== *)
(** * The job master
    ([volga/streaming/runtime/master/job_master.py],
     [volga/streaming/runtime/master/scheduler/job_scheduler.py],
     [volga/streaming/runtime/master/stats/stats_manager.py], [StatsManager],
     and the watcher of [volga/streaming/runtime/worker/job_worker.py])

    Submitting a job runs the expansion of the job graph, the assignment, the
    creation, wiring and start of the workers; then the master waits until every
    source task has reported that it finished.  The answers of Ray are
    parameters, and the master's waiting loop is observed at its polls. *)

From S2P Require Import Prelude PyDict Stats Operators JobGraph Execution Workers Tasks.
From Stdlib Require Import Ascii.

Inductive JobStatus :=
| SUBMITTING | RUNNING | FINISHED | FINISHED_AND_CLEAN | SUBMITTING_FAILED | SUBMITTING_CANCELLED | RESUBMITTING.

Record JobMaster (En : Type) := mkMaster {
  sources_finished : dict string bool;
  running : bool;
  source_split_manager : option (dict Z En);
  stats_workers : list Worker;
  stats_running : bool;
  job_status : JobStatus;
}.
Arguments mkMaster {En} _ _ _ _ _ _.
Arguments sources_finished {En} _.
Arguments running {En} _.
Arguments source_split_manager {En} _.
Arguments stats_workers {En} _.
Arguments stats_running {En} _.
Arguments job_status {En} _.

Section master.
Context {En Split : Type}.
Abbreviation JM := (JobMaster En).

(** [_init_source_split_manager_if_needed]: the enumerator of a source vertex is that of its
    operator, or of the head of its chain. *)
Definition init_source_split_manager (split_enumerator : Z → option En) (jg : JobGraph) : option (dict Z En) :=
  let d := dict_of (omap (λ sv, (λ en, (vertex_id sv, en)) <$> split_enumerator (vertex_id sv))
                      (JobGraph.get_source_vertices jg)) in
  match d with [] => None | _ => Some d end.

Definition init_sources (g : ExecutionGraph) : dict string bool :=
  dict_of (map (λ v, (execution_vertex_id v, false)) (Execution.get_source_vertices g)).

(** What Ray and the cluster answer. *)
Record environment := mkEnv {
  env_nodes : list Node;
  env_host : string → string * string;               (* [get_host_info]: node id and ip *)
  env_start_transfer : string → option string;       (* errors of [start] *)
  env_start_worker : string → option string;
}.

(** [JobScheduler.schedule_job]: prepare, then start. *)
Definition schedule_job (env : environment) (job_name : string) (st : NodeAssignStrategy) (g : ExecutionGraph)
    : res (list Worker * connections * dict string TransferActor) :=
  wi ← create_workers (env_nodes env) st g (env_host env);
  ct ← connect_and_init_workers job_name wi.2 [] [] (execution_edges g);
  _ ← start_workers ct.2 g (env_start_transfer env) (env_start_worker env);
  Ok (wi.1, ct.1, ct.2).

(** [JobMaster.submit_job] with the [OperatorFirst] strategy the master is built with. *)
Definition submit_job (env : environment) (job_name : string) (defaults : dict res_kind configured)
    (proposed : option (dict string (dict res_kind configured))) (split_enumerator : Z → option En) (jg : JobGraph)
    : res JM :=
  g0 ← from_job_graph jg;
  let g := set_resources defaults proposed g0 in
  r ← schedule_job env job_name OperatorFirst g;
  Ok (mkMaster (init_sources g) true (init_source_split_manager split_enumerator jg)
        (filter (λ w, w_stats w = true) r.1.1) true RUNNING).

Definition notify_source_finished (task_id : string) : M JM () := λ m,
  if dmem task_id (sources_finished m) then
    (Ok (), mkMaster (dset (sources_finished m) task_id true) (running m) (source_split_manager m)
              (stats_workers m) (stats_running m) (job_status m))
  else (Raise (RuntimeError "Unable to locate source"), m).

Definition poll_next_source_split (poll : En → res Split * En) (operator_id : Z) : M JM Split := λ m,
  match source_split_manager m with
  | None => (Raise (RuntimeError "Attempt to use un-inited SourceSplitManager"), m)
  | Some d =>
      match dget d operator_id with
      | None => (Raise (RuntimeError "No split enumerator for operator_id"), m)
      | Some en =>
          let '(r, en') := poll en in
          (r, mkMaster (sources_finished m) (running m) (Some (dset d operator_id en')) (stats_workers m)
                (stats_running m) (job_status m))
      end
  end.

Definition _all_sources_finished (m : JM) : bool := foldl andb true (dvalues (sources_finished m)).

(** A poll of [wait_sources_finished]: does the loop end here? *)
Definition wait_ends (m : JM) : bool := negb (running m) || _all_sources_finished m.

(** [destroy] *)
Definition destroy (m : JM) : JM :=
  mkMaster (sources_finished m) false (source_split_manager m) (stats_workers m) false (job_status m).

(** A round of the watcher thread of a worker: it notifies the master once its source is finished. *)
Definition watch_round (is_source : bool) (finished : bool) (task_id : string) : M JM bool := λ m,
  if is_source && finished then
    match notify_source_finished task_id m with
    | (Ok _, m') => (Ok true, m')
    | (Raise e, m') => (Raise e, m')
    end
  else (Ok false, m).

(** What happens to a submitted job. *)
Inductive event := Notify (task_id : string) | Destroy.
Definition on_event (m : JM) (e : event) : JM :=
  match e with Notify t => (notify_source_finished t m).2 | Destroy => destroy m end.
End master.

(** ** [StatsManager._collect_stats_updates] *)

Inductive stats_update :=
| LatencyUpdate (hists : dict Z Hist)
| ThroughputUpdate (counts : dict Z Z).

Definition latency_updates (us : list stats_update) : list (dict Z Hist) :=
  omap (λ u, match u with LatencyUpdate h => Some h | ThroughputUpdate _ => None end) us.
Definition throughput_updates (us : list stats_update) : list (dict Z Z) :=
  omap (λ u, match u with ThroughputUpdate c => Some c | LatencyUpdate _ => None end) us.

Definition collect_stats_updates (us : list stats_update) (l : JobLatencyStatsState) (t : JobThroughputStatsState)
    : M (gmap nat (dict Z Z)) (JobLatencyStatsState * JobThroughputStatsState) :=
  aggregate_latency l (latency_updates us) ≫= λ l',
  mret (l', aggregate_throughput t (throughput_updates us)).

(** ** Lemmas: waiting for the sources *)

Lemma foldl_andb (l : list bool) b : foldl andb b l = true ↔ b = true ∧ Forall (λ x, x = true) l.
Proof.
  revert b. induction l as [|x l IH]; intros b; simpl; [by split; [|intros [? _]]|].
  rewrite IH, andb_true_iff, Forall_cons. tauto.
Qed.

Lemma all_true (d : dict string bool) : dict_wf d →
  foldl andb true (dvalues d) = true ↔ ∀ k b, dget d k = Some b → b = true.
Proof.
  intros Hwf. rewrite foldl_andb. unfold dvalues. rewrite Forall_fmap, Forall_forall. split.
  - intros [_ H] k b Hk%dget_Some_elem. by apply (H (k, b)).
  - intros H. split; [done|]. intros [k b] Hin. simpl. eapply H. by apply dget_elem_wf.
Qed.

#[global] Instance event_eq_dec : EqDecision event.
Proof. solve_decision. Defined.

Section waiting.
Context {En : Type} (m0 : JobMaster En) (ids : list string).
Context (Hsrc : sources_finished m0 = dict_of (map (λ id, (id, false)) ids)) (Hrun : running m0 = true).

(** The master after the events [evs]. *)
Record wait_inv (evs : list event) (m : JobMaster En) : Prop := {
  wi_wf : dict_wf (sources_finished m);
  wi_get : ∀ id, dget (sources_finished m) id =
    if decide (id ∈ ids) then Some (bool_decide (Notify id ∈ evs)) else None;
  wi_running : running m = bool_decide (Destroy ∉ evs);
}.

Lemma dget_init (id : string) :
  dget (dict_of (map (λ x : string, (x, false)) ids)) id = if decide (id ∈ ids) then Some false else None.
Proof.
  destruct (decide (id ∈ ids)) as [Hin|Hin].
  - exact (dget_dict_of_const ids false id Hin).
  - apply dget_None. intros Hk. apply Hin. clear -Hk. revert Hk. unfold dict_of, dmerge.
    assert (∀ d : dict string bool, id ∈ dkeys (foldl (λ d kv, dset d kv.1 kv.2) d (map (λ x, (x, false)) ids)) →
      id ∈ dkeys d ∨ id ∈ ids) as Hg; [|intros Hk; destruct (Hg [] Hk); set_solver].
    induction ids as [|x xs IH]; intros d Hk; simpl in Hk; [by left|].
    apply IH in Hk as [Hk|Hk]; [|set_solver]. rewrite dkeys_dset in Hk. destruct (dmem x d); [by left|].
    set_solver.
Qed.

Lemma wait_step evs m e : wait_inv evs m → wait_inv (evs ++ [e]) (on_event m e).
Proof.
  intros [Hwf Hg Hr]. destruct e as [t|]; simpl.
  - unfold notify_source_finished. destruct (dmem t (sources_finished m)) eqn:Em; split; simpl.
    + by apply dset_wf.
    + intros id. rewrite dget_dset, Hg. unfold dmem in Em. rewrite Hg in Em.
      destruct (decide (t ∈ ids)) as [Ht|]; [|done].
      destruct (decide (id = t)) as [->|Hne].
      * rewrite decide_True by done. by rewrite bool_decide_eq_true_2 by set_solver.
      * destruct (decide (id ∈ ids)); [|done]. f_equal. apply bool_decide_ext. set_solver.
    + rewrite Hr. apply bool_decide_ext. set_solver.
    + done.
    + intros id. rewrite Hg. unfold dmem in Em. rewrite Hg in Em. destruct (decide (t ∈ ids)) as [|Ht]; [done|].
      destruct (decide (id ∈ ids)); [|done]. f_equal. apply bool_decide_ext. set_solver.
    + rewrite Hr. apply bool_decide_ext. set_solver.
  - split; simpl; [done| |].
    + intros id. rewrite Hg. destruct (decide (id ∈ ids)); [|done]. f_equal. apply bool_decide_ext. set_solver.
    + symmetry. apply bool_decide_eq_false_2. set_solver.
Qed.

Lemma wait_run evs : wait_inv evs (foldl on_event m0 evs).
Proof.
  induction evs as [|e evs IH] using rev_ind; [|rewrite foldl_app; by apply wait_step].
  split; cbn [foldl]; [rewrite Hsrc; apply dict_of_wf| |].
  - intros id. rewrite Hsrc, dget_init. by destruct (decide (id ∈ ids)).
  - rewrite Hrun. symmetry. apply bool_decide_eq_true_2. set_solver.
Qed.

Lemma wait_ends_eq evs :
  wait_ends (foldl on_event m0 evs) = true ↔ Destroy ∈ evs ∨ ∀ id, id ∈ ids → Notify id ∈ evs.
Proof.
  pose proof (wait_run evs) as [Hwf Hg Hr]. unfold wait_ends, _all_sources_finished.
  rewrite orb_true_iff, negb_true_iff, Hr, bool_decide_eq_false, (all_true _ Hwf).
  split; intros [H|H].
  - left. destruct (decide (Destroy ∈ evs)); [done|]. done.
  - right. intros id Hid. specialize (H id (bool_decide (Notify id ∈ evs))). rewrite Hg, decide_True in H by done.
    specialize (H eq_refl). by apply bool_decide_eq_true in H.
  - left. by intros Hn.
  - right. intros id b. rewrite Hg. destruct (decide (id ∈ ids)); [|done]. intros [= <-].
    by apply bool_decide_eq_true_2, H.
Qed.
End waiting.

(** ** Lemmas: submission *)

Lemma dget_graph {A} (f : string → A) ks k :
  dget (map (λ x, (x, f x)) ks) k = if decide (k ∈ ks) then Some (f k) else None.
Proof.
  induction ks as [|x ks IH]; [done|]. cbn [map dget]. rewrite IH.
  destruct (decide (k = x)) as [->|Hne]; [by rewrite decide_True by set_solver|].
  destruct (decide (k ∈ ks)); [by rewrite decide_True by set_solver|]. rewrite decide_False; set_solver.
Qed.

(** The channels of an expanded graph connect its vertices. *)
Lemma edge_ends_exist jg g e : runnable jg → from_job_graph jg = Ok g → e ∈ execution_edges g →
  source_execution_vertex e ∈ dkeys (execution_vertices_by_id g) ∧
  target_execution_vertex e ∈ dkeys (execution_vertices_by_id g).
Proof.
  intros Hr Eg He. pose proof Hr as [Hv _ Hcl Hp _ Hne].
  destruct (from_job_graph_eq jg Hv Hp Hcl Hne) as (mp & Eg' & _).
  assert (∃ je src tgt i j, channel_of jg e je src tgt i j) as (je & src & tgt & i & j & Hc).
  { rewrite Eg in Eg'. injection Eg' as ->. cbn [execution_edges] in He. apply elem_of_concat in He as (l & Hx & Hl).
    apply list_elem_of_fmap in Hl as (je & -> & Hl). apply edges_of_elem in Hx; [|done..]. eauto. }
  destruct Hc as (_ & Hs & Ht & _ & _ & Hi & Hj & ->). cbn [source_execution_vertex target_execution_vertex].
  split; apply dmem_elem; unfold dmem; by erewrite expanded_lookup.
Qed.

Definition host_infos (env : environment) (g : ExecutionGraph) : dict string WorkerNodeInfo :=
  map (λ v, (v, let '(n, ip) := env_host env v in mkWNI ip n)) (dkeys (execution_vertices_by_id g)).

(** A cluster that answers consistently and starts everything. *)
Record env_ok (ip_of : string → string) (env : environment) : Prop := {
  eo_nodes : Forall nonneg_node (env_nodes env);
  eo_ips : ∀ v, (env_host env v).2 = ip_of (env_host env v).1;
  eo_ids : ∀ v, no_char "-"%char (env_host env v).1;
  eo_transfer : ∀ v, env_start_transfer env v = None;
  eo_worker : ∀ v, env_start_worker env v = None;
}.

Lemma set_resources_dkeys d p g :
  dkeys (execution_vertices_by_id (set_resources d p g)) = dkeys (execution_vertices_by_id g).
Proof. unfold set_resources, dkeys. simpl. by rewrite map_map. Qed.

Lemma hosts_of_env ip_of env d p jg g0 : runnable jg → from_job_graph jg = Ok g0 → env_ok ip_of env →
  hosts_ok ip_of (host_infos env (set_resources d p g0)) (execution_edges g0).
Proof.
  intros Hr Eg Hok. unfold host_infos. split.
  - intros e He. destruct (edge_ends_exist jg g0 e Hr Eg He) as [Hs Ht].
    eexists _, _. split; rewrite dget_graph, set_resources_dkeys, decide_True by done; done.
  - intros v i. rewrite dget_graph. destruct (decide _); [|done]. intros [= <-].
    pose proof (eo_ips _ _ Hok v). by destruct (env_host env v).
  - intros v i. rewrite dget_graph. destruct (decide _); [|done]. intros [= <-].
    pose proof (eo_ids _ _ Hok v). by destruct (env_host env v).
Qed.

Lemma start_ok ip_of env g ts : env_ok ip_of env →
  start_workers ts g (env_start_transfer env) (env_start_worker env) = Ok ().
Proof.
  intros Hok. unfold start_workers, report_errors.
  assert (∀ l : list (string * option string), (∀ x, x ∈ l → x.2 = None) →
    omap (λ ne : string * option string, (λ err, (ne.1, err)) <$> ne.2) l = []) as Hnone.
  { induction l as [|x l IH]; intros Hall; [done|]. simpl. rewrite (Hall x) by set_solver. simpl. apply IH. set_solver. }
  rewrite Hnone; [done|]. intros x [Hx|Hx]%elem_of_app; apply list_elem_of_fmap in Hx as (y & -> & _); simpl; apply Hok.
Qed.

Lemma create_worker_inv ns a v w : create_worker ns a v = Ok w →
  w_vertex w = v ∧ w_stats w = is_sink (job_vertex v) || bool_decide (vertex_type (job_vertex v) = VSOURCE).
Proof.
  unfold create_worker. intros E. destruct (dget _ _); [|done]. simpl in E. destruct (ns !! _); [|done]. simpl in E.
  destruct (resources v); [|done]. by injection E as <-.
Qed.

Lemma worker_registered ns st g host ws infos :
  create_workers ns st g host = Ok (ws, infos) → ∀ w, w ∈ ws →
  w_vertex w ∈ dvalues (execution_vertices_by_id g) ∧
  w_stats w = is_sink (job_vertex (w_vertex w)) || bool_decide (vertex_type (job_vertex (w_vertex w)) = VSOURCE).
Proof.
  intros E. unfold create_workers in E. destruct (assign_resources _ _ _) as [asg|]; [|done]. cbn [mbind res_bind] in E.
  destruct (mapR _ _) as [ws'|] eqn:Em; [|done]. injection E as -> _.
  revert ws Em. induction (dvalues (execution_vertices_by_id g)) as [|v vs IH]; intros ws Em w Hw; simpl in Em.
  - injection Em as <-. by apply elem_of_nil in Hw.
  - destruct (create_worker _ _ v) as [w0|] eqn:Ew; [|done]. apply create_worker_inv in Ew as [Ev Es].
    cbn [mbind res_bind] in Em. destruct (mapR _ vs) as [ws'|]; [|done]. cbn [mbind res_bind] in Em.
    injection Em as <-. apply elem_of_cons in Hw as [->|Hw]; [rewrite Ev; split; [by left|done]|].
    destruct (IH ws' eq_refl w Hw). split; [by right|done].
Qed.

Lemma graph_vertex_job jg g0 d p v : runnable jg → from_job_graph jg = Ok g0 →
  v ∈ dvalues (execution_vertices_by_id (set_resources d p g0)) → job_vertex v ∈ job_vertices jg.
Proof.
  intros Hr Eg Hv. pose proof Hr as [Hv0 _ Hcl Hp _ Hne].
  destruct (from_job_graph_eq jg Hv0 Hp Hcl Hne) as (mp & Eg' & _). rewrite Eg in Eg'. injection Eg' as ->.
  assert (v ∈ concat (map (λ jv, map (with_res d p) (instances jv)) (job_vertices jg))) as Hc
    by (erewrite <- set_resources_values; exact Hv).
  clear Hv. apply elem_of_concat in Hc as (l & Hv & Hl).
  apply list_elem_of_fmap in Hl as (jv & -> & Hjv). apply list_elem_of_fmap in Hv as (v' & -> & Hv').
  by apply list_elem_of_fmap in Hv' as (i & -> & _).
Qed.

(** ** Theorems *)


(** Waiting.  After a submission, [wait_sources_finished] can end exactly when the job was destroyed
    or every source task - each instance of each source vertex - has notified the master,
    whatever the order of the notifications and whoever else notified. *)
Theorem wait_until_all_sources {En} env job_name defaults proposed (se : Z → option En) jg g0 m0 evs :
  from_job_graph jg = Ok g0 → submit_job env job_name defaults proposed se jg = Ok m0 →
  let g := set_resources defaults proposed g0 in
  wait_ends (foldl on_event m0 evs) = true ↔
  Destroy ∈ evs ∨ ∀ v, v ∈ Execution.get_source_vertices g → Notify (execution_vertex_id v) ∈ evs.
Proof.
  intros Eg Es g. unfold submit_job in Es. rewrite Eg in Es. cbn [mbind res_bind] in Es. fold g in Es.
  destruct (schedule_job env job_name OperatorFirst g) as [r|]; [|done]. injection Es as <-.
  rewrite (wait_ends_eq _ (map execution_vertex_id (Execution.get_source_vertices g))).
  - split; intros [H|H]; auto; right.
    + intros v Hv. apply H. by apply list_elem_of_fmap_2.
    + intros id Hid. apply list_elem_of_fmap in Hid as (v & -> & Hv). by apply H.
  - simpl. unfold init_sources. by rewrite map_map.
  - done.
Qed.

(** ** Concrete instances *)

Definition ex_ips (n : string) : string := if decide (n = "n2") then "10.0.0.2" else "10.0.0.1".
Definition ex_env : environment :=
  mkEnv ex_nodes (λ v, if decide (v = "3_0") then ("n2", "10.0.0.2") else ("n0", "10.0.0.1")) (λ _, None) (λ _, None).

Lemma ex_env_ok : env_ok ex_ips ex_env.
Proof.
  split; simpl; [exact ex_nodes_nonneg| | |done..]; intros v; destruct (decide (v = "3_0")); simpl; by repeat split.
Qed.

Lemma ex_typed : Forall vertex_typed (job_vertices ex_jg).
Proof.
  repeat (constructor; [split; simpl; [done|intros [=]; try (by intros c t [= <- _])]|]); try constructor.
Qed.

Definition ex_graph0 : ExecutionGraph := match from_job_graph ex_jg with Ok g => g | Raise _ => mkEG [] [] [] None end.
Lemma ex_graph0_eq : from_job_graph ex_jg = Ok ex_graph0.
Proof. vm_compute. reflexivity. Qed.

Lemma ex_fan p : fan_in_ok (host_infos ex_env (set_resources ex_defaults p ex_graph0)) (execution_edges ex_graph0).
Proof.
  intros n ss Hnd Hall. assert (ss ⊆ ["n0"; "n2"]) as Hsub.
  { intros x Hx. destruct (Hall x Hx) as (_ & e & src & tgt & _ & [Es _] & <- & _).
    unfold host_infos in Es. rewrite dget_graph in Es. destruct (decide _); [|done]. injection Es as <-. simpl.
    destruct (decide (source_execution_vertex e = "3_0")); simpl; set_solver. }
  apply NoDup_submseteq in Hsub; [|done]. apply submseteq_length in Hsub. simpl in *. lia.
Qed.


Definition ex_master : JobMaster nat :=
  match submit_job ex_env "job" ex_defaults None (λ _, None) ex_jg with
  | Ok m => m | Raise _ => mkMaster [] true None [] true SUBMITTING end.

Lemma wait_until_all_sources_witness :
  submit_job ex_env "job" ex_defaults None (λ _, None) ex_jg = Ok ex_master ∧
  wait_ends (foldl on_event ex_master [Notify "1_1"; Notify "2_0"; Notify "1_0"]) = true.
Proof.
  assert (submit_job ex_env "job" ex_defaults None (λ _, None) ex_jg = Ok ex_master) as E by (vm_compute; reflexivity).
  split; [exact E|].
  apply (wait_until_all_sources ex_env "job" ex_defaults None (λ _, None) ex_jg ex_graph0 ex_master
    [Notify "1_1"; Notify "2_0"; Notify "1_0"] ex_graph0_eq E). right.
  apply Forall_forall. apply (bool_decide_unpack _). vm_compute. exact I.
Defined.
