(* ===== verification/Lifecycle.v ===== *)
(** * Starting and closing a job
    ([volga/streaming/runtime/network/io_loop.py], [network/remote/transfer_io_handlers.py],
     [network/remote/transfer_actor.py], the [start] and [close] of [network/metrics.py],
     [network/local/*.py], [worker/task/stream_task.py] and [worker/job_worker.py],
     [delete_workers] of [master/worker_lifecycle_controller.py], [StatsManager] and [destroy] of
     [master/*.py], [client/job_client.py])

    What the threads of a job and the Rust objects behind its handlers go through from the
    submission of the job to its destruction: which calls each Rust object gets and in which
    order, which threads are started and joined, and what is left when a step fails.  The calls
    are recorded in a log per process; the answers of the Rust loop, of user code and of the
    flushes are parameters. *)

From S2P Require Import Prelude PyDict Operators JobGraph Execution Workers Tasks.

(** ** [threading.Thread] *)

Inductive Thread := NotStarted | Alive | Ended.
#[global] Instance Thread_eq_dec : EqDecision Thread.
Proof. solve_decision. Defined.

Definition thread_start (t : Thread) : res Thread :=
  match t with
  | NotStarted => Ok Alive
  | _ => Raise (RuntimeError "threads can only be started once")
  end.

(** [join(timeout)]: whether the thread ended in time is up to the scheduler. *)
Definition thread_join (in_time : bool) (t : Thread) : res Thread :=
  match t with
  | NotStarted => Raise (RuntimeError "cannot join thread before it is started")
  | Alive => Ok (if in_time then Ended else Alive)
  | Ended => Ok Ended
  end.

(** ** Handlers *)

Inductive rust_kind := RustDataWriter | RustDataReader | RustTransferSender | RustTransferReceiver.

(** What is recorded: calls of Rust objects, of the functions of the operators (by their position
    in the chain) and of the task thread. *)
Inductive call :=
| Register (k : rust_kind) (name : string)
| StartRust (name : string)
| CloseRust (name : string)
| Connect (num_threads timeout_ms : Z)
| StartLoop
| CloseLoop
| OpenFunc (i : nat)
| CloseFunc (i : nat)
| StartThread
| JoinThread.
Abbreviation calls := (list call).

(** What the environment answers in one phase: [connect] of the Rust loop, whether a thread ends
    before the time-out of its [join], [_read_and_flush] of the metrics and
    [try_flush_if_needed] of the writer of a handler, and the [open] and [close] of functions. *)
Record answers := mkAnswers {
  a_connect : option string;
  a_in_time : bool;
  a_metrics : string → res ();
  a_flush : string → res ();
  a_open : nat → res ();
  a_close : nat → res ();
}.

Record MetricsRecorder := mkMetrics { m_running : bool; flusher_thread : Thread }.
Definition new_MetricsRecorder : MetricsRecorder := mkMetrics false NotStarted.

(** The subclasses of [IOHandler]; a writer has a flusher thread of its own. *)
Inductive handler_class :=
| DataWriter (running : bool) (_flusher_thread : Thread)
| DataReader
| TransferSender
| TransferReceiver.

Record IOHandler := mkHandler {
  h_name : string;
  _metrics_recorder : MetricsRecorder;
  h_class : handler_class;
}.
Definition new_handler (name : string) (c : handler_class) : IOHandler := mkHandler name new_MetricsRecorder c.
Definition new_writer (name : string) : IOHandler := new_handler name (DataWriter false NotStarted).

Definition get_rust_io_handler (h : IOHandler) : rust_kind :=
  match h_class h with
  | DataWriter _ _ => RustDataWriter
  | DataReader => RustDataReader
  | TransferSender => RustTransferSender
  | TransferReceiver => RustTransferReceiver
  end.

Definition record {X} (c : call) : M (X * calls) () := modS (λ s, (s.1, s.2 ++ [c])).
Definition update {X} (f : X → X) : M (X * calls) () := modS (λ s, (f s.1, s.2)).
Definition update_res {X} (f : X → res X) : M (X * calls) () := λ s,
  match f s.1 with Ok x => (Ok (), (x, s.2)) | Raise e => (Raise e, s) end.

Definition set_metrics (m : MetricsRecorder) (h : IOHandler) : IOHandler := mkHandler (h_name h) m (h_class h).
Definition set_class (c : handler_class) (h : IOHandler) : IOHandler := mkHandler (h_name h) (_metrics_recorder h) c.

(** [MetricsRecorder.start] and [close] *)
Definition metrics_start : M (IOHandler * calls) () :=
  update (λ h, set_metrics (mkMetrics true (flusher_thread (_metrics_recorder h))) h) ≫= λ _,
  update_res (λ h, t ← thread_start (flusher_thread (_metrics_recorder h)); Ok (set_metrics (mkMetrics true t) h)).
Definition metrics_close (a : answers) : M (IOHandler * calls) () :=
  update (λ h, set_metrics (mkMetrics false (flusher_thread (_metrics_recorder h))) h) ≫= λ _,
  update_res (λ h, t ← thread_join (a_in_time a) (flusher_thread (_metrics_recorder h));
                   Ok (set_metrics (mkMetrics false t) h)) ≫= λ _,
  getS ≫= λ s, liftR (a_metrics a (h_name s.1)).

(** The [start] and [close] of the four handlers. *)
Definition handler_start : M (IOHandler * calls) () :=
  metrics_start ≫= λ _, getS ≫= λ s,
  let h := s.1 in
  match h_class h with
  | DataWriter _ t =>
      update (set_class (DataWriter true t)) ≫= λ _,
      record (StartRust (h_name h)) ≫= λ _,
      update_res (λ h, t' ← thread_start t; Ok (set_class (DataWriter true t') h))
  | _ => record (StartRust (h_name h))
  end.

Definition handler_close (a : answers) : M (IOHandler * calls) () :=
  metrics_close a ≫= λ _, getS ≫= λ s,
  let h := s.1 in
  match h_class h with
  | DataWriter _ t =>
      update (set_class (DataWriter false t)) ≫= λ _,
      update_res (λ h, t' ← thread_join (a_in_time a) t; Ok (set_class (DataWriter false t') h)) ≫= λ _,
      liftR (a_flush a (h_name h)) ≫= λ _,
      record (CloseRust (h_name h))
  | _ => record (CloseRust (h_name h))
  end.

(** ** [IOLoop] *)

Record IOLoop := mkIOLoop { _handlers : list IOHandler }.
Definition new_IOLoop : IOLoop := mkIOLoop [].

Definition register_io_handler (h : IOHandler) : M (IOLoop * calls) () :=
  update (λ l, mkIOLoop (_handlers l ++ [h])) ≫= λ _,
  record (Register (get_rust_io_handler h) (h_name h)).

(** [for handler in self._handlers: f(handler)] *)
Fixpoint each_handler (f : M (IOHandler * calls) ()) (hs : list IOHandler) (lg : calls)
    : res () * (list IOHandler * calls) :=
  match hs with
  | [] => (Ok (), ([], lg))
  | h :: hs' =>
      match f (h, lg) with
      | (Raise e, (h', lg')) => (Raise e, (h' :: hs', lg'))
      | (Ok _, (h', lg')) => let '(r, (hs'', lg'')) := each_handler f hs' lg' in (r, (h' :: hs'', lg''))
      end
  end.
Definition for_handlers (f : M (IOHandler * calls) ()) : M (IOLoop * calls) () := λ s,
  let '(r, (hs, lg)) := each_handler f (_handlers s.1) s.2 in (r, (mkIOLoop hs, lg)).

Definition connect_and_start (a : answers) (num_threads timeout_ms : Z) : M (IOLoop * calls) (option string) :=
  for_handlers handler_start ≫= λ _,
  record (Connect num_threads timeout_ms) ≫= λ _,
  match a_connect a with
  | None => record StartLoop ≫= λ _, mret None
  | Some err => mret (Some err)
  end.

Definition loop_close (a : answers) : M (IOLoop * calls) () :=
  for_handlers (handler_close a) ≫= λ _, record CloseLoop.

(** [TransferActor.__init__], [start] and [close] *)
Definition transfer_init (t : TransferActor) : M (IOLoop * calls) () :=
  (match t_sender t with
   | Some _ => register_io_handler (new_handler (t_name t +:+ "-sender") TransferSender)
   | None => mret () end) ≫= λ _,
  match t_receiver t with
  | Some _ => register_io_handler (new_handler (t_name t +:+ "-receiver") TransferReceiver)
  | None => mret () end.
Definition transfer_start (a : answers) : M (IOLoop * calls) (option string) := connect_and_start a 1 5000.
Definition transfer_close (a : answers) : M (IOLoop * calls) () := loop_close a.

(** ** [StreamTask] *)

Record stream_task := mkStreamTask {
  tk_vertex : ExecutionVertex;
  tk_class : StreamTask;
  tk_running : bool;
  tk_thread : Thread;
  tk_writer : option string;
  tk_reader : option string;
  tk_collectors : list OutputCollector;
  tk_master_handle : bool;
  tk_loop : IOLoop;
  tk_calls : calls;
}.
Definition new_stream_task (v : ExecutionVertex) (c : StreamTask) : stream_task :=
  mkStreamTask v c true NotStarted None None [] false new_IOLoop [].

Definition on_loop {A} (m : M (IOLoop * calls) A) : M stream_task A := λ t,
  let '(r, (l, lg)) := m (tk_loop t, tk_calls t) in
  (r, mkStreamTask (tk_vertex t) (tk_class t) (tk_running t) (tk_thread t) (tk_writer t) (tk_reader t) (tk_collectors t)
        (tk_master_handle t) l lg).
Definition log_call (c : call) : M stream_task () := on_loop (record c).
Definition set_writer (n : string) (t : stream_task) : stream_task :=
  mkStreamTask (tk_vertex t) (tk_class t) (tk_running t) (tk_thread t) (Some n) (tk_reader t) (tk_collectors t)
    (tk_master_handle t) (tk_loop t) (tk_calls t).
Definition set_reader (n : string) (t : stream_task) : stream_task :=
  mkStreamTask (tk_vertex t) (tk_class t) (tk_running t) (tk_thread t) (tk_writer t) (Some n) (tk_collectors t)
    (tk_master_handle t) (tk_loop t) (tk_calls t).
Definition add_collectors (cs : list OutputCollector) (t : stream_task) : stream_task :=
  mkStreamTask (tk_vertex t) (tk_class t) (tk_running t) (tk_thread t) (tk_writer t) (tk_reader t) (tk_collectors t ++ cs)
    (tk_master_handle t) (tk_loop t) (tk_calls t).
Definition set_master_handle (t : stream_task) : stream_task :=
  mkStreamTask (tk_vertex t) (tk_class t) (tk_running t) (tk_thread t) (tk_writer t) (tk_reader t) (tk_collectors t)
    true (tk_loop t) (tk_calls t).
Definition stop_running (t : stream_task) : stream_task :=
  mkStreamTask (tk_vertex t) (tk_class t) false (tk_thread t) (tk_writer t) (tk_reader t) (tk_collectors t)
    (tk_master_handle t) (tk_loop t) (tk_calls t).
Definition on_thread (f : Thread → res Thread) : M stream_task () := λ t,
  match f (tk_thread t) with
  | Ok th => (Ok (), mkStreamTask (tk_vertex t) (tk_class t) (tk_running t) th (tk_writer t) (tk_reader t) (tk_collectors t)
                       (tk_master_handle t) (tk_loop t) (tk_calls t))
  | Raise e => (Raise e, t)
  end.

(** The operators behind a processor: one, or those of a chain. *)
Definition operators_of (o : operator) : list operator :=
  match o with Plain _ _ => [o] | Chained _ ops => ops end.

(** [open] of a (chained) operator, from its head to its tail. *)
Fixpoint open_operators (a : answers) (i : nat) (ops : list operator) : M stream_task () :=
  match ops with
  | [] => mret ()
  | _ :: rest =>
      (match rest with
       | next :: _ => if decide (operator_type next = ONE_INPUT) then mret () else raise AssertionError
       | [] => mret () end) ≫= λ _,
      log_call (OpenFunc i) ≫= λ _, liftR (a_open a i) ≫= λ _,
      open_operators a (S i) rest
  end.
Definition close_operators (a : answers) (n : nat) : M stream_task () :=
  for_each (seq 0 n) (λ i, log_call (CloseFunc i) ≫= λ _, liftR (a_close a i)).

Section worker.
Context `{!IntSetOrder} (g : ExecutionGraph).

Definition op_of (v : ExecutionVertex) : operator := stream_operator (job_vertex v).
Definition writer_name (v : ExecutionVertex) : string := "data-writer-" +:+ execution_vertex_id v.
Definition reader_name (v : ExecutionVertex) : string := "data-reader-" +:+ execution_vertex_id v.

(** [_open_processor] *)
Definition _open_processor (a : answers) : M stream_task (option string) :=
  getS ≫= λ t, let v := tk_vertex t in
  liftR (task_collectors g (execution_vertex_id v)) ≫= λ cs,
  modS (add_collectors cs) ≫= λ _,
  on_loop (connect_and_start a 1 5000) ≫= λ err,
  match err with
  | Some e => mret (Some e)
  | None =>
      open_operators a 0 (operators_of (op_of v)) ≫= λ _,
      (match build_processor (operator_type (op_of v)) with
       | SourceProcessor => modS set_master_handle
       | _ => mret () end) ≫= λ _,
      mret None
  end.

(** [_prepare_task]; the channels of the edges were set before the worker got its vertex. *)
Definition _prepare_task (a : answers) : M stream_task (option string) :=
  getS ≫= λ t, let v := tk_vertex t in
  let io := prepare_task g v in
  (match data_writer io with
   | None => mret ()
   | Some _ =>
       getS ≫= λ t,
       match tk_writer t with
       | Some _ => raise (RuntimeError "Writer already inited")
       | None => modS (set_writer (writer_name v)) ≫= λ _,
                 on_loop (register_io_handler (new_writer (writer_name v)))
       end
   end) ≫= λ _,
  (match data_reader io with
   | None => mret ()
   | Some _ =>
       getS ≫= λ t,
       match tk_reader t with
       | Some _ => raise (RuntimeError "Reader already inited")
       | None => modS (set_reader (reader_name v)) ≫= λ _,
                 on_loop (register_io_handler (new_handler (reader_name v) DataReader))
       end
   end) ≫= λ _,
  _open_processor a.

Definition start_or_recover (a : answers) : M stream_task (option string) :=
  _prepare_task a ≫= λ err,
  match err with
  | Some e => mret (Some e)
  | None => on_thread thread_start ≫= λ _, log_call StartThread ≫= λ _, mret None
  end.

Definition task_close (a : answers) : M stream_task () :=
  modS stop_running ≫= λ _, getS ≫= λ t,
  close_operators a (length (operators_of (op_of (tk_vertex t)))) ≫= λ _,
  on_loop (loop_close a) ≫= λ _,
  on_thread (thread_join (a_in_time a)) ≫= λ _,
  log_call JoinThread.

(** ** [JobWorker] *)

(** [w_tasks] are the tasks the worker made, [self.task] the last of them. *)
Record JobWorker := mkJobWorker {
  w_execution_vertex : option ExecutionVertex;
  w_tasks : list stream_task;
  w_watcher : option Thread;
  w_running : bool;
}.
Definition new_JobWorker : JobWorker := mkJobWorker None [] None true.

Definition init (v : ExecutionVertex) (w : JobWorker) : JobWorker :=
  mkJobWorker (Some v) (w_tasks w) (w_watcher w) (w_running w).

(** The wait for [init]: [polls] are the time and what [self.execution_vertex] holds in each
    round; after five seconds the worker gives up. *)
Fixpoint await_vertex (start : Z) (polls : list (Z * option ExecutionVertex)) : res ExecutionVertex :=
  match polls with
  | [] => Raise Blocked
  | (_, Some v) :: _ => Ok v
  | (now, None) :: polls' =>
      if decide (now - start > 5)%Z then Raise (RuntimeError "Init timeout for actor") else await_vertex start polls'
  end.

(** A method of [self.task]. *)
Definition on_current {A} (m : M stream_task A) : M JobWorker (option A) := λ w,
  match last (w_tasks w) with
  | None => (Ok None, w)
  | Some t =>
      let '(r, t') := m t in
      (Some <$> r, mkJobWorker (w_execution_vertex w) (removelast (w_tasks w) ++ [t']) (w_watcher w) (w_running w))
  end.

Definition start_or_rollback (a : answers) (start : Z) (polls : list (Z * option ExecutionVertex))
    : M JobWorker (option string) :=
  getS ≫= λ w,
  liftR (match w_execution_vertex w with Some v => Ok v | None => await_vertex start polls end) ≫= λ v,
  modS (init v) ≫= λ _,
  liftR (create_stream_task g v) ≫= λ c,
  modS (λ w, mkJobWorker (w_execution_vertex w) (w_tasks w ++ [new_stream_task v c]) (w_watcher w) (w_running w)) ≫= λ _,
  on_current (start_or_recover a) ≫= λ err,
  match default None err with
  | Some e => mret (Some e)
  | None =>
      modS (λ w, mkJobWorker (w_execution_vertex w) (w_tasks w) (Some Alive) (w_running w)) ≫= λ _, mret None
  end.

Definition worker_close (a : answers) : M JobWorker () :=
  on_current (task_close a) ≫= λ _,
  modS (λ w, mkJobWorker (w_execution_vertex w) (w_tasks w) (w_watcher w) false) ≫= λ _,
  getS ≫= λ w,
  liftR (match w_watcher w with
         | None => Ok None
         | Some th => Some <$> thread_join (a_in_time a) th end) ≫= λ th,
  modS (λ w, mkJobWorker (w_execution_vertex w) (w_tasks w) th (w_running w)) ≫= λ _,
  liftR (match w_execution_vertex w with Some _ => Ok () | None => Raise AttributeError end).
End worker.

(** ** The job *)

(** The workers by vertex, the transfer actors by node with their names, the stats manager and
    the master; [d_exited] are the actors that were told to exit. *)
Record deployment := mkDeployment {
  d_running : bool;
  d_stats_running : bool;
  d_stats_thread : Thread;
  d_workers : dict string JobWorker;
  d_transfers : dict string (string * (IOLoop * calls));
  d_exited : list string;
}.

(** What [create_workers] and [connect_and_init_workers] leave: a worker with its vertex for every
    execution vertex, and the transfer actors. *)
Definition new_deployment (g : ExecutionGraph) (ts : dict string TransferActor) : deployment :=
  mkDeployment true false NotStarted
    (map (λ kv, (kv.1, init kv.2 new_JobWorker)) (execution_vertices_by_id g))
    (map (λ kv : string * TransferActor, (kv.1, (t_name kv.2, (transfer_init kv.2 (new_IOLoop, [])).2))) ts) [].

Definition set_workers (ws : dict string JobWorker) (d : deployment) : deployment :=
  mkDeployment (d_running d) (d_stats_running d) (d_stats_thread d) ws (d_transfers d) (d_exited d).
Definition set_transfers (ts : dict string (string * (IOLoop * calls))) (d : deployment) : deployment :=
  mkDeployment (d_running d) (d_stats_running d) (d_stats_thread d) (d_workers d) ts (d_exited d).

(** [ray.get] of several calls raises the first exception. *)
Definition ray_get {A} (l : list (string * res A)) : res (list (string * A)) :=
  mapR (λ x : string * res A, r ← x.2; Ok (x.1, r)) l.

Section job.
Context `{!IntSetOrder} (g : ExecutionGraph) (ts : dict string TransferActor).

(** [start_workers]: every transfer actor ([at_] are the answers on its node) and every worker
    ([aw]) is called; then what they returned is looked at. *)
Definition start_all (at_ aw : string → answers) (d : deployment) : res () * deployment :=
  let d' := set_workers (map (λ kv, (kv.1, (start_or_rollback g (aw kv.1) 0 [] kv.2).2)) (d_workers d))
              (set_transfers (map (λ kv, (kv.1, (kv.2.1, (transfer_start (at_ kv.1) kv.2.2).2))) (d_transfers d)) d) in
  match (et ← ray_get (map (λ kv, (kv.1, (transfer_start (at_ kv.1) kv.2.2).1)) (d_transfers d));
         ew ← ray_get (map (λ kv, (kv.1, (start_or_rollback g (aw kv.1) 0 [] kv.2).1)) (d_workers d)); Ok (et, ew)) with
  | Raise e => (Raise e, d')
  | Ok (et, ew) => (start_workers ts g (λ n, default None (dget et n)) (λ v, default None (dget ew v)), d')
  end.

(** [StatsManager.start] and [stop]; [collect] is the answer of the last collection. *)
Definition stats_start : M deployment () := λ d,
  match thread_start (d_stats_thread d) with
  | Ok th => (Ok (), mkDeployment (d_running d) true th (d_workers d) (d_transfers d) (d_exited d))
  | Raise e => (Raise e, mkDeployment (d_running d) true (d_stats_thread d) (d_workers d) (d_transfers d) (d_exited d))
  end.
Definition stats_stop (in_time : bool) (collect : res ()) : M deployment () := λ d,
  match thread_join in_time (d_stats_thread d) with
  | Ok th => (collect, mkDeployment (d_running d) false th (d_workers d) (d_transfers d) (d_exited d))
  | Raise e => (Raise e, mkDeployment (d_running d) false (d_stats_thread d) (d_workers d) (d_transfers d) (d_exited d))
  end.

(** The end of [submit_job]: the workers start, then the stats manager. *)
Definition launch (at_ aw : string → answers) : M deployment () :=
  start_all at_ aw ≫= λ _, stats_start.

(** [delete_workers]: [ray.wait] returns when the calls of [close] are done or time is up, whether
    they raised or not; then every worker is told to exit. *)
Definition delete_workers (a : string → answers) (d : deployment) : deployment :=
  mkDeployment (d_running d) (d_stats_running d) (d_stats_thread d)
    (map (λ kv, (kv.1, (worker_close (a kv.1) kv.2).2)) (d_workers d)) (d_transfers d)
    (d_exited d ++ dkeys (d_workers d)).

(** [JobMaster.destroy] *)
Definition destroy (a : string → answers) (in_time : bool) (collect : res ()) : M deployment () :=
  modS (λ d, mkDeployment false (d_stats_running d) (d_stats_thread d) (d_workers d) (d_transfers d) (d_exited d)) ≫= λ _,
  stats_stop in_time collect ≫= λ _,
  modS (delete_workers a).

(** [JobClient.execute]: submit, wait for the sources, give the workers five seconds, destroy.
    [sources_done] says whether the wait ends. *)
Definition execute (at_ aw a_close : string → answers) (sources_done in_time : bool) (collect : res ())
    : M deployment () :=
  launch at_ aw ≫= λ _,
  (if sources_done then mret () else raise Blocked) ≫= λ _,
  destroy a_close in_time collect.
End job.

(** ** Lemmas: handlers *)

Definition fresh (h : IOHandler) : Prop :=
  _metrics_recorder h = new_MetricsRecorder ∧
  match h_class h with DataWriter r t => r = false ∧ t = NotStarted | _ => True end.

(** A handler after [start], and after a [close] in time. *)
Definition started (h : IOHandler) : IOHandler :=
  mkHandler (h_name h) (mkMetrics true Alive) (match h_class h with DataWriter _ _ => DataWriter true Alive | c => c end).
Definition stopped (h : IOHandler) : IOHandler :=
  mkHandler (h_name h) (mkMetrics false Ended) (match h_class h with DataWriter _ _ => DataWriter false Ended | c => c end).

Definition registrations (hs : list IOHandler) : calls := map (λ h, Register (get_rust_io_handler h) (h_name h)) hs.
Definition starts (hs : list IOHandler) : calls := map (λ h, StartRust (h_name h)) hs.
Definition closes (hs : list IOHandler) : calls := map (λ h, CloseRust (h_name h)) hs.

(** Everything the environment is asked while closing goes well. *)
Record answers_ok (a : answers) : Prop := {
  ao_in_time : a_in_time a = true;
  ao_metrics : ∀ n, a_metrics a n = Ok ();
  ao_flush : ∀ n, a_flush a n = Ok ();
  ao_open : ∀ i, a_open a i = Ok ();
  ao_close : ∀ i, a_close a i = Ok ();
}.

Lemma handler_start_fresh h lg : fresh h → handler_start (h, lg) = (Ok (), (started h, lg ++ [StartRust (h_name h)])).
Proof. destruct h as [n m c]. intros [Hm Hc]. simpl in Hm. subst m. by destruct c as [r t| | |]; [destruct Hc as [-> ->]|..]. Qed.

Lemma each_start hs lg : Forall fresh hs → each_handler handler_start hs lg = (Ok (), (map started hs, lg ++ starts hs)).
Proof.
  intros Hf. revert lg. induction Hf as [|h hs Hh _ IH]; intros lg; simpl; [by rewrite app_nil_r|].
  rewrite handler_start_fresh by done. by rewrite IH, <- app_assoc.
Qed.

Lemma handler_close_started a h lg : answers_ok a →
  handler_close a (started h, lg) = (Ok (), (stopped h, lg ++ [CloseRust (h_name h)])).
Proof.
  intros [Ht Hm Hf _ _]. destruct h as [n m c].
  unfold handler_close, metrics_close, mbind, M_bind, update, update_res, modS, getS, liftR, record. simpl.
  rewrite Ht, Hm. by destruct c; simpl; rewrite ?Hf.
Qed.

Lemma each_close_started a hs lg : answers_ok a →
  each_handler (handler_close a) (map started hs) lg = (Ok (), (map stopped hs, lg ++ closes hs)).
Proof.
  intros Ha. revert lg. induction hs as [|h hs IH]; intros lg; simpl; [by rewrite app_nil_r|].
  rewrite handler_close_started by done. by rewrite IH, <- app_assoc.
Qed.

Ltac finish r := eexists r, _; split; [|reflexivity]; reflexivity.

(** Whatever the state of the handlers and the answers, closing them records their [close] in
    order up to the first exception. *)
Lemma handler_close_calls a h lg : ∃ r h', h_name h' = h_name h ∧
  handler_close a (h, lg) = (r, (h', if is_ok r then lg ++ [CloseRust (h_name h)] else lg)).
Proof.
  destruct h as [n [mr mt] c]. unfold handler_close, metrics_close, mbind, M_bind, update, update_res, modS, getS, liftR, record.
  simpl. destruct (thread_join _ mt) as [t|e]; simpl; [|finish (@Raise () e)].
  destruct (a_metrics a n) as [[]|e]; simpl; [|finish (@Raise () e)].
  destruct c as [wr wt| | |]; simpl; [|finish (Ok ())..].
  destruct (thread_join _ wt) as [t'|e]; simpl; [|finish (@Raise () e)].
  destruct (a_flush a n) as [[]|e]; simpl; [finish (Ok ())|finish (@Raise () e)].
Qed.

Lemma each_close_calls a hs lg : ∃ r hs' k, closes hs' = closes hs ∧ k `prefix_of` closes hs ∧ (is_ok r = true → k = closes hs) ∧
  each_handler (handler_close a) hs lg = (r, (hs', lg ++ k)).
Proof.
  revert lg. induction hs as [|h hs IH]; intros lg; simpl.
  { eexists _, [], []. by rewrite app_nil_r. }
  destruct (handler_close_calls a h lg) as (r & h' & En & E). rewrite E. destruct r as [[]|e]; simpl.
  - destruct (IH (lg ++ [CloseRust (h_name h)])) as (r & hs' & k & E1 & E2 & E3 & ->).
    eexists r, (h' :: hs'), (CloseRust (h_name h) :: k). simpl. rewrite En, E1, <- app_assoc. split_and!; [done| |naive_solver|done].
    by apply prefix_cons.
  - eexists (Raise e), (h' :: hs), []. simpl. rewrite En, app_nil_r. split_and!; [done|apply prefix_nil|done|done].
Qed.

(** ** Lemmas: tasks *)

Section task_lemmas.
Context `{!IntSetOrder} (g : ExecutionGraph).
Implicit Types v : ExecutionVertex.

(** The handlers of the task of a vertex. *)
Definition task_handlers v : list IOHandler :=
  (match data_writer (prepare_task g v) with Some _ => [new_writer (writer_name v)] | None => [] end) ++
  (match data_reader (prepare_task g v) with Some _ => [new_handler (reader_name v) DataReader] | None => [] end).
Definition n_ops v : nat := length (operators_of (op_of v)).

(** The calls of a complete start and of a complete close. *)
Definition wiring v : calls := registrations (task_handlers v) ++ starts (task_handlers v) ++ [Connect 1 5000].
Definition startup v : calls := wiring v ++ [StartLoop] ++ map OpenFunc (seq 0 (n_ops v)) ++ [StartThread].
Definition shutdown v : calls :=
  map CloseFunc (seq 0 (n_ops v)) ++ closes (task_handlers v) ++ [CloseLoop; JoinThread].

(** The worker can make the task: its class, its collectors and, in a chain, one-input operators. *)
Record startable v (c : StreamTask) (cs : list OutputCollector) : Prop := {
  sa_class : create_stream_task g v = Ok c;
  sa_collectors : task_collectors g (execution_vertex_id v) = Ok cs;
  sa_chain : Forall (λ o, operator_type o = ONE_INPUT) (tail (operators_of (op_of v)));
}.

Lemma task_handlers_fresh v : Forall fresh (task_handlers v).
Proof. unfold task_handlers. destruct (data_writer _), (data_reader _); by repeat constructor. Qed.

Lemma open_all a ops i t : answers_ok a → Forall (λ o, operator_type o = ONE_INPUT) (tail ops) →
  open_operators a i ops t =
  (Ok (), (on_loop (λ s, (Ok (), (s.1, s.2 ++ map OpenFunc (seq i (length ops))))) t).2).
Proof.
  intros Ha. revert i t. induction ops as [|o ops IH]; intros i t Hc; simpl.
  { destruct t as [????????? lg]. by rewrite app_nil_r. }
  unfold mbind, M_bind. simpl in Hc.
  assert ((match ops with [] => mret () | next :: _ => if decide (operator_type next = ONE_INPUT) then mret () else raise AssertionError end)
    t = (Ok (), t)) as ->. { destruct ops as [|next ops]; [done|]. inv Hc. by rewrite decide_True. }
  rewrite (ao_open _ Ha). unfold log_call, on_loop, record, modS, liftR. simpl. rewrite IH.
  - unfold on_loop. simpl. by rewrite <- app_assoc.
  - destruct ops; [done|]. by inv Hc.
Qed.

Lemma close_all a n t : answers_ok a →
  close_operators a n t = (Ok (), (on_loop (λ s, (Ok (), (s.1, s.2 ++ map CloseFunc (seq 0 n)))) t).2).
Proof.
  intros Ha. unfold close_operators. generalize 0 as i. revert t. induction n as [|n IH]; intros t i; simpl.
  { destruct t as [????????? lg]. by rewrite app_nil_r. }
  unfold mbind, M_bind. unfold log_call at 1, on_loop at 1, record, modS, liftR. simpl. rewrite (ao_close _ Ha), IH.
  unfold on_loop. simpl. by rewrite <- app_assoc.
Qed.

Definition is_source v : bool :=
  match build_processor (operator_type (op_of v)) with SourceProcessor => true | _ => false end.

(** A task after [start_or_recover] with the answer [err] of [connect], and after [close]. *)
Definition after_start v (c : StreamTask) (cs : list OutputCollector) (err : option string) : stream_task :=
  let up := bool_decide (err = None) in
  mkStreamTask v c true (if up then Alive else NotStarted)
    ((λ _, writer_name v) <$> data_writer (prepare_task g v)) ((λ _, reader_name v) <$> data_reader (prepare_task g v)) cs
    (up && is_source v)
    (mkIOLoop (map started (task_handlers v))) (if up then startup v else wiring v).
Definition after_close v (c : StreamTask) (cs : list OutputCollector) (err : option string) : stream_task :=
  let up := bool_decide (err = None) in
  mkStreamTask v c false (if up then Ended else NotStarted)
    ((λ _, writer_name v) <$> data_writer (prepare_task g v)) ((λ _, reader_name v) <$> data_reader (prepare_task g v)) cs
    (up && is_source v)
    (mkIOLoop (map stopped (task_handlers v)))
    ((if up then startup v else wiring v) ++ map CloseFunc (seq 0 (n_ops v)) ++ closes (task_handlers v) ++
     CloseLoop :: if up then [JoinThread] else []).

Lemma connect_fresh a hs lg : Forall fresh hs →
  connect_and_start a 1 5000 (mkIOLoop hs, lg) =
  (Ok (a_connect a), (mkIOLoop (map started hs), lg ++ starts hs ++ Connect 1 5000 :: match a_connect a with Some _ => [] | None => [StartLoop] end)).
Proof.
  intros Hf. unfold connect_and_start, for_handlers, mbind, M_bind, record, modS, mret, M_ret. simpl.
  rewrite each_start by done. simpl. destruct (a_connect a); simpl; by rewrite <- ?app_assoc.
Qed.

Lemma start_task_ok a v c cs : answers_ok a → startable v c cs →
  start_or_recover g a (new_stream_task v c) = (Ok (a_connect a), after_start v c cs (a_connect a)).
Proof.
  intros Ha [_ Hcs Hch]. pose proof (task_handlers_fresh v) as Hf.
  unfold start_or_recover, _prepare_task, mbind, M_bind, getS. cbn [tk_vertex new_stream_task].
  unfold after_start, is_source, startup, wiring. unfold task_handlers in *.
  generalize dependent (prepare_task g v). intros [[w|] [r|]] Hf;
    unfold modS, on_loop at 1, register_io_handler, mbind, M_bind, update, record, modS, mret, M_ret; simpl;
    unfold _open_processor, mbind, M_bind, getS, liftR, modS; simpl; rewrite Hcs; unfold on_loop at 1; simpl; try unfold new_IOLoop;
    rewrite connect_fresh by exact Hf; simpl; destruct (a_connect a) as [e|]; simpl; try done;
    rewrite (open_all a) by done; simpl;
    destruct (build_processor _); simpl; unfold on_thread, log_call, on_loop, record, modS; simpl;
    rewrite <- ?app_assoc; reflexivity.
Qed.

Lemma task_close_ok a v c cs err : answers_ok a →
  task_close a (after_start v c cs err) =
  (match err with Some _ => Raise (RuntimeError "cannot join thread before it is started") | None => Ok () end, after_close v c cs err).
Proof.
  intros Ha. unfold task_close, mbind, M_bind, modS, getS. rewrite close_all by done. simpl.
  unfold on_loop at 1, loop_close, for_handlers, mbind, M_bind. simpl. rewrite each_close_started by done.
  unfold record, modS, on_thread, log_call, on_loop, after_close. simpl. rewrite (ao_in_time _ Ha). unfold n_ops.
  destruct err; simpl; by rewrite <- ?app_assoc.
Qed.

(** ** Lemmas: the calls of a task, whatever is answered *)

Definition logged (t : stream_task) (k : calls) (t' : stream_task) : Prop :=
  tk_calls t' = tk_calls t ++ k ∧ tk_vertex t' = tk_vertex t ∧ _handlers (tk_loop t') = _handlers (tk_loop t) ∧
  tk_thread t' = tk_thread t.

Lemma logged_nil t : logged t [] t.
Proof. unfold logged. by rewrite app_nil_r. Qed.
Lemma logged_trans t t1 t2 k1 k2 : logged t k1 t1 → logged t1 k2 t2 → logged t (k1 ++ k2) t2.
Proof. intros (E1 & E2 & E3 & E4) (F1 & F2 & F3 & F4). unfold logged. by rewrite F1, E1, F2, E2, F3, E3, F4, E4, app_assoc. Qed.

Definition add_call (c : call) (t : stream_task) : stream_task := (log_call c t).2.
Lemma log_call_eq c t : log_call c t = (Ok (), add_call c t).
Proof. done. Qed.
Lemma open_calls a ops i t : ∃ k, k `prefix_of` map OpenFunc (seq i (length ops)) ∧ logged t k (open_operators a i ops t).2 ∧
  (is_ok (open_operators a i ops t).1 = true → k = map OpenFunc (seq i (length ops))).
Proof.
  revert i t. induction ops as [|o ops IH]; intros i t; simpl.
  { exists []. split_and!; [done|apply logged_nil|done]. }
  unfold mbind, M_bind.
  assert ((∃ e, (match ops with [] => mret () | next :: _ => if decide (operator_type next = ONE_INPUT) then mret () else raise AssertionError end) t
    = (Raise e, t)) ∨ (match ops with [] => mret () | next :: _ => if decide (operator_type next = ONE_INPUT) then mret () else raise AssertionError end) t
    = (Ok (), t)) as [[e ->]| ->].
  { destruct ops as [|next ops]; [by right|]. destruct (decide _); [by right|left; by eexists]. }
  { exists []. split_and!; [apply prefix_nil|apply logged_nil|done]. }
  rewrite log_call_eq. unfold liftR. set (t1 := add_call _ t). assert (logged t [OpenFunc i] t1) as Hl by done.
  destruct (a_open a i) as [[]|e]; simpl.
  - destruct (IH (S i) t1) as (k & K1 & K2 & K3). exists (OpenFunc i :: k). split_and!.
    + by apply prefix_cons.
    + by apply (logged_trans _ _ _ _ _ Hl).
    + intros Hok. by rewrite K3.
  - exists [OpenFunc i]. split_and!; [by apply prefix_cons, prefix_nil|done|done].
Qed.

Lemma close_calls a n t : ∃ k, k `prefix_of` map CloseFunc (seq 0 n) ∧ logged t k (close_operators a n t).2 ∧
  (is_ok (close_operators a n t).1 = true → k = map CloseFunc (seq 0 n)).
Proof.
  unfold close_operators. generalize 0 as i. revert t. induction n as [|n IH]; intros t i; simpl.
  { exists []. split_and!; [done|apply logged_nil|done]. }
  unfold mbind, M_bind, liftR. rewrite log_call_eq. set (t1 := add_call _ t). assert (logged t [CloseFunc i] t1) as Hl by done.
  destruct (a_close a i) as [[]|e]; simpl.
  - destruct (IH t1 (S i)) as (k & K1 & K2 & K3). exists (CloseFunc i :: k). split_and!.
    + by apply prefix_cons.
    + by apply (logged_trans _ _ _ _ _ Hl).
    + intros Hok. by rewrite K3.
  - exists [CloseFunc i]. split_and!; [by apply prefix_cons, prefix_nil|done|done].
Qed.

(** No handler was started, or all of them were. *)
Definition unstarted (h : IOHandler) : Prop := flusher_thread (_metrics_recorder h) = NotStarted.

Lemma each_close_unstarted a hs lg : Forall unstarted hs → ∃ r hs', closes hs' = closes hs ∧ Forall unstarted hs' ∧
  (hs ≠ [] → is_ok r = false) ∧ each_handler (handler_close a) hs lg = (r, (hs', lg)).
Proof.
  destruct hs as [|h hs]; intros Hu; [by eexists (Ok ()), []|]. inv Hu as [|?? Hh Hu']. destruct h as [n [mr mt] c].
  unfold unstarted in Hh. simpl in Hh. subst mt.
  eexists (Raise _), (_ :: hs). split_and!; cycle 3; [reflexivity|done| |done]. by constructor.
Qed.

Lemma connect_task a t : Forall fresh (_handlers (tk_loop t)) → ∃ t',
  on_loop (connect_and_start a 1 5000) t = (Ok (a_connect a), t') ∧ tk_vertex t' = tk_vertex t ∧ tk_thread t' = tk_thread t ∧
  _handlers (tk_loop t') = map started (_handlers (tk_loop t)) ∧
  tk_calls t' = tk_calls t ++ starts (_handlers (tk_loop t)) ++ Connect 1 5000 :: match a_connect a with Some _ => [] | None => [StartLoop] end.
Proof. intros Hf. unfold on_loop. destruct (tk_loop t) as [hs]. rewrite connect_fresh by done. by eexists. Qed.

(** The handlers are registered before anything can fail. *)
Lemma prepared v c a : ∃ t1 : stream_task, tk_vertex t1 = v ∧ tk_thread t1 = NotStarted ∧
  tk_calls t1 = registrations (task_handlers v) ∧ _handlers (tk_loop t1) = task_handlers v ∧
  start_or_recover g a (new_stream_task v c) = (_open_processor g a ≫= λ err, match err with
    | Some e => mret (Some e) | None => on_thread thread_start ≫= λ _, log_call StartThread ≫= λ _, mret None end) t1.
Proof.
  unfold start_or_recover, _prepare_task, mbind, M_bind, getS. cbn [tk_vertex new_stream_task]. unfold task_handlers in *.
  generalize dependent (prepare_task g v). by intros [[w|] [r|]]; simpl; eexists; repeat split.
Qed.

Lemma thread_started (t : stream_task) : tk_thread t = NotStarted →
  ∃ t', (on_thread thread_start ≫= λ _ : (), log_call StartThread ≫= λ _ : (), mret (None : option string)) t = (Ok None, t') ∧
    tk_calls t' = tk_calls t ++ [StartThread] ∧ tk_vertex t' = tk_vertex t ∧ tk_loop t' = tk_loop t.
Proof. intros E. unfold mbind, M_bind, on_thread. rewrite E. simpl. eexists. by split_and!. Qed.

Lemma master_handle_set v (t : stream_task) : ∃ t',
  (match build_processor (operator_type (op_of v)) with SourceProcessor => modS set_master_handle | _ => mret () end) t = (Ok (), t') ∧
  tk_calls t' = tk_calls t ∧ tk_vertex t' = tk_vertex t ∧ tk_loop t' = tk_loop t ∧ tk_thread t' = tk_thread t.
Proof. destruct (build_processor _); by eexists. Qed.

(** The calls of a start, whatever is answered. *)
Lemma start_calls a v c : let '(r, t') := start_or_recover g a (new_stream_task v c) in
  tk_vertex t' = v ∧ tk_calls t' `prefix_of` startup v ∧ closes (_handlers (tk_loop t')) = closes (task_handlers v) ∧
  (r = Ok None → tk_calls t' = startup v) ∧
  (starts (task_handlers v) ⊆ tk_calls t' ∨ Forall unstarted (_handlers (tk_loop t'))).
Proof.
  pose proof (task_handlers_fresh v) as Hf. destruct (prepared v c a) as (t1 & V1 & T1 & C1 & H1 & ->).
  unfold mbind, M_bind, _open_processor, getS, liftR. unfold mbind, M_bind. cbv beta zeta iota. rewrite V1.
  destruct (task_collectors g (execution_vertex_id v)) as [cs|e]; simpl; cycle 1.
  { split_and!; [done| |by rewrite H1|done|].
    - rewrite C1. unfold startup, wiring. rewrite <- app_assoc. by apply prefix_app_r.
    - right. rewrite H1. eapply Forall_impl; [exact Hf|]. intros h [E _]. unfold unstarted. by rewrite E. }
  destruct (connect_task a (add_collectors cs t1)) as (t2 & -> & V2 & T2 & H2 & C2); [by simpl; rewrite H1|].
  simpl in V2, T2, H2, C2. rewrite H1 in H2, C2. rewrite C1 in C2.
  assert (starts (task_handlers v) ⊆ tk_calls t2) as Hst by (rewrite C2; set_solver).
  assert (closes (map started (task_handlers v)) = closes (task_handlers v)) as Hcl by (unfold closes; by rewrite map_map).
  destruct (a_connect a) as [e|]; simpl.
  { rewrite V2, V1, H2. split_and!; [done| |done|done|by left]. rewrite C2. unfold startup, wiring. rewrite <- !app_assoc.
    do 2 apply prefix_app. by apply prefix_app_r. }
  destruct (open_calls a (operators_of (op_of v)) 0 t2) as (k & K1 & (L1 & L2 & L3 & L4) & K3).
  destruct (open_operators a 0 _ t2) as [[[]|e] t3]; simpl in *; cycle 1.
  { rewrite L1, L2, L3, V2, V1, H2. split_and!; [done| |done|done|left; set_solver]. rewrite C2. unfold startup, wiring.
    rewrite <- !app_assoc. do 2 apply prefix_app. do 2 apply prefix_cons. by apply prefix_app_r. }
  rewrite (K3 eq_refl) in L1. destruct (master_handle_set v t3) as (t4 & -> & E1 & E2 & E3 & E4). simpl.
  destruct (thread_started t4) as (t5 & F & F1 & F2 & F3); [by rewrite E4, L4, T2|].
  unfold mbind, M_bind in F. simpl in F. rewrite F. clear F. rewrite F1, F2, F3, E1, E2, E3, L1, L2, L3, C2, V2, V1, H2.
  unfold startup, wiring, n_ops. rewrite <- !app_assoc. split_and!; [done|done|done|done|left; set_solver].
Qed.

Lemma each_close_any a hs lg : ∃ r hs' k, closes hs' = closes hs ∧ k `prefix_of` closes hs ∧ (is_ok r = true → k = closes hs) ∧
  (Forall unstarted hs → Forall unstarted hs' ∧ k = []) ∧ each_handler (handler_close a) hs lg = (r, (hs', lg ++ k)).
Proof.
  destruct (each_close_calls a hs lg) as (r & hs' & k & E1 & E2 & E3 & E4). exists r, hs', k. split_and!; [done..| |done].
  intros Hu. destruct (each_close_unstarted a hs lg Hu) as (r' & hs'' & _ & Hu' & _ & E5). rewrite E4 in E5.
  injection E5 as -> -> Hk. split; [done|]. rewrite <- (app_nil_r lg) in Hk at 2. by apply app_inv_head in Hk.
Qed.

(** The calls of a close, whatever was started and whatever is answered. *)
Lemma task_close_calls a t : let '(r, t') := task_close a t in
  ∃ k, tk_calls t' = tk_calls t ++ k ∧ tk_vertex t' = tk_vertex t ∧ closes (_handlers (tk_loop t')) = closes (_handlers (tk_loop t)) ∧
    k `prefix_of` map CloseFunc (seq 0 (n_ops (tk_vertex t))) ++ closes (_handlers (tk_loop t)) ++ [CloseLoop; JoinThread] ∧
    (r = Ok () → k = map CloseFunc (seq 0 (n_ops (tk_vertex t))) ++ closes (_handlers (tk_loop t)) ++ [CloseLoop; JoinThread]) ∧
    (Forall unstarted (_handlers (tk_loop t)) → Forall unstarted (_handlers (tk_loop t')) ∧ ∀ n, CloseRust n ∉ k).
Proof.
  unfold task_close, mbind, M_bind, modS, getS. set (t0 := stop_running t). change (tk_vertex t0) with (tk_vertex t).
  change (length (operators_of (op_of (tk_vertex t)))) with (n_ops (tk_vertex t)).
  destruct (close_calls a (n_ops (tk_vertex t)) t0) as (k & K1 & (L1 & L2 & L3 & L4) & K3).
  destruct (close_operators a _ t0) as [[[]|e] t1]; cbn [fst snd] in *; cycle 1.
  { exists k. rewrite L1, L2, L3. split_and!; [done..|by apply prefix_app_r|done|]. intros Hu. split; [done|].
    intros n Hn. eapply prefix_elem in Hn; [|exact K1]. apply list_elem_of_fmap in Hn as (i & E & _). done. }
  specialize (K3 eq_refl). subst k.
  unfold on_loop at 1, loop_close, for_handlers, mbind, M_bind. cbn [fst snd].
  destruct (each_close_any a (_handlers (tk_loop t1)) (tk_calls t1)) as (r & hs' & k & C1 & C2 & C3 & C4 & ->).
  rewrite L3 in C1, C2, C3, C4. rewrite L1, L2.
  assert (∀ k', Forall unstarted (_handlers (tk_loop t)) → (∀ n, CloseRust n ∉ k') →
    Forall unstarted hs' ∧ ∀ n, CloseRust n ∉ map CloseFunc (seq 0 (n_ops (tk_vertex t))) ++ k ++ k') as Hno.
  { intros k' Hu Hk'. destruct (C4 Hu) as [Hu' ->]. split; [done|]. intros n [Hn|Hn]%elem_of_app; [|by apply (Hk' n)].
    by apply list_elem_of_fmap in Hn as (i & E & _). }
  destruct r as [[]|e]; simpl; cycle 1.
  { exists (map CloseFunc (seq 0 (n_ops (tk_vertex t))) ++ k). simpl. rewrite <- app_assoc. split_and!; [done..| |done|].
    - apply prefix_app. by apply prefix_app_r.
    - intros Hu. specialize (Hno [] Hu). rewrite app_nil_r in Hno. apply Hno. intros n Hn. by apply elem_of_nil in Hn. }
  specialize (C3 eq_refl). subst k. unfold on_thread. simpl. destruct (thread_join _ _) as [th|e]; simpl.
  - exists (map CloseFunc (seq 0 (n_ops (tk_vertex t))) ++ closes (_handlers (tk_loop t)) ++ [CloseLoop; JoinThread]). rewrite <- !app_assoc. simpl.
    split_and!; [done..|]. intros Hu. apply (Hno _ Hu). intros n Hn. set_solver.
  - exists (map CloseFunc (seq 0 (n_ops (tk_vertex t))) ++ closes (_handlers (tk_loop t)) ++ [CloseLoop]). rewrite <- !app_assoc. simpl.
    split_and!; [done..| |done|].
    + do 2 apply prefix_app. by apply prefix_cons, prefix_nil.
    + intros Hu. apply (Hno _ Hu). intros n Hn. set_solver.
Qed.
End task_lemmas.

(** ** Lemmas: workers *)

Section worker_lemmas.
Context `{HO : !IntSetOrder} (g : ExecutionGraph).

(** The calls a worker gets, with the answers of the environment. *)
Inductive worker_call :=
| Init (v : ExecutionVertex)
| Start (a : answers) (start : Z) (polls : list (Z * option ExecutionVertex))
| Close (a : answers).
Definition worker_step (w : JobWorker) (c : worker_call) : JobWorker :=
  match c with
  | Init v => init v w
  | Start a start polls => (start_or_rollback g a start polls w).2
  | Close a => (worker_close a w).2
  end.

(** The calls of a task: a start that may stop anywhere, then rounds of closing that may stop
    anywhere; no Rust handler is closed that was not started. *)
Definition orderly (t : stream_task) (up : calls) (rounds : list calls) : Prop :=
  tk_calls t = up ++ concat rounds ∧ up `prefix_of` startup g (tk_vertex t) ∧
  Forall (λ k, k `prefix_of` shutdown g (tk_vertex t)) rounds ∧
  ∀ n, CloseRust n ∈ concat rounds → StartRust n ∈ up.

Definition task_inv (t : stream_task) : Prop := ∃ up rounds, orderly t up rounds ∧
  closes (_handlers (tk_loop t)) = closes (task_handlers g (tk_vertex t)) ∧
  (starts (task_handlers g (tk_vertex t)) ⊆ up ∨
   Forall unstarted (_handlers (tk_loop t)) ∧ ∀ n, CloseRust n ∉ concat rounds).

Lemma started_task_inv a v c : task_inv (start_or_recover g a (new_stream_task v c)).2.
Proof.
  pose proof (start_calls g a v c) as Hs. destruct (start_or_recover g a _) as [r t']. destruct Hs as (V & C & Hcl & _ & Hor).
  simpl. exists (tk_calls t'), []. unfold orderly. rewrite V. simpl. rewrite app_nil_r.
  split; [split_and!; [done..|]; intros n Hn; by apply elem_of_nil in Hn|]. split; [done|].
  destruct Hor as [?|?]; [by left|right]. split; [done|]. intros n Hn. by apply elem_of_nil in Hn.
Qed.

Lemma close_task_inv a t : task_inv t → task_inv (task_close a t).2.
Proof.
  intros (up & rounds & (E1 & E2 & E3 & E4) & Hcl & Hor). pose proof (task_close_calls a t) as Hc.
  destruct (task_close a t) as [r t']. destruct Hc as (k & K1 & K2 & K3 & K4 & _ & K5). simpl.
  rewrite Hcl in K4. fold (shutdown g (tk_vertex t)) in K4.
  exists up, (rounds ++ [k]). unfold orderly. rewrite K1, K2, K3, E1, concat_app. simpl. rewrite app_nil_r.
  split_and!; [by rewrite app_assoc|done|by apply Forall_app; auto| |done|].
  - intros n [Hn|Hn]%elem_of_app; [by apply E4|]. destruct Hor as [Hs|[Hu _]]; [|by destruct (K5 Hu) as [_ Hno]; destruct (Hno n)].
    apply Hs. unfold starts. eapply prefix_elem in Hn; [|exact K4]. unfold shutdown in Hn.
    rewrite !elem_of_app in Hn. destruct Hn as [Hn|[Hn|Hn]].
    + by apply list_elem_of_fmap in Hn as (i & E & _).
    + apply list_elem_of_fmap in Hn as (h & [= ->] & Hh). by apply (list_elem_of_fmap_2 (λ h, StartRust (h_name h))).
    + set_solver.
  - destruct Hor as [?|[Hu Hno]]; [by left|right]. destruct (K5 Hu) as [? Hno']. split; [done|]. set_solver.
Qed.

Lemma on_current_inv {A} (m : M stream_task A) w : (∀ t, task_inv t → task_inv (m t).2) →
  Forall task_inv (w_tasks w) → Forall task_inv (w_tasks (on_current m w).2).
Proof.
  intros Hm Hw. unfold on_current. destruct (last (w_tasks w)) as [t|] eqn:El; [|done].
  apply last_Some in El as [l El]. rewrite El in *. apply Forall_app in Hw as [Hl Ht]. inv Ht as [|?? Ht' _].
  specialize (Hm t Ht'). destruct (m t) as [r t']. simpl. rewrite removelast_last. apply Forall_app. auto.
Qed.

Lemma start_worker_inv a s ps w : Forall task_inv (w_tasks w) → Forall task_inv (w_tasks (start_or_rollback g a s ps w).2).
Proof.
  intros Hw. unfold start_or_rollback, mbind, M_bind, getS, liftR, modS.
  destruct (match w_execution_vertex w with Some v => Ok v | None => await_vertex s ps end) as [v|e]; [|done].
  destruct (create_stream_task g v) as [c|e]; [|done]. simpl. unfold on_current. simpl. rewrite last_snoc, removelast_last.
  pose proof (started_task_inv a v c) as Ht. destruct (start_or_recover g a _) as [[[e|]|e] t']; simpl in *; apply Forall_app; auto.
Qed.

Lemma close_worker_tasks a w : w_tasks (worker_close a w).2 = w_tasks (on_current (task_close a) w).2.
Proof.
  unfold worker_close, mbind, M_bind, getS, liftR, modS. destruct (on_current (task_close a) w) as [[o|e] w']; [|done]. simpl.
  destruct (w_watcher w') as [th|]; simpl; [destruct (thread_join _ th)|]; simpl; [|done|]; by destruct (w_execution_vertex w').
Qed.

Lemma worker_step_inv w c : Forall task_inv (w_tasks w) → Forall task_inv (w_tasks (worker_step w c)).
Proof.
  destruct c as [v|a s ps|a]; simpl; intros Hw; [done|by apply start_worker_inv|].
  rewrite close_worker_tasks. apply on_current_inv; [|done]. intros t. apply close_task_inv.
Qed.

Lemma worker_run_inv cs : Forall task_inv (w_tasks (foldl worker_step new_JobWorker cs)).
Proof. induction cs as [|c cs IH] using rev_ind; [constructor|]. rewrite foldl_app. by apply worker_step_inv. Qed.

Lemma worker_close_complete a w w' t : Forall task_inv (w_tasks w) → worker_close a w = (Ok (), w') → last (w_tasks w) = Some t →
  ∃ t', last (w_tasks w') = Some t' ∧ tk_calls t' = tk_calls t ++ shutdown g (tk_vertex t).
Proof.
  intros Hw E El. pose proof (close_worker_tasks a w) as Et. rewrite E in Et. simpl in Et.
  assert (is_ok (on_current (task_close a) w).1 = true) as Hok.
  { unfold worker_close, mbind, M_bind in E. destruct (on_current (task_close a) w) as [[o|e] w1]; [done|]. by injection E. }
  unfold on_current in Et, Hok. rewrite El in Et, Hok. pose proof (task_close_calls a t) as Hc.
  destruct (task_close a t) as [[[]|e] t'] eqn:Ec; [|done]. destruct Hc as (k & K1 & _ & _ & _ & K4 & _).
  exists t'. rewrite Et. simpl. split; [apply last_snoc|]. rewrite K1, (K4 eq_refl). unfold shutdown. f_equal. f_equal.
  rewrite Forall_forall in Hw. destruct (Hw t) as (_ & _ & _ & -> & _); [|done].
  apply last_Some in El as [l ->]. set_solver.
Qed.

(** A worker after a start with the answer [err] of [connect], and after its close. *)
Definition worker_up v (c : StreamTask) (cs : list OutputCollector) (err : option string) : JobWorker :=
  mkJobWorker (Some v) [after_start g v c cs err] (match err with None => Some Alive | Some _ => None end) true.
Definition worker_down v (c : StreamTask) (cs : list OutputCollector) : JobWorker :=
  mkJobWorker (Some v) [after_close g v c cs None] (Some Ended) false.

Lemma worker_start_ok a s ps v c cs : answers_ok a → startable g v c cs →
  start_or_rollback g a s ps (init v new_JobWorker) = (Ok (a_connect a), worker_up v c cs (a_connect a)).
Proof.
  intros Ha Hs. unfold start_or_rollback, mbind, M_bind, getS, liftR, modS. simpl. rewrite (sa_class _ _ _ _ Hs). simpl.
  unfold on_current. simpl. rewrite (start_task_ok g a v c cs) by done. simpl. by destruct (a_connect a).
Qed.

Lemma worker_close_ok a v c cs : answers_ok a → worker_close a (worker_up v c cs None) = (Ok (), worker_down v c cs).
Proof.
  intros Ha. unfold worker_close, mbind, M_bind, getS, liftR, modS, on_current. simpl. rewrite task_close_ok by done. simpl.
  by rewrite (ao_in_time _ Ha).
Qed.

Lemma worker_close_failed a v c cs e : answers_ok a →
  worker_close a (worker_up v c cs (Some e)) =
  (Raise (RuntimeError "cannot join thread before it is started"),
   mkJobWorker (Some v) [after_close g v c cs (Some e)] None true).
Proof. intros Ha. unfold worker_close, mbind, M_bind, on_current. simpl. by rewrite task_close_ok. Qed.
End worker_lemmas.

(** ** Lemmas: the job *)

Section job_lemmas.
Context `{HO : !IntSetOrder} (g : ExecutionGraph) (ts : dict string TransferActor).

Definition transfer_handlers (t : TransferActor) : list IOHandler :=
  (match t_sender t with Some _ => [new_handler (t_name t +:+ "-sender") TransferSender] | None => [] end) ++
  (match t_receiver t with Some _ => [new_handler (t_name t +:+ "-receiver") TransferReceiver] | None => [] end).

Lemma transfer_init_ok t : (transfer_init t (new_IOLoop, [])).2 =
  (mkIOLoop (transfer_handlers t), registrations (transfer_handlers t)).
Proof. unfold transfer_init, transfer_handlers. by destruct (t_sender t), (t_receiver t). Qed.

(** A transfer actor after [start]. *)
Definition transfer_up (t : TransferActor) (err : option string) : IOLoop * calls :=
  (mkIOLoop (map started (transfer_handlers t)),
   registrations (transfer_handlers t) ++ starts (transfer_handlers t) ++
   Connect 1 5000 :: match err with Some _ => [] | None => [StartLoop] end).

Lemma transfer_start_ok a t : transfer_start a (transfer_init t (new_IOLoop, [])).2 = (Ok (a_connect a), transfer_up t (a_connect a)).
Proof.
  rewrite transfer_init_ok. unfold transfer_start. rewrite connect_fresh; [done|].
  unfold transfer_handlers. destruct (t_sender t), (t_receiver t); by repeat constructor.
Qed.

Lemma ray_get_map {A B} (f : A → string) (h : A → B) l : ray_get (map (λ x, (f x, Ok (h x))) l) = Ok (map (λ x, (f x, h x)) l).
Proof. unfold ray_get. rewrite mapR_map. by apply mapR_ok. Qed.

Lemma dget_map_keys {A B} (f : string → B) (d : dict string A) n : n ∈ dkeys d → dget (map (λ kv, (kv.1, f kv.1)) d) n = Some (f n).
Proof.
  induction d as [|[k x] d IH]; simpl; [set_solver|]. intros Hn. unfold dget in *. simpl. destruct (decide (n = k)) as [->|Hne]; [done|].
  apply IH. set_solver.
Qed.

(** Everything can be made, and nothing but [connect] fails. *)
Record launchable (at_ aw : string → answers) (cls : string → StreamTask) (col : string → list OutputCollector) : Prop := {
  la_start : ∀ id v, (id, v) ∈ execution_vertices_by_id g → startable g v (cls id) (col id);
  la_transfers : ∀ n, answers_ok (at_ n);
  la_workers : ∀ n, answers_ok (aw n);
}.

Definition workers_up (aw : string → answers) (cls : string → StreamTask) (col : string → list OutputCollector) : dict string JobWorker :=
  map (λ kv, (kv.1, worker_up g kv.2 (cls kv.1) (col kv.1) (a_connect (aw kv.1)))) (execution_vertices_by_id g).
Definition transfers_up (at_ : string → answers) : dict string (string * (IOLoop * calls)) :=
  map (λ kv, (kv.1, (t_name kv.2, transfer_up kv.2 (a_connect (at_ kv.1))))) ts.

Lemma start_workers_ext f f' h h' : (∀ n, n ∈ dkeys ts → f n = f' n) → (∀ v, v ∈ dkeys (execution_vertices_by_id g) → h v = h' v) →
  start_workers ts g f h = start_workers ts g f' h'.
Proof.
  intros Hf Hh. unfold start_workers, report_errors.
  assert (map (λ kv : string * TransferActor, (t_name kv.2, f kv.1)) ts = map (λ kv : string * TransferActor, (t_name kv.2, f' kv.1)) ts) as ->.
  { apply map_ext_in. intros [n t] Hin%list_elem_of_In. simpl. f_equal. apply Hf. by apply (list_elem_of_fmap_2 fst) in Hin. }
  assert (map (λ id, (id, h id)) (dkeys (execution_vertices_by_id g)) = map (λ id, (id, h' id)) (dkeys (execution_vertices_by_id g))) as ->;
    [|done]. apply map_ext_in. intros v Hin%list_elem_of_In. by rewrite Hh.
Qed.

Lemma start_all_ok at_ aw cls col : launchable at_ aw cls col →
  start_all g ts at_ aw (new_deployment g ts) =
  (start_workers ts g (λ n, a_connect (at_ n)) (λ v, a_connect (aw v)),
   mkDeployment true false NotStarted (workers_up aw cls col) (transfers_up at_) []).
Proof.
  intros [Hs Hat Haw].
  assert (∀ kv, kv ∈ execution_vertices_by_id g → start_or_rollback g (aw kv.1) 0 [] (init kv.2 new_JobWorker) =
    (Ok (a_connect (aw kv.1)), worker_up g kv.2 (cls kv.1) (col kv.1) (a_connect (aw kv.1)))) as Hw.
  { intros [id v] Hin. apply worker_start_ok; [apply Haw|by apply Hs]. }
  unfold start_all, new_deployment. cbn [d_transfers d_workers set_workers set_transfers d_running d_stats_running d_stats_thread d_exited].
  rewrite !map_map. cbn [fst snd].
  rewrite (map_ext_in (λ x, (x.1, (start_or_rollback g (aw x.1) 0 [] (init x.2 new_JobWorker)).1))
    (λ x, (x.1, Ok (a_connect (aw x.1)))) (execution_vertices_by_id g)) by (intros x Hx%list_elem_of_In; by rewrite Hw).
  rewrite (map_ext_in (λ x, (x.1, (start_or_rollback g (aw x.1) 0 [] (init x.2 new_JobWorker)).2))
    (λ x, (x.1, worker_up g x.2 (cls x.1) (col x.1) (a_connect (aw x.1)))) (execution_vertices_by_id g)) by (intros x Hx%list_elem_of_In; by rewrite Hw).
  rewrite (map_ext_in (λ x : string * TransferActor, (x.1, (transfer_start (at_ x.1) (transfer_init x.2 (new_IOLoop, [])).2).1))
    (λ x, (x.1, Ok (a_connect (at_ x.1)))) ts) by (intros x _; by rewrite transfer_start_ok).
  rewrite (map_ext_in (λ x : string * TransferActor, (x.1, (t_name x.2, (transfer_start (at_ x.1) (transfer_init x.2 (new_IOLoop, [])).2).2)))
    (λ x, (x.1, (t_name x.2, transfer_up x.2 (a_connect (at_ x.1))))) ts) by (intros x _; by rewrite transfer_start_ok).
  rewrite !ray_get_map. cbn [mbind res_bind]. f_equal. apply start_workers_ext; intros n Hn.
  - by rewrite (dget_map_keys (λ n, a_connect (at_ n))).
  - by rewrite (dget_map_keys (λ n, a_connect (aw n))).
Qed.

Lemma start_workers_none f h : (∀ n, n ∈ dkeys ts → f n = None) → (∀ v, v ∈ dkeys (execution_vertices_by_id g) → h v = None) →
  start_workers ts g f h = Ok ().
Proof.
  intros Hf Hh. rewrite (start_workers_ext f (λ _, None) h (λ _, None)) by done. unfold start_workers, report_errors. rewrite omap_app.
  assert (∀ A (nm : A → string) (l : list A), omap (λ ne : string * option string, (λ err, (ne.1, err)) <$> ne.2)
    (map (λ x, (nm x, None)) l) = []) as Hn by (intros A nm l; induction l; simpl; auto).
  by rewrite !Hn.
Qed.

Lemma start_workers_some f h : (∃ n, n ∈ dkeys ts ∧ f n ≠ None) ∨ (∃ v, v ∈ dkeys (execution_vertices_by_id g) ∧ h v ≠ None) →
  ∃ msg, start_workers ts g f h = Raise (RuntimeError msg).
Proof.
  intros Hex. unfold start_workers, report_errors. set (l := map _ ts ++ map _ _).
  assert (∃ x, x ∈ omap (λ ne : string * option string, (λ err, (ne.1, err)) <$> ne.2) l) as [x Hx].
  { destruct Hex as [(n & Hn & Hs)|(v & Hv & Hs)].
    - apply list_elem_of_fmap in Hn as ([n' t] & -> & Hn). destruct (f n') as [e|] eqn:E; [|done]. exists (t_name t, e).
      apply list_elem_of_omap. exists (t_name t, f n'). split; [|simpl; by rewrite E]. apply elem_of_app. left.
      by apply (list_elem_of_fmap_2 (λ kv : string * TransferActor, (t_name kv.2, f kv.1)) ts (n', t)).
    - destruct (h v) as [e|] eqn:E; [|done]. exists (v, e). apply list_elem_of_omap. exists (v, h v). split; [|simpl; by rewrite E].
      apply elem_of_app. right. by apply (list_elem_of_fmap_2 (λ id, (id, h id))). }
  destruct (omap _ l) as [|y ys]; [by apply elem_of_nil in Hx|]. eauto.
Qed.
End job_lemmas.

(** ** Properties *)

(** C21. The protocol of the Rust objects.  Whatever sequence of calls a worker gets ([init],
    [start_or_rollback], [close], in any order and number) and whatever the Rust loop, the
    flushes and user code answer, the calls of each of its tasks are a start, cut off anywhere,
    followed by rounds of closing, each cut off anywhere: every handler is registered before any
    is started, all are started before the loop connects, the loop starts before user code is
    opened, and no Rust handler is closed that was not started.  This last point is about the
    handlers only: after a start that failed to connect, closing the task also closes its functions
    and the loop, which were never opened or started.  And a [close] that returns has closed
    everything of the current task: the functions, every handler, the loop and the thread. *)
Theorem worker_protocol `{!IntSetOrder} (g : ExecutionGraph) (cs : list worker_call) (a : answers) :
  let w := foldl (worker_step g) new_JobWorker cs in
  (∀ t, t ∈ w_tasks w → ∃ up rounds, orderly g t up rounds) ∧
  (∀ w' t, worker_close a w = (Ok (), w') → last (w_tasks w) = Some t →
     ∃ t', last (w_tasks w') = Some t' ∧ tk_calls t' = tk_calls t ++ shutdown g (tk_vertex t)).
Proof.
  intros w. pose proof (worker_run_inv g cs : Forall (task_inv g) (w_tasks w)) as Hw. split.
  - intros t Ht. rewrite Forall_forall in Hw. destruct (Hw t Ht) as (up & rounds & Ho & _). eauto.
  - intros w' t. by apply worker_close_complete.
Qed.

(** C22. A whole life, when nothing fails: the tasks can be made, the transfer actors and workers connect, and
    while the job is taken down every thread ends before its join times out and no flush, metrics call or
    close of a function raises.  Then the job is launched and destroyed without an exception.  Every
    worker then had exactly one task, whose functions, handlers, Rust loop and threads were each
    started once and closed once, in order, with nothing left running, and every worker was told
    to exit.  The transfer actors are still running: [destroy] does not close them. *)
Theorem job_lifecycle `{!IntSetOrder} (g : ExecutionGraph) (ts : dict string TransferActor) (at_ aw ac : string → answers)
    (cls : string → StreamTask) (col : string → list OutputCollector) :
  launchable g at_ aw cls col → (∀ n, a_connect (at_ n) = None) → (∀ n, a_connect (aw n) = None) → (∀ n, answers_ok (ac n)) →
  ∃ d, execute g ts at_ aw ac true true (Ok ()) (new_deployment g ts) = (Ok (), d) ∧
    d_running d = false ∧ d_stats_thread d = Ended ∧ d_exited d = dkeys (execution_vertices_by_id g) ∧
    (∀ id v, (id, v) ∈ execution_vertices_by_id g → ∃ w t, (id, w) ∈ d_workers d ∧ w_tasks w = [t] ∧ w_running w = false ∧
       w_watcher w = Some Ended ∧ tk_calls t = startup g v ++ shutdown g v ∧ tk_running t = false ∧ tk_thread t = Ended ∧
       _handlers (tk_loop t) = map stopped (task_handlers g v)) ∧
    (∀ n t, (n, t) ∈ ts → (n, (t_name t, (mkIOLoop (map started (transfer_handlers t)),
       registrations (transfer_handlers t) ++ starts (transfer_handlers t) ++ [Connect 1 5000; StartLoop]))) ∈ d_transfers d).
Proof.
  intros Hl Hct Hcw Hac. eexists. split.
  { unfold execute, launch, mbind, M_bind. rewrite (start_all_ok g ts _ _ _ _ Hl), start_workers_none by done.
    unfold stats_start, destroy, stats_stop, modS, mbind, M_bind. simpl. reflexivity. }
  simpl. split_and!; [done..| | |].
  - unfold workers_up, dkeys. by rewrite map_map.
  - intros id v Hin.
    exists (worker_down g v (cls id) (col id)), (after_close g v (cls id) (col id) None). simpl.
    split; [|by split_and!]. unfold workers_up. rewrite map_map. apply list_elem_of_fmap. exists (id, v). split; [|done]. simpl.
    by rewrite Hcw, worker_close_ok.
  - intros n t Hin. unfold transfers_up. apply list_elem_of_fmap. exists (n, t). split; [|done]. simpl. by rewrite Hct.
Qed.

(** C36. A failed launch.  If some worker or transfer actor cannot connect, the launch raises; the stats thread was never
    started, so [destroy] raises too, before it reaches the workers: none is closed or told to
    exit, and every handler of every worker keeps running.  Closing such a worker by hand does
    close its handlers and its loop, but raises as well and leaves the worker marked as running. *)
Theorem failed_launch_leaks `{!IntSetOrder} (g : ExecutionGraph) (ts : dict string TransferActor) (at_ aw ac : string → answers)
    (cls : string → StreamTask) (col : string → list OutputCollector) in_time collect :
  launchable g at_ aw cls col → (∀ n, answers_ok (ac n)) →
  (∃ n, n ∈ dkeys ts ∧ a_connect (at_ n) ≠ None) ∨ (∃ v, v ∈ dkeys (execution_vertices_by_id g) ∧ a_connect (aw v) ≠ None) →
  ∃ msg d d', launch g ts at_ aw (new_deployment g ts) = (Raise (RuntimeError msg), d) ∧
    destroy ac in_time collect d = (Raise (RuntimeError "cannot join thread before it is started"), d') ∧
    d_workers d' = d_workers d ∧ d_exited d' = [] ∧
    ∀ id v, (id, v) ∈ execution_vertices_by_id g → ∃ w t, (id, w) ∈ d_workers d' ∧ w_tasks w = [t] ∧
      _handlers (tk_loop t) = map started (task_handlers g v) ∧
      (a_connect (aw id) ≠ None → ∃ w' t', worker_close (ac id) w = (Raise (RuntimeError "cannot join thread before it is started"), w') ∧
         w_tasks w' = [t'] ∧ w_running w' = true ∧ _handlers (tk_loop t') = map stopped (task_handlers g v) ∧ last (tk_calls t') = Some CloseLoop).
Proof.
  intros Hl Hac Hex. destruct (start_workers_some g ts (λ n, a_connect (at_ n)) (λ v, a_connect (aw v)) Hex) as [msg Em].
  eexists msg, _, _. split_and!.
  { unfold launch, mbind, M_bind. rewrite (start_all_ok g ts _ _ _ _ Hl), Em. reflexivity. }
  { reflexivity. }
  { reflexivity. } { reflexivity. }
  intros id v Hin. simpl. exists (worker_up g v (cls id) (col id) (a_connect (aw id))), (after_start g v (cls id) (col id) (a_connect (aw id))).
  split_and!; [|done|done|].
  - unfold workers_up. apply list_elem_of_fmap. by exists (id, v).
  - destruct (a_connect (aw id)) as [e|]; [|done]. intros _.
    eexists _, (after_close g v (cls id) (col id) (Some e)). rewrite worker_close_failed by done. split_and!; [done..|]. simpl.
    by rewrite !app_assoc, last_snoc.
Qed.

(** ** Witnesses *)

Definition ex_answers (err : option string) : answers :=
  mkAnswers err true (λ _, Ok ()) (λ _, Ok ()) (λ _, Ok ()) (λ _, Ok ()).
Local Instance ex_order : IntSetOrder := order_first 1.

Definition ex_transfer : TransferActor := mkTransfer "transfer-10.0.0.1" (Some []) None.
Definition ex_class (id : string) : StreamTask :=
  if decide (id = "3_0") then TwoInputStreamTask "1" "2" else SourceStreamTask.
Definition ex_cols (id : string) : list OutputCollector :=
  if decide (id = "3_0") then [] else [mkCollector [id +:+ "-3_0"] PKey].

Lemma ex_launchable errt errw : launchable ex_join_graph (λ n, ex_answers (errt n)) (λ n, ex_answers (errw n)) ex_class ex_cols.
Proof.
  split; [|done..]. intros id v Hin. change (execution_vertices_by_id ex_join_graph) with
    [("1_0", mkEV (mkVertex 1 1 VSOURCE (Plain "SourceOperator" SOURCE)) 0 None);
     ("2_0", mkEV (mkVertex 2 1 VSOURCE (Plain "SourceOperator" SOURCE)) 0 None); ("3_0", ex_join_vertex)] in Hin.
  rewrite !elem_of_cons in Hin. destruct Hin as [[= -> ->]|[[= -> ->]|[[= -> ->]|Hin]]]; [..|by apply elem_of_nil in Hin];
    split; vm_compute; first [reflexivity|constructor].
Qed.

Lemma worker_protocol_witness :
  let w := foldl (worker_step ex_join_graph) new_JobWorker
    [Init ex_join_vertex; Start (ex_answers (Some "timeout")) 0 []; Close (ex_answers None); Start (ex_answers None) 0 []] in
  length (w_tasks w) = 2 ∧ ∃ w' t', worker_close (ex_answers None) w = (Ok (), w') ∧ last (w_tasks w') = Some t' ∧
    tk_calls t' = [Register RustDataReader "data-reader-3_0"; StartRust "data-reader-3_0"; Connect 1 5000; StartLoop;
      OpenFunc 0; StartThread; CloseFunc 0; CloseRust "data-reader-3_0"; CloseLoop; JoinThread].
Proof.
  destruct (worker_protocol ex_join_graph
    [Init ex_join_vertex; Start (ex_answers (Some "timeout")) 0 []; Close (ex_answers None); Start (ex_answers None) 0 []]
    (ex_answers None)) as [_ Hc]. cbv zeta in *.
  split; [vm_compute; reflexivity|]. edestruct Hc as (t' & El & Et); [vm_compute; reflexivity..|].
  eexists _, t'. split; [vm_compute; reflexivity|]. split; [exact El|]. rewrite Et. vm_compute. reflexivity.
Defined.

Lemma job_lifecycle_witness : ∃ d,
  execute ex_join_graph [("n0", ex_transfer)] (λ _, ex_answers None) (λ _, ex_answers None) (λ _, ex_answers None) true true (Ok ())
    (new_deployment ex_join_graph [("n0", ex_transfer)]) = (Ok (), d) ∧ d_exited d = ["1_0"; "2_0"; "3_0"] ∧
  ∃ l, ("n0", ("transfer-10.0.0.1", l)) ∈ d_transfers d ∧ CloseLoop ∉ l.2.
Proof.
  destruct (job_lifecycle ex_join_graph [("n0", ex_transfer)] _ _ (λ _, ex_answers None) ex_class ex_cols
    (ex_launchable (λ _, None) (λ _, None)) ltac:(done) ltac:(done) ltac:(done)) as (d & E & _ & _ & Hex & _ & Ht).
  exists d. split; [exact E|]. split; [rewrite Hex; vm_compute; reflexivity|].
  eexists. split; [apply (Ht "n0" ex_transfer); left|]. simpl. intros Hin.
  repeat (apply elem_of_cons in Hin as [Hin|Hin]; [discriminate Hin|]). by apply elem_of_nil in Hin.
Defined.

Lemma failed_launch_leaks_witness :
  let refused n := if decide (n = "2_0") then Some "refused" else None in
  ∃ msg d d', launch ex_join_graph [] (λ _, ex_answers None) (λ n, ex_answers (refused n)) (new_deployment ex_join_graph [])
      = (Raise (RuntimeError msg), d) ∧
    destroy (λ _, ex_answers None) true (Ok ()) d = (Raise (RuntimeError "cannot join thread before it is started"), d') ∧ d_exited d' = [].
Proof.
  intros refused. destruct (failed_launch_leaks ex_join_graph [] _ _ (λ _, ex_answers None) ex_class ex_cols true (Ok ())
    (ex_launchable (λ _, None) refused)) as (msg & d & d' & E1 & E2 & _ & E3 & _).
  - done.
  - right. exists "2_0". split; [vm_compute; right; left|done].
  - exists msg, d, d'. split; [exact E1|]. split; [exact E2|exact E3].
Defined.
