(* ===== verification/Schema.v ===== *)
(** * Datasets, their schemas and the event functions of the operators
    ([volga/api/dataset/schema.py], [volga/api/dataset/dataset.py],
     [volga/api/dataset/operators.py])

    A dataset class gives a list of annotated fields; [Dataset.__init__] checks
    them and picks the timestamp.  Operator nodes derive schemas from those of
    their parents, and the functions they hand to the streams turn events
    (dictionaries) into events.  Python types are the elements of a type [T];
    [datetime] is one of them. *)

From S2P Require Import Prelude PyDict.

(** ** Schemas *)

Section schema.
Context {T : Type} (datetime : T).

Record Schema := mkSchema { keys : dict string T; values : dict string T; timestamp : string }.

Definition to_dict (s : Schema) : dict string T :=
  dset (dmerge (dmerge [] (keys s)) (values s)) (timestamp s) datetime.

Definition fields (s : Schema) : list string := dkeys (keys s) ++ dkeys (values s) ++ [timestamp s].

Definition get_type (s : Schema) (field : string) : res T :=
  match dget (keys s) field with
  | Some t => Ok t
  | None =>
      match dget (values s) field with
      | Some t => Ok t
      | None => if decide (field = timestamp s) then Ok datetime else Raise (ValueError "Field not found")
      end
  end.

(** ** Datasets *)

Context (is_optional is_datetime : T → bool).

Record Field := mkField { f_name : string; f_key : bool; f_timestamp : bool; f_dtype : T }.

(** An annotated class attribute: its name, its type, and the flags of [field(...)] if it has one. *)
Record annotation := mkAnn { a_name : string; a_dtype : T; a_flags : option (bool * bool) }.

Fixpoint has_period (s : string) : bool :=
  match s with
  | EmptyString => false
  | String c s' => bool_decide (c = Ascii.ascii_of_nat 46) || has_period s'
  end.

(** The attribute's own [Field], named, or a fresh one. *)
Definition field_of (a : annotation) : Field :=
  match a_flags a with
  | Some (k, ts) => mkField (a_name a) k ts (a_dtype a)
  | None => mkField (a_name a) false false (a_dtype a)
  end.

Definition get_field (a : annotation) : res Field :=
  if has_period (a_name a) then Raise (ValueError "Field name cannot contain a period.") else
  let f := field_of a in
  if f_key f && is_optional (f_dtype f) then Raise (ValueError "Key cannot be Optional.") else Ok f.

Definition RESERVED_FIELD_NAMES : list string :=
  ["cls"; "self"; "fields"; "key_fields"; "on_demand"; "timestamp_field"; "fqn"].

(** [_validate_field_names]: a duplicate stops the loop, reserved names are reported at its end. *)
Fixpoint validate_names (names : list string) (fs : list Field) (reserved : bool) : res () :=
  match fs with
  | [] => if reserved then Raise (Exception "Field name is reserved") else Ok ()
  | f :: fs' =>
      if decide (f_name f ∈ names) then Raise (Exception "Duplicate field name")
      else validate_names (f_name f :: names) fs' (reserved || bool_decide (f_name f ∈ RESERVED_FIELD_NAMES))
  end.
Definition _validate_field_names (fs : list Field) : res () := validate_names [] fs false.

(** The loops of [_set_timestamp_field]: the only field that satisfies [p]. *)
Fixpoint only_field (p : Field → bool) (found : option string) (fs : list Field) : res (option string) :=
  match fs with
  | [] => Ok found
  | f :: fs' =>
      if p f then
        match found with
        | Some _ => Raise (ValueError "multiple timestamp fields are not supported")
        | None => only_field p (Some (f_name f)) fs'
        end
      else only_field p found fs'
  end.

(** [field.timestamp = True] on the field of type [datetime]. *)
Definition flag_datetime (f : Field) : Field :=
  if is_datetime (f_dtype f) then mkField (f_name f) (f_key f) true (f_dtype f) else f.

Definition _set_timestamp_field (fs : list Field) : res (list Field * string) :=
  flagged ← only_field f_timestamp None fs;
  match flagged with
  | Some n => Ok (fs, n)
  | None =>
      found ← only_field (λ f, is_datetime (f_dtype f)) None fs;
      n ← from_option_exn (ValueError "no timestamp field found") found;
      Ok (map flag_datetime fs, n)
  end.

Definition _set_key_fields (fs : list Field) : list string := map f_name (filter (λ f, f_key f = true) fs).

Record Dataset := mkDataset { _fields : list Field; _timestamp_field : string; _key_fields : list string }.

(** The data [Dataset.__init__] computes; the object itself, whose attributes the fields are stored
    under, is in [Declarations]. *)
Definition dataset_data (anns : list annotation) : res Dataset :=
  fs ← mapR get_field anns;
  _ ← _validate_field_names fs;
  fs_ts ← _set_timestamp_field fs;
  Ok (mkDataset fs_ts.1 fs_ts.2 (_set_key_fields fs_ts.1)).

Definition dataset_schema (d : Dataset) : Schema :=
  mkSchema
    (dict_of (map (λ f, (f_name f, f_dtype f)) (filter (λ f, f_key f = true) (_fields d))))
    (dict_of (map (λ f, (f_name f, f_dtype f))
       (filter (λ f, f_key f = false ∧ f_name f ≠ _timestamp_field d) (_fields d))))
    (_timestamp_field d).

(** ** Schemas of operator nodes *)

Inductive node :=
| NDataset (d : Dataset)
| NTransform (parent : node) (new_schema_dict : option (dict string T))
| NFilter (parent : node)
| NGroupBy (parent : node) (group_keys : list string)
| NJoin (left right : node) (on left_on right_on : option (list string))
| NOther (parent : node).                       (* [Assign], [Aggregate], [Rename], [Drop], [DropNull] *)

(** [Transform.schema] *)
Definition transform_schema (input_schema : Schema) (new_schema_dict : option (dict string T)) : Schema :=
  match new_schema_dict with
  | None => input_schema
  | Some d =>
      mkSchema (keys input_schema)
        (dict_of (filter (λ ft : string * T, ¬ (dmem ft.1 (keys input_schema) = true ∨ ft.1 = timestamp input_schema)) d))
        (timestamp input_schema)
  end.

Definition _prefix_duplicate_field (field : string) (is_left : bool) : string :=
  if is_left then "left_" +:+ field else "right_" +:+ field.

(** A step of the loops of [_joined_schema] over the fields of one side. *)
Definition join_field_schema (is_left : bool) (ts : string) (jkeys : dict string T) (same : string → bool)
    (lookup : string → res T) (acc : dict string T) (f : string) : res (dict string T) :=
  if bool_decide (f = ts) || dmem f jkeys then Ok acc else
  let new_f := if same f then _prefix_duplicate_field f is_left else f in
  if dmem new_f acc then Raise (RuntimeError "Duplicate entry for field") else
  t ← lookup f;
  Ok (dset acc new_f t).

Definition left_lookup (ls : Schema) (f : string) : res T :=
  match dget (values ls) f with
  | Some t => Ok t
  | None => from_option_exn (ValueError "Unable to locate field in left side of a join") (dget (keys ls) f)
  end.
Definition right_lookup (rs : Schema) (f : string) : res T :=
  match dget (values rs) f with
  | Some t => Ok t
  | None =>
      match dget (keys rs) f with
      | Some t => Ok t
      | None => if decide (f = timestamp rs) then Ok datetime
                else Raise (ValueError "Unable to locate field in left side of a join")
      end
  end.

Definition same_field (ls rs : Schema) (f : string) : bool := bool_decide (f ∈ fields ls) && bool_decide (f ∈ fields rs).

Definition _joined_schema (ls rs : Schema) (on left_on : option (list string)) : res Schema :=
  ks ← from_option_exn TypeError (match on with Some o => Some o | None => left_on end);
  kts ← mapR (λ k, t ← dgetitem (keys ls) k; Ok (k, t)) ks;
  let jkeys := dict_of kts in
  vs ← foldR (join_field_schema true (timestamp ls) jkeys (same_field ls rs) (left_lookup ls)) [] (fields ls);
  vs ← foldR (join_field_schema false (timestamp ls) jkeys (same_field ls rs) (right_lookup rs)) vs (fields rs);
  Ok (mkSchema jkeys vs (timestamp ls)).

Fixpoint node_schema (n : node) : res Schema :=
  match n with
  | NDataset d => Ok (dataset_schema d)
  | NTransform p d => s ← node_schema p; Ok (transform_schema s d)
  | NFilter p | NGroupBy p _ => node_schema p
  | NJoin l r on left_on _ => ls ← node_schema l; rs ← node_schema r; _joined_schema ls rs on left_on
  | NOther _ => Raise NotImplementedError
  end.

(** [OperatorNode.join] and [Join.__init__]: the checks of the arguments; the schemas of both sides
    are computed here already. *)
Definition not_single (l : option (list string)) : bool :=
  match l with Some l => negb (bool_decide (length l = 1)) | None => false end.
Definition isSome {A} (o : option A) : bool := match o with Some _ => true | None => false end.

Definition join_node (l r : node) (on left_on right_on : option (list string)) : res node :=
  if negb (isSome on) && (negb (isSome left_on) || negb (isSome right_on)) then
    Raise (ValueError "Join should provide either on or both left_on and right_on")
  else if not_single on || not_single left_on || not_single right_on then
    Raise (ValueError "Currently, Join expects exactly 1 key field")
  else if xorb (isSome left_on) (isSome right_on) then
    Raise (ValueError "Join expects both left_on and right_on")
  else
    _ ← node_schema l; _ ← node_schema r;
    Ok (NJoin l r on left_on right_on).

(** [GroupBy.__init__] *)
Definition group_by (p : node) (ks : list string) : res node :=
  if decide (length ks = 1) then Ok (NGroupBy p ks)
  else Raise (ValueError "Currently GroupBy expects exactly 1 key field").

(** [OperatorNode.select]: everything but the selected columns and the timestamp is dropped. *)
Definition select (n : node) (columns : list string) : res node :=
  s ← node_schema n;
  let drop_cols := filter (λ c, (c ∉ columns) ∧ c ≠ timestamp s) (fields s) in
  if decide (drop_cols = []) then Ok n else Ok (NOther n).

(** ** Lemmas *)

Lemma only_field_spec p found fs :
  only_field p found fs =
    match option_list found ++ map f_name (filter (λ f, p f = true) fs) with
    | [] => Ok None
    | [n] => Ok (Some n)
    | _ => Raise (ValueError "multiple timestamp fields are not supported")
    end.
Proof.
  revert found. induction fs as [|f fs IH]; intros found.
  - cbn. by destruct found.
  - cbn [only_field]. rewrite filter_cons. destruct (p f) eqn:E.
    + rewrite decide_True by done. destruct found as [n|]; cbn [option_list map app]; [done|].
      rewrite IH. done.
    + rewrite decide_False by done. apply IH.
Qed.

Lemma validate_names_ok names fs reserved :
  validate_names names fs reserved = Ok () ↔
  NoDup (map f_name fs) ∧ (∀ n, n ∈ map f_name fs → (n ∉ names) ∧ (n ∉ RESERVED_FIELD_NAMES)) ∧ reserved = false.
Proof.
  revert names reserved. induction fs as [|f fs IH]; intros names reserved; cbn [validate_names map].
  - destruct reserved; split; [done|by intros (_ & _ & ?)| |done].
    intros _. split_and!; [constructor|set_solver|done].
  - case_decide as Hd; [split; [done|]; intros (_ & Hn & _); destruct (Hn (f_name f)); [by left|done]|].
    rewrite IH, orb_false_iff, bool_decide_eq_false, NoDup_cons. split.
    + intros (Hnd & Hn & -> & Hr). split_and!; [|done| |done].
      * intros Hin. destruct (Hn _ Hin) as [Hne _]. apply Hne. by left.
      * intros n [->|Hin]%elem_of_cons; [done|]. destruct (Hn n Hin) as [Hne ?].
        by apply not_elem_of_cons in Hne as [_ ?].
    + intros ([Hf Hnd] & Hn & ->). destruct (Hn (f_name f)) as [_ Hr]; [by left|].
      split_and!; [done| |done|done]. intros n Hin. destruct (Hn n) as [??]; [by right|].
      split; [|done]. apply not_elem_of_cons. split; [congruence|done].
Qed.

Lemma get_field_ok a f :
  get_field a = Ok f ↔
  f = field_of a ∧ has_period (a_name a) = false ∧ f_key (field_of a) && is_optional (a_dtype a) = false.
Proof using is_optional.
  assert (f_dtype (field_of a) = a_dtype a) as Ht by (unfold field_of; by destruct (a_flags a) as [[]|]).
  unfold get_field. rewrite Ht. clear datetime is_datetime. destruct (has_period _), (_ && _); naive_solver.
Qed.

Lemma mapR_Ok_iff {A B} (f : A → res B) (g : A → B) (P : A → Prop) l l' :
  (∀ a b, f a = Ok b ↔ b = g a ∧ P a) →
  mapR f l = Ok l' ↔ l' = map g l ∧ Forall P l.
Proof.
  clear datetime is_optional is_datetime. intros Hf. revert l'. induction l as [|a l IH]; intros l'; simpl.
  - rewrite Forall_nil. naive_solver.
  - rewrite Forall_cons. destruct (f a) as [b|e] eqn:Ef; simpl.
    + apply Hf in Ef as [-> Ha]. destruct (mapR f l) as [bs|]; simpl.
      * destruct (IH bs) as [[-> ?] _]; [done|]. naive_solver.
      * split; [done|]. intros (-> & _ & Hl). discriminate (proj2 (IH (map g l)) (conj eq_refl Hl)).
    + split; [done|]. intros (-> & Ha & _). exfalso. assert (f a = Ok (g a)) by (by apply Hf). congruence.
Qed.

(** A field may be declared. *)
Definition ann_ok (a : annotation) : Prop :=
  has_period (a_name a) = false ∧ f_key (field_of a) && is_optional (a_dtype a) = false.

Lemma field_of_name a : f_name (field_of a) = a_name a.
Proof. unfold field_of. by destruct (a_flags a) as [[]|]. Qed.

Lemma field_of_names anns : map f_name (map field_of anns) = map a_name anns.
Proof. rewrite map_map. apply map_ext. apply field_of_name. Qed.

Lemma flag_datetime_same f :
  f_name (flag_datetime f) = f_name f ∧ f_key (flag_datetime f) = f_key f ∧
  f_dtype (flag_datetime f) = f_dtype f.
Proof. unfold flag_datetime. by destruct (is_datetime _). Qed.

(** The fields that may be the timestamp: the flagged ones, or else those of type [datetime]. *)
Definition ts_candidates (fs : list Field) : list Field :=
  let flagged := filter (λ f, f_timestamp f = true) fs in
  if decide (flagged = []) then filter (λ f, is_datetime (f_dtype f) = true) fs else flagged.

Definition shape (f : Field) : string * bool * T := (f_name f, f_key f, f_dtype f).

Lemma flag_shape fs : map shape (map flag_datetime fs) = map shape fs.
Proof.
  rewrite map_map. apply map_ext. intros f. unfold shape. by destruct (flag_datetime_same f) as (-> & -> & ->).
Qed.

Lemma shape_names fs fs' : map shape fs = map shape fs' → map f_name fs = map f_name fs'.
Proof.
  intros E. assert (∀ l, map f_name l = map (λ x : string * bool * T, x.1.1) (map shape l)) as Hm.
  { intros l. by rewrite map_map. }
  by rewrite !Hm, E.
Qed.

Lemma set_timestamp_ok fs r :
  _set_timestamp_field fs = Ok r →
  map f_name (ts_candidates fs) = [r.2] ∧ map shape r.1 = map shape fs.
Proof.
  unfold _set_timestamp_field, ts_candidates. rewrite !only_field_spec. cbn [option_list app].
  destruct (filter (λ f, f_timestamp f = true) fs) as [|f [|f' fl]]; cbn; [|intros; by simplify_eq/=|done].
  destruct (filter _ fs) as [|g [|g' gl]]; cbn; [done| |done].
  intros; simplify_eq/=. split; [done|apply flag_shape].
Qed.

Lemma set_timestamp_ok_iff fs :
  is_ok (_set_timestamp_field fs) = true ↔ length (ts_candidates fs) = 1.
Proof.
  unfold _set_timestamp_field, ts_candidates. rewrite !only_field_spec. cbn [option_list app].
  destruct (filter (λ f, f_timestamp f = true) fs) as [|f [|f' fl]]; cbn; [|done|done].
  by destruct (filter _ fs) as [|g [|g' gl]]; cbn.
Qed.

Lemma mapR_get_field anns fs :
  mapR get_field anns = Ok fs ↔ fs = map field_of anns ∧ Forall ann_ok anns.
Proof using is_optional. apply mapR_Ok_iff. intros. apply get_field_ok. Qed.

Lemma dataset_data_inv anns d :
  dataset_data anns = Ok d →
  map shape (_fields d) = map shape (map field_of anns) ∧
  NoDup (map a_name anns) ∧ _timestamp_field d ∈ map a_name anns ∧
  _key_fields d = _set_key_fields (_fields d).
Proof.
  unfold dataset_data. intros H. destruct (mapR get_field anns) as [fs|] eqn:Ef; [|done].
  apply mapR_get_field in Ef as [-> _]. cbn in H.
  destruct (_validate_field_names _) as [[]|] eqn:Ev; [|done]. cbn in H.
  apply validate_names_ok in Ev as (Hn & _).
  destruct (_set_timestamp_field _) as [[fs ts]|] eqn:Et; [|done]. cbn in H. simplify_eq/=.
  apply set_timestamp_ok in Et as [Hts Hs]. rewrite field_of_names in Hn. split_and!; [done..| |done].
  rewrite <- field_of_names. apply (sublist_subseteq (map f_name (ts_candidates (map field_of anns)))).
  - apply sublist_map. unfold ts_candidates. case_decide; apply sublist_filter.
  - rewrite Hts. set_solver.
Qed.

(** A dict of the fields that satisfy [P]. *)
Lemma field_dict P `{!∀ f : Field, Decision (P f)} (fs : list Field) :
  NoDup (map f_name fs) →
  let d := dict_of (map (λ f, (f_name f, f_dtype f)) (filter P fs)) in
  dkeys d = map f_name (filter P fs) ∧
  (∀ f, f ∈ fs → P f → dget d (f_name f) = Some (f_dtype f)) ∧
  (∀ n, n ∉ map f_name (filter P fs) → dget d n = None).
Proof.
  intros Hn d. assert (NoDup (map f_name (filter P fs))) as Hf.
  { eapply sublist_NoDup; [exact Hn|]. apply sublist_map, sublist_filter. }
  assert (dkeys (map (λ f, (f_name f, f_dtype f)) (filter P fs)) = map f_name (filter P fs)) as Hk.
  { unfold dkeys. change (@fmap list _ _ _) with (@map (string * T) string). by rewrite map_map. }
  assert (dict_wf (map (λ f, (f_name f, f_dtype f)) (filter P fs))) as Hwf by (by unfold dict_wf; rewrite Hk).
  subst d. rewrite dict_of_id by done. split_and!; [done| |].
  - intros f Hin HP. apply dget_elem_wf; [done|]. apply list_elem_of_fmap. exists f.
    split; [done|]. by apply list_elem_of_filter.
  - intros n Hni. apply dget_None. by rewrite Hk.
Qed.

Section one_dataset.
Context (d : Dataset).
Hypothesis names_distinct : NoDup (map f_name (_fields d)).
Hypothesis ts_is_value : ∀ f, f ∈ _fields d → f_key f = true → f_name f ≠ _timestamp_field d.
Hypothesis ts_is_field : _timestamp_field d ∈ map f_name (_fields d).

Lemma same_name_same_field f g : f ∈ _fields d → g ∈ _fields d → f_name f = f_name g → f = g.
Proof using names_distinct.
  intros Hf Hg E. apply list_elem_of_lookup in Hf as [i Hi], Hg as [j Hj].
  assert (i = j) as ->; [|congruence].
  eapply NoDup_lookup; [exact names_distinct| |].
  - change (map f_name (_fields d)) with (f_name <$> _fields d). by rewrite list_lookup_fmap, Hi.
  - change (map f_name (_fields d)) with (f_name <$> _fields d). by rewrite list_lookup_fmap, Hj, E.
Qed.

Lemma dataset_fields_perm : fields (dataset_schema d) ≡ₚ map f_name (_fields d).
Proof using All.
  destruct (field_dict (λ f, f_key f = true) _ names_distinct) as (Hk & _).
  destruct (field_dict (λ f, f_key f = false ∧ f_name f ≠ _timestamp_field d) _ names_distinct) as (Hv & _).
  unfold fields, dataset_schema. cbn [keys values timestamp]. cbn zeta in Hk, Hv. rewrite Hk, Hv. clear Hk Hv.
  assert (∀ P `{!∀ f : Field, Decision (P f)}, NoDup (map f_name (filter P (_fields d)))) as Hnd.
  { intros. eapply sublist_NoDup; [exact names_distinct|]. apply sublist_map, sublist_filter. }
  apply NoDup_Permutation; [|done|].
  - apply NoDup_app. split; [apply Hnd|]. split.
    + intros n (f & -> & Hf)%list_elem_of_fmap. apply list_elem_of_filter in Hf as [Hk Hf].
      intros [(g & E & Hg)%list_elem_of_fmap|E%list_elem_of_singleton]%elem_of_app.
      * apply list_elem_of_filter in Hg as [[Hgk _] Hg]. by rewrite (same_name_same_field _ _ Hf Hg E) in Hk; congruence.
      * by eapply ts_is_value.
    + apply NoDup_app. split; [apply Hnd|]. split; [|apply NoDup_singleton].
      intros n (f & -> & Hf)%list_elem_of_fmap E%list_elem_of_singleton.
      by apply list_elem_of_filter in Hf as [[_ ?] _].
  - intros n. rewrite !elem_of_app, list_elem_of_singleton. split.
    + intros [(f & -> & Hf)%list_elem_of_fmap|[(f & -> & Hf)%list_elem_of_fmap| ->]]; [..|done];
        apply list_elem_of_filter in Hf as [_ Hf]; by apply list_elem_of_fmap_2.
    + intros (f & -> & Hf)%list_elem_of_fmap. destruct (f_key f) eqn:Ek.
      * left. apply list_elem_of_fmap_2. by apply list_elem_of_filter.
      * destruct (decide (f_name f = _timestamp_field d)) as [E|E]; [by do 2 right|].
        right; left. apply list_elem_of_fmap_2. by apply list_elem_of_filter.
Qed.

Lemma dataset_get_type f :
  f ∈ _fields d →
  get_type (dataset_schema d) (f_name f) =
    Ok (if decide (f_name f = _timestamp_field d) then datetime else f_dtype f).
Proof using All.
  intros Hf.
  destruct (field_dict (λ f, f_key f = true) _ names_distinct) as (_ & Hk & Hkn).
  destruct (field_dict (λ f, f_key f = false ∧ f_name f ≠ _timestamp_field d) _ names_distinct) as (_ & Hv & Hvn).
  unfold get_type, dataset_schema. cbn [keys values timestamp].
  destruct (f_key f) eqn:Ek.
  - rewrite Hk by done. rewrite decide_False by (by apply ts_is_value). done.
  - rewrite Hkn; last first.
    { intros (g & E & Hg)%list_elem_of_fmap. apply list_elem_of_filter in Hg as [Hgk Hg].
      rewrite (same_name_same_field _ _ Hf Hg E) in Ek. congruence. }
    case_decide as Et.
    + rewrite Hvn; [done|]. intros (g & E & Hg)%list_elem_of_fmap.
      apply list_elem_of_filter in Hg as [[_ Hg] _]. congruence.
    + by rewrite Hv.
Qed.
End one_dataset.

(** The annotation gives a key field. *)
Definition a_key (a : annotation) : bool := f_key (field_of a).

(** The schema of a dataset whose timestamp is not a key lists every declared field once, gives each
    its declared type ([datetime] for the timestamp), and no other name a type. *)
Lemma dataset_schema_types (anns : list annotation) (d : Dataset) :
  dataset_data anns = Ok d →
  (∀ a, a ∈ anns → a_key a = true → a_name a ≠ _timestamp_field d) →
  fields (dataset_schema d) ≡ₚ map a_name anns ∧ NoDup (map a_name anns) ∧
  (∀ a, a ∈ anns → get_type (dataset_schema d) (a_name a) =
     Ok (if decide (a_name a = _timestamp_field d) then datetime else a_dtype a)) ∧
  (∀ n, n ∉ map a_name anns → get_type (dataset_schema d) n = Raise (ValueError "Field not found")).
Proof.
  intros H Hts. apply dataset_data_inv in H as (Hs & Hnd & Hin & _).
  pose proof (shape_names _ _ Hs) as Hn. rewrite field_of_names in Hn.
  assert (NoDup (map f_name (_fields d))) as Hnd' by (by rewrite Hn).
  assert (∀ f, f ∈ _fields d → f_key f = true → f_name f ≠ _timestamp_field d) as Hts'.
  { intros f Hf Hk. assert (shape f ∈ map shape (map field_of anns)) as Hsf.
    { rewrite <- Hs. by apply list_elem_of_fmap_2. }
    rewrite map_map in Hsf. apply list_elem_of_fmap in Hsf as (a & [= E1 E2 E3] & Ha).
    rewrite E1, field_of_name. apply Hts; [done|]. unfold a_key. congruence. }
  assert (fields (dataset_schema d) ≡ₚ map a_name anns) as Hp.
  { rewrite dataset_fields_perm; [by rewrite Hn|done..|by rewrite Hn]. }
  split_and!; [done..| |].
  - intros a Ha. assert (shape (field_of a) ∈ map shape (_fields d)) as Hsa.
    { rewrite Hs. by do 2 apply list_elem_of_fmap_2. }
    apply list_elem_of_fmap in Hsa as (f & [= E1 E2 E3] & Hf).
    rewrite <- (field_of_name a), E1, dataset_get_type; [|done|done|by rewrite Hn|done].
    rewrite <- E3. unfold field_of. by destruct (a_flags a) as [[]|].
  - intros n Hni. rewrite <- Hp in Hni. unfold fields in Hni. rewrite !not_elem_of_app in Hni.
    destruct Hni as (H1 & H2 & H3%not_elem_of_cons). unfold get_type.
    rewrite (proj2 (dget_None _ _) H1), (proj2 (dget_None _ _) H2). by rewrite decide_False by tauto.
Qed.

(** [@dataset] accepts a class exactly when its fields are well named, no key is optional, no name is
    repeated or reserved, and there is exactly one timestamp: one flagged field, or one [datetime]
    field when none is flagged. *)
Theorem dataset_accepted_iff (anns : list annotation) :
  is_ok (dataset_data anns) = true ↔
  Forall ann_ok anns ∧ NoDup (map a_name anns) ∧
  (∀ n, n ∈ map a_name anns → n ∉ RESERVED_FIELD_NAMES) ∧
  length (ts_candidates (map field_of anns)) = 1.
Proof.
  unfold dataset_data. destruct (mapR get_field anns) as [fs|] eqn:Ef; cbn.
  - apply mapR_get_field in Ef as [-> Ha]. rewrite <- set_timestamp_ok_iff.
    unfold _validate_field_names. rewrite <- field_of_names.
    pose proof (validate_names_ok [] (map field_of anns) false) as Hv.
    destruct (validate_names _ _ _) as [[]|]; cbn.
    + destruct Hv as [Hv _]. destruct Hv as (? & Hv & _); [done|].
      destruct (_set_timestamp_field _) as [r|]; naive_solver.
    + split; [done|]. intros (_ & ? & Hr & _). discriminate (proj2 Hv). split_and!; [done| |done].
      intros n Hn. split; [set_solver|by apply Hr].
  - split; [done|]. intros (Ha & _).
    discriminate (eq_trans (eq_sym Ef) (proj2 (mapR_get_field _ _) (conj eq_refl Ha))).
Qed.
End schema.

Arguments Schema : clear implicits.
Arguments Field : clear implicits.
Arguments annotation : clear implicits.
Arguments Dataset : clear implicits.
Arguments node : clear implicits.

(** ** Witness: the [User] dataset of the tests. *)

Definition user_anns : list (annotation string) :=
  [mkAnn "user_id" "str" (Some (true, false)); mkAnn "registered_at" "datetime" (Some (false, true));
   mkAnn "name" "str" None].
