(* ===== verification/Declarations.v ===== *)
(** * Declaring datasets and pipelines
    ([volga/api/dataset/dataset.py], [volga/api/dataset/pipeline.py])

    Datasets are declared by a class whose annotations become fields and one of whose methods is
    decorated as the pipeline.  [Schema] holds what the declaration means; here are the Python
    objects it makes: the attributes of the [Dataset] object, among which the fields are stored
    under their own names, and the search for the pipeline among the members of the class. *)

From S2P Require Import Prelude PyDict Schema.

(** ** The attributes of a [Dataset] object *)

Section objects.
Context {T : Type} (is_optional is_datetime : T → bool).

(** The methods of [Dataset] and of [OperatorNode]. *)
Definition dataset_methods : list string :=
  ["schema"; "_add_fields_to_class"; "_set_timestamp_field"; "_set_key_fields"; "get_pipeline"; "_validate_field_names";
   "_get_source_connectors"; "is_source"; "init_stream"; "transform"; "filter"; "assign"; "group_by"; "join"; "rename";
   "drop"; "dropnull"; "select"].

(** What an instance attribute holds: a [Field], or another value that can be what its name says. *)
Inductive attr := AField (f : Field T) | AValue.
Abbreviation object := (dict string attr).

(** [self.name(...)]: an instance attribute hides the method of the class; a [Field] cannot be called. *)
Definition call_method (o : object) (name : string) : res string :=
  match dget o name with
  | Some _ => Raise TypeError
  | None => if decide (name ∈ dataset_methods) then Ok name else Raise AttributeError
  end.

(** [for field in self._fields] *)
Definition iter_fields (o : object) (fs : list (Field T)) : res (list (Field T)) :=
  match dget o "_fields" with Some AValue => Ok fs | Some (AField _) => Raise TypeError | None => Raise AttributeError end.

(** [_add_fields_to_class] *)
Definition _add_fields_to_class (fs : list (Field T)) (o : object) : object :=
  foldl (λ o f, if decide (f_name f = "") then o else dset o (f_name f) (AField f)) o fs.

(** [OperatorNodeBase.__init__] and [Dataset.__init__] *)
Definition init_object (anns : list (annotation T)) : res (Dataset T * object) :=
  fs ← mapR (get_field is_optional) anns;
  let o := [("stream", AValue); ("parents", AValue); ("_name", AValue); ("__name__", AValue); ("_fields", AValue)] in
  _ ← call_method o "_validate_field_names";
  _ ← _validate_field_names fs;
  let o := dset o "_original_cls" AValue in
  _ ← call_method o "_add_fields_to_class";
  let o := _add_fields_to_class fs o in
  _ ← call_method o "_set_timestamp_field";
  fs ← iter_fields o fs;
  fs_ts ← _set_timestamp_field is_datetime fs;
  let o := dset o "_timestamp_field" AValue in
  _ ← call_method o "_set_key_fields";
  let o := dset o "_key_fields" AValue in
  _ ← call_method o "get_pipeline";
  let o := dset o "_pipeline" AValue in
  Ok (mkDataset fs_ts.1 fs_ts.2 (_set_key_fields fs_ts.1), o).

(** [schema()] on the object. *)
Definition schema (d : Dataset T) (o : object) : res (Schema T) :=
  _ ← call_method o "schema";
  fs ← iter_fields o (_fields d);
  Ok (dataset_schema (mkDataset fs (_timestamp_field d) (_key_fields d))).

(** [dataset]: with a class it makes the dataset, without one it returns the decorator that does. *)
Inductive decorated := Made (d : res (Dataset T * object)) | Wrap (wrap : list (annotation T) → res (Dataset T * object)).
Definition dataset (cls : option (list (annotation T))) : decorated :=
  match cls with None => Wrap init_object | Some c => Made (init_object c) end.
(** [@e] on a class: what [e] evaluates to is called with it. *)
Definition decorate (e : decorated) (cls : list (annotation T)) : res (Dataset T * object) :=
  match e with Wrap wrap => wrap cls | Made (Ok _) => Raise TypeError | Made (Raise x) => Raise x end.

(** [on_demand] has no body, so it returns [None], whatever it decorates. *)
Definition on_demand (deps : list string) : option (list (annotation T) → res (Dataset T * object)) := None.
Definition decorate_on_demand (deps : list string) (cls : list (annotation T)) : res (Dataset T * object) :=
  match on_demand deps with Some wrap => wrap cls | None => Raise TypeError end.

(** *** Lemmas *)

Lemma add_fields_dget fs : ∀ (o : object) n, n ≠ "" →
  match dget (_add_fields_to_class fs o) n with
  | Some (AField _) => n ∈ map f_name fs ∨ ∃ f, dget o n = Some (AField f)
  | r => (n ∉ map f_name fs) ∧ r = dget o n
  end.
Proof.
  unfold _add_fields_to_class. induction fs as [|f fs IH]; intros o n Hn; cbn [foldl map].
  - destruct (dget o n) as [[f|]|]; [right; by exists f|..]; (split; [apply not_elem_of_nil|done]).
  - specialize (IH (if decide (f_name f = "") then o else dset o (f_name f) (AField f)) n Hn).
    assert (dget (if decide (f_name f = "") then o else dset o (f_name f) (AField f)) n =
      if decide (n = f_name f) then Some (AField f) else dget o n) as E.
    { destruct (decide (f_name f = "")) as [Ee|Ee]; [by rewrite decide_False by congruence|]. rewrite dget_dset.
      destruct (decide (f_name f = n)), (decide (n = f_name f)); congruence. }
    rewrite E in IH. destruct (dget (foldl _ _ fs) n) as [[f'|]|].
    + destruct IH as [IH|[f'' IH]]; [left; by right|]. destruct (decide (n = f_name f)) as [->|]; [left; by left|right; by exists f''].
    + destruct IH as [IH1 IH2]. destruct (decide (n = f_name f)); [done|]. split; [|done]. by apply not_elem_of_cons.
    + destruct IH as [IH1 IH2]. destruct (decide (n = f_name f)); [done|]. split; [|done]. by apply not_elem_of_cons.
Qed.

(** A method is hidden exactly by a field of its name. *)
Lemma call_method_fields fs (o : object) m : m ∈ dataset_methods → dget o m = None →
  call_method (_add_fields_to_class fs o) m = if decide (m ∈ map f_name fs) then Raise TypeError else Ok m.
Proof.
  intros Hm Ho. pose proof (add_fields_dget fs o m) as Hd. assert (m ≠ "") as Hne by (intros ->; revert Hm; by apply (bool_decide_unpack _)).
  specialize (Hd Hne). unfold call_method. revert Hd.
  destruct (dget (_add_fields_to_class fs o) m) as [[f|]|]; intros Hd.
  - destruct Hd as [Hd|[f' Hd]]; [by rewrite decide_True|congruence].
  - destruct Hd as [_ Hd]. congruence.
  - destruct Hd as [Hd _]. rewrite (decide_True (P := m ∈ dataset_methods)) by done. by rewrite decide_False.
Qed.

Lemma call_method_dset (o : object) n v m : n ≠ m → call_method (dset o n v) m = call_method o m.
Proof. intros Hn. unfold call_method. by rewrite dget_dset, decide_False. Qed.

Lemma iter_fields_spec fs (o : object) gs : dget o "_fields" = Some AValue →
  iter_fields (_add_fields_to_class fs o) gs = if decide ("_fields" ∈ map f_name fs) then Raise TypeError else Ok gs.
Proof.
  intros Ho. pose proof (add_fields_dget fs o "_fields" ltac:(done)) as Hd. unfold iter_fields. revert Hd.
  destruct (dget (_add_fields_to_class fs o) "_fields") as [[f|]|]; intros Hd.
  - destruct Hd as [Hd|[f' Hd]]; [by rewrite decide_True|congruence].
  - destruct Hd as [Hd _]. by rewrite decide_False.
  - destruct Hd as [_ Hd]. congruence.
Qed.

(** The field names that break the constructor itself. *)
Definition fatal_names : list string := ["_set_timestamp_field"; "_fields"; "_set_key_fields"; "get_pipeline"].

(** A declared dataset becomes an object unless one of its fields is named like a method or attribute the constructor
    still needs, and then [TypeError] is raised.  On the object, a method can be called exactly when no field has
    its name: a field called [filter] or [schema] breaks every pipeline over the dataset, although the
    declaration is accepted. *)
Theorem dataset_object (anns : list (annotation T)) (d : Dataset T) :
  dataset_data is_optional is_datetime anns = Ok d →
  if decide (Exists (λ n, n ∈ map a_name anns) fatal_names) then init_object anns = Raise TypeError
  else ∃ o, init_object anns = Ok (d, o) ∧ dget o "_fields" = Some AValue ∧
    ∀ m, m ∈ dataset_methods → call_method o m = if decide (m ∈ map a_name anns) then Raise TypeError else Ok m.
Proof.
  unfold dataset_data, init_object. destruct (mapR (get_field is_optional) anns) as [fs|] eqn:Ef; [|done]. cbn [mbind res_bind].
  apply mapR_get_field in Ef as [-> _]. rewrite <- field_of_names. set (fs := map field_of anns).
  destruct (_validate_field_names fs) as [[]|]; [|done]. cbn [mbind res_bind].
  destruct (_set_timestamp_field is_datetime fs) as [fs_ts|] eqn:Et; [|done]. cbn [mbind res_bind]. intros [= <-].
  set (o0 := dset _ "_original_cls" AValue). assert (∀ m, m ∈ dataset_methods → dget o0 m = None) as H0.
  { intros m Hm. repeat (apply elem_of_cons in Hm as [->|Hm]; [reflexivity|]). by apply elem_of_nil in Hm. }
  match goal with |- context [call_method ?o "_validate_field_names"] =>
    change (call_method o "_validate_field_names") with (Ok "_validate_field_names" : res string) end.
  change (call_method o0 "_add_fields_to_class") with (Ok "_add_fields_to_class" : res string). cbn [mbind res_bind].
  rewrite !call_method_dset, iter_fields_spec, !call_method_fields by
    (done || (apply H0; by apply (bool_decide_unpack _)) || by apply (bool_decide_unpack _)).
  assert (Exists (λ n, n ∈ map f_name fs) fatal_names ↔ "_set_timestamp_field" ∈ map f_name fs ∨ "_fields" ∈ map f_name fs ∨
    "_set_key_fields" ∈ map f_name fs ∨ "get_pipeline" ∈ map f_name fs) as Hx.
  { unfold fatal_names. rewrite !Exists_cons, Exists_nil. tauto. }
  destruct (decide (Exists _ _)) as [Hf|Hf]; rewrite Hx in Hf.
  - destruct (decide ("_set_timestamp_field" ∈ map f_name fs)); [done|]. cbn [mbind res_bind].
    destruct (decide ("_fields" ∈ map f_name fs)); [done|]. cbn [mbind res_bind]. rewrite Et. cbn [mbind res_bind].
    destruct (decide ("_set_key_fields" ∈ map f_name fs)); [done|]. cbn [mbind res_bind].
    destruct (decide ("get_pipeline" ∈ map f_name fs)); [done|tauto].
  - rewrite !decide_False by tauto. cbn [mbind res_bind]. rewrite Et. cbn [mbind res_bind]. eexists. split; [reflexivity|]. split.
    { rewrite !dget_dset, !decide_False by done. pose proof (add_fields_dget fs o0 "_fields" ltac:(done)) as Hd.
      destruct (dget _ "_fields") as [[f|]|]; [destruct Hd as [Hd|[f' Hd]]; [tauto|done]|done|by destruct Hd]. }
    intros m Hm. rewrite !call_method_dset by (intros <-; revert Hm; by apply (bool_decide_unpack _)).
    by apply call_method_fields, H0.
Qed.

Lemma init_object_data anns d o : init_object anns = Ok (d, o) → dataset_data is_optional is_datetime anns = Ok d.
Proof.
  intros H. unfold init_object in H. inv_res. unfold iter_fields in *. unfold dataset_data.
  repeat match goal with E : match ?x with _ => _ end = Ok _ |- _ => destruct x; simplify_eq end.
  repeat (match goal with E : _ = Ok _ |- _ => rewrite E; clear E end; cbn [mbind res_bind]). done.
Qed.

(** C30. Calling [schema()] on a dataset object made from annotations, whose timestamp is not a key, raises
    [TypeError] when a field is named [schema], which hides the method.  Otherwise the schema lists every
    declared field once, gives each its declared type ([datetime] for the timestamp), and no other name a type. *)
Theorem object_schema (datetime : T) (anns : list (annotation T)) (d : Dataset T) (o : object) :
  init_object anns = Ok (d, o) →
  (∀ a, a ∈ anns → a_key a = true → a_name a ≠ _timestamp_field d) →
  if decide ("schema" ∈ map a_name anns) then schema d o = Raise TypeError
  else ∃ s, schema d o = Ok s ∧ fields s ≡ₚ map a_name anns ∧ NoDup (map a_name anns) ∧
    (∀ a, a ∈ anns → get_type datetime s (a_name a) = Ok (if decide (a_name a = _timestamp_field d) then datetime else a_dtype a)) ∧
    (∀ n, n ∉ map a_name anns → get_type datetime s n = Raise (ValueError "Field not found")).
Proof.
  intros H Hts. pose proof (init_object_data anns d o H) as Hd. pose proof (dataset_object anns d Hd) as Ho.
  destruct (decide (Exists _ _)); [congruence|]. destruct Ho as (o' & Eo & Hf & Hm). rewrite H in Eo. injection Eo as <-.
  unfold schema, iter_fields. rewrite (Hm "schema") by by apply (bool_decide_unpack _). rewrite Hf.
  destruct (decide ("schema" ∈ map a_name anns)); [done|]. cbn [mbind res_bind]. eexists. split; [reflexivity|].
  replace (mkDataset _ _ _) with d by by destruct d. by apply (dataset_schema_types datetime is_optional is_datetime anns d).
Qed.

(** [@dataset] and [@dataset()] make the same dataset of a class, and the stub [@on_demand(...)] cannot decorate anything. *)
Theorem decorator_forms (anns : list (annotation T)) deps :
  dataset (Some anns) = Made (decorate (dataset None) anns) ∧ decorate_on_demand deps anns = Raise TypeError.
Proof. done. Qed.
End objects.

(** ** Pipelines *)

Section pipelines.
Context {N : Type}.

(** A function that can be decorated: its parameters, and the operator node it returns for the input datasets. *)
Record pyfunc := mkFunc { fn_params : list string; fn_body : list string → N }.
(** What the list of inputs can hold: datasets, other objects that have a [__name__], and objects that have none. *)
Inductive input := IDataset (name : string) | INamed (name : string) | IUnnamed.

Record Pipeline := mkPipeline { inputs : list string; func : pyfunc }.

(** The loop over the inputs; the message of the exception asks for the name of the object. *)
Definition check_input (inp : input) : res string :=
  match inp with IDataset d => Ok d | INamed _ => Raise TypeError | IUnnamed => Raise AttributeError end.

(** The decorator [pipeline(inputs)]; [None] is something that cannot be called.  Only the first parameter is looked at. *)
Definition pipeline (inps : list input) (pipeline_func : option pyfunc) : res Pipeline :=
  match pipeline_func with
  | None => Raise TypeError
  | Some f =>
      _ ← match fn_params f with p :: _ => if decide (p = "cls") then Ok () else Raise TypeError | [] => Ok () end;
      ds ← mapR check_input inps;
      Ok (mkPipeline ds f)
  end.

(** [inspect.getmembers] sorts the members by name; a member is decorated or not. *)
Definition getmembers (members : list (string * option Pipeline)) : list (string * option Pipeline) := stable_sort fst String.le members.
Definition get_pipeline (members : list (string * option Pipeline)) : option Pipeline := head (omap snd (getmembers members)).

(** [pipeline.func(target.__class__, *pipeline.inputs)] *)
Definition call_pipeline (p : Pipeline) : res N :=
  if decide (length (fn_params (func p)) = S (length (inputs p))) then Ok (fn_body (func p) (inputs p)) else Raise TypeError.

(** [_build_stream] as far as the terminal operator node. *)
Definition terminal_node (members : list (string * option Pipeline)) : res N :=
  p ← from_option_exn AttributeError (get_pipeline members); call_pipeline p.

Lemma head_omap {A B} (f : A → option B) l :
  match head (omap f l) with
  | Some b => ∃ l1 a l2, l = l1 ++ a :: l2 ∧ f a = Some b ∧ Forall (λ x, f x = None) l1
  | None => Forall (λ x, f x = None) l
  end.
Proof.
  induction l as [|a l IH]; simpl; [constructor|]. destruct (f a) as [b|] eqn:Ea; simpl.
  - exists [], a, l. by repeat constructor.
  - unfold omap in IH. destruct (head _) as [b|]; [|by constructor]. destruct IH as (l1 & a' & l2 & -> & E & HF).
    exists (a :: l1), a', l2. split_and!; [done..|by constructor].
Qed.

(** Of several decorated methods the one whose name comes first is the pipeline of the dataset, whatever their order in
    the class, and the others are ignored; without one there is no pipeline. *)
Theorem get_pipeline_first (members : list (string * option Pipeline)) :
  match get_pipeline members with
  | Some p => ∃ n, (n, Some p) ∈ members ∧ ∀ n' p', (n', Some p') ∈ members → String.le n n'
  | None => ∀ n p, (n, Some p) ∉ members
  end.
Proof.
  unfold get_pipeline, getmembers. pose proof (stable_sort_sorted fst String.le members) as Hs.
  pose proof (stable_sort_perm fst String.le members) as Hp. pose proof (head_omap snd (stable_sort fst String.le members)) as Hh.
  destruct (head _) as [p|].
  - destruct Hh as (l1 & [n o] & l2 & E & Eo & HF). simpl in Eo. subst o. exists n. split; [rewrite <- Hp, E; set_solver|].
    intros n' p' Hin. rewrite <- Hp, E in Hin. rewrite E in Hs. apply StronglySorted_app in Hs as (_ & _ & Hs).
    apply elem_of_app in Hin as [Hin|Hin]; [by rewrite Forall_forall in HF; specialize (HF _ Hin)|].
    apply elem_of_cons in Hin as [[= -> ->]|Hin]; [reflexivity|]. apply StronglySorted_inv in Hs as [_ Hs].
    rewrite Forall_forall in Hs. exact (Hs _ Hin).
  - intros n p Hin. rewrite <- Hp in Hin. rewrite Forall_forall in Hh. by specialize (Hh _ Hin).
Qed.

(** An accepted pipeline can be run exactly when its function takes the class and one parameter per input. *)
Theorem accepted_pipeline_runs inps (f : pyfunc) p : pipeline inps (Some f) = Ok p →
  call_pipeline p = if decide (length (fn_params f) = S (length inps)) then Ok (fn_body f (inputs p)) else Raise TypeError.
Proof.
  unfold pipeline. destruct (match fn_params f with [] => _ | _ :: _ => _ end); [|done]. cbn [mbind res_bind].
  destruct (mapR check_input inps) as [ds|] eqn:E; [|done]. intros [= <-]. unfold call_pipeline. cbn [func inputs].
  by rewrite (mapR_length _ _ _ E).
Qed.
End pipelines.

(** ** Witnesses *)

(** A dataset with a field called [filter] is accepted, but can not be filtered. *)
Definition filter_anns : list (annotation string) :=
  [mkAnn "user_id" "str" (Some (true, false)); mkAnn "filter" "str" None; mkAnn "at" "datetime" (Some (false, true))].

Lemma dataset_object_witness : ∃ d o,
  init_object (λ _, false) (λ t, bool_decide (t = "datetime")) filter_anns = Ok (d, o) ∧
  call_method o "filter" = Raise TypeError ∧ call_method o "schema" = Ok "schema".
Proof.
  destruct (dataset_data (λ _, false) (λ t : string, bool_decide (t = "datetime")) filter_anns) as [d|] eqn:Ed; [|discriminate Ed].
  pose proof (dataset_object (λ _, false) (λ t, bool_decide (t = "datetime")) filter_anns d Ed) as Hd. rewrite decide_False in Hd.
  - destruct Hd as (o & Eo & _ & Hm). exists d, o. split; [exact Eo|].
    split; [rewrite (Hm "filter" ltac:(apply (bool_decide_unpack _); reflexivity))|rewrite (Hm "schema" ltac:(apply (bool_decide_unpack _); reflexivity))]; reflexivity.
  - apply (bool_decide_unpack _). reflexivity.
Defined.

(** The [User] dataset of the tests, and the same with a field called [schema]. *)
Definition schema_anns : list (annotation string) := user_anns ++ [mkAnn "schema" "str" None].

Lemma object_schema_witness :
  match init_object (λ _, false) (λ t, bool_decide (t = "datetime")) user_anns with
  | Ok (d, o) => ∃ s, schema d o = Ok s ∧ fields s ≡ₚ ["user_id"; "registered_at"; "name"] ∧ get_type "datetime" s "name" = Ok "str"
  | Raise _ => False
  end ∧
  match init_object (λ _, false) (λ t, bool_decide (t = "datetime")) schema_anns with
  | Ok (d, o) => schema d o = Raise TypeError
  | Raise _ => False
  end.
Proof.
  split.
  - destruct (init_object _ _ user_anns) as [[d o]|] eqn:E; [|vm_compute in E; discriminate E].
    pose proof (object_schema (λ _, false) (λ t, bool_decide (t = "datetime")) "datetime" user_anns d o E) as H.
    destruct H as (s & Es & Hp & _ & Ht & _).
    + vm_compute in E. injection E as <- <-. rewrite <- Forall_forall. repeat constructor; vm_compute; discriminate.
    + exists s. split; [exact Es|]. split; [exact Hp|]. specialize (Ht (mkAnn "name" "str" None)). cbn [a_name] in Ht. rewrite Ht by set_solver.
      vm_compute in E. injection E as <- <-. reflexivity.
  - destruct (init_object _ _ schema_anns) as [[d o]|] eqn:E; [|vm_compute in E; discriminate E].
    apply (object_schema (λ _, false) (λ t, bool_decide (t = "datetime")) "datetime" schema_anns d o E).
    vm_compute in E. injection E as <- <-. rewrite <- Forall_forall. repeat constructor; vm_compute; discriminate.
Defined.

(** A pipeline function without parameters is accepted, and can not be run. *)
Lemma accepted_pipeline_runs_witness : ∃ p, pipeline [IDataset "User"] (Some (mkFunc [] (λ _, tt))) = Ok p ∧ call_pipeline p = Raise TypeError.
Proof.
  exists (mkPipeline ["User"] (mkFunc [] (λ _, tt))). split; [reflexivity|].
  exact (accepted_pipeline_runs [IDataset "User"] (mkFunc [] (λ _, tt)) _ eq_refl).
Defined.
