(* ===== verification/Events.v ===== *)
(** * The event functions of the dataset operators
    ([volga/api/dataset/operators.py], [volga/api/dataset/aggregate.py])

    An event is a Python dictionary.  [Join] renames the fields both sides have
    and merges the two events, in place; [Aggregate] builds the output event of
    the window operator.  The first part relates [_joined_schema] to the schemas
    of the two sides. *)

From S2P Require Import Prelude PyDict PyDecimal Message Window Schema.

(** ** Event functions *)

Abbreviation event U := (dict string U).

Section functions.
Context {T U K : Type}.
Implicit Types (e left right : event U).

(** [GroupBy._stream_key_by_func] *)
Definition _stream_key_by_func (ks : list string) e : res U :=
  key ← py_index ks 0;
  from_option_exn (RuntimeError "key not in event") (dget e key).

(** [Join._stream_left_key_func] and [Join._stream_right_key_func], on [self.on] and the key list of
    the side. *)
Definition join_key (on side_on : option (list string)) : res string :=
  match on with
  | Some o => py_index o 0
  | None => ks ← from_option_exn TypeError side_on; py_index ks 0
  end.
Definition _stream_left_key_func (on left_on : option (list string)) e : res U :=
  key ← join_key on left_on; dgetitem e key.
Definition _stream_right_key_func (on right_on : option (list string)) e : res U :=
  key ← join_key on right_on; dgetitem e key.

(** The loop body of [Join._stream_join_func]; the two event objects are updated in place. *)
Definition join_left_field (k : string) : M (event U * event U) () := λ lr,
  let '(l, r) := lr in
  match dget l k with
  | None => (Ok (), lr)
  | Some v =>
      if dmem (_prefix_duplicate_field k true) l then (Raise AssertionError, lr)
      else (Ok (), (ddel (dset l (_prefix_duplicate_field k true) v) k, r))
  end.
Definition join_right_field (k : string) : M (event U * event U) () := λ lr,
  let '(l, r) := lr in
  match dget r k with
  | None => (Ok (), lr)
  | Some v =>
      if dmem (_prefix_duplicate_field k false) r then (Raise AssertionError, lr)
      else (Ok (), (dset l (_prefix_duplicate_field k false) v, ddel r k))
  end.
Definition join_field (k : string) : M (event U * event U) () :=
  join_left_field k ≫= λ _, join_right_field k.

(** [Join._stream_join_func]: the merged event, and the two arguments as they are left behind.
    [same_fields] is [self._same_fields], in the order of the set it was built from. *)
Definition merged_event : M (event U * event U) (event U) := λ lr,
  (Ok (dmerge (dmerge [] lr.1) lr.2), lr).
Definition _stream_join_func (same_fields : list string) : M (event U * event U) (event U) :=
  for_each same_fields join_field ≫= λ _, merged_event.

(** [Join._stream_join_func_new] on dictionaries; [schema_fields] is [self.schema().fields()]. *)
Definition copy_fields (is_left : bool) (same_fields schema_fields : list string) (e : event U) (out : event U)
    : event U :=
  foldl (λ out fv,
    if decide (fv.1 ∈ same_fields) then dset out (_prefix_duplicate_field fv.1 is_left) fv.2
    else if decide (fv.1 ∈ schema_fields) then dset out fv.1 fv.2 else out) out e.
Definition _stream_join_func_new (same_fields schema_fields : list string) left right : event U :=
  copy_fields false same_fields schema_fields right
    (copy_fields true same_fields schema_fields left []).

(** ** [Aggregate] *)

Inductive AggregateClass := Count | Sum | Avg | Max | Min.
#[global] Instance AggregateClass_eq_dec : EqDecision AggregateClass.
Proof. solve_decision. Defined.
Record AggregateType := mkAggregate {
  g_class : AggregateClass; g_window : string; g_into : string; g_on : option string
}.
Definition aggregate_get_type (a : AggregateType) : AggregationType :=
  match g_class a with Count => COUNT | Sum => SUM | Avg => AVG | Max => MAX | Min => MIN end.

(** The number an event's value is for the aggregate function, an aggregate as an event's value, and
    [dateutil.parser.isoparse]; a parsed [datetime] is represented by what its [timestamp()] gives,
    which may still raise (an [OverflowError] for a naive time at the edge of the calendar). *)
Context (as_dec : U → res dec) (of_dec : dec → U) (isoparse : U → res (res dec)).

Definition _stream_window_aggregate_configs (aggregates : list AggregateType)
    : list (SlidingWindowConfig (event U)) :=
  map (λ agg, mkConfig (g_window agg) (aggregate_get_type agg)
    (Some (λ e, v ← from_option_exn KeyError (match g_on agg with Some on => dget e on | None => None end);
                as_dec v))
    (Some (g_into agg))) aggregates.

(** [is_time_str] only parses; [datetime_str_to_ts] also asks for the timestamp. *)
Definition is_time_str (v : U) : bool := is_ok (isoparse v).
Definition datetime_str_to_ts (v : U) : res dec := dt ← isoparse v; dt.

(** The first value of an event that reads as a time. *)
Definition first_time (e : event U) : option U := head (filter (λ v, is_time_str v = true) (dvalues e)).

(** [_output_window_func] *)
Definition _output_window_func (output_schema : Schema T) (aggs_per_window : dict string dec)
    (record : rec K (event U)) : res (rec K (event U)) :=
  let record_value := r_value record in
  out ← foldR (λ out k, v ← from_option_exn (RuntimeError "Can not locate key field") (dget record_value k);
                        Ok (dset out k v)) [] (dkeys (keys output_schema));
  ts_value ← from_option_exn (RuntimeError "Unable to locate timestamp field")
               (first_time record_value);
  let out := dset out (timestamp output_schema) ts_value in
  out ← foldR (λ out v, a ← from_option_exn (RuntimeError "Unable to locate in aggregates") (dget aggs_per_window v);
                        Ok (dset out v (of_dec a))) out (dkeys (values output_schema));
  Ok (set_stream_name (stream_name record) (new_Record out (event_time record) None)).
End functions.

Section join.
Context {T : Type} (datetime : T).

(** *** The schema of a join *)

Section join_schema.
Context (is_left : bool) (ts : string) (jkeys : dict string T) (same : string → bool)
  (lookup : string → res T) (ty : string → T).

Definition new_name (f : string) : string := if same f then _prefix_duplicate_field f is_left else f.
Definition kept (fs : list string) : list string := filter (λ f, f ≠ ts ∧ dmem f jkeys = false) fs.

Lemma join_fields_ok fs acc :
  NoDup (dkeys acc ++ map new_name (kept fs)) →
  (∀ f, f ∈ kept fs → lookup f = Ok (ty f)) →
  foldR (join_field_schema is_left ts jkeys same lookup) acc fs =
    Ok (acc ++ map (λ f, (new_name f, ty f)) (kept fs)).
Proof.
  unfold kept. revert acc. induction fs as [|f fs IH]; intros acc Hn Hl; [by rewrite app_nil_r|].
  cbn [foldR]. rewrite filter_cons in *.
  destruct (decide (f ≠ ts ∧ dmem f jkeys = false)) as [[Hf Hj]|Hd].
  - cbn [map] in *. assert (new_name f ∉ dkeys acc) as Hna.
    { apply NoDup_app in Hn as (_ & Hn & _). intros Hin. apply (Hn _ Hin). set_solver. }
    assert (join_field_schema is_left ts jkeys same lookup acc f = Ok (acc ++ [(new_name f, ty f)])) as ->.
    { unfold join_field_schema. rewrite bool_decide_eq_false_2, Hj by done. cbn [orb].
      change (if same f then _ else f) with (new_name f).
      rewrite (proj2 (dmem_false _ _) Hna), Hl by set_solver. cbn [mbind res_bind].
      by rewrite dset_app_new. }
    cbn [mbind res_bind]. rewrite IH; [by rewrite <- app_assoc| |set_solver].
    unfold dkeys in *. rewrite fmap_app, <- app_assoc. exact Hn.
  - assert (join_field_schema is_left ts jkeys same lookup acc f = Ok acc) as ->; [|by apply IH].
    unfold join_field_schema. replace (bool_decide (f = ts) || dmem f jkeys) with true; [done|].
    case_bool_decide; [done|]. destruct (dmem f jkeys); [done|tauto].
Qed.
End join_schema.

Definition schema_wf (s : Schema T) : Prop := NoDup (fields s).

(** The type of a field of the schema. *)
Definition ty (s : Schema T) (f : string) : T :=
  match get_type datetime s f with Ok t => t | Raise _ => datetime end.

Lemma get_type_ty s f : f ∈ fields s → get_type datetime s f = Ok (ty s f).
Proof.
  unfold ty, get_type, fields. rewrite !elem_of_app, list_elem_of_singleton, <- !dmem_elem. unfold dmem.
  destruct (dget (keys s) f); [done|]. destruct (dget (values s) f); [done|].
  intros [?|[?| ->]]; [done..|]. by rewrite decide_True.
Qed.

Lemma schema_wf_disjoint s f : schema_wf s → f ∈ dkeys (values s) → dget (keys s) f = None.
Proof.
  unfold schema_wf, fields. intros (_ & Hd & _)%NoDup_app Hf. apply dget_None.
  intros Hk. apply (Hd _ Hk). set_solver.
Qed.

Lemma left_lookup_ty s f : schema_wf s → f ∈ fields s → f ≠ timestamp s → left_lookup s f = Ok (ty s f).
Proof.
  intros Hwf Hf Ht. unfold left_lookup. pose proof (get_type_ty s f Hf) as E. unfold get_type in E.
  destruct (dget (values s) f) as [t|] eqn:Ev.
  - rewrite (schema_wf_disjoint s f Hwf) in E; [done|]. apply dmem_elem. unfold dmem. by rewrite Ev.
  - rewrite decide_False in E by done. by destruct (dget (keys s) f).
Qed.

Lemma right_lookup_ty s f : schema_wf s → f ∈ fields s → right_lookup datetime s f = Ok (ty s f).
Proof.
  intros Hwf Hf. unfold right_lookup. pose proof (get_type_ty s f Hf) as E. unfold get_type in E.
  destruct (dget (values s) f) as [t|] eqn:Ev.
  - rewrite (schema_wf_disjoint s f Hwf) in E; [done|]. apply dmem_elem. unfold dmem. by rewrite Ev.
  - destruct (dget (keys s) f); [done|]. by case_decide.
Qed.

Lemma prefix_inj b b' f f' :
  _prefix_duplicate_field f b = _prefix_duplicate_field f' b' → b = b' ∧ f = f'.
Proof. destruct b, b'; cbn; intros [=]; by subst. Qed.

(** A join over a key of the left side only, whose prefixed names are fresh. *)
Section joined.
Context (ls rs : Schema T) (k : string).
Hypothesis ls_wf : schema_wf ls.
Hypothesis rs_wf : schema_wf rs.
Hypothesis k_left : k ∈ dkeys (keys ls).
Hypothesis k_right : k ∉ fields rs.
Hypothesis ts_right : timestamp ls ∉ fields rs.
Hypothesis fresh : ∀ f b, f ∈ fields ls → f ∈ fields rs →
  (_prefix_duplicate_field f b ∉ fields ls) ∧ (_prefix_duplicate_field f b ∉ fields rs).

Local Abbreviation same := (same_field ls rs).
Local Abbreviation nl := (new_name true same).
Local Abbreviation nr := (new_name false same).
Local Abbreviation jk := [(k, ty ls k)].

Lemma same_true f : same f = true ↔ f ∈ fields ls ∧ f ∈ fields rs.
Proof. unfold same_field. rewrite andb_true_iff, !bool_decide_eq_true. done. Qed.

Lemma new_name_inj (b b' : bool) f f' (s s' : Schema T) :
  s = (if b then ls else rs) → s' = (if b' then ls else rs) →
  f ∈ fields s → f' ∈ fields s' →
  new_name b same f = new_name b' same f' → b = b' ∧ f = f'.
Proof.
  intros -> -> Hf Hf'. unfold new_name.
  destruct (same f) eqn:E, (same f') eqn:E'.
  - apply prefix_inj.
  - apply same_true in E as [E1 E2]. destruct (fresh f b E1 E2). intros <-. by destruct b'.
  - apply same_true in E' as [E1 E2]. destruct (fresh f' b' E1 E2). intros ->. by destruct b.
  - intros <-. split; [|done]. destruct b, b'; try done; rewrite <- not_true_iff_false, same_true in E; tauto.
Qed.

Lemma NoDup_map_on {A B} (g : A → B) l :
  NoDup l → (∀ x y, x ∈ l → y ∈ l → g x = g y → x = y) → NoDup (map g l).
Proof.
  induction 1 as [|x l Hx Hl IH]; intros Hg; simpl; constructor; [|apply IH; set_solver].
  intros (y & E & Hy)%list_elem_of_fmap. apply Hg in E; [|set_solver..]. by subst.
Qed.

Lemma joined_names_NoDup : NoDup (map nl (fields ls) ++ map nr (fields rs)).
Proof.
  apply NoDup_app. split_and!.
  - apply NoDup_map_on; [done|]. intros x y Hx Hy E. by eapply (new_name_inj true true x y ls ls).
  - intros n (f & -> & Hf)%list_elem_of_fmap (g & E & Hg)%list_elem_of_fmap.
    by apply (new_name_inj true false f g ls rs) in E as [? _].
  - apply NoDup_map_on; [done|]. intros x y Hx Hy E. by eapply (new_name_inj false false x y rs rs).
Qed.

Lemma k_field : k ∈ fields ls.
Proof. unfold fields. set_solver. Qed.
Lemma k_not_ts : k ≠ timestamp ls.
Proof.
  intros E. unfold schema_wf, fields in ls_wf. apply NoDup_app in ls_wf as (_ & Hd & _).
  apply (Hd k k_left). rewrite E. set_solver.
Qed.

Lemma kept_right : kept (timestamp ls) jk (fields rs) = fields rs.
Proof.
  apply filter_all, Forall_forall. intros f Hf. split; [congruence|].
  apply dmem_false. cbn. rewrite list_elem_of_singleton. congruence.
Qed.

Lemma kept_left : fields ls ≡ₚ k :: kept (timestamp ls) jk (fields ls) ++ [timestamp ls].
Proof.
  pose proof k_not_ts. pose proof k_field. unfold kept. apply NoDup_Permutation; [done| |].
  - constructor.
    + rewrite elem_of_app, list_elem_of_filter, list_elem_of_singleton, dmem_false. cbn. set_solver.
    + apply NoDup_app. split_and!; [by apply NoDup_filter| |apply NoDup_singleton].
      intros f [[? _] _]%list_elem_of_filter. by rewrite list_elem_of_singleton.
  - intros f. rewrite elem_of_cons, elem_of_app, list_elem_of_filter, list_elem_of_singleton, dmem_false.
    cbn. rewrite list_elem_of_singleton. split; [|unfold fields; set_solver].
    destruct (decide (f = k)), (decide (f = timestamp ls)); tauto.
Qed.

Definition joined : Schema T :=
  mkSchema jk (map (λ f, (nl f, ty ls f)) (kept (timestamp ls) jk (fields ls))
               ++ map (λ f, (nr f, ty rs f)) (fields rs)) (timestamp ls).

Lemma new_name_key b : new_name b same k = k ∧ new_name b same (timestamp ls) = timestamp ls.
Proof.
  unfold new_name.
  destruct (same k) eqn:E; [apply same_true in E; tauto|].
  destruct (same (timestamp ls)) eqn:E'; [apply same_true in E'; tauto|]. done.
Qed.

Lemma joined_fields : fields joined ≡ₚ map nl (fields ls) ++ map nr (fields rs).
Proof.
  destruct (new_name_key true) as [Ek Et].
  transitivity (map nl (k :: kept (timestamp ls) jk (fields ls) ++ [timestamp ls]) ++ map nr (fields rs));
    [|by rewrite <- kept_left].
  unfold fields, joined, dkeys. cbn [keys values timestamp map fmap list_fmap app].
  rewrite fmap_app, map_app. change (@fmap list _ _ _) with (@map (string * T) string).
  rewrite !map_map. cbn [map fst]. rewrite Ek, Et. constructor.
  rewrite <- !app_assoc. apply Permutation_app_head. apply Permutation_app_comm.
Qed.

Lemma joined_schema_ok : _joined_schema datetime ls rs None (Some [k]) = Ok joined.
Proof.
  unfold _joined_schema. cbn [from_option_exn mbind res_bind mapR].
  assert (dgetitem (keys ls) k = Ok (ty ls k)) as ->.
  { pose proof (get_type_ty ls k k_field) as E. unfold get_type in E. unfold dgetitem.
    apply dmem_elem in k_left. unfold dmem in k_left. by destruct (dget (keys ls) k). }
  cbn [mbind res_bind]. change (dict_of jk) with jk.
  pose proof joined_names_NoDup as Hn. rewrite kept_left in Hn. rewrite map_cons, map_app in Hn.
  cbn [app] in Hn. apply NoDup_cons_1_2 in Hn. rewrite <- app_assoc in Hn.
  rewrite (join_fields_ok true _ _ _ _ (ty ls)); cbn [mbind res_bind].
  - rewrite (join_fields_ok false _ _ _ _ (ty rs)); cbn [mbind res_bind]; rewrite kept_right.
    + done.
    + unfold dkeys. change (@fmap list _ _ _) with (@map (string * T) string). rewrite app_nil_l, map_map. cbn [fst].
      eapply sublist_NoDup; [exact Hn|]. apply sublist_app; [done|]. by apply sublist_cons.
    + intros. by apply right_lookup_ty.
  - cbn. eapply sublist_NoDup; [exact Hn|]. by apply sublist_inserts_r.
  - intros f [[Hf _] ?]%list_elem_of_filter. by apply left_lookup_ty.
Qed.

Lemma joined_wf : schema_wf joined.
Proof. unfold schema_wf. rewrite joined_fields. apply joined_names_NoDup. Qed.

Lemma get_type_value s n t : schema_wf s → (n, t) ∈ values s → get_type datetime s n = Ok t.
Proof.
  intros Hwf Hin. assert (n ∈ dkeys (values s)) as Hn by (apply list_elem_of_fmap; by exists (n, t)).
  unfold get_type. rewrite (schema_wf_disjoint s n Hwf Hn). rewrite (dget_elem_wf _ _ t); [done| |done].
  unfold schema_wf, fields in Hwf. rewrite !NoDup_app in Hwf. unfold dict_wf. tauto.
Qed.

Lemma get_type_ts s : schema_wf s → get_type datetime s (timestamp s) = Ok datetime.
Proof.
  unfold schema_wf, fields, get_type. rewrite app_assoc, NoDup_app. intros (_ & Hd & _).
  assert (timestamp s ∉ dkeys (keys s) ++ dkeys (values s)) as [H1 H2]%not_elem_of_app.
  { intros Hin. apply (Hd _ Hin). by left. }
  rewrite !(proj2 (dget_None _ _)) by done. by rewrite decide_True.
Qed.

Lemma joined_left_type f : f ∈ fields ls → get_type datetime joined (nl f) = Ok (ty ls f).
Proof.
  intros Hf. destruct (new_name_key true) as [Ek Et]. pose proof Hf as Hf'.
  rewrite kept_left in Hf'. apply elem_of_cons in Hf' as [->|[Hf'|Hf']%elem_of_app].
  - rewrite Ek. unfold get_type. cbn [joined keys dget]. by rewrite decide_True.
  - apply get_type_value; [apply joined_wf|]. cbn [joined values]. apply elem_of_app. left.
    apply list_elem_of_fmap. by exists f.
  - apply list_elem_of_singleton in Hf' as ->. rewrite Et. unfold ty. rewrite get_type_ts by done.
    exact (get_type_ts joined joined_wf).
Qed.

Lemma joined_right_type f : f ∈ fields rs → get_type datetime joined (nr f) = Ok (ty rs f).
Proof.
  intros Hf. apply get_type_value; [apply joined_wf|]. cbn [joined values]. apply elem_of_app. right.
  apply list_elem_of_fmap. by exists f.
Qed.
End joined.
End join.

(** ** [_stream_join_func] *)

Section join_events.
Context {U : Type}.
Implicit Types (l r : event U).
Local Abbreviation pre := _prefix_duplicate_field.

Lemma prefix_ne k b : pre k b ≠ k.
Proof.
  intros E. assert (String.length (pre k b) = String.length k) as H by (by rewrite E).
  destruct b.
  - change (5 + String.length k = String.length k) in H. lia.
  - change (6 + String.length k = String.length k) in H. lia.
Qed.

Lemma join_field_spec k l r :
  dict_wf l → dict_wf r → pre k true ∉ dkeys l → pre k false ∉ dkeys r →
  ∃ l' r', join_field k (l, r) = (Ok (), (l', r')) ∧ dict_wf l' ∧ dict_wf r' ∧
    (∀ x, dget r' x = if decide (x = k) then None else dget r x) ∧
    (∀ x, dget l' x =
       if decide (x = pre k false) then match dget r k with Some v => Some v | None => dget l x end
       else if decide (x = pre k true) then dget l k
       else if decide (x = k) then None else dget l x).
Proof.
  intros Hl Hr Hpl Hpr. pose proof (prefix_ne k true). pose proof (prefix_ne k false).
  assert (pre k true ≠ pre k false) by (intros [? _]%prefix_inj; done).
  assert (dget l (pre k true) = None) by (by apply dget_None).
  unfold join_field, join_left_field, join_right_field, mbind, M_bind. rewrite <- dmem_false in Hpl, Hpr.
  assert (∃ l1, (match dget l k with
    | Some v => if dmem (pre k true) l then (Raise AssertionError, (l, r))
                else (Ok (), (ddel (dset l (pre k true) v) k, r))
    | None => (Ok (), (l, r)) end) = (Ok (), (l1, r)) ∧ dict_wf l1 ∧
    ∀ x, dget l1 x = if decide (x = pre k true) then dget l k
                     else if decide (x = k) then None else dget l x) as (l1 & -> & Hl1 & E1).
  { destruct (dget l k) as [v|] eqn:Ek.
    - rewrite Hpl. eexists. split; [done|]. split; [auto with volga|]. intros x.
      rewrite dget_ddel, dget_dset by auto with volga. repeat case_decide; congruence.
    - exists l. split_and!; [done..|]. intros x. repeat case_decide; congruence. }
  cbn [mbind]. destruct (dget r k) as [v|] eqn:Ek.
  - rewrite Hpr. eexists _, _. split_and!; [done|auto with volga..| |]; intros x.
    + by apply dget_ddel.
    + rewrite dget_dset, E1. by repeat case_decide.
  - exists l1, r. split_and!; [done..| |]; intros x; [by case_decide; subst|].
    rewrite E1. repeat case_decide; congruence.
Qed.

Lemma join_fields_spec ks l r :
  dict_wf l → dict_wf r → NoDup ks →
  (∀ k, k ∈ ks → (pre k true ∉ dkeys l) ∧ (pre k false ∉ dkeys r)) →
  (∀ k b, k ∈ ks → pre k b ∉ ks) →
  ∃ l' r', for_each ks join_field (l, r) = (Ok (), (l', r')) ∧ dict_wf l' ∧ dict_wf r' ∧
    (∀ k, k ∈ ks → dget l' k = None ∧ dget r' k = None ∧ dget l' (pre k true) = dget l k ∧
       dget l' (pre k false) = match dget r k with Some v => Some v | None => dget l (pre k false) end) ∧
    (∀ x, (x ∉ ks) → dget r' x = dget r x) ∧
    (∀ x, (x ∉ ks) → (∀ k b, k ∈ ks → x ≠ pre k b) → dget l' x = dget l x).
Proof.
  revert l r. induction ks as [|k ks IH]; intros l r Hl Hr Hnd Hp Hks.
  - exists l, r. split_and!; try done. set_solver.
  - apply NoDup_cons in Hnd as [Hk Hnd]. destruct (Hp k) as [Hpl Hpr]; [by left|].
    destruct (join_field_spec k l r Hl Hr Hpl Hpr) as (l1 & r1 & E1 & Hl1 & Hr1 & Er1 & El1).
    assert (∀ k', k' ∈ ks → ∀ b b', pre k' b ≠ pre k b') as Hne.
    { intros k' Hk' b b' [_ ->]%prefix_inj. done. }
    assert (∀ k', k' ∈ ks → ∀ b, (pre k' b ≠ k) ∧ (k' ≠ pre k b) ∧ k' ≠ k) as Hne'.
    { intros k' Hk' b. split_and!.
      - intros E. apply (Hks k' b); [by right|]. rewrite E. by left.
      - intros ->. apply (Hks k b); [by left|by right].
      - congruence. }
    destruct (IH l1 r1) as (l2 & r2 & E2 & Hl2 & Hr2 & Hin & Hr' & Hl'); [done..| | |].
    + intros k' Hk'. destruct (Hp k') as [H1 H2]; [by right|]. rewrite <- !dget_None, El1, Er1 in *.
      destruct (Hne' k' Hk' true) as (? & _), (Hne' k' Hk' false) as (? & _).
      rewrite !decide_False by auto. done.
    + intros k' b Hk' Hx. apply (Hks k' b); by right.
    + exists l2, r2. split_and!; [|done|done| | |].
      * cbn [for_each]. unfold mbind, M_bind. by rewrite E1.
      * intros k' [->|Hk']%elem_of_cons.
        -- assert (∀ b, (pre k b ∉ ks) ∧ ∀ k0 b0, k0 ∈ ks → pre k b ≠ pre k0 b0) as Hf.
           { intros b. split; [intros Hx; apply (Hks k b); [by left|by right]|].
             intros k0 b0 Hk0 E. by apply (Hne k0 Hk0 b0 b). }
           assert (∀ b, pre k b ≠ k) as Hpk by (intros; apply prefix_ne).
           split_and!.
           ++ rewrite Hl', El1; [|done|by intros k0 b0 Hk0 E; destruct (Hne' k0 Hk0 b0) as [[] _]].
              rewrite 2!decide_False, decide_True; [done|done|by apply not_eq_sym, Hpk..].
           ++ rewrite Hr', Er1 by done. by rewrite decide_True.
           ++ rewrite Hl', El1 by (by apply Hf).
              rewrite decide_False, decide_True; [done|done|by intros [? _]%prefix_inj].
           ++ rewrite Hl', El1 by (by apply Hf). by rewrite decide_True.
        -- destruct (Hin k' Hk') as (? & ? & -> & ->). destruct (Hne' k' Hk' true) as (? & ? & ?).
           destruct (Hne' k' Hk' false) as (? & ? & ?). rewrite !El1, Er1.
           rewrite !decide_False by auto. done.
      * intros x [??]%not_elem_of_cons. rewrite Hr' by done. rewrite Er1. by rewrite decide_False.
      * intros x [? ?]%not_elem_of_cons Hx. rewrite Hl', El1; [|done|intros; apply Hx; by right].
        rewrite !decide_False; [done|done|apply Hx; by left..].
Qed.

Lemma join_func_ok ks l r :
  dict_wf l → dict_wf r → NoDup ks →
  (∀ k, k ∈ ks → (pre k true ∉ dkeys l) ∧ (pre k false ∉ dkeys r)) →
  (∀ k b, k ∈ ks → pre k b ∉ ks) →
  ∃ out l' r', _stream_join_func ks (l, r) = (Ok out, (l', r')) ∧
    for_each ks join_field (l, r) = (Ok (), (l', r')) ∧ dict_wf out ∧
    ∀ x, dget out x = match dget r' x with Some v => Some v | None => dget l' x end.
Proof.
  intros Hl Hr Hnd Hp Hks. destruct (join_fields_spec ks l r) as (l' & r' & E & Hl' & Hr' & _); [done..|].
  exists (dmerge l' r'), l', r'. unfold _stream_join_func, mbind, M_bind. rewrite E.
  unfold merged_event. cbn [fst snd]. change (dmerge [] l') with (dict_of l'). rewrite (dict_of_id l' Hl').
  split_and!; [done..|auto with volga|]. intros x. by apply dget_dmerge.
Qed.
End join_events.

(** ** Types of events *)

Section typed_join.
Context {T U : Type} (datetime : T) (has_type : U → T → Prop).
Local Abbreviation pre := _prefix_duplicate_field.

(** The event has exactly the fields of the schema, each with a value of its type. *)
Definition conforms (s : Schema T) (e : event U) : Prop :=
  dict_wf e ∧ dkeys e ≡ₚ fields s ∧
  ∀ f v, dget e f = Some v → ∃ t, get_type datetime s f = Ok t ∧ has_type v t.

(** Both sides can be joined on the left key [k]: [k] and the left timestamp belong to the left side
    alone, and prefixing a common field does not give a name that is in use. *)
Record joinable (ls rs : Schema T) (k : string) : Prop := {
  j_left : schema_wf ls;
  j_right : schema_wf rs;
  j_key : k ∈ dkeys (keys ls);
  j_key_right : k ∉ fields rs;
  j_ts_right : timestamp ls ∉ fields rs;
  j_fresh : ∀ f b, f ∈ fields ls → f ∈ fields rs → (pre f b ∉ fields ls) ∧ (pre f b ∉ fields rs);
}.

Section one_join.
Context (ls rs : Schema T) (k : string) (ks : list string) (l r : event U).
Hypothesis Hj : joinable ls rs k.
Hypothesis Hl : conforms ls l.
Hypothesis Hr : conforms rs r.
Hypothesis Hnd : NoDup ks.
Hypothesis Hks : ∀ f, f ∈ ks ↔ f ∈ fields ls ∧ f ∈ fields rs.
Local Abbreviation nl := (new_name true (same_field ls rs)).
Local Abbreviation nr := (new_name false (same_field ls rs)).

Lemma new_name_ks b f : new_name b (same_field ls rs) f = if decide (f ∈ ks) then pre f b else f.
Proof.
  unfold new_name. case_decide as Hd; rewrite Hks, <- same_true in Hd; [by rewrite Hd|].
  apply not_true_is_false in Hd. by rewrite Hd.
Qed.

Lemma left_field f : f ∈ dkeys l ↔ f ∈ fields ls.
Proof. destruct Hl as (_ & E & _). by rewrite E. Qed.
Lemma right_field f : f ∈ dkeys r ↔ f ∈ fields rs.
Proof. destruct Hr as (_ & E & _). by rewrite E. Qed.

Lemma typed_join_lookup :
  ∃ out l' r', _stream_join_func ks (l, r) = (Ok out, (l', r')) ∧ dict_wf out ∧
    (∀ f, f ∈ fields ls → dget out (nl f) = dget l f) ∧
    (∀ f, f ∈ fields rs → dget out (nr f) = dget r f) ∧
    (∀ x, (∀ f, f ∈ fields ls → x ≠ nl f) → (∀ f, f ∈ fields rs → x ≠ nr f) → dget out x = None).
Proof.
  assert (∀ f b, f ∈ ks → (pre f b ∉ fields ls) ∧ (pre f b ∉ fields rs)) as Hf.
  { intros f b [??]%Hks. by apply (j_fresh _ _ _ Hj). }
  assert (∀ f b, f ∈ ks → dget r (pre f b) = None) as Hrn.
  { intros f b Hin. apply dget_None. rewrite right_field. by apply Hf. }
  assert (∀ x, x ∈ fields ls ∨ x ∈ fields rs → ∀ f b, f ∈ ks → x ≠ pre f b) as Hx.
  { intros x Hx f b Hin ->. destruct (Hf f b Hin). tauto. }
  assert (∀ f, f ∈ ks → (pre f true ∉ dkeys l) ∧ (pre f false ∉ dkeys r)) as Hp.
  { intros f Hin. rewrite left_field, right_field. split; by apply Hf. }
  assert (∀ f b, f ∈ ks → pre f b ∉ ks) as Hpk.
  { intros f b Hin. rewrite Hks. destruct (Hf f b Hin). tauto. }
  destruct Hl as (Hlw & _), Hr as (Hrw & _).
  destruct (join_func_ok ks l r) as (out & l' & r' & E & E' & Hw & Ho); [done..|].
  destruct (join_fields_spec ks l r) as (l1 & r1 & E1 & _ & _ & Hin & Hrr & Hll); [done..|].
  rewrite E' in E1. injection E1 as <- <-. exists out, l', r'. split_and!; [done..| | |].
  - intros f Hfl. rewrite new_name_ks, Ho. case_decide as Hd.
    + rewrite Hrr, Hrn by auto. by apply Hin.
    + rewrite Hrr, (proj2 (dget_None r f)), Hll; auto. rewrite right_field. rewrite Hks in Hd. tauto.
  - intros f Hfr. rewrite new_name_ks, Ho. apply right_field, dmem_elem in Hfr as Hm. unfold dmem in Hm.
    case_decide as Hd.
    + rewrite Hrr, Hrn by auto. destruct (Hin f Hd) as (_ & _ & _ & ->). by destruct (dget r f).
    + rewrite Hrr by done. by destruct (dget r f).
  - intros x Hxl Hxr. rewrite Ho. destruct (decide (x ∈ ks)) as [Hd|Hd].
    { by destruct (Hin x Hd) as (-> & -> & _). }
    rewrite Hrr, (proj2 (dget_None r x)); [|rewrite right_field|done].
    2: { intros Hfr. apply (Hxr x Hfr). rewrite new_name_ks. by rewrite decide_False. }
    rewrite Hll; [|done|].
    + apply dget_None. rewrite left_field. intros Hfl. apply (Hxl x Hfl). rewrite new_name_ks.
      by rewrite decide_False.
    + intros f b Hfk ->. destruct (proj1 (Hks f) Hfk) as [H1 H2]. destruct b.
      * apply (Hxl f H1). rewrite new_name_ks. by rewrite decide_True.
      * apply (Hxr f H2). rewrite new_name_ks. by rewrite decide_True.
Qed.

Lemma typed_join :
  ∃ out l' r', _stream_join_func ks (l, r) = (Ok out, (l', r')) ∧ conforms (joined datetime ls rs k) out.
Proof.
  destruct typed_join_lookup as (out & l' & r' & E & Hw & Hol & Hor & Hon).
  exists out, l', r'. split; [done|]. destruct Hj as [J1 J2 J3 J4 J5 J6].
  assert (∀ x v, dget out x = Some v →
    (∃ f, f ∈ fields ls ∧ x = nl f) ∨ (∃ f, f ∈ fields rs ∧ x = nr f)) as Hcase.
  { intros x v Hv. destruct (decide (x ∈ map nl (fields ls))) as [(f & -> & ?)%list_elem_of_fmap|H1]; [by eauto|].
    destruct (decide (x ∈ map nr (fields rs))) as [(f & -> & ?)%list_elem_of_fmap|H2]; [by eauto|].
    rewrite Hon in Hv; [done| |]; intros f Hf ->; [apply H1|apply H2]; by apply list_elem_of_fmap_2. }
  split_and!; [done| |].
  - rewrite joined_fields by done. apply NoDup_Permutation; [done|by apply (joined_names_NoDup ls rs k)|].
    intros x. rewrite <- dmem_elem, elem_of_app. unfold dmem. split.
    + destruct (dget out x) as [v|] eqn:Ev; [intros _|done].
      destruct (Hcase _ _ Ev) as [(f & ? & ->)|(f & ? & ->)]; [left|right]; by apply list_elem_of_fmap_2.
    + intros [(f & -> & Hf)%list_elem_of_fmap|(f & -> & Hf)%list_elem_of_fmap].
      * rewrite Hol by done. by apply left_field, dmem_elem in Hf.
      * rewrite Hor by done. by apply right_field, dmem_elem in Hf.
  - intros x v Hv. destruct (Hcase _ _ Hv) as [(f & Hf & ->)|(f & Hf & ->)].
    + rewrite Hol in Hv by done. rewrite joined_left_type by done. destruct Hl as (_ & _ & Ht).
      destruct (Ht _ _ Hv) as (t & Et & ?). rewrite get_type_ty in Et by done. simplify_eq. eauto.
    + rewrite Hor in Hv by done. rewrite joined_right_type by done. destruct Hr as (_ & _ & Ht).
      destruct (Ht _ _ Hv) as (t & Et & ?). rewrite get_type_ty in Et by done. simplify_eq. eauto.
Qed.
End one_join.

(** C23. When the sides can be joined on a left key, the join of two well-typed events, in whatever order
    the common fields are visited, is a well-typed event of the joined schema. *)
Theorem join_event_typed (ls rs : Schema T) (k : string) (ks : list string) (l r : event U) :
  joinable ls rs k → conforms ls l → conforms rs r →
  NoDup ks → (∀ f, f ∈ ks ↔ f ∈ fields ls ∧ f ∈ fields rs) →
  ∃ js out lr, _joined_schema datetime ls rs None (Some [k]) = Ok js ∧
    _stream_join_func ks (l, r) = (Ok out, lr) ∧ conforms js out.
Proof.
  intros Hj Hl Hr Hnd Hks. destruct (typed_join ls rs k ks l r) as (out & l' & r' & E & Hc); [done..|].
  exists (joined datetime ls rs k), out, (l', r'). destruct Hj. by rewrite joined_schema_ok.
Qed.

(** A join [on] a key both sides have: the schema promises the key, but the merged event only has its
    two prefixed copies. *)
Theorem join_on_drops_key (ls rs js : Schema T) (left_on : option (list string)) (k : string)
    (ks : list string) (l r : event U) :
  _joined_schema datetime ls rs (Some [k]) left_on = Ok js →
  k ∈ ks → NoDup ks → dict_wf l → dict_wf r →
  (∀ f, f ∈ ks → (pre f true ∉ dkeys l) ∧ (pre f false ∉ dkeys r)) →
  (∀ f b, f ∈ ks → pre f b ∉ ks) →
  ∃ out lr, _stream_join_func ks (l, r) = (Ok out, lr) ∧
    k ∈ fields js ∧ (k ∉ dkeys out) ∧ ¬ conforms js out.
Proof.
  intros Ejs Hk Hnd Hl Hr Hp Hks.
  destruct (join_func_ok ks l r) as (out & l' & r' & E & E' & _ & Ho); [done..|].
  destruct (join_fields_spec ks l r) as (l1 & r1 & E1 & _ & _ & Hin & _); [done..|].
  rewrite E' in E1. injection E1 as <- <-. exists out, (l', r').
  assert (k ∈ fields js) as Hf.
  { unfold _joined_schema in Ejs. cbn [from_option_exn mbind res_bind mapR] in Ejs.
    destruct (dgetitem (keys ls) k) as [t|]; [|done]. cbn [mbind res_bind] in Ejs.
    destruct (foldR _ _ (fields ls)) as [vs|]; [|done]. cbn [mbind res_bind] in Ejs.
    destruct (foldR _ _ (fields rs)) as [vs'|]; [|done]. cbn in Ejs. injection Ejs as <-. by left. }
  assert (k ∉ dkeys out) as Hn.
  { apply dget_None. rewrite Ho. by destruct (Hin k Hk) as (-> & -> & _). }
  split_and!; [done..|]. intros (_ & Hc & _). apply Hn. by rewrite Hc.
Qed.
End typed_join.

(** The join function takes the common fields out of the right event itself: when the same right event
    is joined with a second left one, the second output lacks its copy of the field. *)
Theorem join_reuse_loses_field {U} (ks : list string) (k : string) (v : U) (l1 l2 r : event U) :
  k ∈ ks → NoDup ks → dict_wf l1 → dict_wf l2 → dict_wf r → dget r k = Some v →
  (∀ f b, f ∈ ks → (_prefix_duplicate_field f b ∉ dkeys l1) ∧ (_prefix_duplicate_field f b ∉ dkeys l2) ∧
     (_prefix_duplicate_field f b ∉ dkeys r) ∧ (_prefix_duplicate_field f b ∉ ks)) →
  ∃ out1 l1' r' out2 lr,
    _stream_join_func ks (l1, r) = (Ok out1, (l1', r')) ∧
    _stream_join_func ks (l2, r') = (Ok out2, lr) ∧
    dget out1 (_prefix_duplicate_field k false) = Some v ∧
    dget out2 (_prefix_duplicate_field k false) = None.
Proof.
  intros Hk Hnd H1 H2 Hr Hv Hf.
  assert (∀ f b, f ∈ ks → _prefix_duplicate_field f b ∉ ks) as Hks by (intros; by apply Hf).
  destruct (join_func_ok ks l1 r) as (out1 & l1' & r' & E1 & F1 & _ & O1);
    [done..|intros f ?; split; by apply Hf|done|].
  destruct (join_fields_spec ks l1 r) as (? & ? & E & _ & Hr' & Hin & Hrr & _);
    [done..|intros f ?; split; by apply Hf|done|].
  rewrite F1 in E. injection E as <- <-.
  assert (∀ f b, f ∈ ks → dget r' (_prefix_duplicate_field f b) = None) as Hn.
  { intros f b ?. rewrite Hrr by auto. apply dget_None. by apply Hf. }
  assert (∀ f, f ∈ ks → (_prefix_duplicate_field f true ∉ dkeys l2) ∧ (_prefix_duplicate_field f false ∉ dkeys r')) as Hp.
  { intros f ?. split; [by apply Hf|]. apply dget_None. auto. }
  destruct (join_func_ok ks l2 r') as (out2 & l2' & r2 & E2 & F2 & _ & O2); [done..|].
  destruct (join_fields_spec ks l2 r') as (? & ? & E & _ & _ & Hin2 & Hrr2 & _); [done..|].
  rewrite F2 in E. injection E as <- <-.
  exists out1, l1', r', out2, (l2', r2). split_and!; [done..| |].
  - rewrite O1, Hn by done. destruct (Hin k Hk) as (_ & _ & _ & ->). by rewrite Hv.
  - rewrite O2, Hrr2, Hn by auto. destruct (Hin2 k Hk) as (_ & _ & _ & ->).
    destruct (Hin k Hk) as (_ & -> & _). apply dget_None. by apply Hf.
Qed.

(** ** The output of a window aggregate *)

Section copy.
Context {A B : Type} (e : exn) (g : string → option A) (h : A → B).
Local Abbreviation copy := (foldR (λ out k, v ← from_option_exn e (g k); Ok (dset out k (h v)))).

Lemma copy_ok ks acc :
  dict_wf acc → (∀ k, k ∈ ks → is_Some (g k)) →
  ∃ out, copy acc ks = Ok out ∧ dict_wf out ∧
    ∀ x, dget out x = if decide (x ∈ ks) then h <$> g x else dget acc x.
Proof.
  revert acc. induction ks as [|k ks IH]; intros acc Hw Hg.
  - exists acc. split_and!; [done..|]. intros x. by rewrite decide_False by apply not_elem_of_nil.
  - destruct (Hg k) as [v Hv]; [by left|]. cbn [foldR]. rewrite Hv. cbn [from_option_exn mbind res_bind].
    destruct (IH (dset acc k (h v))) as (out & E & Hwo & Ho); [auto with volga|intros; apply Hg; by right|].
    exists out. split_and!; [done..|]. intros x. rewrite Ho, dget_dset.
    destruct (decide (x ∈ ks)) as [Hx|Hx]; [by rewrite decide_True by (by right)|].
    destruct (decide (x = k)) as [->|Hne]; [rewrite decide_True by (by left); by rewrite Hv|].
    by rewrite decide_False by (by apply not_elem_of_cons).
Qed.

Lemma copy_raise ks acc : (∃ k, k ∈ ks ∧ g k = None) → copy acc ks = Raise e.
Proof.
  revert acc. induction ks as [|k ks IH]; intros acc (k' & Hk & Hg); [by apply elem_of_nil in Hk|].
  cbn [foldR]. destruct (g k) as [v|] eqn:Ev; cbn [from_option_exn mbind res_bind]; [|done].
  apply IH. exists k'. split; [|done]. apply elem_of_cons in Hk as [->|?]; [congruence|done].
Qed.
End copy.

Section output.
Context {T U K : Type} (of_dec : dec → U) (isoparse : U → res (res dec)).
Context (s : Schema T) (aggs : dict string dec) (record : rec K (event U)).

(** The input event has every key of the output schema and a value that reads as a time, and every
    value field of the schema is an aggregate. *)
Definition output_complete : Prop :=
  Forall (λ k, is_Some (dget (r_value record) k)) (dkeys (keys s)) ∧
  Exists (λ v, is_time_str isoparse v = true) (dvalues (r_value record)) ∧
  Forall (λ n, is_Some (dget aggs n)) (dkeys (values s)).

Lemma head_filter_Exists (P : U → Prop) `{!∀ x, Decision (P x)} l :
  Exists P l → ∃ v, head (filter P l) = Some v ∧ P v ∧ v ∈ l.
Proof.
  intros He. destruct (filter P l) as [|v l'] eqn:E.
  - exfalso. apply Exists_exists in He as (x & Hx & HP).
    assert (x ∈ filter P l) as Hin by (by apply list_elem_of_filter). rewrite E in Hin. by apply elem_of_nil in Hin.
  - exists v. assert (v ∈ filter P l) as [??]%list_elem_of_filter by (rewrite E; by left). done.
Qed.

Lemma output_ok :
  schema_wf s → output_complete →
  ∃ out ts, _output_window_func of_dec isoparse s aggs record = Ok (mkRec None out (stream_name record) (event_time record) None) ∧
    dkeys out ≡ₚ fields s ∧
    (∀ k, k ∈ dkeys (keys s) → dget out k = dget (r_value record) k) ∧
    (∀ n, n ∈ dkeys (values s) → dget out n = of_dec <$> dget aggs n) ∧
    dget out (timestamp s) = Some ts ∧ first_time isoparse (r_value record) = Some ts ∧ is_time_str isoparse ts = true ∧ ts ∈ dvalues (r_value record).
Proof.
  intros Hwf (Hk & Ht & Hv). unfold schema_wf, fields in Hwf. pose proof Hwf as Hwf'.
  rewrite !NoDup_app in Hwf. destruct Hwf as (Hnk & Hd1 & Hnv & Hd2 & _). unfold _output_window_func.
  destruct (copy_ok (RuntimeError "Can not locate key field") (dget (r_value record)) id (dkeys (keys s)) [])
    as (o1 & E1 & W1 & L1); [constructor|by apply Forall_forall|].
  unfold id in E1. rewrite E1. cbn [mbind res_bind].
  destruct (head_filter_Exists _ _ Ht) as (ts & Ets & Hts & Hin). unfold first_time. rewrite Ets. cbn [from_option_exn mbind res_bind].
  destruct (copy_ok (RuntimeError "Unable to locate in aggregates") (dget aggs) of_dec (dkeys (values s))
    (dset o1 (timestamp s) ts)) as (o2 & E2 & W2 & L2); [auto with volga|by apply Forall_forall|].
  rewrite E2. exists o2, ts.
  assert (timestamp s ∉ dkeys (values s)) as Htv by (intros Hx; apply (Hd2 _ Hx); by left).
  assert (timestamp s ∉ dkeys (keys s)) as Htk.
  { intros Hx. apply (Hd1 _ Hx). apply elem_of_app. right. by left. }
  assert (∀ k, k ∈ dkeys (keys s) → k ∉ dkeys (values s)) as Hkv.
  { intros k Hx Hy. apply (Hd1 _ Hx). apply elem_of_app. by left. }
  assert (∀ k, k ∈ dkeys (keys s) → dget o2 k = dget (r_value record) k) as Ok1.
  { intros k Hx. rewrite L2, decide_False by auto. rewrite dget_dset_ne by (by intros ->).
    rewrite L1, decide_True by done. by destruct (dget _ k). }
  assert (∀ n, n ∈ dkeys (values s) → dget o2 n = of_dec <$> dget aggs n) as Ok2.
  { intros n Hn. by rewrite L2, decide_True. }
  assert (dget o2 (timestamp s) = Some ts) as Ok3.
  { rewrite L2, decide_False by done. apply dget_dset_eq. }
  split_and!; [done| |done..]. apply NoDup_Permutation; [done|done|].
  intros x. unfold fields. rewrite !elem_of_app, list_elem_of_singleton, <- dmem_elem. unfold dmem. split.
  - destruct (dget o2 x) as [u|] eqn:Ex; [intros _|done]. rewrite L2 in Ex. case_decide; [tauto|].
    rewrite dget_dset in Ex. case_decide; [tauto|]. rewrite L1 in Ex. case_decide; [tauto|done].
  - rewrite Forall_forall in Hk, Hv. intros [Hx|[Hx| ->]].
    + rewrite Ok1 by done. by destruct (Hk _ Hx) as [? ->].
    + rewrite Ok2 by done. by destruct (Hv _ Hx) as [? ->].
    + by rewrite Ok3.
Qed.

Lemma output_raises :
  ¬ output_complete → ∃ msg, _output_window_func of_dec isoparse s aggs record = Raise (RuntimeError msg).
Proof.
  intros Hn. unfold _output_window_func.
  destruct (decide (Forall (λ k, is_Some (dget (r_value record) k)) (dkeys (keys s)))) as [Hk|Hk].
  2: { apply not_Forall_Exists, Exists_exists in Hk as (k & Hin & Hk); [|solve_decision].
       rewrite (copy_raise _ (dget (r_value record)) id); [by eexists|]. exists k. split; [done|].
       by apply eq_None_not_Some. }
  destruct (copy_ok (RuntimeError "Can not locate key field") (dget (r_value record)) id (dkeys (keys s)) [])
    as (o1 & E1 & W1 & _); [constructor|by apply Forall_forall|].
  unfold id in E1. rewrite E1. cbn [mbind res_bind].
  unfold first_time. destruct (head (filter _ _)) as [ts|] eqn:Eh; cbn [from_option_exn mbind res_bind]; [|by eexists].
  assert (Exists (λ v, is_time_str isoparse v = true) (dvalues (r_value record))) as Ht.
  { apply Exists_exists. exists ts. apply head_Some_elem_of in Eh. by apply list_elem_of_filter in Eh as [??]. }
  rewrite (copy_raise _ (dget aggs) of_dec); [by eexists|].
  destruct (decide (Forall (λ n, is_Some (dget aggs n)) (dkeys (values s)))) as [Hv|Hv]; [by destruct Hn|].
  apply not_Forall_Exists, Exists_exists in Hv as (n & Hin & Hv); [|solve_decision].
  exists n. split; [done|]. by apply eq_None_not_Some.
Qed.

(** The output function of an aggregate builds an event with exactly the fields of the output schema:
    keys from the input event, value fields from the aggregates, and the first time of the input
    event; a missing key, time or aggregate raises [RuntimeError]. *)
Theorem output_event_complete :
  schema_wf s →
  (output_complete →
   ∃ out ts, _output_window_func of_dec isoparse s aggs record = Ok (mkRec None out (stream_name record) (event_time record) None) ∧
     dkeys out ≡ₚ fields s ∧
     (∀ k, k ∈ dkeys (keys s) → dget out k = dget (r_value record) k) ∧
     (∀ n, n ∈ dkeys (values s) → dget out n = of_dec <$> dget aggs n) ∧
     dget out (timestamp s) = Some ts ∧ first_time isoparse (r_value record) = Some ts ∧ is_time_str isoparse ts = true ∧ ts ∈ dvalues (r_value record)) ∧
  (¬ output_complete → ∃ msg, _output_window_func of_dec isoparse s aggs record = Raise (RuntimeError msg)).
Proof. intros Hwf. split; [by apply output_ok|apply output_raises]. Qed.
End output.

(** ** Witnesses: orders joined with users *)

Definition orders_schema : Schema string :=
  mkSchema [("buyer_id", "str")] [("product", "str"); ("name", "str")] "purchased_at".
Definition users_schema : Schema string := mkSchema [("user_id", "str")] [("name", "str")] "registered_at".
Definition w_order : event string :=
  [("name", "book"); ("buyer_id", "7"); ("product", "p1"); ("purchased_at", "2024-05-07")].
Definition w_user : event string := [("user_id", "7"); ("registered_at", "2024-01-01"); ("name", "ann")].
Definition w_type (v t : string) : Prop := t = "str" ∨ (t = "datetime" ∧ String.length v = 10).

Lemma w_conforms :
  conforms "datetime" w_type orders_schema w_order ∧ conforms "datetime" w_type users_schema w_user.
Proof.
  split; (split_and!; [by apply (bool_decide_unpack _)|by apply (bool_decide_unpack _)|]);
    intros f v E; cbn [w_order w_user dget] in E;
    repeat case_decide; simplify_eq; eexists; (split; [reflexivity|]); unfold w_type; auto.
Qed.

Lemma join_event_typed_witness :
  ∃ js out lr, _joined_schema "datetime" orders_schema users_schema None (Some ["buyer_id"]) = Ok js ∧
    _stream_join_func ["name"] (w_order, w_user) = (Ok out, lr) ∧ conforms "datetime" w_type js out.
Proof.
  apply (join_event_typed "datetime" w_type).
  - split; try (by apply (bool_decide_unpack _)). intros f b H1 H2.
    assert (f = "name") as -> by (vm_compute in H1; set_solver).
    destruct b; split; by apply (bool_decide_unpack _).
  - apply w_conforms.
  - apply w_conforms.
  - by apply (bool_decide_unpack _).
  - intros f. unfold fields. cbn. set_solver.
Defined.

Definition sales_schema : Schema string := mkSchema [("user_id", "str")] [("product", "str")] "purchased_at".
Definition w_sale (p : string) : event string := [("user_id", "7"); ("product", p); ("purchased_at", "2024-05-07")].

Lemma w_sale_fresh (f : string) (b : bool) :
  f ∈ ["user_id"] →
  (_prefix_duplicate_field f b ∉ dkeys (w_sale "p1")) ∧ (_prefix_duplicate_field f b ∉ dkeys (w_sale "p2")) ∧
  (_prefix_duplicate_field f b ∉ dkeys w_user) ∧ (_prefix_duplicate_field f b ∉ ["user_id"]).
Proof. intros ->%list_elem_of_singleton. destruct b; split_and!; by apply (bool_decide_unpack _). Qed.

Definition sales_users_schema : Schema string :=
  mkSchema [("user_id", "str")] [("product", "str"); ("name", "str"); ("registered_at", "datetime")] "purchased_at".

Lemma join_on_drops_key_witness :
  _joined_schema "datetime" sales_schema users_schema (Some ["user_id"]) None = Ok sales_users_schema ∧
  ∃ out lr, _stream_join_func ["user_id"] (w_sale "p1", w_user) = (Ok out, lr) ∧
    "user_id" ∈ fields sales_users_schema ∧ ("user_id" ∉ dkeys out) ∧
    ¬ conforms "datetime" w_type sales_users_schema out.
Proof.
  split; [vm_compute; reflexivity|].
  apply (join_on_drops_key "datetime" w_type sales_schema users_schema _ None).
  - vm_compute. reflexivity.
  - by left.
  - by apply (bool_decide_unpack _).
  - by apply (bool_decide_unpack _).
  - by apply (bool_decide_unpack _).
  - intros f Hf. split; by apply w_sale_fresh.
  - intros f b Hf. by apply w_sale_fresh.
Defined.

Lemma join_reuse_loses_field_witness :
  ∃ out1 l1' r' out2 lr,
    _stream_join_func ["user_id"] (w_sale "p1", w_user) = (Ok out1, (l1', r')) ∧
    _stream_join_func ["user_id"] (w_sale "p2", r') = (Ok out2, lr) ∧
    dget out1 "right_user_id" = Some "7" ∧ dget out2 "right_user_id" = None.
Proof.
  apply (join_reuse_loses_field ["user_id"] "user_id"); try (by apply (bool_decide_unpack _)).
  apply w_sale_fresh.
Defined.

Lemma output_event_complete_witness :
  let s := mkSchema [("user_id", "str")] [("total", "decimal")] "ts" in
  ∃ out ts, _output_window_func (λ _, "3") (λ v, if decide (String.length v = 10) then Ok (Ok (dec_of_Z 0)) else Raise TypeError)
      s [("total", dec_of_Z 3)] (new_KeyRecord "7" (w_sale "p1") None None)
    = Ok (mkRec None out None None None) ∧
    dkeys out ≡ₚ ["user_id"; "total"; "ts"] ∧ dget out "ts" = Some ts ∧ ts ∈ dvalues (w_sale "p1").
Proof.
  intros s.
  destruct (output_event_complete (λ _, "3")
    (λ v, if decide (String.length v = 10) then Ok (Ok (dec_of_Z 0)) else Raise TypeError) s [("total", dec_of_Z 3)]
    (new_KeyRecord "7" (w_sale "p1") None None)) as [H _]; [by apply (bool_decide_unpack _)|].
  destruct H as (out & ts & E & Hp & _ & _ & Ht & _ & _ & Hin).
  - split_and!; by apply (bool_decide_unpack _).
  - exists out, ts. done.
Defined.
