(* ===== verification/Client.v ===== *)
(** * The client: from a pipeline of dataset operators to a job graph
    ([volga/client/client.py], [volga/api/source/source.py],
     [volga/api/dataset/dataset.py], [volga/api/dataset/operators.py],
     [volga/streaming/api/context/streaming_context.py])

    A pipeline is the tree of operator nodes its function returns; its leaves
    are [Dataset] objects, named here by the name of their class.  A [Dataset]
    keeps the stream it was initialised with, across pipelines and calls; the
    other nodes are created by the pipeline function, and their stream is the
    value of the traversal.  A new streaming context is made for every call. *)

From S2P Require Import Prelude PyDict JobGraph.

Section client.
Context {V : Type}.

(** ** Source functions and the context *)

Inductive source_func :=
| CollectionSourceFunction (values : list V)
| DelayedCollectionSourceFunction (values : list V) (delay_s : Z)
| LocalFileSourceFunction (filename : string).

(** The constructors of the source functions of Kafka and MySQL raise. *)
Definition KafkaSourceFunction (bootstrap_servers topic : string)
    (security_protocol sasl_mechanism sasl_plain_username sasl_plain_password : option string) (verify_cert : bool)
    : res source_func := Raise NotImplementedError.
Definition MysqlSourceFunction (host port user password database table : string) : res source_func := Raise NotImplementedError.

(** [ctx.source] on a new source function; the function is kept in the operator. *)
Definition source_of (func : res source_func) : M StreamingContext stream := liftR func ≫= λ _, source.

(** [ctx.from_collection] and [ctx.from_delayed_collection] *)
Definition from_collection (values : list V) : M StreamingContext stream :=
  match values with [] => raise AssertionError | _ => source_of (Ok (CollectionSourceFunction values)) end.
Definition from_values (values : list V) : M StreamingContext stream := from_collection values.
Definition from_delayed_collection (values : list V) (delay_s : Z) : M StreamingContext stream :=
  match values with [] => raise AssertionError | _ => source_of (Ok (DelayedCollectionSourceFunction values delay_s)) end.
Definition read_text_file (filename : string) : M StreamingContext stream := source_of (Ok (LocalFileSourceFunction filename)).
Definition ctx_kafka (bootstrap_servers topic : string) (sasl_plain_username sasl_plain_password : option string) : M StreamingContext stream :=
  source_of (KafkaSourceFunction bootstrap_servers topic None None sasl_plain_username sasl_plain_password false).
Definition ctx_mysql (database table host port user password : string) : M StreamingContext stream :=
  source_of (MysqlSourceFunction host port user password database table).

(** ** Connectors *)

Record KafkaSource := mkKafkaSource { bootstrap_servers : string; username : string; kafka_password : string }.
Record MysqlSource := mkMysqlSource { host : string; port : string; user : string; mysql_password : string; database : string }.

Inductive connector :=
| KafkaConnector (source : KafkaSource) (topic : string)
| MysqlConnector (source : MysqlSource) (table : string)
| MockOfflineConnector (items : list V)
| MockOnlineConnector (items : list V) (delay_s : Z).

(** The methods of the sources that make connectors. *)
Definition topic (self : KafkaSource) (t : string) : connector := KafkaConnector self t.
Definition table (self : MysqlSource) (table_name : string) : connector := MysqlConnector self table_name.
Definition mock_with_delayed_items (items : list V) (delay_s : Z) : connector := MockOnlineConnector items delay_s.
Definition mock_with_items (items : list V) : connector := MockOfflineConnector items.

Definition to_stream_source (c : connector) : M StreamingContext stream :=
  match c with
  | KafkaConnector s t => ctx_kafka (bootstrap_servers s) t (Some (username s)) (Some (kafka_password s))
  | MysqlConnector s t => ctx_mysql (database s) t (host s) (port s) (user s) (mysql_password s)
  | MockOfflineConnector items => from_collection items
  | MockOnlineConnector items delay_s => from_delayed_collection items delay_s
  end.

(** The [source(conn, tag)] decorator on the connectors the class has so far. *)
Definition add_source (conn : connector) (tag : string) (connectors : option (dict string connector))
    : res (dict string connector) :=
  let connectors := default [] connectors in
  if dmem tag connectors then Raise (ValueError "Duplicate tag for source")
  else Ok (dset connectors tag conn).

(** ** [Dataset.init_stream] *)

Definition choose_connector (source_tag : option string) (connectors : dict string connector) : res connector :=
  match source_tag with
  | None =>
      if decide (1 < length connectors) then
        Raise (ValueError "Need to specify tag for source with > 1 connectors")
      else from_option_exn IndexError (head (dvalues connectors))
  | Some tag => from_option_exn (ValueError "Can not find source tag") (dget connectors tag)
  end.

(** The streaming context of the call, and the streams the [Dataset] objects keep. *)
Record client_state := mkClient { c_ctx : StreamingContext; c_streams : dict string stream }.

Definition with_ctx {A} (m : M StreamingContext A) : M client_state A := λ st,
  let '(r, c) := m (c_ctx st) in (r, mkClient c (c_streams st)).

(** The connectors the [source] decorators gave each dataset class. *)
Context (connectors_of : string → option (dict string connector)).

Definition dataset_init_stream (source_tag : option string) (d : string) : M client_state stream := λ st,
  match connectors_of d with
  | None => (Raise (ValueError "Can not get source stream from non-source dataset"), st)
  | Some source_connectors =>
      match dget (c_streams st) d with
      | Some _ => (Raise (ValueError "Stream source already inited"), st)
      | None =>
          match choose_connector source_tag source_connectors with
          | Raise e => (Raise e, st)
          | Ok connector =>
              match with_ctx (to_stream_source connector) st with
              | (Raise e, st') => (Raise e, st')
              | (Ok s, st') => (Ok s, mkClient (c_ctx st') (dset (c_streams st') d s))
              end
          end
      end
  end.

(** ** Operator nodes *)

Inductive op_class := Transform | Assign | Filter | Aggregate | GroupBy | Rename | Drop | DropNull.
Inductive opnode :=
| ODataset (name : string)
| OUnary (c : op_class) (parent : opnode)
| OJoin (left right : opnode).

(** [isinstance(stream, KeyDataStream)] *)
Definition is_key_stream (s : stream) : bool :=
  match s with
  | DataStream a _ => match s_operator a with Plain n _ => bool_decide (n = "KeyByOperator") | _ => false end
  | _ => false
  end.

(** [init_stream] of the operator classes, given the stream of the parent. *)
Definition unary_init_stream (c : op_class) (s : stream) : M StreamingContext stream :=
  match c with
  | Transform | Assign | Rename => data_stream "MapOperator" s
  | Filter | Drop | DropNull => data_stream "FilterOperator" s
  | GroupBy => key_by s
  | Aggregate => if is_key_stream s then data_stream "MultiWindowOperator" s else raise AssertionError
  end.

(** [Join.init_stream] *)
Definition join_init_stream (l r : stream) : M StreamingContext stream :=
  key_by l ≫= λ kl, key_by r ≫= λ kr, join kl kr.

(** ** [Client] *)

Context (source_tags : option (dict string string)).

Definition tag_of (d : string) : option string :=
  match source_tags with Some tags => dget tags d | None => None end.

Fixpoint _init_stream_graph (operator_node : opnode) : M client_state stream :=
  match operator_node with
  | ODataset d =>
      match connectors_of d with
      | None => raise (ValueError "Currently only source inputs are allowed")
      | Some _ => dataset_init_stream (tag_of d) d
      end
  | OUnary c p => _init_stream_graph p ≫= λ s, with_ctx (unary_init_stream c s)
  | OJoin l r =>
      _init_stream_graph l ≫= λ ls, _init_stream_graph r ≫= λ rs, with_ctx (join_init_stream ls rs)
  end.

(** [_build_stream]: [pipeline] is what the pipeline function returns, when the target has one. *)
Definition _build_stream (pipeline : option opnode) : M (dict string stream) (stream * StreamingContext) :=
  λ streams,
  match pipeline with
  | None => (Raise AttributeError, streams)
  | Some terminal =>
      let '(r, st) := _init_stream_graph terminal (mkClient new_context streams) in
      (match r with Ok s => Ok (s, c_ctx st) | Raise e => Raise e end, c_streams st)
  end.

Inductive storage := SimpleInMemoryActorStorage | OtherStorage.

(** The checks of the storage, and [stream.sink(...)]. *)
Definition attach_sink (self_storage : option storage) (sc : stream * StreamingContext)
    : M (dict string stream) StreamingContext := λ streams,
  match self_storage with
  | None => (Raise (ValueError "materialization requires a storage"), streams)
  | Some OtherStorage => (Raise (ValueError "Currently only SimpleInMemoryActorStorage is supported"), streams)
  | Some SimpleInMemoryActorStorage =>
      let '(r, ctx) := sink sc.1 sc.2 in (match r with Ok _ => Ok ctx | Raise e => Raise e end, streams)
  end.

(** [materialize_offline] and [materialize_online] up to the submission of the job: the context with
    the registered sink.  [self_storage] is [self.cold] or [self.hot]. *)
Definition materialize (self_storage : option storage) (scaling_config : bool) (pipeline : option opnode)
    : M (dict string stream) StreamingContext :=
  if scaling_config then raise (ValueError "ScalingConfig is not supported yet") else
  _build_stream pipeline ≫= attach_sink self_storage.
End client.

(** [ctx.execute()] and [ctx.submit()]: the graph handed to the job client; [None] when the optimizer's
    fuel runs out. *)
Definition execute (ctx : StreamingContext) : option (res JobGraph) :=
  match build (stream_sinks ctx) with
  | (Ok _, jg) => optimize jg
  | (Raise e, _) => Some (Raise e)
  end.

Arguments connector : clear implicits.

(** ** Lemmas *)

(** The datasets a pipeline reads, in the order they are initialised. *)
Fixpoint leaves (n : opnode) : list string :=
  match n with
  | ODataset d => [d]
  | OUnary _ p => leaves p
  | OJoin l r => leaves l ++ leaves r
  end.

Section lemmas.
Context {V : Type} (connectors_of : string → option (dict string (connector V)))
  (source_tags : option (dict string string)).
Local Abbreviation init := (_init_stream_graph connectors_of source_tags).

Lemma with_ctx_ok {A} (m : M StreamingContext A) st a st' :
  with_ctx m st = (Ok a, st') → m (c_ctx st) = (Ok a, c_ctx st') ∧ c_streams st' = c_streams st.
Proof. unfold with_ctx. destruct (m (c_ctx st)) as [r c]. intros; by simplify_eq/=. Qed.

Lemma to_stream_source_ok (c : connector V) ctx s ctx' :
  to_stream_source c ctx = (Ok s, ctx') → source ctx = (Ok s, ctx').
Proof. by destruct c as [| |[]|[]]. Qed.

(** Streams come from API calls on streams made before. *)
Definition made (c : StreamingContext) (c' : StreamingContext) (s : list stream) : Prop :=
  stream_sinks c' = stream_sinks c ∧
  ∀ Ss, ∃ Ss', rtc api_step (c, Ss) (c', Ss') ∧ Ss ⊆ Ss' ∧ ∀ x, x ∈ s → x ∈ Ss'.

(** Inverts an API call into the call of [Stream.__init__]. *)
Ltac inv_api E :=
  unfold source, data_stream, key_by, join, mbind, M_bind, mret, M_ret in E;
  match type of E with context [init_stream ?o ?i ?p ?c] =>
    let E1 := fresh "E" in
    destruct (init_stream o i p c) as [[?|] ?] eqn:E1; [|done];
    apply init_stream_ok in E1 as (_ & _ & E1)
  end.

Lemma source_sinks c s c' : source c = (Ok s, c') → stream_sinks c' = stream_sinks c.
Proof. intros E. inv_api E. by simplify_eq. Qed.

Lemma unary_sinks cl s c s' c' : unary_init_stream cl s c = (Ok s', c') → stream_sinks c' = stream_sinks c.
Proof.
  intros E. destruct cl; cbn [unary_init_stream] in E; try (destruct (is_key_stream s); [|done]);
    inv_api E; by simplify_eq.
Qed.

Lemma join_sinks l r c s' c' : join_init_stream l r c = (Ok s', c') → stream_sinks c' = stream_sinks c.
Proof. unfold join_init_stream. intros E. inv_api E. inv_api E. inv_api E. simplify_eq. congruence. Qed.

Lemma unary_made cl s s' c c' : unary_init_stream cl s c = (Ok s', c') →
  ∀ Ss, s ∈ Ss → api_step (c, Ss) (c', s' :: Ss).
Proof.
  intros E Ss Hs.
  destruct cl; cbn [unary_init_stream] in E;
    try (exact (ApiData c c' Ss s s' None _ Hs E)); [|exact (ApiKeyBy c c' Ss s s' None Hs E)].
  destruct (is_key_stream s); [|done]. exact (ApiData c c' Ss s s' None _ Hs E).
Qed.

Lemma join_made l r s' c c' : join_init_stream l r c = (Ok s', c') →
  ∀ Ss, l ∈ Ss → r ∈ Ss → ∃ Ss', rtc api_step (c, Ss) (c', Ss') ∧ Ss ⊆ Ss' ∧ s' ∈ Ss'.
Proof.
  unfold join_init_stream, mbind, M_bind. intros E Ss Hl Hr.
  destruct (key_by l c) as [[kl|] c1] eqn:E1; [|done]. destruct (key_by r c1) as [[kr|] c2] eqn:E2; [|done].
  exists (s' :: kr :: kl :: Ss). split_and!; [|set_solver|by left].
  eapply rtc_l; [exact (ApiKeyBy c c1 Ss l kl None Hl E1)|].
  eapply rtc_l; [refine (ApiKeyBy c1 c2 _ r kr None _ E2); by right|].
  eapply rtc_l; [refine (ApiJoin c2 c' _ kl kr s' None _ _ E); [by right; left|by left]|]. apply rtc_refl.
Qed.

(** What a successful traversal has done: every dataset below the node was not initialised before and
    occurs once; it is now; and the node's stream was made by API calls. *)
Lemma init_spec n : ∀ st s st', init n st = (Ok s, st') →
  NoDup (leaves n) ∧ (∀ d, d ∈ leaves n → d ∉ dkeys (c_streams st)) ∧
  dkeys (c_streams st') = dkeys (c_streams st) ++ leaves n ∧ made (c_ctx st) (c_ctx st') [s].
Proof.
  induction n as [d|cl n IH|l IHl r IHr]; intros st s st' E; cbn [_init_stream_graph leaves] in *.
  - unfold dataset_init_stream in E. destruct (connectors_of d) as [cs|]; [|done].
    destruct (dget (c_streams st) d) eqn:Ed; [done|]. destruct (choose_connector _ cs) as [conn|]; [|done].
    destruct (with_ctx _ st) as [[s1|] st1] eqn:Ew; [|done]. simplify_eq/=.
    apply with_ctx_ok in Ew as [Es Est]. apply to_stream_source_ok in Es. apply dget_None in Ed.
    split_and!; [apply NoDup_singleton|by intros ? ->%list_elem_of_singleton| |].
    + rewrite Est, dkeys_dset. by rewrite (proj2 (dmem_false _ _) Ed).
    + split; [by eapply source_sinks|]. intros Ss. exists (s :: Ss). split_and!; [|set_solver|set_solver].
      apply rtc_once. exact (ApiSource _ _ Ss s None Es).
  - unfold mbind, M_bind in E. destruct (init n st) as [[s1|] st1] eqn:E1; [|done].
    apply with_ctx_ok in E as [Es Est]. destruct (IH _ _ _ E1) as (Hn & Hd & Hk & Hss & Hm).
    split_and!; [done|done|by rewrite Est|]. split; [by rewrite (unary_sinks _ _ _ _ _ Es)|].
    intros Ss. destruct (Hm Ss) as (S1 & Hr & Hsub & Hin).
    exists (s :: S1). split_and!; [|set_solver|set_solver].
    eapply rtc_r; [exact Hr|]. apply (unary_made _ _ _ _ _ Es). apply Hin. by left.
  - unfold mbind, M_bind in E. destruct (init l st) as [[s1|] st1] eqn:E1; [|done].
    destruct (init r st1) as [[s2|] st2] eqn:E2; [|done]. apply with_ctx_ok in E as [Es Est].
    destruct (IHl _ _ _ E1) as (Hn1 & Hd1 & Hk1 & Hss1 & Hm1). destruct (IHr _ _ _ E2) as (Hn2 & Hd2 & Hk2 & Hss2 & Hm2).
    rewrite Hk1 in Hd2, Hk2. split_and!.
    + apply NoDup_app. split_and!; [done| |done]. intros d H1 H2. apply (Hd2 d H2). set_solver.
    + intros d [?|Hr]%elem_of_app; [by apply Hd1|]. specialize (Hd2 d Hr). set_solver.
    + rewrite Est, Hk2. by rewrite app_assoc.
    + split; [rewrite (join_sinks _ _ _ _ _ Es); congruence|]. intros Ss. destruct (Hm1 Ss) as (S1 & Hr1 & Hs1 & Hi1). destruct (Hm2 S1) as (S2 & Hr2 & Hs2 & Hi2).
      destruct (join_made _ _ _ _ _ Es S2) as (S3 & Hr3 & Hs3 & Hi3).
      { apply Hs2, Hi1. by left. } { apply Hi2. by left. }
      exists S3. split_and!; [etrans; [exact Hr1|]; by etrans|set_solver|set_solver].
Qed.

(** The connector yields a stream. *)
Definition connector_ready (c : connector V) : bool :=
  match c with
  | MockOfflineConnector (_ :: _) | MockOnlineConnector (_ :: _) _ => true
  | _ => false
  end.
Definition dataset_ready (d : string) : Prop :=
  ∃ cs c, connectors_of d = Some cs ∧ choose_connector (tag_of source_tags d) cs = Ok c ∧
    connector_ready c = true.

Definition is_group_by (n : opnode) : bool := match n with OUnary GroupBy _ => true | _ => false end.

(** Every aggregate is applied to a group-by, as [GroupBy.aggregate] makes it. *)
Fixpoint aggregates_ok (n : opnode) : bool :=
  match n with
  | ODataset _ => true
  | OUnary c p => aggregates_ok p && match c with Aggregate => is_group_by p | _ => true end
  | OJoin l r => aggregates_ok l && aggregates_ok r
  end.

Lemma new_stream_ok op s p c : is_ok (attrs s) = true →
  ∃ a c', init_stream op (Some s) p c = (Ok a, c') ∧ s_operator a = op.
Proof.
  intros Hs. unfold init_stream, liftR, mbind, M_bind. destruct (attrs s) as [a|]; [|done].
  unfold generate_id, mret, M_ret. by eexists _, _.
Qed.

Lemma unary_ok cl s c : is_ok (attrs s) = true → (cl = Aggregate → is_key_stream s = true) →
  ∃ s' c', unary_init_stream cl s c = (Ok s', c') ∧ is_ok (attrs s') = true ∧
    (cl = GroupBy → is_key_stream s' = true).
Proof.
  intros Hs Ha.
  destruct cl; cbn [unary_init_stream]; rewrite ?Ha by done; unfold data_stream, key_by, mbind, M_bind, mret, M_ret;
    match goal with |- context [init_stream ?o (Some s) ?p c] =>
      destruct (new_stream_ok o s p c Hs) as (a & c' & -> & Ho) end;
    eexists _, _; (split_and!; [done..|]); try done.
  intros _. cbn [is_key_stream]. by rewrite Ho.
Qed.

Lemma join_ok l r c : is_ok (attrs l) = true → is_ok (attrs r) = true →
  ∃ s' c', join_init_stream l r c = (Ok s', c') ∧ is_ok (attrs s') = true.
Proof.
  intros Hl Hr. unfold join_init_stream, key_by, join, mbind, M_bind, mret, M_ret.
  destruct (new_stream_ok (Plain "KeyByOperator" Operators.ONE_INPUT) l (Some PKey) c Hl) as (a1 & c1 & -> & _).
  destruct (new_stream_ok (Plain "KeyByOperator" Operators.ONE_INPUT) r (Some PKey) c1 Hr) as (a2 & c2 & -> & _).
  destruct (new_stream_ok (Plain "JoinOperator" Operators.TWO_INPUT) (DataStream a1 l) None c2 eq_refl)
    as (a3 & c3 & -> & _).
  by eexists _, _.
Qed.

Lemma with_ctx_run {A} (m : M StreamingContext A) st a c :
  m (c_ctx st) = (Ok a, c) → with_ctx m st = (Ok a, mkClient c (c_streams st)).
Proof. unfold with_ctx. by intros ->. Qed.

Lemma init_succeeds n : ∀ st,
  NoDup (leaves n) → Forall dataset_ready (leaves n) → (∀ d, d ∈ leaves n → d ∉ dkeys (c_streams st)) →
  aggregates_ok n = true →
  ∃ s st', init n st = (Ok s, st') ∧ is_ok (attrs s) = true ∧ (is_group_by n = true → is_key_stream s = true).
Proof.
  induction n as [d|cl n IH|l IHl r IHr]; intros st Hnd Hr Hd Ha; cbn [_init_stream_graph leaves aggregates_ok] in *.
  - apply Forall_cons in Hr as [(cs & c & Ecs & Ec & Hc) _]. rewrite Ecs.
    unfold dataset_init_stream. rewrite Ecs, (proj2 (dget_None _ _)), Ec by (apply Hd; by left).
    destruct c as [| |[]|[]]; try done; by eexists _, _.
  - apply andb_true_iff in Ha as [Ha Hg]. destruct (IH st) as (s & st1 & E & Hs & Hk); [done..|].
    unfold mbind, M_bind. rewrite E. destruct (unary_ok cl s (c_ctx st1) Hs) as (s' & c' & E' & Hs' & Hk').
    { intros ->. by apply Hk. }
    rewrite (with_ctx_run _ _ _ _ E'). eexists _, _. split_and!; [done..|].
    destruct cl; try done. by intros; apply Hk'.
  - apply andb_true_iff in Ha as [Hal Har]. apply Forall_app in Hr as [Hrl Hrr].
    apply NoDup_app in Hnd as (Hnl & Hdis & Hnr).
    destruct (IHl st) as (s1 & st1 & E1 & Hs1 & _); [done|done|intros; apply Hd; set_solver|done|].
    destruct (init_spec _ _ _ _ E1) as (_ & _ & Hk & _).
    destruct (IHr st1) as (s2 & st2 & E2 & Hs2 & _); [done|done| |done|].
    { intros d Hin. rewrite Hk. intros [Hx|Hx]%elem_of_app; [apply (Hd d); set_solver|by apply (Hdis d)]. }
    unfold mbind, M_bind. rewrite E1, E2. destruct (join_ok s1 s2 (c_ctx st2) Hs1 Hs2) as (s' & c' & E' & Hs').
    rewrite (with_ctx_run _ _ _ _ E'). by eexists _, _.
Qed.

(** ** Properties *)

Local Abbreviation materialize := (materialize connectors_of source_tags).

Lemma materialize_inv storage scaling pipeline streams ctx streams' :
  materialize storage scaling pipeline streams = (Ok ctx, streams') →
  ∃ terminal s ctx0, pipeline = Some terminal ∧
    init terminal (mkClient new_context streams) = (Ok s, mkClient ctx0 streams') ∧
    ∃ k, sink s ctx0 = (Ok k, ctx).
Proof.
  unfold Client.materialize. destruct scaling; [done|]. unfold _build_stream, mbind, M_bind.
  destruct pipeline as [t|]; [|done]. destruct (init t _) as [[s|] [ctx0 streams0]] eqn:E; [|by cbn].
  unfold attach_sink. cbn [fst snd c_ctx c_streams].
  destruct storage as [[|]|]; [|by intros ?..]. destruct (sink s ctx0) as [[k|] c] eqn:Es; [|by intros ?].
  intros; simplify_eq/=. by eauto 10.
Qed.

(** C20. A pipeline over ready, distinct datasets that no earlier call has used is turned into a stream
    graph; its job graph is built, well-formed, and the optimizer succeeds on it. *)
Theorem materialize_succeeds (terminal : opnode) (streams : dict string stream) :
  NoDup (leaves terminal) → Forall dataset_ready (leaves terminal) →
  (∀ d, d ∈ leaves terminal → d ∉ dkeys streams) → aggregates_ok terminal = true →
  ∃ ctx streams' jg optimized,
    materialize (Some SimpleInMemoryActorStorage) false (Some terminal) streams = (Ok ctx, streams') ∧
    dkeys streams' = dkeys streams ++ leaves terminal ∧
    build (stream_sinks ctx) = (Ok (), jg) ∧ graph_ok jg ∧
    (∀ s, s ∈ stream_sinks ctx → sid s ∈ ids jg) ∧ length (stream_sinks ctx) = 1 ∧
    execute ctx = Some (Ok optimized).
Proof.
  intros Hnd Hr Hd Ha.
  destruct (init_succeeds terminal (mkClient new_context streams)) as (s & [ctx0 streams'] & E & Hs & _); [done..|].
  destruct (init_spec _ _ _ _ E) as (_ & _ & Hk & Hss & Hm). cbn in Hk, Hss, Hm.
  destruct (Hm []) as (S0 & Hr0 & _ & Hin). specialize (Hin s ltac:(by left)).
  assert (∃ k ctx, sink s ctx0 = (Ok k, ctx) ∧ stream_sinks ctx = stream_sinks ctx0 ++ [k]) as (k & ctx & Ek & Hsk).
  { unfold sink, mbind, M_bind. destruct (new_stream_ok (Plain "SinkOperator" Operators.ONE_INPUT) s None ctx0 Hs)
      as (a & c1 & E1 & _). pose proof (init_stream_ok _ _ _ _ _ _ E1) as (_ & _ & Hsi).
    rewrite E1. unfold add_sink, modS, mret, M_ret. eexists _, _. split; [done|]. cbn. by rewrite Hsi. }
  assert (api_reachable (ctx, k :: S0)) as Hapi.
  { eapply rtc_r; [exact Hr0|]. exact (ApiSink _ _ _ _ _ Hin Ek). }
  destruct (api_build_ok _ _ Hapi) as (jg & Hb & Hok & Hids). destruct (optimize_ok jg Hok) as (_ & g' & _ & Ho & _).
  exists ctx, streams', jg, g'. split_and!; [|done..| |].
  - unfold Client.materialize, _build_stream, mbind, M_bind, attach_sink. rewrite E. cbn [fst snd c_ctx c_streams]. by rewrite Ek.
  - rewrite Hsk, length_app. cbn. by rewrite Hss.
  - unfold execute. by rewrite Hb.
Qed.

(** A dataset keeps its stream, also when the call fails. *)
Lemma init_keeps n : ∀ st, dkeys (c_streams st) ⊆ dkeys (c_streams (init n st).2).
Proof.
  assert (∀ {A} (m : M StreamingContext A) st, c_streams (with_ctx m st).2 = c_streams st) as Hctx.
  { intros A m st. unfold with_ctx. by destruct (m (c_ctx st)). }
  induction n as [d|cl n IH|l IHl r IHr]; intros st; cbn [_init_stream_graph].
  - unfold dataset_init_stream. destruct (connectors_of d) as [cs|]; [|done]. destruct (dget (c_streams st) d); [done|].
    destruct (choose_connector _ cs) as [conn|]; [|done]. pose proof (Hctx _ (to_stream_source conn) st) as Hc.
    destruct (with_ctx _ st) as [[s1|] st1]; cbn [snd c_streams] in *; rewrite Hc; [|done]. intros x Hx.
    rewrite dkeys_dset. destruct (dmem _ _); set_solver.
  - unfold mbind, M_bind. specialize (IH st). destruct (init n st) as [[s1|] st1]; cbn in *; [|done]. by rewrite Hctx.
  - unfold mbind, M_bind. specialize (IHl st). destruct (init l st) as [[s1|] st1]; cbn in *; [|done]. specialize (IHr st1).
    destruct (init r st1) as [[s2|] st2]; cbn in *; [|set_solver]. rewrite Hctx. set_solver.
Qed.

Lemma materialize_keeps storage scaling pipeline streams : dkeys streams ⊆ dkeys (materialize storage scaling pipeline streams).2.
Proof.
  unfold Client.materialize. destruct scaling; [done|]. unfold _build_stream, mbind, M_bind. destruct pipeline as [t|]; [|done].
  pose proof (init_keeps t (mkClient new_context streams)) as Hk. destruct (init t _) as [[s|] st]; cbn in *; [|done].
  unfold attach_sink. destruct storage as [[|]|]; try done. by destruct (sink _ _).
Qed.

(** A call whose pipeline reads a dataset that has its stream does not return. *)
Lemma used_dataset_raises storage scaling t streams d : d ∈ leaves t → d ∈ dkeys streams →
  is_ok (materialize storage scaling (Some t) streams).1 = false.
Proof.
  intros Hd Hs. destruct (materialize storage scaling (Some t) streams) as [[ctx|] streams'] eqn:Em; [|done].
  apply materialize_inv in Em as (t0 & s0 & c0 & [= <-] & Ei & _).
  destruct (init_spec _ _ _ _ Ei) as (_ & Hn & _). exfalso. by apply (Hn d Hd).
Qed.
End lemmas.

(** *** Calls of a client *)

(** A call of [materialize_offline] or [materialize_online], with its own tags and storage. *)
Record client_call := mkCall {
  call_tags : option (dict string string); call_storage : option storage; call_scaling : bool; call_pipeline : option opnode
}.

Section calls.
Context {V : Type} (connectors_of : string → option (dict string (connector V))).

Definition make_call (c : client_call) : M (dict string stream) StreamingContext :=
  materialize connectors_of (call_tags c) (call_storage c) (call_scaling c) (call_pipeline c).

(** What each of the calls gave; a call that raises does not keep the next ones from being made. *)
Fixpoint make_calls (cs : list client_call) (streams : dict string stream) : list (res StreamingContext) * dict string stream :=
  match cs with
  | [] => ([], streams)
  | c :: cs' => let '(r, streams) := make_call c streams in let '(rs, streams) := make_calls cs' streams in (r :: rs, streams)
  end.

(** The call reads one of the datasets of [t]. *)
Definition shares (t : opnode) (c : client_call) : Prop := ∃ t' d, call_pipeline c = Some t' ∧ d ∈ leaves t ∧ d ∈ leaves t'.

(** C37. A source dataset serves one pipeline: once a pipeline's streams are built, whether or not the
    storage checks pass afterwards, then in every sequence of later calls of either kind, with any tags,
    storages and pipelines and whether they succeed or not, each call that reads one of its datasets
    raises; and a pipeline that reads a dataset twice never builds. *)
Theorem dataset_single_use tags (t : opnode) (streams streams' : dict string stream) (sc : stream * StreamingContext) :
  _build_stream connectors_of tags (Some t) streams = (Ok sc, streams') →
  NoDup (leaves t) ∧
  (∀ storage, (materialize connectors_of tags storage false (Some t) streams).2 = streams') ∧
  (∀ cs, Forall2 (λ c r, shares t c → is_ok r = false) cs (make_calls cs streams').1).
Proof.
  intros E. pose proof E as Eb. unfold _build_stream in E.
  destruct (_init_stream_graph connectors_of tags t _) as [[s|] [ctx0 streams0]] eqn:Ei; [|by cbn in E]. cbn in E. simplify_eq.
  destruct (init_spec _ _ _ _ _ _ Ei) as (Hnd & _ & Hk & _). cbn [c_streams] in Hk. split_and!; [done| |].
  - intros storage. unfold materialize, mbind, M_bind. rewrite Eb.
    destruct storage as [[|]|]; [|done|done]. unfold attach_sink. by destruct (sink _ _).
  - assert (leaves t ⊆ dkeys streams') as Hsub by (rewrite Hk; set_solver). clear -Hsub. intros cs. revert streams' Hsub.
    induction cs as [|c cs IH]; intros st Hsub; cbn [make_calls]; [constructor|].
    destruct (make_call c st) as [r st1] eqn:Ec. destruct (make_calls cs st1) as [rs st2] eqn:Ecs. constructor.
    + intros (t' & d & Ep & Hd & Hd'). pose proof (used_dataset_raises connectors_of (call_tags c) (call_storage c) (call_scaling c) t' st d Hd' (Hsub d Hd)) as H.
      unfold make_call in Ec. rewrite Ep in Ec. by rewrite Ec in H.
    + specialize (IH st1). rewrite Ecs in IH. apply IH. etrans; [exact Hsub|].
      pose proof (materialize_keeps connectors_of (call_tags c) (call_storage c) (call_scaling c) (call_pipeline c) st) as Hm.
      unfold make_call in Ec. by rewrite Ec in Hm.
Qed.
End calls.

(** ** Witnesses: orders joined with users, aggregated per buyer *)

Definition w_connectors (d : string) : option (dict string (connector Z)) :=
  if decide (d = "Order") then Some [("default", MockOnlineConnector [1; 2]%Z 1%Z)]
  else if decide (d = "User") then Some [("offline", MockOfflineConnector [3]%Z); ("live", KafkaConnector (mkKafkaSource "localhost:9092" "volga" "") "users")]
  else None.
Definition w_tags : option (dict string string) := Some [("User", "offline")].
Definition w_pipeline : opnode :=
  OUnary Aggregate (OUnary GroupBy (OUnary Filter (OJoin (ODataset "Order") (ODataset "User")))).

Lemma materialize_succeeds_witness :
  ∃ ctx streams' jg optimized,
    materialize w_connectors w_tags (Some SimpleInMemoryActorStorage) false (Some w_pipeline) [] = (Ok ctx, streams') ∧
    dkeys streams' = ["Order"; "User"] ∧ build (stream_sinks ctx) = (Ok (), jg) ∧ graph_ok jg ∧
    (∀ s, s ∈ stream_sinks ctx → sid s ∈ ids jg) ∧ length (stream_sinks ctx) = 1 ∧
    execute ctx = Some (Ok optimized).
Proof.
  apply (materialize_succeeds w_connectors w_tags w_pipeline []).
  - by apply (bool_decide_unpack _).
  - repeat constructor; eexists _, _; (split_and!; reflexivity).
  - intros d _. apply not_elem_of_nil.
  - reflexivity.
Defined.

(** An offline materialization, then one of the orders alone and an online one with other tags. *)
Definition w_calls : list client_call :=
  [mkCall None (Some OtherStorage) false (Some (OUnary Filter (ODataset "Order")));
   mkCall (Some [("User", "live")]) (Some SimpleInMemoryActorStorage) false (Some w_pipeline)].

Lemma dataset_single_use_witness :
  ∃ sc streams', _build_stream w_connectors w_tags (Some w_pipeline) [] = (Ok sc, streams') ∧
    Forall2 (λ c r, shares w_pipeline c → is_ok r = false) w_calls (make_calls w_connectors w_calls streams').1 ∧
    Forall (shares w_pipeline) w_calls.
Proof.
  destruct (_build_stream w_connectors w_tags (Some w_pipeline) []) as [r streams'] eqn:E.
  destruct r as [sc|]; [|vm_compute in E; discriminate E].
  exists sc, streams'. split; [reflexivity|]. split.
  - apply (dataset_single_use w_connectors w_tags w_pipeline [] streams' sc E).
  - repeat constructor; eexists _, "Order"; (split; [reflexivity|set_solver]).
Defined.
