(* ===== verification/Features.v ===== *)
(** * Window aggregates in a running job, and feature pipelines
    ([volga/streaming/api/operators/window_operator.py] run by
     [volga/streaming/runtime/worker/task/stream_task.py];
     [volga/api/dataset/operators.py])

    [Window] shows what the multi-window operator computes from a list of records.  Here it
    runs in a job: its instances share the keys by hash, records come from any number of
    upstream tasks, and threads, batches and back-pressure decide in which order.  The second
    part follows events from a source dataset through the operators of a pipeline to the
    aggregated event. *)

From S2P Require Import Prelude PyDict PyDecimal TimeUtils Message Partition Network Window Operators Dataflow Keyed.
From S2P Require Import JobGraph Execution Workers Tasks Deployment.

(** ** The multi-window operator as a stream operator *)

Section window_op.
Context {K V : Type} `{!EqDecision K}.
Context (agg_str : AggregationType → string) (of_aggs : dict string dec → V).

(** [MultiWindowOperator.process_element]: one record is collected, or an exception escapes. *)
Definition window_step (s : MultiWindowOperator K V V) (record : rec K V) : outcome (K:=K) (V:=V) (MultiWindowOperator K V V) :=
  let '(r, s') := process_element agg_str of_aggs record s in one s' r.
Definition window_op : op K V := mkOp (MultiWindowOperator K V V) window_step.

Lemma window_run rs : ∀ s outs s', process_all agg_str of_aggs rs s = (Ok outs, s') →
  run_op window_step s rs = (s', outs, Ok ()).
Proof.
  induction rs as [|r rs IH]; intros s outs s' E; simpl in E; [by injection E as <- <-|].
  unfold mbind, M_bind in E. simpl. unfold window_step at 1. destruct (process_element agg_str of_aggs r s) as [[o|] s1]; [|done].
  destruct (process_all agg_str of_aggs rs s1) as [[os|] s2] eqn:E2; [|done]. injection E as <- <-. simpl.
  by rewrite (IH _ _ _ E2).
Qed.
End window_op.

(** ** What a window retains does not depend on the order of arrival *)

Section order.
Context {K V : Type}.
Implicit Types (rs : list (rec K V)) (r : rec K V).

(** Arrivals that agree up to order and to the name of the stream. *)
Definition same_events rs rs' : Prop :=
  map (λ r, (event_time r, r_value r)) rs ≡ₚ map (λ r, (event_time r, r_value r)) rs'.

#[global] Instance same_events_equiv : Equivalence same_events.
Proof. unfold same_events. split; [by intros ?|by intros ???|intros ??? E1 E2; by rewrite E1]. Qed.

Definition latest rs : option dec := time_of <$> last (stable_sort time_of Qcle rs).

Lemma latest_max rs t : latest rs = Some t → (∃ r, r ∈ rs ∧ time_of r = t) ∧ ∀ r, r ∈ rs → (time_of r <= t)%Qc.
Proof.
  unfold latest. destruct (last _) as [l|] eqn:El; [|done]. intros [= <-]. split.
  - exists l. split; [|done]. apply tsort_elem. by apply last_Some_elem_of.
  - intros r Hr. eapply sorted_last; [|exact El|by apply tsort_elem]. apply stable_sort_sorted; apply _.
Qed.

Lemma same_events_elem rs rs' r : same_events rs rs' → r ∈ rs → ∃ r', r' ∈ rs' ∧ event_time r' = event_time r ∧ r_value r' = r_value r.
Proof.
  intros Hs Hr. assert ((event_time r, r_value r) ∈ map (λ r, (event_time r, r_value r)) rs') as Hin.
  { unfold same_events in Hs. rewrite <- Hs. by apply (list_elem_of_fmap_2 (λ r, (event_time r, r_value r))). }
  apply list_elem_of_fmap in Hin as (r' & [= E1 E2] & Hr'). eauto.
Qed.

Lemma latest_same rs rs' : same_events rs rs' → latest rs = latest rs'.
Proof.
  intros Hs. assert (∀ rs rs' t, same_events rs rs' → latest rs = Some t → latest rs' = Some t) as Hsym.
  { clear. intros rs rs' t Hs Et. destruct (latest_max _ _ Et) as [(r & Hr & Er) Hmax].
    destruct (same_events_elem _ _ r Hs Hr) as (r' & Hr' & E1 & _).
    destruct (latest rs') as [t'|] eqn:Et'; cycle 1.
    { unfold latest in Et'. apply fmap_None, last_None in Et'. apply (tsort_elem (K:=K) (V:=V)) in Hr'. rewrite Et' in Hr'. by apply elem_of_nil in Hr'. }
    destruct (latest_max _ _ Et') as [(x & Hx & Ex) Hmax']. f_equal. apply Qcle_antisym.
    - symmetry in Hs. destruct (same_events_elem _ _ x Hs Hx) as (x' & Hx' & E2 & _). rewrite <- Ex. unfold time_of. rewrite <- E2. by apply Hmax.
    - rewrite <- Er. unfold time_of. rewrite <- E1. by apply Hmax'. }
  destruct (latest rs) as [t|] eqn:E; [by rewrite (Hsym _ _ _ Hs E)|]. destruct (latest rs') as [t|] eqn:E'; [|done].
  symmetry in Hs. by rewrite (Hsym _ _ _ Hs E') in E.
Qed.

Definition in_window (len t : dec) (x : option stamp * V) : Prop := (dec_sub t (default (Q2Qc 0) (stamp_value <$> x.1)) <= len)%Qc.
#[global] Instance in_window_dec len t x : Decision (in_window len t x).
Proof. unfold in_window. apply _. Defined.
#[global] Typeclasses Opaque in_window.

Lemma retained_filter len rs : map (λ r, (event_time r, r_value r)) (retained len rs) ≡ₚ
  match latest rs with
  | None => []
  | Some t => filter (in_window len t) (map (λ r, (event_time r, r_value r)) rs)
  end.
Proof.
  unfold retained, latest. destruct (last _) as [l|]; [|done]. simpl.
  etransitivity; [apply Permutation_map; rewrite stable_sort_perm; reflexivity|].
  - generalize (time_of l). intros t. induction rs as [|r rs IH]; [done|]. cbn [map]. rewrite !filter_cons.
    destruct (decide (dec_sub t (time_of r) <= len)%Qc) as [H1|H1], (decide (in_window len t (event_time r, r_value r))) as [H2|H2];
      [by apply perm_skip|by destruct H2|by destruct H1|done].
Qed.

Lemma retained_same len rs rs' : same_events rs rs' → same_events (retained len rs) (retained len rs').
Proof.
  intros Hs. unfold same_events in *. rewrite !retained_filter, (latest_same _ _ Hs). destruct (latest rs'); [|done]. by rewrite Hs.
Qed.
End order.

(** ** Window aggregates behind a key partition *)

Section stage.
Context {K V T Bytes : Type} `{FifoTransport T Bytes} `{!EqDecision K}.
Context (hash : K → Z) (loads : Bytes → res (list (dict string (field K V)))).
Context (vs : list (vertex K V)) (Htop : topology vs) (j : job K V T Bytes).
Context (Hj : job_inv hash loads vs j) (Hq : quiescent j).
Context (senders instances : list nat) (cid : nat → nat → string) (Hst : keyed_stage vs senders instances cid).
Local Abbreviation upstream := (concat (map (emitted_by j) senders)).

(** What an instance has processed was emitted upstream, with a key. *)
Lemma consumed_upstream k i t r : instances !! k = Some i → tasks j !! i = Some t → r ∈ t_consumed t →
  is_Some (r_key r) ∧ ∃ r', r' ∈ upstream ∧ event_time r' = event_time r ∧ r_value r' = r_value r ∧ r_key r' = r_key r.
Proof.
  intros Hk Hi Hr. rewrite (instance_consumed hash loads vs Htop j Hj Hq senders instances cid Hst k i t Hk Hi) in Hr.
  apply elem_of_concat in Hr as (l & Hr & Hl). apply list_elem_of_fmap in Hl as (s & -> & Hs).
  apply list_elem_of_fmap in Hr as (r' & -> & [_ Hr']%list_elem_of_filter). cbn. split.
  - pose proof (sender_keyed hash loads vs Htop j Hj Hq senders instances cid Hst s Hs) as Hsk.
    rewrite Forall_forall in Hsk. by apply Hsk.
  - exists r'. split; [|done]. apply elem_of_concat. exists (emitted_by j s). split; [done|]. by apply list_elem_of_fmap_2.
Qed.

Lemma consumed_length k i t : instances !! k = Some i → tasks j !! i = Some t → length (t_consumed t) ≤ length upstream.
Proof.
  intros Hk Hi. rewrite (instance_consumed hash loads vs Htop j Hj Hq senders instances cid Hst k i t Hk Hi).
  generalize senders as ss. intros ss. induction ss as [|s ss IH]; cbn; [lia|]. rewrite !length_app, length_map.
  pose proof (length_filter (in_bucket hash (length instances) k) (emitted_by j s)). lia.
Qed.

(** The events of a key are those emitted upstream, all at the instance the hash selects. *)
Lemma key_events k i t key : instances !! k = Some i → tasks j !! i = Some t →
  if decide (bucket hash (length instances) key = k)
  then same_events (key_arrivals key (t_consumed t)) (key_arrivals key upstream)
  else key_arrivals key (t_consumed t) = [].
Proof.
  intros Hk Hi. pose proof (consumed_of_key hash loads vs Htop j Hj Hq senders instances cid Hst k i t key Hk Hi) as Hp.
  change (key_arrivals key) with (of_key (K:=K) (V:=V) key). case_decide; [|by apply Permutation_nil_r in Hp].
  unfold same_events. rewrite Hp, of_key_concat. clear. generalize senders as ss. intros ss. induction ss as [|s ss IH]; cbn; [done|].
  rewrite !map_app, IH, map_map. done.
Qed.

(** The multi-window operator over what an instance has processed: its outputs and the events they are over. *)
Lemma window_consumed agg_str of_aggs (cs : list (SlidingWindowConfig V)) ofunc emit (ws : list (Window K V)) k i t :
  let op0 : MultiWindowOperator K V V := new_MultiWindowOperator cs ofunc in
  _create_windows agg_str op0 = Ok ws → NoDup (map w_name ws) →
  Forall (λ c, c_agg_type c = COUNT ∨ ∃ h, c_agg_on_func c = Some h ∧ ∀ r, r ∈ upstream → is_ok (h (r_value r)) = true) cs →
  (∀ aggs r, r ∈ t_consumed t → dkeys aggs = map w_name ws → form_output of_aggs op0 aggs r = Ok (emit aggs r)) →
  Forall timed upstream → (Z.of_nat (length upstream) < 10 ^ prec)%Z →
  instances !! k = Some i → tasks j !! i = Some t →
  ∃ op' outs, run_op (window_step agg_str of_aggs) op0 (t_consumed t) = (op', outs, Ok ()) ∧ length outs = length (t_consumed t) ∧
  ∀ n r key, t_consumed t !! n = Some r → r_key r = Some key →
    ∃ aggs, spec_aggs (key_arrivals key (take (S n) (t_consumed t))) ws = Ok aggs ∧ outs !! n = Some (emit aggs r).
Proof.
  intros op0 Hc Hnd Hdef Hemit Ht Hb Hk Hi. set (D := λ v, ∃ r, r ∈ upstream ∧ r_value r = v).
  assert (Forall (window_ok D) ws) as Hws.
  { eapply mapR_Forall; [|exact Hdef|exact Hc]. intros c w Hc' Ew. eapply created_window_ok; [exact Ew|].
    destruct Hc' as [?|(h & Eh & Hh)]; [by left|right]. exists h. split; [done|]. intros v (r & Hr & <-). by apply Hh. }
  pose proof (λ r, consumed_upstream k i t r Hk Hi) as Hup.
  destruct (process_all_ok D agg_str of_aggs ws emit Hws Hnd (t_consumed t) [] op0) as (outs & op' & E & _ & Hl & Hout); [by split|done|..].
  - cbn [app]. apply Forall_forall. intros r Hr. destruct (Hup r Hr) as (_ & r' & Hr' & E1 & _).
    rewrite Forall_forall in Ht. unfold timed. rewrite <- E1. by apply Ht.
  - cbn [app]. apply Forall_forall. intros r Hr. destruct (Hup r Hr) as (_ & r' & Hr' & _ & E2 & _). by exists r'.
  - apply Forall_forall. intros r Hr. by apply Hup.
  - cbn [app]. pose proof (consumed_length k i t Hk Hi). lia.
  - apply window_run in E. by exists op', outs.
Qed.

(** An instance of the multi-window operator. *)
Lemma window_instance agg_str of_aggs (cs : list (SlidingWindowConfig V)) ofunc emit (ws : list (Window K V)) k i t :
  let op0 : MultiWindowOperator K V V := new_MultiWindowOperator cs ofunc in
  _create_windows agg_str op0 = Ok ws → NoDup (map w_name ws) →
  Forall (λ c, c_agg_type c = COUNT ∨ ∃ h, c_agg_on_func c = Some h ∧ ∀ r, r ∈ upstream → is_ok (h (r_value r)) = true) cs →
  (∀ aggs r, r ∈ t_consumed t → dkeys aggs = map w_name ws → form_output of_aggs op0 aggs r = Ok (emit aggs r)) →
  Forall timed upstream → (Z.of_nat (length upstream) < 10 ^ prec)%Z →
  existT (v_op (t_vertex t)) (v_init (t_vertex t)) = existT (window_op agg_str of_aggs) op0 :> sigT op_st →
  instances !! k = Some i → tasks j !! i = Some t →
  length (t_emitted t) = length (t_consumed t) ∧
  ∀ n r key, t_consumed t !! n = Some r → r_key r = Some key →
    ∃ aggs, spec_aggs (key_arrivals key (take (S n) (t_consumed t))) ws = Ok aggs ∧ t_emitted t !! n = Some (emit aggs r).
Proof.
  intros op0 Hc Hnd Hdef Hemit Ht Hb Hop Hk Hi.
  destruct (window_consumed agg_str of_aggs cs ofunc emit ws k i t Hc Hnd Hdef Hemit Ht Hb Hk Hi) as (op' & outs & E & Hl & Hout).
  pose proof (rest_run hash loads vs j Hj Hq i t Hi) as Hrun.
  destruct (packed_run _ _ Hop _ _ _ _ Hrun) as (st & Est & Hst'). cbn in Hst'. unfold op0 in Hst'. rewrite E in Hst'. injection Hst' as _ <-. done.
Qed.
End stage.

(** ** Properties *)

(** C3. Features in a running job.  In every job graph that can be submitted, let [t] be a multi-window aggregation of any
    parallelism whose input edges are partitioned by key.  However the tasks are scheduled, once the job is at
    rest every instance has emitted one record per record it processed, carrying for every window the aggregate
    over exactly the records of that key it had processed by then and that lie within the duration of the latest
    one.  All events of a key are at the instance its hash selects, and what its windows hold in the end are the
    events emitted upstream that lie within the duration of the latest of all: the schedule, the batching and the
    number of upstream tasks have no influence on it.  The event times of the records are what the channel can
    carry: integers ([msgpack] takes those of 64 bits; the arithmetic of the windows is exact below 5 * 10^27).
    A job whose records have [Decimal] times does not come to rest with them processed, since [msgpack] does not
    encode a [Decimal]. *)
Theorem deployed_windows {K V T Bytes} `{FifoTransport T Bytes} `{!EqDecision K} (hash : K → Z)
    (dumps : list (dict string (field K V)) → res Bytes) (loads : Bytes → res (list (dict string (field K V))))
    (empty : V) (rt : runtime K V) (jg : JobGraph) (t : JobVertex) (tr : T) (acts : list action)
    (agg_str : AggregationType → string) (of_aggs : dict string dec → V) (cs : list (SlidingWindowConfig V)) ofunc emit
    (ws : list (Window K V)) :
  let op0 : MultiWindowOperator K V V := new_MultiWindowOperator cs ofunc in
  (∀ b bs, dumps b = Ok bs → loads bs = Ok b) → (∀ c, in_flight tr c = []) →
  runnable jg → (∀ e, e ∈ job_edges jg → partition e ≠ PSimple) →
  t ∈ job_vertices jg → vertex_type t ≠ VSOURCE → operator_type (stream_operator t) ≠ SOURCE →
  (∀ e, e ∈ in_jobs jg t → partition e = PKey) →
  (∀ i, operator_of rt (vertex_id t) i = existT (window_op agg_str of_aggs) op0) →
  _create_windows agg_str op0 = Ok ws → NoDup (map w_name ws) →
  ∃ g vs, from_job_graph jg = Ok g ∧ deploy rt g = Ok vs ∧
    let j := job_run hash dumps loads empty (new_job vs tr) acts in
    let upstream := concat (map (emitted_by j) (sender_positions jg t)) in
    quiescent j → Forall timed upstream → (Z.of_nat (length upstream) < 10 ^ prec)%Z →
    Forall (λ c, c_agg_type c = COUNT ∨ ∃ h, c_agg_on_func c = Some h ∧ ∀ r, r ∈ upstream → is_ok (h (r_value r)) = true) cs →
    (∀ aggs r, r_value r ∈ map r_value upstream → dkeys aggs = map w_name ws → form_output of_aggs op0 aggs r = Ok (emit aggs r)) →
    ∀ i tk, i < Z.to_nat (parallelism t) → tasks j !! pos jg (execution_vertex_id (mkEV t i None)) = Some tk →
      length (t_emitted tk) = length (t_consumed tk) ∧
      (∀ n r key, t_consumed tk !! n = Some r → r_key r = Some key →
         ∃ aggs, spec_aggs (key_arrivals key (take (S n) (t_consumed tk))) ws = Ok aggs ∧ t_emitted tk !! n = Some (emit aggs r)) ∧
      (∀ key, if decide (bucket hash (Z.to_nat (parallelism t)) key = i)
              then ∀ w, w ∈ ws → same_events (retained (length_s w) (key_arrivals key (t_consumed tk)))
                                              (retained (length_s w) (key_arrivals key upstream))
              else key_arrivals key (t_consumed tk) = []).
Proof.
  intros op0 codec Htr Hr Hsimple Ht Hvt Hot Hkey Hop Hc Hnd. pose proof Hr as [Hv _ Hcl Hp _ Hne].
  destruct (from_job_graph_eq jg Hv Hp Hcl Hne) as (mp & Eg & _). eexists _, _.
  split; [exact Eg|]. split; [exact (deploy_ok rt jg _ Hr Eg)|]. intros j upstream Hq Htim Hb Hdef Hemit i tk Hi Htk.
  pose proof (deploy_topology_ok rt jg _ Hr Eg Hsimple) as Htop.
  pose proof (deployed_keyed rt jg _ Hr Eg t Ht Hvt Hot Hkey) as Hst.
  pose proof (job_run_inv hash dumps loads empty codec _ Htop _ acts (new_job_inv hash loads _ Htop tr Htr)) as Hj.
  pose proof (instance_position jg t i Hi) as Hpos.
  destruct (window_instance hash loads _ Htop j Hj Hq _ _ _ Hst agg_str of_aggs cs ofunc emit ws i
    (pos jg (execution_vertex_id (mkEV t i None))) tk Hc Hnd Hdef) as [Hlen Hout];
    [|exact Htim|exact Hb| |exact Hpos|exact Htk|].
  - intros aggs r Hrc. apply Hemit. destruct (consumed_upstream hash loads _ Htop j Hj Hq _ _ _ Hst i _ tk r Hpos Htk Hrc) as (_ & r' & Hr' & _ & <- & _).
    by apply (list_elem_of_fmap_2 r_value).
  - eapply (instance_operator rt jg _ Hr t Ht); [exact Hop|exact Hpos|]. rewrite <- (ji_vertices _ _ _ _ Hj), list_lookup_fmap.
    exact (f_equal (fmap t_vertex) Htk).
  - split_and!; [exact Hlen|exact Hout|]. intros key.
    pose proof (key_events hash loads _ Htop j Hj Hq _ _ _ Hst i _ tk key Hpos Htk) as Hke. rewrite length_instance_positions in Hke.
    case_decide; [|exact Hke]. intros w _. by apply retained_same.
Qed.

(** ** Witnesses *)

(** A count over ten seconds in two instances, fed by two sources. *)
Definition ex_win_vertex : JobVertex := mkVertex 2 2 VPROCESS (Plain "MultiWindowOperator" ONE_INPUT).
Definition ex_win_jg : JobGraph :=
  mkGraph [mkVertex 1 2 VSOURCE (Plain "SourceOperator" SOURCE); ex_win_vertex] [new_edge 1 2 PKey].
Definition ex_count : list (SlidingWindowConfig Z) := [mkConfig "10s" COUNT None (Some "c")].
Definition ex_of_aggs (d : dict string dec) : Z := match dget d "c" with Some q => Qnum (this q) | None => 0%Z end.
Definition ex_win_op : MultiWindowOperator Z Z Z := new_MultiWindowOperator ex_count None.
Definition ex_int_event (k v ts : Z) : rec Z Z := new_KeyRecord k v (Some (TInt ts)) None.
Definition ex_win_split (i : nat) : list (rec Z Z) :=
  match i with 0 => [ex_int_event 1 5 100; ex_int_event 2 7 101; ex_int_event 1 6 120] | _ => [ex_int_event 1 1 112] end.
Definition ex_win_rt : runtime Z Z :=
  mkRuntime (λ v i, if decide (v = 2%Z) then existT (window_op ex_agg_str ex_of_aggs) ex_win_op
                    else existT ex_source (ex_win_split i)) (λ _ _, []) 2 0%Qc (λ _, ticks) (λ _, ticks).
Definition ex_win_vs : list (vertex Z Z) :=
  Deployment.ok_or [] (deploy ex_win_rt (Deployment.ok_or (mkEG [] [] [] None) (from_job_graph ex_win_jg))).
Abbreviation ex_win_job := (job_run (λ k : Z, k) ex_codec_dumps Ok 0%Z (new_job ex_win_vs ([] : queues ex_msgs)) ex_turns).
Definition ex_win_windows : list (Window Z Z) := Deployment.ok_or [] (_create_windows ex_agg_str ex_win_op).

Lemma ex_win_runnable : runnable ex_win_jg.
Proof.
  split; try (apply (bool_decide_unpack _); reflexivity).
  intros e He. repeat (apply elem_of_cons in He as [->|He]; [split; apply (bool_decide_unpack _); reflexivity|]).
  by apply elem_of_nil in He.
Qed.

Definition has_time {K V} (r : rec K V) : bool :=
  match event_time r with Some (TDecimal _) => true | Some (TInt z) => bool_decide (2 * Z.abs z < 10 ^ prec)%Z | None => false end.
Lemma timed_all {K V} (rs : list (rec K V)) : forallb has_time rs = true → Forall timed rs.
Proof.
  rewrite forallb_forall. intros Hrs. apply Forall_forall. intros r Hr%list_elem_of_In. apply Hrs in Hr. unfold timed, has_time in *.
  destruct (event_time r) as [[d|z]|]; [by eexists|by eexists; split; [done|]; apply bool_decide_eq_true in Hr|done].
Qed.

Lemma deployed_windows_witness : ex_codec_dumps [to_channel_message (ex_event 1 5 100)] = Raise TypeError ∧ ∃ tk, tasks ex_win_job !! 3 = Some tk ∧ length (t_emitted tk) = 3 ∧
  ∀ w, w ∈ ex_win_windows → same_events (retained (length_s w) (key_arrivals 1%Z (t_consumed tk)))
    (retained (length_s w) (key_arrivals 1%Z (concat (map (emitted_by ex_win_job) [0; 1])))).
Proof.
  split; [reflexivity|]. destruct (deployed_windows (λ k : Z, k) ex_codec_dumps Ok 0%Z ex_win_rt ex_win_jg ex_win_vertex ([] : queues ex_msgs) ex_turns
    ex_agg_str ex_of_aggs ex_count None (λ a r, new_Record (ex_of_aggs a) (event_time r) None) ex_win_windows)
    as (g & vs & Eg & Ev & Hj).
  - exact packs_roundtrip.
  - intros c. reflexivity.
  - apply ex_win_runnable.
  - intros e He. apply elem_of_cons in He as [->|He]; [done|set_solver].
  - by right; left.
  - done.
  - done.
  - intros e He. apply list_elem_of_filter in He as [_ He]. apply elem_of_cons in He as [->|He]; [done|set_solver].
  - intros i. reflexivity.
  - reflexivity.
  - apply (bool_decide_unpack _). reflexivity.
  - assert (vs = ex_win_vs) as -> by (unfold ex_win_vs; rewrite Eg; cbn [Deployment.ok_or]; by rewrite Ev). clear Eg Ev. cbn zeta in Hj.
    change (sender_positions ex_win_jg ex_win_vertex) with [0; 1] in Hj.
    assert (is_Some (tasks ex_win_job !! 3)) as [tk Etk] by (apply lookup_lt_is_Some_2; vm_compute; lia).
    assert ((length ∘ t_consumed) <$> tasks ex_win_job !! 3 = Some 3) as Hlen by (vm_compute; reflexivity).
    rewrite Etk in Hlen. injection Hlen as Hlen. exists tk. split; [exact Etk|].
    assert (at_rest ex_win_job = true) as Hq by (vm_compute; reflexivity).
    assert (forallb has_time
      (concat (map (emitted_by ex_win_job) [0; 1])) = true) as Ht by (vm_compute; reflexivity).
    destruct (Hj (at_rest_quiescent _ Hq) (timed_all _ Ht) ltac:(vm_compute; reflexivity)
      ltac:(constructor; [by left|constructor]) ltac:(intros ????; reflexivity) 1 tk ltac:(simpl; lia)) as (Hl & _ & Hk).
    + change (pos ex_win_jg (execution_vertex_id (mkEV ex_win_vertex 1 None))) with 3. exact Etk.
    + split; [by rewrite Hl|]. specialize (Hk 1%Z). rewrite decide_True in Hk by reflexivity. exact Hk.
Defined.
