(* ===== verification/Pipelines.v ===== *)
(** * Feature pipelines
    ([volga/api/dataset/operators.py], [_extract_timestamp] of [volga/api/dataset/dataset.py])

    A pipeline takes the events of a source dataset through transforms and filters, groups them
    by a key and aggregates them over windows.  Its operators are those of [Operators] and
    [Window] with the functions of [Events]; the result is stated on events: what a feature of
    the target dataset is computed from. *)

From S2P Require Import Prelude PyDict PyDecimal TimeUtils Message Window Operators Sources Features Schema Events.

Section pipelines.
Context {T U : Type} `{!EqDecision U}.
Local Abbreviation ev := (event U).
Local Abbreviation rc := (rec U (event U)).
(** The text of an aggregation type, and numbers and times as values of events. *)
Context (agg_str : AggregationType → string) (as_dec : U → res dec) (of_dec : dec → U) (isoparse : U → res (res dec)).

(** ** Operator nodes *)

(** The nodes between a source dataset and a group-by, with the functions the user gave. *)
Inductive node :=
| NTransform (func : ev → res ev)
| NFilter (func : ev → res bool)
| NAssign
| NRename
| NDrop
| NDropNull.

(** [_stream_map_func] and [_stream_filter_func] of the classes; four of them only raise. *)
Definition transform_map_func (func : ev → res ev) (event : ev) : res ev := func event.
Definition filter_filter_func (func : ev → res bool) (event : ev) : res bool := func event.
Definition assign_map_func (event : ev) : res ev := Raise NotImplementedError.
Definition rename_map_func (event : ev) : res ev := Raise NotImplementedError.
Definition drop_filter_func (event : ev) : res bool := Raise NotImplementedError.
Definition dropnull_filter_func (event : ev) : res bool := Raise NotImplementedError.

(** [init_stream] of the classes: the operator of the stream. *)
Definition node_step (n : node) : () → rc → outcome () :=
  match n with
  | NTransform func => map_step (transform_map_func func)
  | NFilter func => filter_step (filter_filter_func func)
  | NAssign => map_step assign_map_func
  | NRename => map_step rename_map_func
  | NDrop => filter_step drop_filter_func
  | NDropNull => filter_step dropnull_filter_func
  end.
Definition node_op (n : node) : op U ev := mkOp () (node_step n).

(** [GroupBy.init_stream] and [Aggregate.init_stream]; [output_schema] is the schema of the target. *)
Definition group_by_op (ks : list string) : op U ev := mkOp () (key_by_step (_stream_key_by_func ks)).
Definition aggregate_op : op U ev := window_op agg_str (λ _, []).
Definition aggregate_init (aggregates : list AggregateType) (output_schema : Schema T) : op_st aggregate_op :=
  new_MultiWindowOperator (_stream_window_aggregate_configs as_dec aggregates)
    (Some (_output_window_func of_dec isoparse output_schema)).

(** [dataset.op1(...).op2(...)...group_by(keys).aggregate(aggregates)] *)
Fixpoint feature_ops (ns : list node) (ks : list string) : list (op U ev) :=
  match ns with
  | [] => [group_by_op ks; aggregate_op]
  | n :: ns' => node_op n :: feature_ops ns' ks
  end.
Fixpoint feature_st (ns : list node) (ks : list string) (w : op_st aggregate_op) : chain_st (feature_ops ns ks) :=
  match ns with
  | [] => ((), (w, ()))
  | n :: ns' => ((), feature_st ns' ks w)
  end.

(** [_extract_timestamp]: the event time of a source record is its timestamp field, a [Decimal]. *)
Definition _extract_timestamp (timestamp_field : string) (record : rc) : res stamp :=
  v ← from_option_exn KeyError (dget (r_value record) timestamp_field);
  ts ← datetime_str_to_ts isoparse v;
  Ok (TDecimal ts).

(** The records a source makes of the events, from the [n]-th on. *)
Fixpoint ingest (timestamp_field : string) (emit_clock : Z → Z) (n : Z) (events : list ev) : res (list rc) :=
  match events with
  | [] => Ok []
  | e :: events' =>
      r ← source_record (Some (_extract_timestamp timestamp_field)) emit_clock n e;
      rs ← ingest timestamp_field emit_clock (n + 1) events';
      Ok (r :: rs)
  end.

(** ** What a pipeline means *)

(** An event through the nodes: the event that comes out, or none if a filter drops it. *)
Fixpoint eval (ns : list node) (e : ev) : res (option ev) :=
  match ns with
  | [] => Ok (Some e)
  | NTransform func :: ns' => e' ← func e; eval ns' e'
  | NFilter func :: ns' => b ← func e; if (b : bool) then eval ns' e else Ok None
  | _ :: _ => Raise NotImplementedError
  end.

(** The keyed record that reaches the aggregate. *)
Definition survivor (ns : list node) (ks : list string) (r : rc) : option rc :=
  match eval ns (r_value r) with
  | Ok (Some e) =>
      match _stream_key_by_func ks e with
      | Ok k => Some (new_KeyRecord k e (event_time r) (source_emit_ts r))
      | Raise _ => None
      end
  | _ => None
  end.
Definition survivors (ns : list node) (ks : list string) : list rc → list rc := omap (survivor ns ks).

(** ** Lemmas *)

(** The nodes and the grouping raise on no record. *)
Definition passes (ns : list node) (ks : list string) (r : rc) : Prop :=
  ∃ o, eval ns (r_value r) = Ok o ∧ ∀ e, o = Some e → is_ok (_stream_key_by_func ks e) = true.

Lemma group_run ks rs : Forall (passes [] ks) rs →
  run_op (key_by_step (_stream_key_by_func ks)) () rs = ((), survivors [] ks rs, Ok ()).
Proof.
  induction 1 as [|r rs (o & [= <-] & Hk) _ IH]; [done|]. specialize (Hk _ eq_refl).
  destruct (_stream_key_by_func ks (r_value r)) as [k|] eqn:Ek; [|done]. cbn [run_op]. unfold key_by_step at 1. rewrite Ek.
  cbn [mbind res_bind one]. rewrite IH. unfold survivors. simpl. unfold survivor at 2. simpl. by rewrite Ek.
Qed.

(** A node over a list: the records that come out, and what the rest of the pipeline makes of them. *)
Lemma node_run n ns ks rs : Forall (passes (n :: ns) ks) rs →
  ∃ ys, run_op (node_step n) () rs = ((), ys, Ok ()) ∧ Forall (passes ns ks) ys ∧ survivors ns ks ys = survivors (n :: ns) ks rs.
Proof.
  induction 1 as [|r rs (o & Ho & Hk) _ IH]; [by exists []|]. destruct IH as (ys & E & Hp & Hs).
  destruct n as [f|f| | | |]; try discriminate Ho; simpl in Ho.
  - destruct (f (r_value r)) as [e|] eqn:Ef; [|done]. simpl in Ho.
    exists (new_Record e (event_time r) (source_emit_ts r) :: ys). cbn [run_op node_step] in *. unfold map_step at 1, transform_map_func at 1. rewrite Ef. cbn [mbind res_bind one].
    rewrite E. split_and!; [done| |].
    + constructor; [|done]. by exists o.
    + unfold survivors in *. simpl. assert (survivor (NTransform f :: ns) ks r = survivor ns ks (new_Record e (event_time r) (source_emit_ts r)))
        as -> by (unfold survivor; simpl; by rewrite Ef). unfold omap in Hs. by rewrite <- Hs.
  - destruct (f (r_value r)) as [b|] eqn:Ef; [|done]. simpl in Ho.
    exists (if b then r :: ys else ys). cbn [run_op node_step] in *. unfold filter_step at 1, filter_filter_func at 1. rewrite Ef.
    unfold survivors in *. destruct b; rewrite E; (split_and!; [done| |]).
    + constructor; [|done]. by exists o.
    + simpl. assert (survivor (NFilter f :: ns) ks r = survivor ns ks r) as -> by (unfold survivor; simpl; by rewrite Ef). unfold omap in Hs. by rewrite <- Hs.
    + done.
    + simpl. assert (survivor (NFilter f :: ns) ks r = None) as -> by (unfold survivor; simpl; by rewrite Ef). done.
Qed.

Lemma pipeline_step (o : op U ev) ops s ss xs s1 ys ss1 zs e : run_op (op_step o) s xs = (s1, ys, Ok ()) →
  pipeline ops ss ys = (ss1, zs, e) → pipeline (o :: ops) (s, ss) xs = ((s1, ss1), zs, e).
Proof. intros E1 E2. cbn [pipeline]. rewrite E1. by rewrite E2. Qed.

(** The whole pipeline is its aggregate over the survivors. *)
Lemma feature_run ns ks w : ∀ rs, Forall (passes ns ks) rs → ∀ st outs,
  run_op (op_step aggregate_op) w (survivors ns ks rs) = (st, outs, Ok ()) →
  pipeline (feature_ops ns ks) (feature_st ns ks w) rs = (feature_st ns ks st, outs, Ok ()).
Proof.
  induction ns as [|n ns IH]; intros rs Hp st outs E.
  - apply (pipeline_step (group_by_op ks) [aggregate_op] () (w, ()) rs () (survivors [] ks rs)); [by apply group_run|].
    by apply (pipeline_step aggregate_op [] w () _ st outs).
  - destruct (node_run n ns ks rs Hp) as (ys & Ey & Hp' & Es). rewrite <- Es in E.
    apply (pipeline_step (node_op n) (feature_ops ns ks) () (feature_st ns ks w) rs () ys); [done|]. by apply IH.
Qed.

(** A source record carries its event, with the time of the timestamp field. *)
Definition stamped (timestamp_field : string) (e : ev) (r : rc) : Prop :=
  r_value r = e ∧ ∃ v t, dget e timestamp_field = Some v ∧ datetime_str_to_ts isoparse v = Ok t ∧ event_time r = Some (TDecimal t).

Lemma ingest_ok f clock events : Forall (λ e, ∃ v, dget e f = Some v ∧ is_ok (datetime_str_to_ts isoparse v) = true) events →
  ∀ n, ∃ rs, ingest f clock n events = Ok rs ∧ Forall2 (stamped f) events rs.
Proof.
  induction 1 as [|e es (v & Ev & Hv) _ IH]; intros n; [by exists []|]. destruct (IH (n + 1)%Z) as (rs & E & HF).
  destruct (datetime_str_to_ts isoparse v) as [t|] eqn:Et; [|done]. cbn [ingest]. unfold source_record, assign_timestamp, _extract_timestamp.
  cbn [r_value new_Record]. rewrite Ev. cbn [from_option_exn mbind res_bind]. rewrite Et. cbn [mbind res_bind]. rewrite E. cbn [mbind res_bind].
  eexists. split; [reflexivity|]. constructor; [|done]. split; [done|]. by exists v, t.
Qed.

(** The survivors are the events the nodes let through, in order. *)
Definition let_through (ns : list node) (e : ev) : option ev := match eval ns e with Ok o => o | Raise _ => None end.

Lemma survivors_values ns ks f events rs : Forall2 (stamped f) events rs → Forall (passes ns ks) rs →
  map r_value (survivors ns ks rs) = omap (let_through ns) events.
Proof.
  induction 1 as [|e r es rs [<- _] _ IH]; intros Hp; [done|]. inv Hp as [|?? (o & Eo & Hk) Hp']. specialize (IH Hp').
  unfold survivors in *. simpl. unfold survivor at 1, let_through at 1. rewrite Eo. unfold omap in IH.
  destruct o as [e'|]; [|done]. specialize (Hk e' eq_refl). destruct (_stream_key_by_func ks e'); [|done]. simpl. by rewrite IH.
Qed.

Lemma survivors_elem ns ks rs x : x ∈ survivors ns ks rs → ∃ r, r ∈ rs ∧ eval ns (r_value r) = Ok (Some (r_value x)) ∧
  event_time x = event_time r ∧ is_Some (r_key x).
Proof.
  unfold survivors. intros (r & Hr & E)%list_elem_of_omap. exists r. split; [done|]. unfold survivor in E.
  destruct (eval ns (r_value r)) as [[e|]|]; [|done..]. destruct (_stream_key_by_func ks e); [|done]. injection E as <-.
  split_and!; [done..|by eexists].
Qed.

Lemma survivors_length ns ks rs : length (survivors ns ks rs) ≤ length rs.
Proof. unfold survivors. induction rs as [|r rs IH]; simpl; [lia|]. unfold omap in IH. destruct (survivor ns ks r); simpl; lia. Qed.

Lemma windows_named aggregates (ws : list (Window U ev)) :
  mapR (create_window agg_str) (_stream_window_aggregate_configs as_dec aggregates) = Ok ws → map w_name ws = map g_into aggregates.
Proof.
  revert ws. induction aggregates as [|a aggs IH]; intros ws E; [by injection E as <-|].
  cbn [_stream_window_aggregate_configs map mapR] in E. destruct (create_window agg_str _) as [w|] eqn:Ew; [|done].
  cbn [mbind res_bind] in E. fold (_stream_window_aggregate_configs as_dec aggs) in E.
  destruct (mapR _ _) as [ws'|] eqn:E'; [|done]. injection E as <-. unfold create_window in Ew. inv_res. simpl. f_equal. by apply IH.
Qed.

(** What an event needs when it reaches the aggregate: its key, the fields that are aggregated as
    numbers, the keys of the output and a time. *)
Record ready (ks : list string) (aggregates : list AggregateType) (s : Schema T) (e : ev) : Prop := {
  rd_key : is_ok (_stream_key_by_func ks e) = true;
  rd_fields : Forall (λ a, g_class a = Count ∨ ∃ on v, g_on a = Some on ∧ dget e on = Some v ∧ is_ok (as_dec v) = true) aggregates;
  rd_output : Forall (λ k, is_Some (dget e k)) (dkeys (keys s));
  rd_time : Exists (λ v, is_time_str isoparse v = true) (dvalues e);
}.

(** The output event of a ready record. *)
Definition output_of (s : Schema T) (aggs : dict string dec) (r : rc) : rc :=
  match _output_window_func of_dec isoparse s aggs r with Ok x => x | Raise _ => r end.

Lemma output_of_ok ks aggregates (s : Schema T) aggs (r : rc) : schema_wf s → dkeys (values s) ⊆ map g_into aggregates →
  dkeys aggs = map g_into aggregates → ready ks aggregates s (r_value r) →
  _output_window_func of_dec isoparse s aggs r = Ok (output_of s aggs r) ∧ event_time (output_of s aggs r) = event_time r ∧
  dkeys (r_value (output_of s aggs r)) ≡ₚ fields s ∧
  (∀ k, k ∈ dkeys (keys s) → dget (r_value (output_of s aggs r)) k = dget (r_value r) k) ∧
  (∀ n, n ∈ dkeys (values s) → dget (r_value (output_of s aggs r)) n = of_dec <$> dget aggs n) ∧
  ∃ ts, dget (r_value (output_of s aggs r)) (timestamp s) = Some ts ∧ first_time isoparse (r_value r) = Some ts ∧ is_time_str isoparse ts = true ∧ ts ∈ dvalues (r_value r).
Proof.
  intros Hwf Hsub Hk [_ _ Ho Ht]. destruct (output_ok of_dec isoparse s aggs r Hwf) as (out & ts & E & H1 & H2 & H3 & H4).
  { split_and!; [done..|]. apply Forall_forall. intros n Hn. apply elem_dkeys_dget. rewrite Hk. by apply Hsub. }
  unfold output_of. rewrite E. split_and!; [done..|]. by exists ts.
Qed.

(** The aggregations of a pipeline are defined on ready events. *)
Lemma configs_defined ks aggregates (s : Schema T) (xs : list rc) : Forall (λ x, ready ks aggregates s (r_value x)) xs →
  Forall (λ c : SlidingWindowConfig ev, c_agg_type c = COUNT ∨ ∃ h, c_agg_on_func c = Some h ∧ ∀ v, (∃ x, x ∈ xs ∧ r_value x = v) → is_ok (h v) = true)
    (_stream_window_aggregate_configs as_dec aggregates).
Proof.
  intros Hx. apply Forall_fmap, Forall_forall. intros a Ha. cbn. unfold aggregate_get_type.
  destruct (decide (g_class a = Count)) as [->|Hc]; [by left|right]. eexists. split; [reflexivity|]. intros v (x & Hin & <-).
  rewrite Forall_forall in Hx. destruct (Hx x Hin) as [_ Hf _ _]. rewrite Forall_forall in Hf.
  destruct (Hf a Ha) as [?|(on & v & -> & -> & Hv)]; [done|exact Hv].
Qed.

(** A pipeline and the events of its source fit: every event has its timestamp, no user function raises
    on it, what is let through is ready, and the windows can be created under distinct names that
    include the values of the output schema. *)
Record well_posed (ns : list node) (ks : list string) (aggregates : list AggregateType) (output_schema : Schema T)
    (timestamp_field : string) (events : list ev) (ws : list (Window U ev)) : Prop := {
  wp_stamped : Forall (λ e, ∃ v, dget e timestamp_field = Some v ∧ is_ok (datetime_str_to_ts isoparse v) = true) events;
  wp_ready : ∀ e, e ∈ events → ∃ o, eval ns e = Ok o ∧ ∀ e', o = Some e' → ready ks aggregates output_schema e';
  wp_windows : _create_windows agg_str (aggregate_init aggregates output_schema) = Ok ws;
  wp_names : NoDup (map g_into aggregates);
  wp_schema : schema_wf output_schema;
  wp_values : dkeys (values output_schema) ⊆ map g_into aggregates;
  wp_bound : (Z.of_nat (length events) < 10 ^ prec)%Z;
}.

Section theorem.
Context (ns : list node) (ks : list string) (aggregates : list AggregateType) (output_schema : Schema T).
Context (timestamp_field : string) (emit_clock : Z → Z) (events : list ev) (ws : list (Window U ev)).
Hypothesis Hwp : well_posed ns ks aggregates output_schema timestamp_field events ws.
Context (rs : list rc) (Hrs : Forall2 (stamped timestamp_field) events rs).
Local Abbreviation xs := (survivors ns ks rs).

Lemma stamped_elem r : r ∈ rs → r_value r ∈ events ∧ timed r.
Proof using Hrs.
  intros (i & Hi)%list_elem_of_lookup_1. destruct (Forall2_lookup_r _ _ _ _ _ Hrs Hi) as (e & He & <- & v & t & _ & _ & Et).
  split; [by eapply list_elem_of_lookup_2|by exists (TDecimal t)].
Qed.

Lemma all_pass : Forall (passes ns ks) rs.
Proof using Hwp Hrs.
  apply Forall_forall. intros r [Hr _]%stamped_elem. destruct (wp_ready _ _ _ _ _ _ _ Hwp _ Hr) as (o & Eo & Ho).
  exists o. split; [done|]. intros e ->. by apply Ho.
Qed.

Lemma survivor_ready x : x ∈ xs → ready ks aggregates output_schema (r_value x) ∧ timed x ∧ is_Some (r_key x).
Proof using Hwp Hrs.
  intros (r & Hr & Ee & Et & Hk)%survivors_elem. destruct (stamped_elem r Hr) as [Hin Htm].
  destruct (wp_ready _ _ _ _ _ _ _ Hwp _ Hin) as (o & Eo & Ho). split_and!; [apply Ho; congruence|unfold timed; by rewrite Et|done].
Qed.

Lemma window_names : map w_name ws = map g_into aggregates.
Proof using Hwp. exact (windows_named aggregates ws (wp_windows _ _ _ _ _ _ _ Hwp)). Qed.

(** The run of the pipeline, with its outputs as functions of the aggregates. *)
Lemma feature_ok : ∃ st outs,
  pipeline (feature_ops ns ks) (feature_st ns ks (aggregate_init aggregates output_schema)) rs = (st, outs, Ok ()) ∧
  length outs = length xs ∧
  ∀ i x k, xs !! i = Some x → r_key x = Some k → ∃ aggs, spec_aggs (key_arrivals k (take (S i) xs)) ws = Ok aggs ∧
    dkeys aggs = map g_into aggregates ∧ outs !! i = Some (output_of output_schema aggs x).
Proof using Hwp Hrs.
  set (D := λ v, ∃ x, x ∈ xs ∧ r_value x = v). pose proof window_names as Hnames. destruct Hwp as [_ _ Hc Hnd Hwf Hsub Hlen].
  assert (Forall (window_ok D) ws) as Hws.
  { eapply mapR_Forall; [|apply (configs_defined ks aggregates output_schema xs), Forall_forall; intros; by apply survivor_ready|exact Hc].
    intros c w Hc' Ew. by eapply created_window_ok. }
  destruct (process_all_ok D agg_str (λ _, []) ws (output_of output_schema) Hws ltac:(by rewrite Hnames) xs [] (aggregate_init aggregates output_schema))
    as (outs & st & E & _ & Hl & Hout); [by split|..].
  { intros aggs x Hin Hk. rewrite Hnames in Hk. by apply (output_of_ok ks aggregates), survivor_ready. }
  1-3: cbn [app]; apply Forall_forall; intros x Hin; first [apply survivor_ready, Hin|by exists x].
  { cbn [app]. pose proof (survivors_length ns ks rs). pose proof (Forall2_length _ _ _ Hrs). lia. }
  apply window_run in E. eexists _, outs. split; [by apply feature_run; [apply all_pass|]|]. split; [done|].
  intros i x k Hi Hk. destruct (Hout i x k Hi Hk) as (aggs & Ea & Eo). exists aggs. split_and!; [done| |done].
  rewrite <- Hnames. by eapply spec_aggs_keys.
Qed.

(** The output event of a survivor. *)
Lemma survivor_output x aggs : x ∈ xs → dkeys aggs = map g_into aggregates → let out := output_of output_schema aggs x in
  event_time out = event_time x ∧ dkeys (r_value out) ≡ₚ fields output_schema ∧
  (∀ f, f ∈ dkeys (keys output_schema) → dget (r_value out) f = dget (r_value x) f) ∧
  (∀ f, f ∈ dkeys (values output_schema) → dget (r_value out) f = of_dec <$> dget aggs f) ∧
  ∃ ts, dget (r_value out) (timestamp output_schema) = Some ts ∧ first_time isoparse (r_value x) = Some ts ∧ is_time_str isoparse ts = true ∧ ts ∈ dvalues (r_value x).
Proof using Hwp Hrs.
  intros Hx Hk. destruct Hwp as [_ _ _ _ Hwf Hsub _]. apply (output_of_ok ks aggregates); [done..|by apply survivor_ready].
Qed.
End theorem.

(** C5. A feature, from the events of the source to the events of the target.  If every event of the source has its
    timestamp and no user function raises on it, and the events the transforms and filters let through have their
    key and the aggregated fields, then the pipeline runs without an exception and produces one output event per
    event let through, in order.  It has exactly the fields of the output schema: the keys of its event, the first time
    of its event, and for every aggregate the value over exactly those events of the same key let through so far whose
    timestamp is within the window of the latest one. *)
Theorem feature_pipeline ns ks aggregates (output_schema : Schema T) timestamp_field emit_clock (events : list ev) (ws : list (Window U ev)) :
  well_posed ns ks aggregates output_schema timestamp_field events ws →
  ∃ rs st outs, ingest timestamp_field emit_clock 0 events = Ok rs ∧ Forall2 (stamped timestamp_field) events rs ∧
    let xs := survivors ns ks rs in
    map r_value xs = omap (let_through ns) events ∧
    pipeline (feature_ops ns ks) (feature_st ns ks (aggregate_init aggregates output_schema)) rs = (st, outs, Ok ()) ∧
    length outs = length xs ∧
    ∀ i x k, xs !! i = Some x → r_key x = Some k →
      ∃ aggs out, spec_aggs (key_arrivals k (take (S i) xs)) ws = Ok aggs ∧ outs !! i = Some out ∧
        event_time out = event_time x ∧ dkeys (r_value out) ≡ₚ fields output_schema ∧
        (∀ f, f ∈ dkeys (keys output_schema) → dget (r_value out) f = dget (r_value x) f) ∧
        (∀ f, f ∈ dkeys (values output_schema) → dget (r_value out) f = of_dec <$> dget aggs f) ∧
        ∃ ts, dget (r_value out) (timestamp output_schema) = Some ts ∧ first_time isoparse (r_value x) = Some ts ∧ is_time_str isoparse ts = true ∧ ts ∈ dvalues (r_value x).
Proof.
  intros Hwp. destruct (ingest_ok timestamp_field emit_clock events (wp_stamped _ _ _ _ _ _ _ Hwp) 0) as (rs & Ei & HF).
  destruct (feature_ok ns ks aggregates output_schema timestamp_field events ws Hwp rs HF) as (st & outs & Ep & Hl & Hout).
  exists rs, st, outs. split; [done|]. split; [done|]. cbn zeta.
  split; [eapply survivors_values; [exact HF|by eapply all_pass]|]. split; [done|]. split; [done|].
  intros i x k Hi Hk. destruct (Hout i x k Hi Hk) as (aggs & Ea & Ek & Eo). exists aggs, (output_of output_schema aggs x).
  split; [done|]. split; [done|]. eapply survivor_output; [done..|by eapply list_elem_of_lookup_2|done].
Qed.
End pipelines.

(** ** Witness: purchases of more than nothing, per buyer *)

(** Values are integers; those from 1000 on are times. *)
Definition ex_isoparse (v : Z) : res (res dec) := if bool_decide (1000 <= v)%Z then Ok (Ok (dec_of_Z v)) else Raise (ValueError "isoparse").
Definition ex_as_dec (v : Z) : res dec := Ok (dec_of_Z v).
Definition ex_of_dec (d : dec) : Z := Qnum (this d).
Definition ex_price (e : event Z) : Z := default 0%Z (dget e "price").
Definition ex_purchase (buyer price at_ : Z) : event Z := [("buyer", buyer); ("price", price); ("at", at_)].
Definition ex_purchases : list (event Z) :=
  [ex_purchase 1 5 1000; ex_purchase 2 7 1001; ex_purchase 1 0 1002; ex_purchase 1 6 1020].
Definition ex_nodes : list (node (U:=Z)) :=
  [NFilter (λ e : event Z, Ok (bool_decide (0 < ex_price e)%Z)); NTransform (λ e : event Z, Ok (dset e "price" (2 * ex_price e)%Z))].
Definition ex_aggregates : list AggregateType :=
  [mkAggregate Sum "10s" "total" (Some "price"); mkAggregate Count "10s" "orders" None].
Definition ex_target : Schema string := mkSchema [("buyer", "int")] [("total", "decimal"); ("orders", "int")] "at".
Definition ex_feature_init : MultiWindowOperator Z (event Z) (event Z) :=
  aggregate_init ex_agg_str ex_as_dec ex_of_dec ex_isoparse ex_aggregates ex_target.
Definition ex_feature_windows : list (Window Z (event Z)) :=
  match _create_windows ex_agg_str ex_feature_init with Ok ws => ws | Raise _ => [] end.

Lemma ex_ready buyer price at_ : (1000 <= at_)%Z →
  ready ex_as_dec ex_isoparse ["buyer"] ex_aggregates ex_target (ex_purchase buyer price at_).
Proof.
  intros Ha. split; [done| | |].
  - constructor; [right; by exists "price", price|]. constructor; [by left|constructor].
  - constructor; [by exists buyer|constructor].
  - do 2 right. left. unfold is_time_str, ex_isoparse. by rewrite bool_decide_eq_true_2.
Qed.

Lemma ex_well_posed :
  well_posed ex_agg_str ex_as_dec ex_of_dec ex_isoparse ex_nodes ["buyer"] ex_aggregates ex_target "at" ex_purchases ex_feature_windows.
Proof.
  split; try (apply (bool_decide_unpack _); reflexivity).
  - repeat (constructor; [eexists; split; reflexivity|]). constructor.
  - intros e He. repeat (apply elem_of_cons in He as [->|He];
      [eexists; split; [reflexivity|]; intros e' [= <-]; try (apply ex_ready; lia)|]). by apply elem_of_nil in He.
  - reflexivity.
Qed.

Lemma feature_pipeline_witness : ∃ rs st outs,
  ingest ex_isoparse "at" (λ n, n) 0 ex_purchases = Ok rs ∧
  pipeline (feature_ops ex_agg_str ex_nodes ["buyer"]) (feature_st ex_agg_str ex_nodes ["buyer"] ex_feature_init) rs = (st, outs, Ok ()) ∧
  length outs = 3.
Proof.
  destruct (feature_pipeline ex_agg_str ex_as_dec ex_of_dec ex_isoparse ex_nodes ["buyer"] ex_aggregates ex_target "at" (λ n, n)
    ex_purchases ex_feature_windows ex_well_posed) as (rs & st & outs & Ei & _ & Hv & Ep & Hl & _).
  exists rs, st, outs. split; [exact Ei|]. split; [exact Ep|]. rewrite Hl.
  apply (f_equal length) in Hv. rewrite length_map in Hv. rewrite Hv. reflexivity.
Defined.
