(* ===== verification/Serving.v ===== *)
(** * Serving features
    ([volga/client/client.py], [volga/storage/hot/hot.py], [volga/storage/cold/cold.py],
     [volga/storage/common/simple_in_memory_actor_storage.py])

    The read side of the client, and the path of a feature from the source events to the value a
    client reads: the pipeline of [Pipelines], the sink of [Sinks] and the store of [Storage]. *)

From stdpp Require Import pretty.
From S2P Require Import Prelude PyDict PyDecimal TimeUtils KeyIndex Storage Sinks Message Window Operators Sources Features Schema Events Pipelines.

(** ** Storage interfaces *)

(** [HotStorage] and [ColdStorage]: what the client calls; [Q] are key dictionaries and [E] events. *)
Class HotStorage (St Q E : Type) := hot_get_latest_data : St → string → option (list Q) → res (option (list E)).
Class ColdStorage (St Q E : Type) :=
  cold_get_data : St → string → option (list Q) → option dec → option dec → res (list E).

Section client.
Context {St Q E DT DF : Type} {HS : HotStorage St Q E} {CS : ColdStorage St Q E}.
(** [datetime_to_ts], and the data frame of a list of events. *)
Context (datetime_to_ts : DT → dec) (DataFrame : list E → DF).

(** [Client]: the storages it was created with. *)
Record Client := mkStores { hot : option St; cold : option St }.

Definition get_offline_data (self : Client) (dataset_name : string) (keys : option (list Q)) (start end_ : option DT) : res DF :=
  match cold self with
  | None => Raise (ValueError "ColdStorage is not set")
  | Some c =>
      data ← cold_get_data c dataset_name keys (datetime_to_ts <$> start) (datetime_to_ts <$> end_);
      Ok (DataFrame data)
  end.

Definition get_online_latest_data (self : Client) (dataset_name : string) (keys : option (list Q)) : res (option (list E)) :=
  match hot self with
  | None => Raise (ValueError "HotStorage is not set")
  | Some h => hot_get_latest_data h dataset_name keys
  end.

Definition get_on_demand (self : Client) : res DF := Raise NotImplementedError.
End client.
Arguments Client : clear implicits.

(** ** The in-memory storage as hot and cold storage *)

Section in_memory.
Context {U : Type} `{!EqDecision U} (py_str : U → string) `{Hso : SetOrderOk}.
Local Abbreviation ev := (event U).

#[export] Instance in_memory_hot : HotStorage (CacheActor ev) (dict string U) ev := get_latest_data py_str.
#[export] Instance in_memory_cold : ColdStorage (CacheActor ev) (dict string U) ev := get_data py_str.

(** The sink operator of an online materialization, record by record. *)
Definition sink_outputs {K} (datetime_str_to_ts : U → res dec) (dataset_name : string) (sch : OutputSchema) (outs : list (rec K ev))
    : M (CacheActor ev) () :=
  for_each outs (λ r, single_event_sink py_str datetime_str_to_ts dataset_name sch (r_value r)).

(** *** Lemmas *)

(** The keys the sink takes from an event. *)
Definition keys_of (kos : list string) (v : ev) : dict string U := omap (λ k, pair k <$> dget v k) kos.

Lemma keys_of_ext kos (v v' : ev) : (∀ k, k ∈ kos → dget v k = dget v' k) → keys_of kos v = keys_of kos v'.
Proof.
  unfold keys_of. induction kos as [|k kos IH]; intros E; [done|]. cbn [omap list_omap]. rewrite (E k) by by left.
  rewrite IH; [done|]. intros k' Hk. apply E. by right.
Qed.

Lemma keys_of_ok kos (v : ev) : Forall (λ k, is_Some (dget v k)) kos →
  mapR (λ k, x ← dgetitem v k; Ok (k, x)) kos = Ok (keys_of kos v) ∧ map fst (keys_of kos v) = kos ∧
  ∀ k, k ∈ kos → dget (keys_of kos v) k = dget v k.
Proof.
  induction 1 as [|k kos [x Ex] _ (E1 & E2 & E3)]; [split_and!; [done..|]; by intros k ?%elem_of_nil|].
  assert (dgetitem v k = Ok x) as Eg by (unfold dgetitem; by rewrite Ex). cbn [mapR]. rewrite Eg. cbn [mbind res_bind]. rewrite E1. cbn [mbind res_bind].
  unfold keys_of in *. cbn [omap list_omap]. rewrite Ex. cbn. split_and!; [done|by rewrite E2|].
  intros k' Hk'. case_decide; subst; [done|]. apply E3. by apply elem_of_cons in Hk' as [->|].
Qed.

Lemma event_record_ok dts sch (v : ev) t ts : NoDup (schema_keys sch) → Forall (λ k, is_Some (dget v k)) (schema_keys sch) →
  dget v (schema_timestamp sch) = Some t → dts t = Ok ts → event_record dts sch v = Ok (keys_of (schema_keys sch) v, ts, v).
Proof.
  intros Hnd Hk Et Ets. destruct (keys_of_ok _ _ Hk) as (E1 & E2 & _). unfold event_record. rewrite E1. cbn. unfold dgetitem. rewrite Et. cbn.
  rewrite Ets. cbn. rewrite dict_of_id; [done|]. change (NoDup (map fst (keys_of (schema_keys sch) v))). by rewrite E2.
Qed.

Lemma sink_outputs_run {K} isoparse ds sch (outs : list (rec K ev)) recs :
  Forall2 (λ r c, event_record isoparse sch (r_value r) = Ok c) outs recs →
  ∀ a, sink_outputs isoparse ds sch outs a = (Ok (), put_batches py_str ds a (map (λ c, [c]) recs)).
Proof.
  unfold sink_outputs. induction 1 as [|r c outs recs E _ IH]; intros a; [done|]. cbn [for_each map]. unfold mbind, M_bind, single_event_sink at 1.
  rewrite E. by rewrite IH.
Qed.

Lemma concat_singletons {A} (l : list A) : concat (map (λ x, [x]) l) = l.
Proof. induction l as [|x l IH]; simpl; [done|]. by rewrite IH. Qed.

Lemma filter_values {A B} (f : A → B) (P : B → Prop) `{!∀ x, Decision (P x)} l : filter P (map f l) = map f (filter (λ x, P (f x)) l).
Proof. induction l as [|x l IH]; [done|]. cbn [map]. rewrite !filter_cons. case_decide; cbn [map]; by rewrite IH. Qed.

Lemma NoDup_all_eq {A} (l : list A) x : NoDup l → x ∈ l → (∀ y, y ∈ l → y = x) → l = [x].
Proof.
  intros Hnd Hx Hall. destruct l as [|y [|z l]]; [by apply elem_of_nil in Hx|by rewrite (Hall y) by left|].
  exfalso. apply NoDup_cons in Hnd as [Hy _]. apply Hy. rewrite (Hall y), <- (Hall z) by (by left || (right; left)). by left.
Qed.

Lemma stored_contents (pk : dict string (list (dec * ev))) m : map (pair m) (stored pk m) `sublist_of` contents pk.
Proof.
  unfold stored, contents. induction pk as [|[m' l] pk IH]; simpl; [done|]. case_decide as Hm; simpl.
  - subst. by apply sublist_inserts_r.
  - by apply sublist_inserts_l.
Qed.

(** Records stored one by one in a new dataset. *)
Lemma stored_fresh ds (recs : list (dict string U * dec * ev)) (a : CacheActor ev) : recs ≠ [] → actor_inv a → per_dataset_per_key a !! ds = None →
  NoDup (map (λ c, (compose_main_key py_str c.1.1, c.1.2)) recs) →
  let a' := put_batches py_str ds a (map (λ c, [c]) recs) in
  ∃ pk, let idx := put_all py_str new_key_index (map (λ c, c.1.1) recs) in
    actor_inv a' ∧ per_dataset_per_key a' !! ds = Some pk ∧ key_index_per_dataset a' !! ds = Some idx ∧
    dataset_inv pk idx ∧ contents pk ≡ₚ map (rec_entry py_str) recs.
Proof.
  intros Hne Ha Hn Hnd a'.
  destruct (put_records_loop_fresh py_str ds recs (ensure_dataset ds a).2 [] new_key_index) as (s & pk & E & Hp & Hi & Hinv & Hc).
  1-2: unfold ensure_dataset; rewrite Hn; apply lookup_insert_eq.
  { split; [apply dict_wf_nil|done|]. intros k m. simpl. rewrite lookup_empty. set_solver. }
  { unfold contents. simpl. by rewrite app_nil_r, map_map. }
  assert (put_records py_str ds recs a = (Ok (), s)) as Er.
  { unfold put_records, mbind, M_bind. destruct (ensure_dataset_inv ds a Ha) as [-> _]. done. }
  assert (a' = s) as ->.
  { apply put_batches_concat; [apply _|by destruct recs|exact Ha|]. by rewrite concat_singletons. }
  exists pk. cbn zeta. split; [change s with (snd (Ok () : res (), s)); rewrite <- Er; by apply put_records_inv|]. split; [exact Hp|]. split; [exact Hi|].
  split; [exact Hinv|]. by rewrite Hc, app_nil_r.
Qed.

(** What the store has under the keys a lookup selects, each entry with its key. *)
Definition tagged (pk : dict string (list (dec * ev))) (ms : list string) : list (string * (dec * ev)) :=
  ms ≫= λ m, map (pair m) (stored pk m).

Lemma tagged_values pk ms : map snd (tagged pk ms) = concat (map (stored pk) ms).
Proof.
  unfold tagged. induction ms as [|m ms IH]; [done|]. cbn [mbind list_bind map concat]. rewrite map_app, map_map. f_equal; [apply map_id|exact IH].
Qed.

Lemma tagged_NoDup pk ms : NoDup ms → NoDup (contents pk) → NoDup (tagged pk ms).
Proof.
  intros Hm Hc. apply NoDup_bind; [|intros m _; eapply sublist_NoDup; [exact Hc|apply stored_contents]|done].
  intros m1 m2 y _ _ H1 H2. apply list_elem_of_fmap in H1 as (? & -> & _), H2 as (? & [= ->] & _). done.
Qed.

Lemma elem_of_tagged pk idx ms m e : dataset_inv pk idx → (m, e) ∈ tagged pk ms ↔ m ∈ ms ∧ (m, e) ∈ contents pk.
Proof.
  intros Hinv. unfold tagged. rewrite list_elem_of_bind. rewrite elem_of_contents by (by destruct Hinv). unfold stored. split.
  - intros (m' & (e' & [= -> ->] & He)%list_elem_of_fmap & Hm). split; [done|]. destruct (dget pk m') as [l|]; [by exists l|by apply elem_of_nil in He].
  - intros (Hm & l & El & He). exists m. split; [|done]. rewrite El. by apply (list_elem_of_fmap_2 (pair m)).
Qed.

Lemma selected_NoDup (pk : dict string (list (dec * ev))) idx (kd : option (dict string U)) : dataset_inv pk idx → NoDup (selected_keys py_str pk idx kd).
Proof.
  intros Hinv. unfold selected_keys, get. destruct kd as [q|]; [|by destruct Hinv]. rewrite set_list_perm by apply _. apply NoDup_elements.
Qed.

Lemma latest_of_tagged ds (a : CacheActor ev) pk idx kd m ts v : actor_inv a →
  per_dataset_per_key a !! ds = Some pk → key_index_per_dataset a !! ds = Some idx → dataset_inv pk idx → NoDup (contents pk) →
  let sel := selected_keys py_str pk idx kd in (m, (ts, v)) ∈ tagged pk sel →
  (∀ m' e, (m', e) ∈ tagged pk sel → (e.1 <= ts)%Qc ∧ (e.1 = ts → (m', e) = (m, (ts, v)))) →
  get_latest py_str a ds kd = Ok (Some [v]).
Proof.
  intros Ha Hp Hi Hinv Hnd sel Hin Hmax. destruct (get_latest_spec py_str ds a kd Ha ltac:(by exists pk)) as (r & Er & Hr).
  rewrite (get_values_unbounded py_str a ds pk idx _ Hp Hi Hinv), <- tagged_values in Er. fold sel in Er.
  injection Er as <-. pose proof (stable_sort_perm fst Qcle (map snd (tagged pk sel))) as Hperm. set (r := stable_sort _ _ _) in *.
  assert (∀ e, e ∈ r ↔ ∃ m', (m', e) ∈ tagged pk sel) as Helem.
  { intros e. rewrite Hperm, list_elem_of_fmap. split; [intros ([m' e'] & -> & ?); by exists m'|intros (m' & ?); by exists (m', e)]. }
  assert ((ts, v) ∈ r) as Hv by (apply Helem; by exists m).
  destruct Hr as [[Hnil _]|(ts' & Hle & (e & He & Ee) & Hget)]; [rewrite Hnil in Hv; by apply elem_of_nil in Hv|].
  assert (ts' = ts) as ->.
  { apply Qcle_antisym; [|exact (Hle _ Hv)]. apply Helem in He as (m' & He). rewrite <- Ee. by apply (Hmax m'). }
  rewrite Hget. do 2 f_equal. assert (filter (λ e, e.1 = ts) r ≡ₚ [(ts, v)]) as ->%Permutation_singleton_r; [|done].
  rewrite Hperm, filter_values.
  rewrite (NoDup_all_eq (filter _ (tagged pk sel)) (m, (ts, v))); [done|..].
  - apply NoDup_filter, tagged_NoDup; [|done]. by apply selected_NoDup.
  - by apply list_elem_of_filter.
  - intros [m' e'] [He' Hin']%list_elem_of_filter. by apply (Hmax m' e').
Qed.

(** The latest record with a value of one key field. *)
Lemma latest_part ds kos kf (recs : list (dict string U * dec * ev)) (a : CacheActor ev) pk kd k ts v :
  let idx := put_all py_str new_key_index (map (λ c, c.1.1) recs) in
  Inj (=) (=) py_str → NoDup kos → kf ∈ kos →
  actor_inv a → per_dataset_per_key a !! ds = Some pk → key_index_per_dataset a !! ds = Some idx →
  dataset_inv pk idx → contents pk ≡ₚ map (rec_entry py_str) recs →
  NoDup (map (λ c, (compose_main_key py_str c.1.1, c.1.2)) recs) → Forall (λ c, separable py_str kos c.1.1) recs →
  (kd, ts, v) ∈ recs → dget kd kf = Some k →
  (∀ c, c ∈ recs → dget c.1.1 kf = Some k → (c.1.2 <= ts)%Qc ∧ (c.1.2 = ts → c = (kd, ts, v))) →
  get_latest_data py_str a ds (Some [[(kf, k)]]) = Ok (Some [v]).
Proof.
  intros idx Hinj Hnk Hkf Ha Hp Hi Hinv Hc Hnd Hsep Hin Hk Hmax. rewrite Forall_forall in Hsep.
  set (sel := selected_keys py_str pk idx (Some [(kf, k)])).
  assert (∀ m, m ∈ sel ↔ ∃ c, c ∈ recs ∧ dget c.1.1 kf = Some k ∧ m = compose_main_key py_str c.1.1) as Hsel.
  { intros m. unfold sel, selected_keys, get. rewrite elem_of_set_list. subst idx. rewrite put_all_lookup by apply _. cbn [index new_key_index].
    rewrite lookup_empty. change (compose_main_key py_str [(kf, k)]) with (kf +:+ "=" +:+ py_str k).
    assert (∀ c, c ∈ recs → kf +:+ "=" +:+ py_str k ∈ compose_possible_keys py_str c.1.1 ↔ dget c.1.1 kf = Some k) as Hpos.
    { intros c Hcr. apply (part_possible py_str Hinj kos); [done..|by apply Hsep|]. intros Hl. destruct (Hsep _ Hin) as [Ek [?|[_ Hd]]]; [done|].
      unfold no_dash in Hd. rewrite Forall_forall in Hd. apply Hd. apply dget_Some_elem in Hk. apply list_elem_of_fmap. by exists (kf, k). }
    split.
    - intros [?|(d & (c & -> & Hcr)%list_elem_of_fmap & Hpk & ->)]; [set_solver|]. exists c. split_and!; [done| |done]. by apply Hpos.
    - intros (c & Hcr & Ek & ->). right. exists c.1.1. split_and!; [|by apply Hpos|done]. apply list_elem_of_fmap. by exists c. }
  assert (∀ m e, (m, e) ∈ tagged pk sel ↔ ∃ c, c ∈ recs ∧ dget c.1.1 kf = Some k ∧ (m, e) = rec_entry py_str c) as Htag.
  { intros m e. rewrite (elem_of_tagged pk idx) by done. rewrite Hc, list_elem_of_fmap, Hsel. split.
    - intros ((c & Hcr & Ek & ->) & c' & E & Hcr'). exists c'. split_and!; [done| |done]. injection E as E _.
      rewrite <- Ek. symmetry. apply (part_main py_str Hinj kos); [done..|by apply Hsep|by apply Hsep|done].
    - intros (c & Hcr & Ek & E). split; [|by exists c]. exists c. split_and!; [done..|]. by injection E. }
  apply (latest_of_tagged ds a pk idx (Some [(kf, k)]) (compose_main_key py_str kd) ts v Ha Hp Hi Hinv).
  - rewrite Hc. apply (NoDup_fmap_1 (λ x, (x.1, x.2.1))). change (NoDup (map (λ x, (x.1, x.2.1)) (map (rec_entry py_str) recs))). by rewrite map_map.
  - apply Htag. by exists (kd, ts, v).
  - intros m e (c & Hcr & Ek & E)%Htag. destruct (Hmax c Hcr Ek) as [Hle Heq]. injection E as -> ->. split; [done|].
    intros ->%Heq. done.
Qed.
End in_memory.

(** Historical data can not be read from the in-memory storage: every request raises. *)
Theorem offline_read_raises {U DT DF} `{!EqDecision U} (py_str : U → string) `{Hso : SetOrderOk} (datetime_to_ts : DT → dec)
    (DataFrame : list (event U) → DF) (c : Client (CacheActor (event U))) name keys start end_ :
  is_ok (get_offline_data (CS:=in_memory_cold py_str) datetime_to_ts DataFrame c name keys start end_) = false.
Proof.
  unfold get_offline_data. destruct (cold c) as [a|]; [|done].
  assert (cold_get_data (ColdStorage:=in_memory_cold py_str) a name keys (datetime_to_ts <$> start) (datetime_to_ts <$> end_) =
    match single_keys_dict keys with Ok _ => Raise AttributeError | Raise e => Raise e end) as -> by apply get_data_never_returns.
  by destruct (single_keys_dict keys).
Qed.

(** ** From the source to the client *)

Section served.
Context {T U : Type} `{!EqDecision U} (py_str : U → string) `{Hso : SetOrderOk}.
Context (agg_str : AggregationType → string) (as_dec : U → res dec) (of_dec : dec → U) (isoparse : U → res (res dec)).
Local Abbreviation ev := (event U).
Local Abbreviation rc := (rec U (event U)).

(** The time an event is stored under: that of its first time field. *)
Definition stored_time (x : rc) : option dec :=
  match datetime_str_to_ts isoparse <$> first_time isoparse (r_value x) with Some (Ok t) => Some t | _ => None end.

Lemma survivor_key ns kf ks (rs : list rc) x k : x ∈ survivors ns (kf :: ks) rs → r_key x = Some k → dget (r_value x) kf = Some k.
Proof.
  unfold survivors. intros (r & _ & E)%list_elem_of_omap. unfold survivor in E. destruct (eval ns (r_value r)) as [[e|]|]; [|done..].
  unfold _stream_key_by_func in E. assert (py_index (kf :: ks) 0 = Ok kf) as Ei by done. rewrite Ei in E. cbn [mbind res_bind] in E.
  destruct (dget e kf) as [k'|] eqn:Ek; [|done]. injection E as <-. intros [= <-]. exact Ek.
Qed.

(** The schema [materialize_online] hands to the sink. *)
Definition sink_schema (s : Schema T) : OutputSchema := mkOutputSchema (dkeys (keys s)) (timestamp s).

(** The records the sink stores for the outputs of a list of survivors. *)
Definition stored_for (kos : list string) (x out : rc) : dict string U * dec * ev :=
  (keys_of kos (r_value x), default 0%Qc (stored_time x), r_value out).

Lemma lookup_stored_for kos xs outs i c : zip_with (stored_for kos) xs outs !! i = Some c →
  ∃ x out, xs !! i = Some x ∧ outs !! i = Some out ∧ c = stored_for kos x out.
Proof. rewrite lookup_zip_with_Some. naive_solver. Qed.

Section run.
Context (ns : list (node (U:=U))) (kf : string) (ks : list string) (aggregates : list AggregateType) (output_schema : Schema T).
Context (timestamp_field : string) (emit_clock : Z → Z) (events : list ev) (ws : list (Window U ev)).
Hypothesis Hwp : well_posed agg_str as_dec of_dec isoparse ns (kf :: ks) aggregates output_schema timestamp_field events ws.
Local Abbreviation kos := (dkeys (keys output_schema)).
Hypothesis Hkf : kf ∈ kos.
Context (rs : list rc) (Hrs : ingest isoparse timestamp_field emit_clock 0 events = Ok rs).
Local Abbreviation xs := (survivors ns (kf :: ks) rs).

Lemma ingest_stamped : Forall2 (stamped isoparse timestamp_field) events rs.
Proof using Hwp Hrs.
  destruct (ingest_ok isoparse timestamp_field emit_clock events (wp_stamped _ _ _ _ _ _ _ _ _ _ _ Hwp) 0) as (rs' & E & HF).
  rewrite Hrs in E. by injection E as <-.
Qed.

Lemma output_keys_NoDup : NoDup kos.
Proof using Hwp. pose proof (wp_schema _ _ _ _ _ _ _ _ _ _ _ Hwp) as Hn. unfold schema_wf, fields in Hn. by apply NoDup_app in Hn as [? _]. Qed.

(** The survivors have the output keys, the first of which they are grouped by. *)
Lemma survivor_keys x : x ∈ xs → ∃ k, r_key x = Some k ∧ dget (keys_of kos (r_value x)) kf = Some k ∧
  Forall (λ f, is_Some (dget (r_value x) f)) kos.
Proof using Hwp Hkf Hrs.
  intros Hin. destruct (survivor_ready agg_str as_dec of_dec isoparse ns (kf :: ks) aggregates output_schema timestamp_field events ws Hwp rs
    ingest_stamped x Hin) as ([_ _ Hk _] & _ & k & Ek). exists k. split_and!; [done| |done].
  destruct (keys_of_ok _ _ Hk) as (_ & _ & ->); [|done]. by eapply survivor_key.
Qed.

(** What the sink stores for the output of a survivor. *)
Lemma output_stored x aggs : x ∈ xs → is_Some (stored_time x) → dkeys aggs = map g_into aggregates →
  let out := output_of of_dec isoparse output_schema aggs x in
  event_record (datetime_str_to_ts isoparse) (sink_schema output_schema) (r_value out) = Ok (stored_for kos x out) ∧
  (∀ f, f ∈ kos → dget (r_value out) f = dget (r_value x) f) ∧
  ∀ f, f ∈ dkeys (values output_schema) → dget (r_value out) f = of_dec <$> dget aggs f.
Proof using Hwp Hkf Hrs.
  intros Hx [t Ht] Ha out.
  destruct (survivor_output agg_str as_dec of_dec isoparse ns (kf :: ks) aggregates output_schema timestamp_field events ws Hwp rs ingest_stamped
    x aggs Hx Ha) as (_ & _ & H1 & H2 & ts & Et & Hts & _). fold out in H1, H2, Et.
  split_and!; [|done..]. destruct (survivor_keys x Hx) as (k & _ & _ & Hk).
  unfold stored_for. rewrite Ht, <- (keys_of_ext kos (r_value out) (r_value x) H1). unfold stored_time in Ht. rewrite Hts in Ht. cbn in Ht.
  destruct (datetime_str_to_ts isoparse ts) as [t'|] eqn:Ets; [|done]. injection Ht as ->.
  apply (event_record_ok (datetime_str_to_ts isoparse) (sink_schema output_schema) (r_value out) ts); [apply output_keys_NoDup| |done..].
  eapply Forall_impl; [apply Forall_and; split; [exact Hk|apply Forall_forall; intros f Hf; exact Hf]|]. intros f [Hs Hf]. by rewrite (H1 f Hf).
Qed.

(** The outputs of the run, and the records the sink makes of them. *)
Lemma run_stored : Forall (λ x, is_Some (stored_time x)) xs → ∃ st outs,
  pipeline (feature_ops agg_str ns (kf :: ks)) (feature_st agg_str ns (kf :: ks) (aggregate_init agg_str as_dec of_dec isoparse aggregates output_schema)) rs
    = (st, outs, Ok ()) ∧
  Forall2 (λ r c, event_record (datetime_str_to_ts isoparse) (sink_schema output_schema) (r_value r) = Ok c) outs (zip_with (stored_for kos) xs outs) ∧
  ∀ i x k, xs !! i = Some x → r_key x = Some k → ∃ aggs out, spec_aggs (key_arrivals k (take (S i) xs)) ws = Ok aggs ∧ outs !! i = Some out ∧
    (∀ f, f ∈ kos → dget (r_value out) f = dget (r_value x) f) ∧ ∀ f, f ∈ dkeys (values output_schema) → dget (r_value out) f = of_dec <$> dget aggs f.
Proof using Hwp Hkf Hrs.
  intros Htime. rewrite Forall_forall in Htime.
  destruct (feature_ok agg_str as_dec of_dec isoparse ns (kf :: ks) aggregates output_schema timestamp_field events ws Hwp rs ingest_stamped)
    as (st & outs & Ep & Hl & Hout). exists st, outs. split; [done|]. split.
  - apply Forall2_same_length_lookup_2; [rewrite length_zip_with; lia|]. intros i out c Eo Ec.
    apply lookup_stored_for in Ec as (x & out' & Ex & Eo' & ->). pose proof (list_elem_of_lookup_2 _ _ _ Ex) as Hin.
    destruct (survivor_keys x Hin) as (k & Ek & _). destruct (Hout i x k Ex Ek) as (aggs & _ & Ha & Eo'').
    rewrite Eo in Eo', Eo''. injection Eo' as <-. injection Eo'' as ->. by apply (output_stored x aggs Hin (Htime x Hin) Ha).
  - intros i x k Hi Hk. destruct (Hout i x k Hi Hk) as (aggs & Ea & Ha & Eo). pose proof (list_elem_of_lookup_2 _ _ _ Hi) as Hin.
    destruct (output_stored x aggs Hin (Htime x Hin) Ha) as (_ & H1 & H2). by exists aggs, (output_of of_dec isoparse output_schema aggs x).
Qed.

(** The survivors are stored under keys that can be told apart, and under distinct keys or times. *)
Hypothesis Hsep : Forall (λ x, is_Some (stored_time x) ∧ distinguishable py_str kos (keys_of kos (r_value x))) xs.
Hypothesis Hnd : NoDup (map (λ x, (r_key x, stored_time x)) xs).
Hypothesis Hinj : Inj (=) (=) py_str.

Lemma survivor_separable x : x ∈ xs → is_Some (stored_time x) ∧ separable py_str kos (keys_of kos (r_value x)).
Proof using Hwp Hkf Hrs Hsep.
  intros Hin. rewrite Forall_forall in Hsep. destruct (Hsep x Hin) as [Ht Hd]. destruct (survivor_keys x Hin) as (k & _ & _ & Hk).
  destruct (keys_of_ok _ _ Hk) as (_ & Ef & _). split; [done|]. by split.
Qed.

(** Two survivors of one group key with one stored time are the same. *)
Lemma survivor_unique i j x y k : xs !! i = Some x → xs !! j = Some y → dget (keys_of kos (r_value x)) kf = Some k →
  dget (keys_of kos (r_value y)) kf = Some k → stored_time x = stored_time y → i = j.
Proof using Hwp Hkf Hrs Hnd.
  intros Hi Hj Ex Ey Et. destruct (survivor_keys x ltac:(by eapply list_elem_of_lookup_2)) as (k1 & E1 & E1' & _).
  destruct (survivor_keys y ltac:(by eapply list_elem_of_lookup_2)) as (k2 & E2 & E2' & _).
  change (NoDup ((λ x, (r_key x, stored_time x)) <$> xs)) in Hnd. rewrite NoDup_alt in Hnd.
  apply (Hnd i j (r_key x, stored_time x)); rewrite list_lookup_fmap, ?Hi, ?Hj; [done|]. cbn. congruence.
Qed.

Lemma stored_for_NoDup outs : NoDup (map (λ c, (compose_main_key py_str c.1.1, c.1.2)) (zip_with (stored_for kos) xs outs)).
Proof using Hwp Hkf Hrs Hsep Hnd Hinj.
  change (NoDup ((λ c, (compose_main_key py_str c.1.1, c.1.2)) <$> zip_with (stored_for kos) xs outs)).
  rewrite NoDup_alt. intros i j [m t]. rewrite !list_lookup_fmap, !fmap_Some. intros (c & Hc & E) (c' & Hc' & E').
  apply lookup_stored_for in Hc as (x & out & Hx & _ & ->), Hc' as (x' & out' & Hx' & _ & ->). rewrite E in E'. injection E' as E1 E2.
  destruct (survivor_separable x ltac:(by eapply list_elem_of_lookup_2)) as [[u Hu] Hs].
  destruct (survivor_separable x' ltac:(by eapply list_elem_of_lookup_2)) as [[u' Hu'] Hs'].
  destruct (survivor_keys x ltac:(by eapply list_elem_of_lookup_2)) as (k & _ & Ek & _).
  apply (survivor_unique i j x x' k Hx Hx' Ek); [|rewrite Hu, Hu' in E2 |- *; cbn in E2; by rewrite E2].
  rewrite <- Ek. symmetry. by apply (part_main py_str Hinj kos); [apply output_keys_NoDup|..].
Qed.
End run.

End served.

(** ** Witness: purchases with two time fields, stored by buyer and product, served by buyer *)

Definition ex_str (z : Z) : string := pretty z.
Definition ex_order (buyer product price created at_ : Z) : event Z :=
  [("buyer", buyer); ("product", product); ("price", price); ("created", created); ("at", at_)].
Definition ex_orders : list (event Z) := [ex_order 1 10 5 1000 1001; ex_order 2 10 7 1003 1004; ex_order 1 20 0 1005 1006; ex_order 1 20 6 1007 1030].
Definition ex_orders_target : Schema string := mkSchema [("buyer", "int"); ("product", "int")] [("total", "decimal"); ("orders", "int")] "at".
Definition ex_orders_windows : list (Window Z (event Z)) :=
  match _create_windows ex_agg_str (aggregate_init ex_agg_str ex_as_dec ex_of_dec ex_isoparse ex_aggregates ex_orders_target) with Ok ws => ws | Raise _ => [] end.

Lemma ex_orders_posed :
  well_posed ex_agg_str ex_as_dec ex_of_dec ex_isoparse ex_nodes ["buyer"] ex_aggregates ex_orders_target "at" ex_orders ex_orders_windows.
Proof.
  split; try (apply (bool_decide_unpack _); reflexivity).
  - repeat (constructor; [eexists; split; reflexivity|]). constructor.
  - intros e He. repeat (apply elem_of_cons in He as [->|He]; [eexists; split; [reflexivity|]; intros e' [= <-]; (split;
      [done|repeat first [constructor; [right; do 2 eexists; by split_and!|]|constructor; [by left|]]; constructor
      |repeat (constructor; [by eexists|]); constructor|do 3 right; by left])|]). by apply elem_of_nil in He.
  - reflexivity.
Qed.

Definition ex_ingested : list (rec Z (event Z)) :=
  match ingest ex_isoparse "at" (λ n, n) 0 ex_orders with Ok rs => rs | Raise _ => [] end.
Definition ex_served : list (rec Z (event Z)) := survivors ex_nodes ["buyer"] ex_ingested.
Lemma ex_distinguishable : Forall (λ x, is_Some (stored_time ex_isoparse x) ∧
  distinguishable ex_str (dkeys (keys ex_orders_target)) (keys_of (dkeys (keys ex_orders_target)) (r_value x))) ex_served.
Proof. repeat (constructor; [split; [by eexists|right; by repeat constructor]|]). constructor. Qed.

