(* ===== verification/Online.v ===== *)
(** * A materialized pipeline as a job
    ([materialize_online] and [get_online_latest_data] of [volga/client/client.py], [init_stream] of
     [volga/api/dataset/dataset.py], the tasks of [volga/streaming/runtime],
     [SingleEventSinkToCacheActorFunction] and [SimpleInMemoryCacheActor] of
     [volga/storage/common/simple_in_memory_actor_storage.py])

    [Serving] follows a feature through one run of its operators.  Here the pipeline is the job the
    client submits: the source tasks fetch the connector's items, give every record the [Decimal]
    of its timestamp field and run the operators chained behind the source; the aggregate and its
    sink run in tasks of their own behind a key partition, so that every record has to pass the
    writer, which encodes its batches with [msgpack].  [msgpack] does not encode a [Decimal]. *)

From stdpp Require Import pretty.
From S2P Require Import Prelude PyDict PyDecimal TimeUtils KeyIndex Storage Sinks Stats Message Partition Network Window Operators Dataflow Keyed.
From S2P Require Import JobGraph Execution Workers Tasks Deployment Sources Functions Chains Features Schema Events Pipelines Serving.

(** ** The sink in the worker *)

Section hot_sink.
Context {U : Type} (datetime_str_to_ts : U → res dec).
Local Abbreviation ev := (event U).
Local Abbreviation rc := (rec U (event U)).

(** A call of [put_records] with one record. *)
Definition put_call : Type := dict string U * dec * ev.

(** [SingleEventSinkToCacheActorFunction.sink]: the remote call it issues and does not await. *)
Definition issue_put (sch : OutputSchema) (value : ev) : M (list put_call) () := λ calls,
  match event_record datetime_str_to_ts sch value with
  | Ok r => (Ok (), calls ++ [r])
  | Raise e => (Raise e, calls)
  end.

(** The sink operator of a worker: the calls issued so far, its latencies and the readings of its clock. *)
Definition sink_state : Type := list put_call * WorkerLatencyStatsState * nat.
Definition hot_sink_step (sch : OutputSchema) (clock : nat → Z) (s : sink_state) (record : rc) : outcome (K:=U) (V:=ev) sink_state :=
  let '(s', outs, e) := sink_step (issue_put sch) (clock s.2) s.1 record in ((s', S s.2), outs, e).
Definition hot_sink_op (sch : OutputSchema) (clock : nat → Z) : op U ev := mkOp sink_state (hot_sink_step sch clock).
Definition hot_sink_init : sink_state := ([], init_latency, 0).

End hot_sink.
Arguments put_call : clear implicits.
Arguments sink_state : clear implicits.

(** The actor takes the calls one after the other. *)
Definition take_calls {U} `{!EqDecision U} (py_str : U → string) `{Hso : SetOrderOk} (dataset_name : string) (a : CacheActor (event U))
    (calls : list (put_call U)) : CacheActor (event U) := put_batches py_str dataset_name a (map (λ c, [c]) calls).

(** What a worker issues and the actor takes is what the sink of [Sinks] does in one step. *)
Lemma issue_take {U} `{!EqDecision U} (py_str : U → string) `{Hso : SetOrderOk} dts dataset_name sch (value : event U) a :
  single_event_sink py_str dts dataset_name sch value a =
  match issue_put dts sch value [] with
  | (Ok _, calls) => (Ok (), take_calls py_str dataset_name a calls)
  | (Raise e, _) => (Raise e, a)
  end.
Proof. unfold single_event_sink, issue_put. by destruct (event_record dts sch value). Qed.

(** ** Records that can not be sent *)

(** The event time of a record is a [Decimal]. *)
Definition decimal_timed {K V} (r : rec K V) : Prop := ∃ d, event_time r = Some (TDecimal d).

Lemma decimal_refused {K V} name (r : rec K V) : decimal_timed r → message_packs (named_message name r) = false.
Proof. intros [d E]. unfold message_packs, named_message. destruct r as [[k|] v n t z]; cbn in E; by subst. Qed.

(** An operator all of whose records have a [Decimal] time, and one that keeps the times it gets. *)
Definition emits_decimal {K V} (o : op K V) : Prop := ∀ s r s' outs e, op_step o s r = (s', outs, e) → Forall decimal_timed outs.
Definition keeps_decimal {K V} (o : op K V) : Prop :=
  ∀ s r s' outs e, decimal_timed r → op_step o s r = (s', outs, e) → Forall decimal_timed outs.

Section refused.
Context {K V T Bytes : Type} `{FifoTransport T Bytes} (hash : K → Z).
Local Abbreviation rc := (rec K V).
Local Abbreviation Msg := (dict string (field K V)).
Context (dumps : list Msg → res Bytes) (loads : Bytes → res (list Msg)) (empty : V).
(** What [msgpack] encodes has no [Decimal] in it. *)
Hypothesis refuses : ∀ b bs m, dumps b = Ok bs → m ∈ b → message_packs m = true.
Local Abbreviation DW := (DataWriter Msg Bytes T).

(** Everything in the open batches is refused by [msgpack]. *)
Definition stuck (s : DW) : Prop := ∀ ch, Forall (λ m, message_packs m = false) (batch_of ch s).

Lemma stuck_dumps b : Forall (λ m, message_packs m = false) b → b ≠ [] → ∃ e, dumps b = Raise e.
Proof using refuses.
  intros Hb Hne. destruct (dumps b) as [bs|e] eqn:E; [|by exists e]. destruct b as [|m b]; [done|].
  apply Forall_cons in Hb as [Hm _]. rewrite (refuses _ _ m E) in Hm; [done|by left].
Qed.

Lemma stuck_same (s s' : DW) : batch_per_channel s' = batch_per_channel s → stuck s → stuck s'.
Proof. intros E Hs ch. unfold batch_of. rewrite E. apply Hs. Qed.

Lemma stuck_set (s s' : DW) ch b : batch_per_channel s' = dset (batch_per_channel s) ch b → Forall (λ m, message_packs m = false) b →
  stuck s → stuck s'.
Proof. intros E Hb Hs c. unfold batch_of. rewrite E, dget_dset. case_decide; [done|apply Hs]. Qed.

(** A call on a stuck writer sends nothing and leaves it stuck. *)
Lemma stuck_try_write perf ch m (s : DW) r s' : stuck s → message_packs m = false →
  _try_write_message dumps tr_write perf ch m s = (r, s') → stuck s' ∧ rust s' = rust s.
Proof using refuses.
  intros Hs Hm. unfold _try_write_message, acquire, rust_write. unfold mbind, M_bind, mret, M_ret, getS, modS, liftR, release, perf_counter, get_batch.
  intros E. destruct (dget (lock_per_channel s) ch) as [[]|]; simplify_eq/=; [done| |done].
  unfold dgetitem in E. cbn in E. destruct (dget (batch_per_channel s) ch) as [b|] eqn:Eb; simplify_eq/=; [|done].
  assert (Forall (λ m, message_packs m = false) (b ++ [m])) as Hb.
  { apply Forall_app. split; [|by constructor]. specialize (Hs ch). unfold batch_of in Hs. by rewrite Eb in Hs. }
  destruct (stuck_dumps (b ++ [m]) Hb ltac:(by destruct b)) as [e Ee].
  case_decide; rewrite ?Ee in E; simplify_eq/=; (split; [|done]); by eapply stuck_set.
Qed.

Lemma stuck_report wall (b : bool) (s : DW) r s' : stuck s → report_sent wall b s = (r, s') → stuck s' ∧ rust s' = rust s.
Proof.
  intros Hs. unfold report_sent, time. unfold mbind, M_bind, mret, M_ret, getS, modS, liftR. intros E.
  destruct b; simplify_eq/=; [|done]. case_decide; simplify_eq/=; [|by split; [eapply stuck_same|]].
  destruct (report_tx _ _); simplify_eq/=; by split; [eapply stuck_same|].
Qed.

Lemma stuck_write_record perf wall ch (x : rc) (s : DW) r s' : stuck s → decimal_timed x →
  try_write_record dumps tr_write perf wall ch x s = (r, s') → stuck s' ∧ rust s' = rust s.
Proof using refuses.
  intros Hs Hx. unfold try_write_record, try_write_message. unfold mbind, M_bind. intros E.
  destruct (_try_write_message _ _ _ _ _ s) as [[b|e] s1] eqn:E1; destruct (stuck_try_write _ _ _ _ _ _ Hs (decimal_refused _ _ Hx) E1) as [H1 H2].
  - destruct (stuck_report _ _ _ _ _ H1 E) as [H3 H4]. split; [done|congruence].
  - by simplify_eq.
Qed.

Lemma stuck_flush perf ch (s : DW) r s' : stuck s → flush_channel dumps tr_write perf ch s = (r, s') → stuck s' ∧ rust s' = rust s.
Proof using refuses.
  intros Hs. unfold flush_channel, acquire, rust_write. unfold mbind, M_bind, mret, M_ret, getS, modS, liftR, release, perf_counter, get_batch.
  intros E. destruct (dget (lock_per_channel s) ch) as [[]|]; unfold modS in *; simplify_eq/=; [done| |done].
  unfold dgetitem in E. cbn in E. destruct (dget (last_write_ts_per_channel s) ch); unfold modS in *; simplify_eq/=; [|by split; [eapply stuck_same|]].
  case_decide; unfold modS in *; simplify_eq/=; [|by split; [eapply stuck_same|]].
  destruct (dget (batch_per_channel s) ch) as [b|] eqn:Eb; unfold modS in *; simplify_eq/=; [|by split; [eapply stuck_same|]].
  case_decide as Hb; unfold modS in *; simplify_eq/=; [by split; [eapply stuck_same|]|].
  destruct (stuck_dumps b) as [e Ee]; [specialize (Hs ch); unfold batch_of in Hs; by rewrite Eb in Hs|by intros ->|].
  rewrite Ee in E. simplify_eq/=. by split; [eapply stuck_same|].
Qed.

(** *** A job whose sources stamp their records with a [Decimal] *)

(** Nothing was read, what is to be sent has a [Decimal] time, and a task that is not a source is as it was made. *)
Record barred (t : task K V T Bytes) : Prop := {
  bd_writer : stuck (t_writer t);
  bd_send ci r ps cur : th_send (t_thread t) = Some (ci, r, ps, cur) → decimal_timed r;
  bd_collect : Forall (λ x, decimal_timed x.2) (th_collect (t_thread t));
  bd_msgs : th_msgs (t_thread t) = [];
  bd_read : t_read t = [];
  bd_source : v_source (t_vertex t) = true → emits_decimal (v_op (t_vertex t));
  bd_silent : v_source (t_vertex t) = false → t_consumed t = [] ∧ t_emitted t = [] ∧ t_st t = v_init (t_vertex t);
}.

Lemma barred_writer (t : task K V T Bytes) w : stuck w → barred t → barred (set_writer w t).
Proof. intros Hw []. by split. Qed.
Lemma barred_halt (t : task K V T Bytes) : barred t → barred (halt t) ∧ barred (halt_flusher t).
Proof. intros []. by split; split. Qed.
Lemma barred_thread (t : task K V T Bytes) snd col ra : barred t → (∀ ci r ps cur, snd = Some (ci, r, ps, cur) → decimal_timed r) →
  Forall (λ x, decimal_timed x.2) col → barred (set_thread (mkThread snd col ra []) t).
Proof. intros [] Hs Hc. by split. Qed.
Lemma attach_stuck tr (w : DW) : stuck w → stuck (attach tr w).
Proof. by apply stuck_same. Qed.

(** One call of a barred task: it stays barred, and what is in flight stays as it was. *)
Definition keeps_barred (t : task K V T Bytes) (tr : T) (r : task K V T Bytes * T) : Prop :=
  barred r.1 ∧ t_vertex r.1 = t_vertex t ∧ ((∀ c, in_flight tr c = []) → ∀ c, in_flight r.2 c = []).

Lemma send_barred t tr ci r ps cur : barred t → th_send (t_thread t) = Some (ci, r, ps, cur) → keeps_barred t tr (send_step dumps t tr ci r ps cur).
Proof using refuses.
  intros Ht Hs. pose proof (bd_send _ Ht _ _ _ _ Hs) as Hr. pose proof (bd_msgs _ Ht) as Hm. pose proof (bd_collect _ Ht) as Hc.
  unfold send_step. destruct (from_option_exn IndexError (t_collectors t !! ci) ≫= _) as [id|e]; [|by split; [apply barred_halt|]].
  destruct (try_write_record dumps tr_write _ _ id r (attach tr (t_writer t))) as [o w] eqn:E.
  destruct (stuck_write_record _ _ _ _ _ _ _ (attach_stuck tr _ (bd_writer _ Ht)) Hr E) as [Hw Ew]. cbn in Ew.
  assert (∀ snd, (∀ ci' r' ps' cur', snd = Some (ci', r', ps', cur') → r' = r) →
    keeps_barred t tr (set_thread (mkThread snd (th_collect (t_thread t)) (th_raise (t_thread t)) (th_msgs (t_thread t))) (set_writer w t), rust w)) as Hnext.
  { intros snd Hsnd. rewrite Hm. split; [|split; [done|by rewrite Ew]]. apply barred_thread; [by apply barred_writer| |done].
    intros ci' r' ps' cur' E'. by rewrite (Hsnd _ _ _ _ E'). }
  destruct o as [[|]|e].
  - apply Hnext. intros ci' r' ps' cur'. case_decide; intros [= ? ? ? ?]; by subst.
  - apply Hnext. intros ci' r' ps' cur' [= ? ? ? ?]. by subst.
  - split; [|split; [done|by cbn; rewrite Ew]]. by apply barred_halt, barred_writer.
Qed.

Lemma collect_barred t tr ci r rest : barred t → th_collect (t_thread t) = (ci, r) :: rest → keeps_barred t tr (collect_step hash t ci r rest, tr).
Proof.
  intros Ht Hcol. pose proof (bd_collect _ Ht) as Hc. rewrite Hcol in Hc. apply Forall_cons in Hc as [Hr Hrest]. unfold collect_step.
  destruct (from_option_exn IndexError (t_collectors t !! ci) ≫= _) as [[c [ps p']]|e]; [|by split; [apply barred_halt|]].
  split; [|done]. cbn [fst]. rewrite (bd_msgs _ Ht).
  assert (barred (set_thread (mkThread (if decide (ps = []) then None else Some (ci, r, ps, 0)) rest (th_raise (t_thread t)) []) t)) as [].
  { apply barred_thread; [done| |done]. intros ci' r' ps' cur'. case_decide; intros [= ? ? ? ?]; by subst. }
  by split.
Qed.

Lemma read_barred t tr : barred t → (∀ c, in_flight tr c = []) → keeps_barred t tr (read_step loads t tr).
Proof.
  intros Ht Hidle. unfold read_step. case_decide; [by split; [apply barred_halt|]|]. unfold read_message. cbn.
  destruct (tr_read (v_ins (t_vertex t)) tr) as [[b|] tr'] eqn:Er.
  { destruct (tr_read_some _ _ _ _ Er) as (ch & _ & E). specialize (E ch). rewrite Hidle, decide_True in E by done. done. }
  cbn. split; [|split; [done|]].
  - destruct Ht. split; [done..| |done|done]. cbn. by rewrite app_nil_r.
  - intros _ c. cbn. by rewrite (tr_read_none _ _ _ Er).
Qed.

Lemma process_barred t tr x : barred t → v_source (t_vertex t) = true → th_send (t_thread t) = None → keeps_barred t tr (process_record x t, tr).
Proof.
  intros [Hw _ _ Hm Hr Hs _] Hsrc Hn. unfold process_record. destruct (op_step _ _ x) as [[st outs] e] eqn:E. split; [|done].
  pose proof (Hs Hsrc _ _ _ _ _ E) as Hout. split; cbn; try done; [|by rewrite Hsrc].
  apply Forall_concat, Forall_fmap. eapply Forall_impl; [exact Hout|]. intros y Hy. apply Forall_fmap, Forall_forall. by intros.
Qed.

Lemma thread_barred t tr : barred t → (∀ c, in_flight tr c = []) → keeps_barred t tr (thread_step hash dumps loads empty t tr).
Proof using refuses.
  intros Ht Hidle. unfold thread_step. destruct (t_alive t); cbn [negb]; [|done].
  destruct (th_send (t_thread t)) as [[[[ci r] ps] cur]|] eqn:Es; [by apply send_barred|].
  destruct (th_collect (t_thread t)) as [|[ci r] rest] eqn:Ec; [|by apply collect_barred].
  destruct (th_raise (t_thread t)); [by split; [apply barred_halt|]|].
  rewrite (bd_msgs _ Ht). destruct (v_source (t_vertex t)) eqn:Ev; [by apply process_barred|by apply read_barred].
Qed.

Lemma flush_barred t k tr : barred t → keeps_barred t tr (flush_task dumps t k tr).
Proof using refuses.
  intros Ht. unfold flush_task. destruct (t_flushing t); cbn [negb]; [|done]. destruct (v_outs (t_vertex t) !! k) as [ch|]; [|done].
  destruct (flush_channel dumps tr_write _ ch (attach tr (t_writer t))) as [o w] eqn:E.
  destruct (stuck_flush _ _ _ _ _ (attach_stuck tr _ (bd_writer _ Ht)) E) as [Hw Ew]. cbn in Ew.
  destruct o; (split; [|split; [done|by cbn; rewrite Ew]]); [by apply barred_writer|by apply barred_halt, barred_writer].
Qed.

(** The invariant of such a job. *)
Definition all_barred (vs : list (vertex K V)) (j : job K V T Bytes) : Prop :=
  Forall barred (tasks j) ∧ map t_vertex (tasks j) = vs ∧ ∀ c, in_flight (transport j) c = [].

Lemma on_task_barred vs j i f : all_barred vs j → (∀ t, barred t → keeps_barred t (transport j) (f t (transport j))) → all_barred vs (on_task j i f).
Proof.
  intros (Hb & Hv & Hidle) Hf. unfold on_task. destruct (tasks j !! i) as [t|] eqn:Et; [|done].
  destruct (Hf t) as (H1 & H2 & H3); [rewrite Forall_lookup in Hb; by eapply Hb|]. destruct (f t (transport j)) as [t' tr]. split_and!; cbn.
  - by apply Forall_insert.
  - change (@map ?A ?B) with (fmap (M := list) (A := A) (B := B)) in *. rewrite list_fmap_insert, Hv. cbn in H2. rewrite H2.
    apply list_insert_id. rewrite <- Hv, list_lookup_fmap, Et. done.
  - by apply H3.
Qed.

Lemma job_run_barred vs j acts : all_barred vs j → all_barred vs (job_run hash dumps loads empty j acts).
Proof using refuses.
  revert j. induction acts as [|a acts IH]; intros j Hj; [done|]. cbn. apply IH. pose proof Hj as (_ & _ & Hidle). destruct a as [i|i k|]; cbn.
  - apply on_task_barred; [done|]. intros t Ht. by apply thread_barred.
  - apply on_task_barred; [done|]. intros t Ht. by apply flush_barred.
  - destruct Hj as (H1 & H2 & _). split_and!; [done..|]. intros c. cbn. by rewrite tr_tick_ok.
Qed.

Lemma fresh_batches (chs : list string) ch (b : list Msg) : dget (dict_of (map (λ c, (c, [])) chs)) ch = Some b → b = [].
Proof.
  unfold dict_of, dmerge. assert (∀ d : dict string (list Msg), (∀ c b, dget d c = Some b → b = []) →
    ∀ c b, dget (foldl (λ d kv, dset d kv.1 kv.2) d (map (λ c, (c, [])) chs)) c = Some b → b = []) as Hg; [|by apply (Hg [])].
  induction chs as [|x chs IH]; intros d Hd; [done|]. cbn. apply IH. intros c b'. rewrite dget_dset. case_decide; [by intros [= <-]|apply Hd].
Qed.

Lemma new_job_barred vs tr : (∀ c, in_flight tr c = []) → (∀ v, v ∈ vs → v_source v = true → emits_decimal (v_op v)) → all_barred vs (new_job vs tr).
Proof.
  intros Htr Hs. split_and!; cbn; [|rewrite map_map; apply map_id|done]. apply Forall_fmap, Forall_forall. intros v Hv. split; cbn; try done; [|by apply Hs].
  intros ch. unfold batch_of. cbn. destruct (dget _ ch) as [l|] eqn:El; [|done]. apply fresh_batches in El as ->. constructor.
Qed.
End refused.

(** ** The sources of a pipeline *)

Section client_source.
Context {U : Type} `{!EqDecision U} (isoparse : U → res (res dec)).
Local Abbreviation ev := (event U).
Local Abbreviation rc := (rec U (event U)).

(** The collector of the source context: the chain behind the source, or the output if there is none. *)
Definition source_collectors (ops : list (op U ev)) : list (rc → M (chain_st ops * list rc) ()) :=
  match ops with
  | [] => [λ r w, (Ok (), (w.1, w.2 ++ [r]))]
  | _ => forward ops [output_log]
  end.

(** The task operator of a source dataset: [init_stream] sets [_extract_timestamp] as the assigner; the connector makes a
    collection source ([MockOfflineConnector]) or a delayed one ([MockOnlineConnector]). *)
Definition client_source_step (delayed : bool) (timestamp_field : string) (emit_clock stats_clock : Z → Z) (ops : list (op U ev))
    (s : CollectionSource ev * (SourceContextImpl * chain_st ops)) (record : rc) : outcome (K:=U) (V:=ev) (CollectionSource ev * (SourceContextImpl * chain_st ops)) :=
  let '(src, (ctx, ss)) := s in
  let fetch := if delayed then fetch_delayed (source_collectors ops) (Some (_extract_timestamp isoparse timestamp_field)) emit_clock stats_clock
               else fetch_collection (source_collectors ops) (Some (_extract_timestamp isoparse timestamp_field)) emit_clock stats_clock in
  let '(e, (src', (ctx', (ss', outs)))) := fetch (src, (ctx, (ss, []))) in ((src', (ctx', ss')), outs, e).
Definition client_source (delayed : bool) (timestamp_field : string) (emit_clock stats_clock : Z → Z) (ops : list (op U ev)) : op U ev :=
  mkOp (CollectionSource ev * (SourceContextImpl * chain_st ops)) (client_source_step delayed timestamp_field emit_clock stats_clock ops).

(** The operators the optimizer chains behind a source: those of the nodes and of the group-by or join keys. *)
Inductive chained_op : op U ev → Prop :=
| chained_node n : chained_op (node_op n)
| chained_key f : chained_op (mkOp () (key_by_step f)).

Lemma chained_keeps o : chained_op o → keeps_decimal o.
Proof.
  assert (∀ f s (r : rc) s' outs e, decimal_timed r → map_step f s r = (s', outs, e) → Forall decimal_timed outs) as Hmap.
  { intros f s r s' outs e [d Ed]. unfold map_step, one. destruct (f (r_value r)); cbn; intros [= <- <- <-]; [|done]. constructor; [by exists d|done]. }
  assert (∀ f s (r : rc) s' outs e, decimal_timed r → filter_step f s r = (s', outs, e) → Forall decimal_timed outs) as Hfilter.
  { intros f s r s' outs e Hr. unfold filter_step. destruct (f (r_value r)) as [[]|]; intros [= <- <- <-]; by repeat constructor. }
  intros [n|f] s r s' outs e Hr; [destruct n; intros E; first [exact (Hmap _ _ _ _ _ _ Hr E)|exact (Hfilter _ _ _ _ _ _ Hr E)]|].
  destruct Hr as [d Ed]. cbn. unfold key_by_step, one. destruct (f (r_value r)); cbn; intros [= <- <- <-]; [|done]. constructor; [by exists d|done].
Qed.

(** A log of records with a [Decimal] time. *)
Definition decimal_log {St} (w : St * list rc) : Prop := Forall decimal_timed w.2.

Lemma for_each_decimal {St} (f : rc → M (St * list rc) ()) xs w : (∀ r w, decimal_timed r → decimal_log w → decimal_log (f r w).2) →
  Forall decimal_timed xs → decimal_log w → decimal_log (for_each xs f w).2.
Proof.
  intros Hf Hxs. revert w. induction Hxs as [|x xs Hx _ IH]; intros w Hw; [done|]. cbn [for_each]. unfold mbind, M_bind.
  pose proof (Hf x w Hx Hw) as H1. destruct (f x w) as [[[]|e] w1]; [by apply IH|done].
Qed.

Lemma chain_decimal ops : Forall keeps_decimal ops → ∀ r w, decimal_timed r → decimal_log w → decimal_log (chain_process ops [output_log] r w).2.
Proof.
  induction 1 as [|o ops Ho _ IH]; intros r w Hr Hw; [done|]. destruct w as [[s ss] w]. destruct ops as [|o' ops].
  - cbn [chain_process]. unfold process. cbn [fst snd]. destruct (op_step o s r) as [[s' outs] e] eqn:E. rewrite for_each_log. cbn. apply Forall_app. split; [done|]. by eapply Ho.
  - change (decimal_log (let '(e', (s', (ss', w'))) := process (op_step o) [chain_process (o' :: ops) [output_log]] r (s, (ss, w)) in (e', ((s', ss'), w'))).2).
    unfold process. cbn [fst snd]. destruct (op_step o s r) as [[s' outs] e] eqn:E.
    assert (decimal_log (for_each outs (collect [chain_process (o' :: ops) [output_log]]) (ss, w)).2) as H1.
    { rewrite (for_each_ext _ _ (chain_process (o' :: ops) [output_log])) by (intros; apply collect_one). apply for_each_decimal; [done|by eapply Ho|done]. }
    destruct (for_each outs _ (ss, w)) as [[[]|e'] [ss' w']]; exact H1.
Qed.

Lemma source_collectors_decimal ops : Forall chained_op ops →
  Forall (λ c, ∀ r w, decimal_timed r → decimal_log w → decimal_log (c r w).2) (source_collectors ops).
Proof.
  intros Hops. assert (Forall keeps_decimal ops) as Hk by (eapply Forall_impl; [exact Hops|apply chained_keeps]).
  destruct ops as [|o ops]; (constructor; [|done]).
  - intros r w Hr Hw. apply Forall_app. by repeat constructor.
  - by apply chain_decimal.
Qed.

(** A record of such a source has the [Decimal] of its timestamp field. *)
Lemma source_record_decimal f ec n v (r : rc) : source_record (Some (_extract_timestamp isoparse f)) ec n v = Ok r → decimal_timed r.
Proof. unfold source_record, assign_timestamp, _extract_timestamp. intros E. inv_res. by eexists. Qed.

Lemma ctx_collect_decimal ops f ec sc v (ctx : SourceContextImpl) w : Forall chained_op ops → decimal_log w →
  decimal_log (ctx_collect (source_collectors ops) (Some (_extract_timestamp isoparse f)) ec sc v (ctx, w)).2.2.
Proof.
  intros Hops%source_collectors_decimal Hw. unfold ctx_collect.
  assert (decimal_log (for_each (source_collectors ops) (λ c, liftR (source_record (Some (_extract_timestamp isoparse f)) ec (num_fetched_records ctx) v) ≫= λ r, c r) w).2) as H1.
  { revert w Hw. induction Hops as [|c cs Hc _ IH]; intros w Hw; [done|]. cbn [for_each]. unfold mbind, M_bind, liftR.
    destruct (source_record _ _ _ v) as [r|e] eqn:Er; [|done]. pose proof (Hc r w (source_record_decimal _ _ _ _ _ Er) Hw) as H1.
    destruct (c r w) as [[[]|e] w1]; [|done]. by apply IH. }
  destruct (for_each _ _ w) as [[[]|e] w']; exact H1.
Qed.

Lemma client_source_decimal delayed f ec sc ops : Forall chained_op ops → emits_decimal (client_source delayed f ec sc ops).
Proof.
  intros Hops [src [ctx ss]] r s' outs e. cbn. set (emit := ctx_collect (source_collectors ops) (Some (_extract_timestamp isoparse f)) ec sc).
  assert (∀ vs, decimal_log (for_each vs emit (ctx, (ss, []))).2.2) as Hall.
  { intros vs. apply (for_each_inv (λ sw, decimal_log sw.2)); [|constructor]. intros v [ctx' w] Hw. by apply ctx_collect_decimal. }
  assert ((if delayed then fetch_delayed (source_collectors ops) (Some (_extract_timestamp isoparse f)) ec sc
    else fetch_collection (source_collectors ops) (Some (_extract_timestamp isoparse f)) ec sc) (src, (ctx, (ss, []))) =
    fetch_collection (source_collectors ops) (Some (_extract_timestamp isoparse f)) ec sc (src, (ctx, (ss, [])))) as -> by (destruct delayed; [apply delayed_is_collection|done]).
  unfold fetch_collection. destruct (Sources.values src) as [vs|]; [|by intros [= <- <- <-]]. specialize (Hall vs). fold emit.
  destruct (for_each vs emit (ctx, (ss, []))) as [[[]|e'] [ctx' [ss' w']]]; cbn in Hall; by intros [= <- <- <-].
Qed.
End client_source.

(** ** The chain of an aggregate and its sink *)

Section online.
Context {T U : Type} `{!EqDecision U} (py_str : U → string) `{Hso : SetOrderOk}.
Context (agg_str : AggregationType → string) (as_dec : U → res dec) (of_dec : dec → U) (isoparse : U → res (res dec)).
Local Abbreviation ev := (event U).
Local Abbreviation rc := (rec U (event U)).
Context (aggregates : list AggregateType) (output_schema : Schema T).

(** [stream.sink(gen_sink_function(..., hot=True))] behind the aggregate, as the optimizer deploys them. *)
Definition online_ops (clock : nat → Z) : list (op U ev) :=
  [aggregate_op agg_str; hot_sink_op (datetime_str_to_ts isoparse) (sink_schema output_schema) clock].
Definition online_op (clock : nat → Z) : op U ev := chain_op (online_ops clock).
Definition online_st : Type := op_st (aggregate_op (U:=U) agg_str) * (sink_state U * ()).
Definition online_state (w : op_st (aggregate_op agg_str)) (s : sink_state U) : online_st := (w, (s, ())).
Definition online_init : online_st :=
  online_state (aggregate_init agg_str as_dec of_dec isoparse aggregates output_schema) hot_sink_init.

(** The calls the [k]-th instance, the task at position [i], has issued. *)
Definition issued {Tr Bytes} (j : job U ev Tr Bytes) (clock : nat → nat → Z) (k i : nat) (calls : list (put_call U)) : Prop :=
  ∃ t w st n, tasks j !! i = Some t ∧ existT (v_op (t_vertex t)) (t_st t) = existT (online_op (clock k)) (online_state w (calls, st, n)) :> sigT op_st.
Definition issue_calls {Tr Bytes} (j : job U ev Tr Bytes) (clock : nat → nat → Z) (positions : list nat) (parts : list (list (put_call U))) : Prop :=
  length parts = length positions ∧ ∀ k i calls, positions !! k = Some i → parts !! k = Some calls → issued j clock k i calls.

(** ** The deployed job *)

(** A job graph in which [t] is the chain of the aggregate and the sink, of any parallelism, behind key partitions, and
    whose sources are the source datasets of the pipeline with the operators chained behind them. *)
Record materialized (rt : runtime U ev) (jg : JobGraph) (t : JobVertex) (clock : nat → nat → Z) : Prop := {
  mz_runnable : runnable jg;
  mz_vertex : t ∈ job_vertices jg;
  mz_input : operator_type (stream_operator t) ≠ SOURCE;
  mz_operator i : operator_of rt (vertex_id t) i = existT (online_op (clock i)) online_init;
  mz_sources v i : v ∈ job_vertices jg → operator_type (stream_operator v) = SOURCE →
    ∃ delayed f ec sc ops st, Forall chained_op ops ∧ operator_of rt (vertex_id v) i = existT (client_source isoparse delayed f ec sc ops) st;
}.

Section deployed.
Context {Tr Bytes : Type} `{FifoTransport Tr Bytes} (hash : U → Z) (dumps : list (dict string (field U ev)) → res Bytes).
Context (loads : Bytes → res (list (dict string (field U ev)))) (empty : ev).
Context (rt : runtime U ev) (jg : JobGraph) (t : JobVertex) (clock : nat → nat → Z) (tr : Tr) (acts : list action).
Hypothesis refuses : ∀ b bs m, dumps b = Ok bs → m ∈ b → message_packs m = true.
Hypothesis Hidle : ∀ c, in_flight tr c = [].
Hypothesis Hmz : materialized rt jg t clock.

Lemma online_setup : ∃ g vs, from_job_graph jg = Ok g ∧ deploy rt g = Ok vs ∧
  (∀ v, v ∈ vs → v_source v = true → emits_decimal (v_op v)) ∧
  ∀ k i, instance_positions jg t !! k = Some i → ∃ v, vs !! i = Some v ∧ v_source v = false ∧
    existT (v_op v) (v_init v) = existT (online_op (clock k)) online_init :> sigT op_st.
Proof using Hmz.
  destruct Hmz as [Hr Ht Hot Hop Hsrc]. pose proof Hr as [Hv _ Hcl Hp _ Hne].
  destruct (from_job_graph_eq jg Hv Hp Hcl Hne) as (mp & Eg & _). eexists _, _. split; [exact Eg|]. split; [exact (deploy_ok rt jg _ Hr Eg)|]. split.
  - intros v (ev' & -> & (jv & i & Hjv & Hi & ->)%all_elem)%list_elem_of_fmap. unfold deployed. cbn [v_source v_op job_vertex execution_vertex_index]. intros Hs.
    destruct (Hsrc jv i Hjv) as (delayed & f & ec & sc & ops & st & Hops & ->); [by destruct (operator_type (stream_operator jv))|]. cbn. by apply client_source_decimal.
  - intros k i Hk. pose proof (lookup_lt_Some _ _ _ Hk) as Hlt. rewrite length_instance_positions in Hlt.
    rewrite (instance_position jg t k Hlt) in Hk. injection Hk as <-. eexists. split; [|split].
    + apply list_lookup_fmap_Some. eexists. split; [reflexivity|]. apply pos_ok; [done|]. apply all_elem. by exists t, k.
    + unfold deployed. cbn. by destruct (operator_type (stream_operator t)).
    + unfold deployed. cbn. by rewrite Hop.
Qed.

(** C7. Why features materialized online are not served.  Let a pipeline be materialized online by a job in which the aggregate
    with its sink runs in tasks of its own, of any parallelism, and the sources are source datasets with a collection or a
    delayed collection behind their connector and any maps, filters and key-bys chained to it.  Every record of a source has
    the [Decimal] of its timestamp field as its event time, and [msgpack] does not encode a [Decimal].  Then, however the tasks
    and their flushers are scheduled and whatever the batch size, no task reads a message, no task but a source processes or
    emits a record, the sinks issue no call, the store stays as it was, and a client that asks for the latest data of the
    dataset, which the store did not have before, gets an exception. *)
Theorem online_never_served dataset_name (a : CacheActor ev) :
  per_dataset_per_key a !! dataset_name = None →
  ∃ g vs, from_job_graph jg = Ok g ∧ deploy rt g = Ok vs ∧
    let j := job_run hash dumps loads empty (new_job vs tr) acts in
    (∀ i tk, tasks j !! i = Some tk → t_read tk = [] ∧ (v_source (t_vertex tk) = false → t_consumed tk = [] ∧ t_emitted tk = [])) ∧
    ∃ parts, issue_calls j clock (instance_positions jg t) parts ∧
      ∀ calls c keys, calls ≡ₚ concat parts → hot c = Some (take_calls py_str dataset_name a calls) →
        take_calls py_str dataset_name a calls = a ∧
        is_ok (get_online_latest_data (HS:=in_memory_hot py_str) c dataset_name keys) = false.
Proof using Hso refuses Hidle Hmz.
  intros Hds. destruct online_setup as (g & vs & Eg & Ev & Hs & Hpos). exists g, vs. split; [done|]. split; [done|]. intros j.
  destruct (job_run_barred hash dumps loads empty refuses vs (new_job vs tr) acts (new_job_barred vs tr Hidle Hs)) as (Hb & Hv & _). fold j in Hb, Hv.
  rewrite Forall_lookup in Hb. split.
  { intros i tk Hi. destruct (Hb i tk Hi) as [_ _ _ _ H1 _ H2]. split; [done|]. intros Hn. by destruct (H2 Hn) as (? & ? & _). }
  exists (replicate (length (instance_positions jg t)) []). split.
  - split; [by rewrite length_replicate|]. intros k i calls Hk [-> _]%lookup_replicate. destruct (Hpos k i Hk) as (v & Hi & Hns & Eop).
    rewrite <- Hv in Hi. apply list_lookup_fmap_Some in Hi as (tk & -> & Hi). destruct (Hb i tk Hi) as [_ _ _ _ _ _ H2]. destruct (H2 Hns) as (_ & _ & Est).
    exists tk. eexists _, _, _. split; [done|]. rewrite Est. exact Eop.
  - intros calls c keys Hp Hc. assert (concat (replicate (length (instance_positions jg t)) []) = @nil (put_call U)) as En
      by (generalize (length (instance_positions jg t)); intros n; by induction n).
    rewrite En in Hp. apply Permutation_nil_r in Hp as ->. split; [done|]. unfold get_online_latest_data. rewrite Hc.
    change (is_ok (get_latest_data py_str a dataset_name keys) = false). unfold get_latest_data.
    destruct (single_keys_dict keys) as [kd|]; [|done]. cbn. unfold get_latest, get_values_ts. by rewrite Hds.
Qed.
End deployed.
End online.

(** ** Witness: the purchases of [Pipelines] from two source tasks, aggregated and served by two instances *)

Definition ex_online_vertex : JobVertex := mkVertex 2 2 VPROCESS (Plain "ChainedOneInputOperator" ONE_INPUT).
Definition ex_online_jg : JobGraph :=
  mkGraph [mkVertex 1 2 VSOURCE (Plain "ChainedSourceOperator" SOURCE); ex_online_vertex] [new_edge 1 2 PKey].
Definition ex_clock (i n : nat) : Z := Z.of_nat (i + n).
Definition ex_source_ops : list (op Z (event Z)) := map node_op ex_nodes ++ [group_by_op ["buyer"]].
Definition ex_source : op Z (event Z) := client_source ex_isoparse true "at" (λ n, n) (λ n, n) ex_source_ops.
Definition ex_source_st (i : nat) : op_st ex_source :=
  match open_collection (new_collection ex_purchases) 2 i with Ok (src, ctx) => (src, (ctx, ((), ((), ((), ()))))) | Raise _ => (new_collection [], (new_ctx None, ((), ((), ((), ()))))) end.
Definition ex_online_rt : runtime Z (event Z) :=
  mkRuntime (λ v i, if decide (v = 2%Z) then existT (online_op ex_agg_str ex_isoparse ex_target (ex_clock i))
                                               (online_init ex_agg_str ex_as_dec ex_of_dec ex_isoparse ex_aggregates ex_target)
                    else existT ex_source (ex_source_st i)) (λ _ _, []) 2 0%Qc (λ _, ticks) (λ _, ticks).
Abbreviation ex_sale_msgs := (list (dict string (field Z (event Z)))).
Definition ex_online_vs : list (vertex Z (event Z)) :=
  Deployment.ok_or [] (deploy ex_online_rt (Deployment.ok_or (mkEG [] [] [] None) (from_job_graph ex_online_jg))).
Abbreviation ex_online_job := (job_run (λ k : Z, k) packs_or_raises Ok [] (new_job ex_online_vs ([] : queues ex_sale_msgs)) ex_turns).

Lemma ex_online_runnable : runnable ex_online_jg.
Proof.
  split; try (apply (bool_decide_unpack _); reflexivity).
  intros e He. repeat (apply elem_of_cons in He as [->|He]; [split; apply (bool_decide_unpack _); reflexivity|]).
  by apply elem_of_nil in He.
Qed.

Lemma ex_materialized : materialized ex_agg_str ex_as_dec ex_of_dec ex_isoparse ex_aggregates ex_target ex_online_rt ex_online_jg ex_online_vertex ex_clock.
Proof.
  split.
  - apply ex_online_runnable.
  - by right; left.
  - done.
  - intros i. reflexivity.
  - intros v i Hv Hs. repeat (apply elem_of_cons in Hv as [->|Hv]; [|]); [|done|by apply elem_of_nil in Hv].
    exists true, "at", (λ n, n), (λ n, n), ex_source_ops, (ex_source_st i). split; [|reflexivity].
    repeat (constructor; [first [apply chained_node|apply chained_key]|]). constructor.
Qed.

Lemma packs_refuses {K V} (b bs : list (dict string (field K V))) m : packs_or_raises b = Ok bs → m ∈ b → message_packs m = true.
Proof.
  unfold packs_or_raises. destruct (forallb message_packs b) eqn:E; [|done]. intros _ Hm. rewrite forallb_forall in E. by apply E, list_elem_of_In.
Qed.

(** The sources emitted the records of three purchases, and none of them arrived. *)
Lemma ex_online_emitted : length (emitted_by ex_online_job 0 ++ emitted_by ex_online_job 1) = 3.
Proof. vm_compute. reflexivity. Qed.

Lemma online_never_served_witness : length (emitted_by ex_online_job 0 ++ emitted_by ex_online_job 1) = 3 ∧
  (∀ i tk, tasks ex_online_job !! i = Some tk → t_read tk = []) ∧
  is_ok (get_online_latest_data (HS:=in_memory_hot ex_str) (mkStores (Some new_cache_actor) None) "features" (Some [[("buyer", 1%Z)]])) = false.
Proof.
  destruct (online_never_served ex_str ex_agg_str ex_as_dec ex_of_dec ex_isoparse ex_aggregates ex_target
    (λ k : Z, k) packs_or_raises Ok [] ex_online_rt ex_online_jg ex_online_vertex ex_clock ([] : queues ex_sale_msgs) ex_turns)
    with (dataset_name := "features") (a := new_cache_actor (V := event Z)) as (g & vs & Eg & Ev & Hread & parts & Hp & Hall).
  - exact packs_refuses.
  - intros c. reflexivity.
  - exact ex_materialized.
  - reflexivity.
  - assert (vs = ex_online_vs) as -> by (unfold ex_online_vs; rewrite Eg; cbn [Deployment.ok_or]; by rewrite Ev).
    split; [exact ex_online_emitted|]. split; [intros i tk Hi; exact (proj1 (Hread i tk Hi))|].
    destruct (Hall (concat parts) (mkStores (Some (take_calls ex_str "features" new_cache_actor (concat parts))) None) (Some [[("buyer", 1%Z)]]) (reflexivity _) eq_refl)
      as [E Hget]. rewrite E in Hget. exact Hget.
Defined.
