(* ===== verification/Codec.v ===== *)
(** * Buffers on the wire
    ([volga/streaming/runtime/network_deprecated/buffer/serialization/varint.py],
     [byte_utils.py], [buffer_serializer.py], [buffer/buffer.py])

    A buffer is a 16-byte channel id, the buffer id and the payload size as
    variable-length integers, and the messages, each with its id and size.
    Bytes are integers from 0 to 255; strings are ASCII. *)

From S2P Require Import Prelude.
From Stdlib Require Import Ascii.

Abbreviation bytes := (list Z).

(** ** [varint.py] *)

(** The loop of [encode_int]; it ends when the shifted number is zero. *)
Fixpoint encode_loop (fuel : nat) (number : Z) : bytes :=
  match fuel with
  | O => []
  | S fuel' =>
      let towrite := Z.land number 127 in
      let number := Z.shiftr number 7 in
      if decide (number = 0%Z) then [towrite] else Z.lor towrite 128 :: encode_loop fuel' number
  end.

(** For a non-negative number one round per bit is more than enough. *)
Definition encode_int (number : Z) : bytes := encode_loop (S (Z.to_nat (Z.log2 number))) number.

(** The loop of [decode_bytes]; [ord] of an empty slice raises [TypeError].  The position grows, so
    the length of the input bounds the rounds. *)
Fixpoint decode_loop (fuel : nat) (b : bytes) (pos : nat) (shift result : Z) : res (Z * nat) :=
  match fuel with
  | O => Raise TypeError
  | S fuel' =>
      i ← from_option_exn TypeError (b !! pos);
      let result := Z.lor result (Z.shiftl (Z.land i 127) shift) in
      if decide (Z.land i 128 = 0%Z) then Ok (result, S pos)
      else decode_loop fuel' b (S pos) (shift + 7)%Z result
  end.
Definition decode_bytes (b : bytes) (start : nat) : res (Z * nat) := decode_loop (S (length b)) b start 0%Z 0%Z.

(** ** [byte_utils.py] *)

Definition ord_ascii (c : ascii) : Z := Z.of_nat (nat_of_ascii c).
Definition chr_ascii (z : Z) : ascii := ascii_of_nat (Z.to_nat z).

Definition str_to_bytes (s : list ascii) (pad_to_size : option nat) : res bytes :=
  let b := map ord_ascii s in
  match pad_to_size with
  | None => Ok b
  | Some n => if decide (n < length b) then Raise (ValueError "Unable to pad string")
              else Ok (b ++ replicate (n - length b) 32%Z)
  end.

(** [str.isspace] on ASCII characters, and [str.strip]; characters from 128 on, of which some are spaces to Python and
    which take several bytes, are outside the model. *)
Definition isspace (c : ascii) : bool :=
  let n := nat_of_ascii c in
  ((9 <=? n) && (n <=? 13)) || ((28 <=? n) && (n <=? 32)).
Fixpoint lstrip (s : list ascii) : list ascii :=
  match s with
  | [] => []
  | c :: s' => if isspace c then lstrip s' else s
  end.
Definition strip (s : list ascii) : list ascii := reverse (lstrip (reverse (lstrip s))).

Definition bytes_to_str (b : bytes) (strip_padding : bool) : list ascii :=
  let s := map chr_ascii b in if strip_padding then strip s else s.

(** ** [BufferSerializer] *)

Definition CHANNEL_ID_HEADER_LENGTH : nat := 16.

Definition msg_frame (msg_id : Z) (msg_bytes : bytes) : bytes :=
  encode_int msg_id ++ encode_int (Z.of_nat (length msg_bytes)) ++ msg_bytes.

Definition serialize_msg_bytes (channel_id : list ascii) (buffer_id : Z) (msg_bytes : bytes) (msg_id : Z)
    (buffer_size : nat) (with_header : bool) : res bytes :=
  let msg_id_bytes := encode_int msg_id in
  let msg_size_bytes := encode_int (Z.of_nat (length msg_bytes)) in
  if with_header then
    let buffer_id_bytes := encode_int buffer_id in
    channel_id_bytes ← str_to_bytes channel_id (Some CHANNEL_ID_HEADER_LENGTH);
    let payload_size := length msg_id_bytes + length msg_size_bytes + length msg_bytes in
    let payload_size_bytes := encode_int (Z.of_nat payload_size) in
    if decide (buffer_size < length msg_bytes + CHANNEL_ID_HEADER_LENGTH + length buffer_id_bytes
                 + length payload_size_bytes + length msg_id_bytes + length msg_size_bytes)
    then Raise (RuntimeError "Message too big")
    else Ok (channel_id_bytes ++ buffer_id_bytes ++ payload_size_bytes ++ msg_id_bytes ++ msg_size_bytes ++ msg_bytes)
  else Ok (msg_id_bytes ++ msg_size_bytes ++ msg_bytes).

Definition get_channel_id (buffer : bytes) : list ascii :=
  bytes_to_str (take CHANNEL_ID_HEADER_LENGTH buffer) true.

Definition get_buffer_id_offset (buffer : bytes) : res (Z * nat) := decode_bytes buffer CHANNEL_ID_HEADER_LENGTH.
Definition get_buffer_id (buffer : bytes) : res Z := r ← get_buffer_id_offset buffer; Ok r.1.

Definition get_payload_size (buffer : bytes) : res (Z * nat) :=
  r ← get_buffer_id_offset buffer; decode_bytes buffer r.2.

(** The loop of [get_payload]; each round moves the offset, so the length of the buffer bounds the
    rounds.  A message size beyond the end of the buffer makes the slice shorter and the loop end. *)
Fixpoint payload_loop (fuel : nat) (buffer : bytes) (offset : nat) (payload_end : Z) : res (list (Z * bytes)) :=
  match fuel with
  | O => Ok []
  | S fuel' =>
      if decide (Z.of_nat offset < payload_end)%Z then
        id ← decode_bytes buffer offset;
        size ← decode_bytes buffer id.2;
        let data := take (Z.to_nat size.1) (drop size.2 buffer) in
        rest ← payload_loop fuel' buffer (size.2 + Z.to_nat size.1) payload_end;
        Ok ((id.1, data) :: rest)
      else Ok []
  end.

Definition get_payload (buffer : bytes) : res (list (Z * bytes)) :=
  r ← get_payload_size buffer;
  payload_loop (S (length buffer)) buffer r.2 (Z.of_nat r.2 + r.1).

Definition append_msg_bytes (buffer payload : bytes) (buffer_size : nat) : res bytes :=
  if decide (buffer_size < length buffer + length payload) then
    Raise (RuntimeError "Can not append, buffer too big")
  else
    start ← get_buffer_id_offset buffer;
    size ← get_payload_size buffer;
    let new_payload_size := (size.1 + Z.of_nat (length payload))%Z in
    Ok (take start.2 buffer ++ encode_int new_payload_size ++ drop size.2 buffer ++ payload).

(** [AckMessageBatch]: the batch as JSON after the channel id. *)
Definition ack_ser (dumps : list ascii * list Z → res bytes) (channel_id : list ascii) (acks : list Z) : res bytes :=
  data ← dumps (channel_id, acks);
  channel_id_bytes ← str_to_bytes channel_id (Some CHANNEL_ID_HEADER_LENGTH);
  Ok (channel_id_bytes ++ data).
Definition ack_de (loads : bytes → res (list ascii * list Z)) (raw : bytes) : res (list ascii * list Z) :=
  loads (drop CHANNEL_ID_HEADER_LENGTH raw).

(** [JSONBufferSerializer] over a JSON codec of messages. *)
Section serializer.
Context {Msg : Type} (dumps : Msg → res bytes) (loads : bytes → res Msg).

Definition serialize_msg (channel_id : list ascii) (buffer_id : Z) (msg : Msg) (msg_id : Z) (buffer_size : nat)
    (with_header : bool) : res bytes :=
  msg_bytes ← dumps msg;
  serialize_msg_bytes channel_id buffer_id msg_bytes msg_id buffer_size with_header.

Definition deser (buffer : bytes) : res (list Msg) :=
  payload ← get_payload buffer;
  mapR (λ id_data, loads id_data.2) payload.
End serializer.

(** ** Variable-length integers *)

Lemma land127 n : Z.land n 127 = (n mod 128)%Z.
Proof. exact (Z.land_ones n 7 ltac:(lia)). Qed.
Lemma shiftr7 n : Z.shiftr n 7 = (n / 128)%Z.
Proof. exact (Z.shiftr_div_pow2 n 7 ltac:(lia)). Qed.

(** A byte with the continuation bit. *)
Lemma continued t : (0 ≤ t < 128)%Z →
  Z.land (Z.lor t 128) 127 = t ∧ Z.land (Z.lor t 128) 128 = 128%Z ∧ Z.land t 128 = 0%Z ∧ (0 ≤ Z.lor t 128 < 256)%Z.
Proof.
  intros Ht. assert (Forall (λ t, Z.land (Z.lor t 128) 127 = t ∧ Z.land (Z.lor t 128) 128 = 128%Z ∧
    Z.land t 128 = 0%Z ∧ (0 ≤ Z.lor t 128 < 256)%Z) (seqZ 0 128)) as Hall by (by apply (bool_decide_unpack _)).
  rewrite Forall_forall in Hall. apply Hall, elem_of_seqZ. lia.
Qed.

(** The number is the low seven bits and the rest. *)
Lemma group_bits n s : (0 ≤ s)%Z →
  Z.lor (Z.shiftl (Z.land n 127) s) (Z.shiftl (Z.shiftr n 7) (s + 7)) = Z.shiftl n s.
Proof.
  intros Hs. apply Z.bits_inj'. intros m Hm. change 127%Z with (Z.ones 7).
  rewrite Z.lor_spec, !Z.shiftl_spec, Z.land_spec by lia.
  destruct (Z_lt_dec (m - s) 0) as [Hn|Hn].
  - rewrite !Z.testbit_neg_r by lia. by rewrite andb_false_l.
  - destruct (Z_lt_dec (m - s) 7) as [H7|H7].
    + rewrite Z.ones_spec_low, andb_true_r, (Z.testbit_neg_r _ (m - (s + 7))) by lia. apply orb_false_r.
    + rewrite Z.ones_spec_high, andb_false_r, Z.shiftr_spec, orb_false_l by lia. f_equal. lia.
Qed.

Lemma encode_loop_step fuel n :
  encode_loop (S fuel) n =
  if decide (n / 128 = 0)%Z then [n mod 128]%Z else Z.lor (n mod 128) 128 :: encode_loop fuel (n / 128)%Z.
Proof. cbn [encode_loop]. by rewrite land127, shiftr7. Qed.

(** Fuel: [7 * fuel] bits are covered. *)
Lemma encode_loop_more fuel n extra :
  (0 ≤ n < 128 ^ Z.of_nat fuel)%Z → 0 < fuel → encode_loop (fuel + extra) n = encode_loop fuel n.
Proof.
  revert n. induction fuel as [|fuel IH]; intros n Hn Hf; [lia|].
  change (S fuel + extra) with (S (fuel + extra)). rewrite !encode_loop_step. case_decide as Hd; [done|]. f_equal.
  rewrite Nat2Z.inj_succ, Z.pow_succ_r in Hn by lia.
  assert (0 ≤ n / 128 < 128 ^ Z.of_nat fuel)%Z as Hn'.
  { split; [by apply Z.div_pos; lia|]. apply Z.div_lt_upper_bound; lia. }
  apply IH; [done|]. destruct fuel; [|lia]. cbn in Hn'. lia.
Qed.

Lemma encode_int_fuel n fuel :
  (0 ≤ n < 128 ^ Z.of_nat fuel)%Z → 0 < fuel → encode_int n = encode_loop fuel n.
Proof.
  intros Hn Hf. unfold encode_int. set (f0 := S (Z.to_nat (Z.log2 n))).
  assert (0 ≤ n < 128 ^ Z.of_nat f0)%Z as H0.
  { split; [lia|]. destruct (decide (n = 0)%Z) as [->|Hne]; [by apply Z.pow_pos_nonneg; lia|].
    assert (0 ≤ Z.log2 n)%Z by apply Z.log2_nonneg.
    assert (Z.of_nat f0 = Z.succ (Z.log2 n)) as -> by (unfold f0; lia).
    apply Z.lt_le_trans with (2 ^ Z.succ (Z.log2 n))%Z; [apply Z.log2_spec; lia|].
    apply Z.pow_le_mono_l. lia. }
  rewrite <- (encode_loop_more f0 n fuel) by (done || (unfold f0; lia)).
  rewrite Nat.add_comm. by apply encode_loop_more.
Qed.

Lemma fuel_exists n : (0 ≤ n)%Z → ∃ fuel, (0 ≤ n < 128 ^ Z.of_nat fuel)%Z ∧ 0 < fuel.
Proof.
  intros Hn. exists (S (Z.to_nat n)). split; [|lia]. split; [done|].
  apply Z.lt_le_trans with (128 ^ n)%Z; [apply Z.pow_gt_lin_r; lia|]. apply Z.pow_le_mono_r; lia.
Qed.

(** The equation of the loop of [encode_int]. *)
Lemma encode_int_eq n : (0 ≤ n)%Z →
  encode_int n = if decide (n / 128 = 0)%Z then [n mod 128]%Z
                 else Z.lor (n mod 128) 128 :: encode_int (n / 128)%Z.
Proof.
  intros Hn. destruct (fuel_exists n Hn) as (fuel & Hf & Hp).
  rewrite (encode_int_fuel n (S fuel)), encode_loop_step; [|split; [done|]|lia].
  - case_decide as Hd; [done|]. f_equal. symmetry. apply encode_int_fuel; [|done].
    split; [by apply Z.div_pos; lia|]. apply Z.le_lt_trans with n; [|lia]. apply Z.div_le_upper_bound; lia.
  - apply Z.lt_le_trans with (128 ^ Z.of_nat fuel)%Z; [lia|]. apply Z.pow_le_mono_r; lia.
Qed.

(** Induction along the rounds of the loop. *)
Lemma varint_ind (P : Z → Prop) :
  (∀ n, (0 ≤ n < 128)%Z → P n) → (∀ n, (128 ≤ n)%Z → P (n / 128)%Z → P n) → ∀ n, (0 ≤ n)%Z → P n.
Proof.
  intros H0 H1 n0 Hn0. apply (Z_lt_induction (λ n, (0 ≤ n)%Z → P n)); [|done|done].
  - intros n IH Hn. destruct (Z_lt_dec n 128); [apply H0; lia|]. apply H1; [lia|]. apply IH.
    + split; [by apply Z.div_pos; lia|apply Z.div_lt; lia].
    + by apply Z.div_pos; lia.
Qed.

Lemma encode_int_small n : (0 ≤ n < 128)%Z → encode_int n = [n].
Proof.
  intros Hn. rewrite encode_int_eq by lia. rewrite decide_True by (by apply Z.div_small). by rewrite Z.mod_small.
Qed.
Lemma encode_int_big n : (128 ≤ n)%Z → encode_int n = Z.lor (n mod 128) 128 :: encode_int (n / 128).
Proof.
  intros Hn. rewrite encode_int_eq by lia. rewrite decide_False; [done|].
  assert (1 ≤ n / 128)%Z; [|lia]. apply Z.div_le_lower_bound; lia.
Qed.

Definition is_byte (z : Z) : Prop := (0 ≤ z < 256)%Z.

Lemma encode_int_bytes n : (0 ≤ n)%Z → Forall is_byte (encode_int n).
Proof.
  revert n. apply varint_ind; intros n Hn; [rewrite encode_int_small by done; repeat constructor; unfold is_byte; lia|].
  intros IH. rewrite encode_int_big by done. constructor; [|done].
  apply continued. apply Z.mod_pos_bound. lia.
Qed.

Lemma encode_int_nonempty n : (0 ≤ n)%Z → 0 < length (encode_int n).
Proof. intros Hn. rewrite encode_int_eq by done. case_decide; cbn; lia. Qed.

Lemma decode_loop_encoded n : (0 ≤ n)%Z → ∀ fuel pre post shift r,
  length (encode_int n) ≤ fuel → (0 ≤ shift)%Z →
  decode_loop fuel (pre ++ encode_int n ++ post) (length pre) shift r =
  Ok (Z.lor r (Z.shiftl n shift), length pre + length (encode_int n)).
Proof.
  revert n. apply (varint_ind (λ n, ∀ fuel pre post shift r, length (encode_int n) ≤ fuel → (0 ≤ shift)%Z →
    decode_loop fuel (pre ++ encode_int n ++ post) (length pre) shift r = _)).
  - intros n Hn fuel pre post shift r Hf Hs. rewrite encode_int_small in * by done. destruct fuel as [|fuel]; [cbn in Hf; lia|].
    cbn [decode_loop app]. rewrite list_lookup_middle by done. cbn [from_option_exn mbind res_bind].
    destruct (continued n Hn) as (_ & _ & -> & _). rewrite decide_True by done. rewrite land127, Z.mod_small by done.
    cbn [length]. do 2 f_equal. lia.
  - intros n Hn IH fuel pre post shift r Hf Hs. rewrite encode_int_big in * by done.
    destruct fuel as [|fuel]; [cbn in Hf; lia|]. set (t := (n mod 128)%Z).
    destruct (continued t) as (E1 & E2 & _ & _); [by apply Z.mod_pos_bound; lia|].
    cbn [decode_loop]. cbn [app]. rewrite list_lookup_middle by done. cbn [from_option_exn mbind res_bind].
    rewrite E1, E2. rewrite decide_False by done.
    replace (pre ++ Z.lor t 128 :: encode_int (n / 128) ++ post)
      with ((pre ++ [Z.lor t 128]) ++ encode_int (n / 128) ++ post) by (by rewrite <- app_assoc).
    replace (S (length pre)) with (length (pre ++ [Z.lor t 128])) by (rewrite length_app; cbn; lia).
    rewrite IH; [|cbn [length] in Hf; lia|lia]. f_equal. f_equal.
    + rewrite <- Z.lor_assoc. f_equal. rewrite <- (group_bits n shift) by done. by rewrite land127, shiftr7.
    + rewrite length_app. cbn [length]. lia.
Qed.

Lemma decode_encoded n pre post : (0 ≤ n)%Z →
  decode_bytes (pre ++ encode_int n ++ post) (length pre) = Ok (n, length pre + length (encode_int n)).
Proof.
  intros Hn. unfold decode_bytes. rewrite decode_loop_encoded; [|done|rewrite !length_app; lia|lia].
  by rewrite Z.lor_0_l, Z.shiftl_0_r.
Qed.

(** A negative number never leaves the loop: however many rounds are allowed, each writes a byte with
    the continuation bit. *)
Lemma encode_negative n fuel : (n < 0)%Z → length (encode_loop fuel n) = fuel.
Proof.
  revert n. induction fuel as [|fuel IH]; intros n Hn; [done|]. rewrite encode_loop_step.
  assert (n / 128 < 0)%Z by (apply Z.div_lt_upper_bound; lia).
  rewrite decide_False by lia. cbn. by rewrite IH.
Qed.

(** ** Buffers *)

Definition frames (ms : list (Z * bytes)) : bytes := concat (map (λ m, msg_frame m.1 m.2) ms).

(** [b] is a buffer with this channel id, buffer id and messages. *)
Record buffer_of (channel_id : list ascii) (buffer_id : Z) (ms : list (Z * bytes)) (b : bytes) : Prop := {
  bo_id : (0 ≤ buffer_id)%Z;
  bo_ids : Forall (λ m : Z * bytes, 0 ≤ m.1)%Z ms;
  bo_bytes : ∃ c, str_to_bytes channel_id (Some CHANNEL_ID_HEADER_LENGTH) = Ok c ∧
    b = c ++ encode_int buffer_id ++ encode_int (Z.of_nat (length (frames ms))) ++ frames ms;
}.

Lemma str_to_bytes_pad s n c :
  str_to_bytes s (Some n) = Ok c → length c = n ∧ c = map ord_ascii s ++ replicate (n - length s) 32%Z.
Proof.
  unfold str_to_bytes. rewrite length_map. case_decide; [done|]. intros [= <-].
  rewrite length_app, length_replicate, length_map. split; [lia|done].
Qed.

Lemma frames_app ms ms' : frames (ms ++ ms') = frames ms ++ frames ms'.
Proof. unfold frames. by rewrite map_app, concat_app. Qed.
Lemma frames_one id data : frames [(id, data)] = msg_frame id data.
Proof. unfold frames. cbn [map concat fst snd]. apply app_nil_r. Qed.
Lemma frames_length ms : Forall (λ m : Z * bytes, 0 ≤ m.1)%Z ms → length ms ≤ length (frames ms).
Proof.
  unfold frames. induction 1 as [|m ms Hm Hms IH]; [done|]. cbn [map concat length]. rewrite length_app.
  assert (0 < length (msg_frame m.1 m.2)); [|lia].
  unfold msg_frame. rewrite !length_app. pose proof (encode_int_nonempty m.1 Hm). lia.
Qed.

Lemma payload_loop_frames ms : ∀ fuel pre post,
  Forall (λ m : Z * bytes, 0 ≤ m.1)%Z ms → length ms < fuel →
  payload_loop fuel (pre ++ frames ms ++ post) (length pre) (Z.of_nat (length pre + length (frames ms))) = Ok ms.
Proof.
  induction ms as [|[id data] ms IH]; intros fuel pre post Hids Hf; (destruct fuel as [|fuel]; [lia|]); cbn [payload_loop].
  - rewrite decide_False; [done|]. unfold frames; cbn [map concat length]. lia.
  - apply Forall_cons in Hids as [Hid Hids]. cbn [fst] in Hid. cbn [length] in Hf.
    set (i := encode_int id). set (sz := encode_int (Z.of_nat (length data))).
    assert (frames ((id, data) :: ms) = i ++ sz ++ data ++ frames ms) as ->.
    { unfold frames, msg_frame. cbn [map concat fst snd]. by rewrite <- !app_assoc. }
    assert (0 < length i) by (apply encode_int_nonempty; lia).
    rewrite decide_True by (rewrite !length_app; lia).
    rewrite <- !app_assoc. rewrite (decode_encoded id pre) by done. fold i. cbn [mbind res_bind fst snd].
    replace (length pre + length i) with (length (pre ++ i)) by apply length_app.
    replace (pre ++ i ++ sz ++ data ++ frames ms ++ post) with ((pre ++ i) ++ sz ++ data ++ frames ms ++ post)
      by (by rewrite <- app_assoc).
    rewrite (decode_encoded (Z.of_nat (length data)) (pre ++ i)) by lia. fold sz. cbn [mbind res_bind fst snd]. rewrite Nat2Z.id.
    replace (length (pre ++ i) + length sz) with (length ((pre ++ i) ++ sz)) by apply length_app.
    replace ((pre ++ i) ++ sz ++ data ++ frames ms ++ post)
      with (((pre ++ i) ++ sz) ++ data ++ frames ms ++ post) by (by rewrite <- app_assoc).
    rewrite drop_app_length, take_app_length.
    replace (length ((pre ++ i) ++ sz) + length data) with (length (((pre ++ i) ++ sz) ++ data)) by apply length_app.
    replace (((pre ++ i) ++ sz) ++ data ++ frames ms ++ post)
      with ((((pre ++ i) ++ sz) ++ data) ++ frames ms ++ post) by (by rewrite <- app_assoc).
    replace (Z.of_nat (length pre + length (i ++ sz ++ data ++ frames ms)))
      with (Z.of_nat (length (((pre ++ i) ++ sz) ++ data) + length (frames ms))) by (rewrite !length_app; lia).
    rewrite IH by (done || lia). done.
Qed.

Section one_buffer.
Context (channel_id : list ascii) (buffer_id : Z) (ms : list (Z * bytes)) (b : bytes).
Hypothesis Hb : buffer_of channel_id buffer_id ms b.

(** The parts of the buffer. *)
Lemma buffer_parts : ∃ c, length c = CHANNEL_ID_HEADER_LENGTH ∧
  str_to_bytes channel_id (Some CHANNEL_ID_HEADER_LENGTH) = Ok c ∧
  let i := encode_int buffer_id in let n := encode_int (Z.of_nat (length (frames ms))) in
  b = c ++ i ++ n ++ frames ms ∧
  get_buffer_id_offset b = Ok (buffer_id, length (c ++ i)) ∧
  get_payload_size b = Ok (Z.of_nat (length (frames ms)), length (c ++ i ++ n)).
Proof.
  destruct Hb as [Hid Hids (c & Ec & Eb)]. pose proof (str_to_bytes_pad _ _ _ Ec) as [Hc _].
  exists c. split_and!; [done..|]. cbn zeta.
  assert (get_buffer_id_offset b = Ok (buffer_id, length (c ++ encode_int buffer_id))) as E1.
  { unfold get_buffer_id_offset. rewrite <- Hc, Eb. rewrite decode_encoded by done. by rewrite length_app. }
  split_and!; [done..|]. unfold get_payload_size. rewrite E1. cbn [mbind res_bind snd]. rewrite Eb.
  rewrite (app_assoc c). rewrite decode_encoded by lia. by rewrite (app_assoc c), (length_app (c ++ _)).
Qed.

Lemma buffer_id_of : get_buffer_id b = Ok buffer_id.
Proof. destruct buffer_parts as (c & _ & _ & _ & E & _). unfold get_buffer_id. by rewrite E. Qed.

Lemma payload_of : get_payload b = Ok ms.
Proof.
  destruct buffer_parts as (c & _ & _ & Eb & _ & E). unfold get_payload. rewrite E. cbn [mbind res_bind fst snd].
  set (pre := c ++ encode_int buffer_id ++ encode_int (Z.of_nat (length (frames ms)))) in *.
  replace (Z.of_nat (length pre) + Z.of_nat (length (frames ms)))%Z
    with (Z.of_nat (length pre + length (frames ms))) by lia.
  assert (b = pre ++ frames ms ++ []) as Eb'.
  { rewrite Eb. unfold pre. rewrite app_nil_r. by rewrite <- !app_assoc. }
  pose proof (frames_length ms (bo_ids _ _ _ _ Hb)).
  assert (length ms < S (length b)) by (rewrite Eb', !length_app; lia).
  rewrite Eb' at 2. by apply payload_loop_frames; [apply (bo_ids _ _ _ _ Hb)|].
Qed.

Lemma append_of msg_id data buffer_size : (0 ≤ msg_id)%Z →
  length b + length (msg_frame msg_id data) ≤ buffer_size →
  ∃ b', append_msg_bytes b (msg_frame msg_id data) buffer_size = Ok b' ∧
    buffer_of channel_id buffer_id (ms ++ [(msg_id, data)]) b'.
Proof.
  intros Hm Hs. destruct buffer_parts as (c & _ & Ec & Eb & E1 & E2). unfold append_msg_bytes.
  rewrite decide_False by lia. rewrite E1, E2. cbn [mbind res_bind fst snd]. eexists. split; [reflexivity|].
  destruct Hb as [Hid Hids _]. split; [done| |].
  - apply Forall_app. split; [done|]. by repeat constructor.
  - exists c. split; [done|]. rewrite Eb. rewrite (app_assoc c) at 1. rewrite take_app_length.
    set (i := encode_int buffer_id). set (n := encode_int (Z.of_nat (length (frames ms)))).
    replace (c ++ i ++ n ++ frames ms) with ((c ++ i ++ n) ++ frames ms) by (by rewrite <- !app_assoc).
    rewrite drop_app_length. rewrite frames_app, frames_one, length_app, Nat2Z.inj_add. by rewrite <- !app_assoc.
Qed.
End one_buffer.

Lemma serialize_of channel_id buffer_id data msg_id buffer_size b :
  (0 ≤ buffer_id)%Z → (0 ≤ msg_id)%Z →
  serialize_msg_bytes channel_id buffer_id data msg_id buffer_size true = Ok b →
  buffer_of channel_id buffer_id [(msg_id, data)] b ∧ length b ≤ buffer_size.
Proof.
  intros Hi Hm. unfold serialize_msg_bytes.
  destruct (str_to_bytes channel_id _) as [c|] eqn:Ec; cbn [mbind res_bind]; [|done].
  case_decide as Hd; [done|]. intros <-%Ok_inj. pose proof (str_to_bytes_pad _ _ _ Ec) as [Hc _]. split.
  - split; [done|by repeat constructor|]. exists c. split; [done|]. rewrite frames_one. unfold msg_frame.
    rewrite !length_app. by rewrite Nat.add_assoc.
  - rewrite !length_app. unfold CHANNEL_ID_HEADER_LENGTH in *. lia.
Qed.

(** ** Channel ids *)

(** No white space at either end. *)
Definition trimmed (s : list ascii) : Prop :=
  (∀ c, head s = Some c → isspace c = false) ∧ (∀ c, last s = Some c → isspace c = false).

Lemma lstrip_spaces n s : lstrip (replicate n " "%char ++ s) = lstrip s.
Proof. induction n as [|n IH]; [done|exact IH]. Qed.
Lemma lstrip_head s : (∀ c, head s = Some c → isspace c = false) → lstrip s = s.
Proof. destruct s as [|c s]; [done|]. intros H. cbn. by rewrite H. Qed.

Lemma strip_padded s n : trimmed s → strip (s ++ replicate n " "%char) = s.
Proof.
  intros [Hh Hl]. unfold strip. destruct s as [|c s].
  - cbn [app]. rewrite <- (app_nil_r (replicate n _)), lstrip_spaces. done.
  - rewrite (lstrip_head ((c :: s) ++ _)) by exact Hh. rewrite reverse_app, reverse_replicate, lstrip_spaces.
    rewrite lstrip_head; [apply reverse_involutive|]. intros d. rewrite head_reverse. apply Hl.
Qed.

Lemma chr_ord s : map chr_ascii (map ord_ascii s) = s.
Proof.
  rewrite map_map. rewrite <- (map_id s) at 2. apply map_ext. intros c. unfold chr_ascii, ord_ascii.
  rewrite Nat2Z.id. apply ascii_nat_embedding.
Qed.

(** Whatever follows the header, it gives the channel id back. *)
Lemma header_channel_id channel_id c rest :
  trimmed channel_id → str_to_bytes channel_id (Some CHANNEL_ID_HEADER_LENGTH) = Ok c → get_channel_id (c ++ rest) = channel_id.
Proof.
  intros Ht Ec. pose proof (str_to_bytes_pad _ _ _ Ec) as [Hc Hpad].
  unfold get_channel_id, bytes_to_str. rewrite <- Hc, take_app_length, Hpad, map_app, chr_ord.
  change (map chr_ascii) with (fmap (M := list) chr_ascii). rewrite fmap_replicate. by apply strip_padded.
Qed.

Lemma channel_id_of channel_id buffer_id ms b :
  trimmed channel_id → buffer_of channel_id buffer_id ms b → get_channel_id b = channel_id.
Proof.
  intros Ht Hb. destruct (buffer_parts _ _ _ _ Hb) as (c & _ & Ec & -> & _). by apply header_channel_id.
Qed.

(** An acknowledgement reads back, and carries its channel where the relay looks for it. *)
Lemma ack_roundtrip (dumps : list ascii * list Z → res bytes) (loads : bytes → res (list ascii * list Z)) channel_id acks b :
  (∀ m d, dumps m = Ok d → loads d = Ok m) → trimmed channel_id → ack_ser dumps channel_id acks = Ok b →
  ack_de loads b = Ok (channel_id, acks) ∧ get_channel_id b = channel_id.
Proof.
  intros Hj Ht. unfold ack_ser. destruct (dumps (channel_id, acks)) as [d|] eqn:Ed; [|done]. cbn [mbind res_bind].
  destruct (str_to_bytes channel_id _) as [c|] eqn:Ec; [|done]. cbn [mbind res_bind]. intros <-%Ok_inj.
  split; [|by apply header_channel_id]. unfold ack_de. pose proof (str_to_bytes_pad _ _ _ Ec) as [<- _].
  rewrite drop_app_length. by apply Hj.
Qed.

(** ** Filling a buffer *)

Section filling.
Context {Msg : Type} (dumps : Msg → res bytes) (loads : bytes → res Msg).

(** The first message with the header, every further one appended, as [BufferQueues.append_msg] does. *)
Definition append_next (channel_id : list ascii) (buffer_size : nat) (b : bytes) (m : Z * Msg) : res bytes :=
  payload ← serialize_msg dumps channel_id 0 m.2 m.1 buffer_size false;
  append_msg_bytes b payload buffer_size.
Definition fill (channel_id : list ascii) (buffer_id : Z) (buffer_size : nat) (m : Z * Msg) (ms : list (Z * Msg))
    : res bytes :=
  b ← serialize_msg dumps channel_id buffer_id m.2 m.1 buffer_size true;
  foldR (append_next channel_id buffer_size) b ms.

Lemma fill_from channel_id buffer_id buffer_size ms : ∀ b b' done_ms,
  Forall (λ m : Z * Msg, 0 ≤ m.1)%Z ms → buffer_of channel_id buffer_id done_ms b →
  foldR (append_next channel_id buffer_size) b ms = Ok b' →
  ∃ data, buffer_of channel_id buffer_id (done_ms ++ data) b' ∧
    Forall2 (λ (m : Z * Msg) d, d.1 = m.1 ∧ dumps m.2 = Ok d.2) ms data.
Proof.
  induction ms as [|m ms IH]; intros b b' dm Hids Hb E.
  - injection E as <-. exists []. by rewrite app_nil_r.
  - apply Forall_cons in Hids as [Hm Hids]. cbn [foldR] in E.
    destruct (append_next channel_id buffer_size b m) as [b1|] eqn:E1; [|done]. cbn [mbind res_bind] in E.
    unfold append_next, serialize_msg in E1. destruct (dumps m.2) as [d|] eqn:Ed; [|done].
    cbn [mbind res_bind serialize_msg_bytes] in E1. fold (msg_frame m.1 d) in E1.
    assert (length b + length (msg_frame m.1 d) ≤ buffer_size) as Hs.
    { unfold append_msg_bytes in E1. by case_decide; [|lia]. }
    destruct (append_of _ _ _ _ Hb m.1 d buffer_size Hm Hs) as (b2 & E2 & Hb2). rewrite E2 in E1. injection E1 as <-.
    destruct (IH _ _ _ Hids Hb2 E) as (data & Hb' & Hall). exists ((m.1, d) :: data).
    split; [by rewrite <- app_assoc in Hb'|]. by constructor.
Qed.

Lemma decoded ms data :
  (∀ m b, dumps m = Ok b → loads b = Ok m) →
  Forall2 (λ (m : Z * Msg) d, d.1 = m.1 ∧ dumps m.2 = Ok d.2) ms data →
  mapR (λ d : Z * bytes, loads d.2) data = Ok (map snd ms).
Proof.
  intros Hl. induction 1 as [|m d ms data [_ Hd] H IH]; [done|]. cbn [mapR map]. rewrite (Hl _ _ Hd), IH. done.
Qed.
End filling.

(** ** Theorems *)

(** Encoding a non-negative integer gives bytes, and decoding at the place it was written returns it
    and the offset behind it, whatever surrounds it; a negative one would be encoded for ever. *)
Theorem varint_roundtrip (n : Z) (pre post : bytes) :
  ((0 ≤ n)%Z → Forall is_byte (encode_int n) ∧
     decode_bytes (pre ++ encode_int n ++ post) (length pre) = Ok (n, length pre + length (encode_int n))) ∧
  ((n < 0)%Z → ∀ fuel, length (encode_loop fuel n) = fuel).
Proof.
  split; intros Hn; [split; [by apply encode_int_bytes|by apply decode_encoded]|].
  intros fuel. by apply encode_negative.
Qed.

(** C24. Whatever messages a buffer was filled with, one with the header and the rest appended, reading it
    back returns the channel id, the buffer id and the messages in order. *)
Theorem buffer_roundtrip {Msg} (dumps : Msg → res bytes) (loads : bytes → res Msg)
    (channel_id : list ascii) (buffer_id : Z) (buffer_size : nat) (m : Z * Msg) (ms : list (Z * Msg)) (b : bytes) :
  (∀ m b, dumps m = Ok b → loads b = Ok m) → trimmed channel_id → (0 ≤ buffer_id)%Z →
  Forall (λ m : Z * Msg, 0 ≤ m.1)%Z (m :: ms) → fill dumps channel_id buffer_id buffer_size m ms = Ok b →
  get_channel_id b = channel_id ∧ get_buffer_id b = Ok buffer_id ∧ deser loads b = Ok (map snd (m :: ms)).
Proof.
  intros Hl Ht Hid [Hm Hms]%Forall_cons E. unfold fill in E.
  destruct (serialize_msg dumps channel_id buffer_id m.2 m.1 buffer_size true) as [b0|] eqn:E0; [|done].
  cbn [mbind res_bind] in E. unfold serialize_msg in E0. destruct (dumps m.2) as [d|] eqn:Ed; [|done].
  cbn [mbind res_bind] in E0. apply serialize_of in E0 as [Hb0 _]; [|done|done].
  destruct (fill_from dumps _ _ _ _ _ _ _ Hms Hb0 E) as (data & Hb & Hall). split_and!.
  - by eapply channel_id_of.
  - by eapply buffer_id_of.
  - unfold deser. rewrite (payload_of _ _ _ _ Hb). cbn [mbind res_bind].
    rewrite (decoded dumps loads (m :: ms)); [done|done|]. by constructor.
Qed.

(** The size check of [append_msg_bytes] forgets that the payload size itself may need one more byte:
    a message that just fits makes the buffer one byte longer than the buffer size. *)
Theorem append_exceeds_buffer_size (channel_id : list ascii) (buffer_id : Z) (ms : list (Z * bytes)) (b : bytes)
    (msg_id : Z) (data : bytes) (buffer_size : nat) :
  buffer_of channel_id buffer_id ms b → (0 ≤ msg_id)%Z →
  length (frames ms) < 128 → 128 ≤ length (frames ms) + length (msg_frame msg_id data) → length data < 1000 →
  length (encode_int msg_id) ≤ 4 →
  length b + length (msg_frame msg_id data) = buffer_size →
  ∃ b', append_msg_bytes b (msg_frame msg_id data) buffer_size = Ok b' ∧ length b' = S buffer_size.
Proof.
  intros Hb Hm H1 H2 H3 H4 Hs. destruct (append_of _ _ _ _ Hb msg_id data buffer_size Hm) as (b' & E & Hb'); [lia|].
  exists b'. split; [done|]. destruct (buffer_parts _ _ _ _ Hb) as (c & Hc & _ & -> & _).
  destruct (buffer_parts _ _ _ _ Hb') as (c' & Hc' & _ & -> & _). rewrite frames_app, frames_one in *.
  rewrite !length_app in *. rewrite (encode_int_small (Z.of_nat (length (frames ms)))) in * by lia.
  set (n := (Z.of_nat (length (frames ms) + length (msg_frame msg_id data)))).
  assert (length (msg_frame msg_id data) ≤ 1010).
  { unfold msg_frame. rewrite !length_app. destruct (Z_lt_dec (Z.of_nat (length data)) 128) as [Hd|Hd].
    - rewrite (encode_int_small (Z.of_nat (length data))) by lia. cbn [length]. lia.
    - rewrite (encode_int_big (Z.of_nat (length data))), (encode_int_small (_ / 128)%Z); [cbn [length]; lia| |lia].
      split; [apply Z.div_pos; lia|]. apply Z.div_lt_upper_bound; lia. }
  assert (length (encode_int n) = 2) as ->.
  { rewrite encode_int_big by lia. rewrite encode_int_small; [done|].
    split; [apply Z.div_pos; lia|]. apply Z.div_lt_upper_bound; lia. }
  cbn [length] in *. lia.
Qed.

(** ** Witnesses *)

(** Messages that are byte strings already. *)
Definition raw_dumps (m : bytes) : res bytes := Ok m.
Definition raw_loads (b : bytes) : res bytes := Ok b.
Definition ex_channel : list ascii := ["1"; "_"; "0"; "-"; "2"; "_"; "1"]%char.

Lemma varint_roundtrip_witness :
  Forall is_byte (encode_int 300) ∧ decode_bytes ([7] ++ encode_int 300 ++ [9])%Z 1 = Ok (300%Z, 3).
Proof. exact (proj1 (varint_roundtrip 300 [7]%Z [9]%Z) ltac:(lia)). Defined.

Definition ex_buffer : bytes :=
  match fill raw_dumps ex_channel 5 64 (0, [1; 2])%Z [(1, [3])]%Z with Ok b => b | Raise _ => [] end.

Lemma buffer_roundtrip_witness :
  get_channel_id ex_buffer = ex_channel ∧ get_buffer_id ex_buffer = Ok 5%Z ∧
  deser raw_loads ex_buffer = Ok [[1; 2]; [3]]%Z.
Proof.
  apply (buffer_roundtrip raw_dumps raw_loads ex_channel 5 64 (0, [1; 2])%Z [(1, [3])]%Z).
  - intros m b [= <-]. done.
  - split; intros c [= <-]; reflexivity.
  - lia.
  - repeat constructor; cbn; lia.
  - vm_compute. reflexivity.
Defined.

Definition ex_small_buffer : bytes :=
  match fill raw_dumps ex_channel 0 200 (0%Z, replicate 100 0%Z) [] with Ok b => b | Raise _ => [] end.

Lemma append_exceeds_buffer_size_witness :
  ∃ b', append_msg_bytes ex_small_buffer (msg_frame 1 (replicate 24 0%Z)) 146 = Ok b' ∧ length b' = 147.
Proof.
  apply (append_exceeds_buffer_size ex_channel 0 [(0%Z, replicate 100 0%Z)]).
  - apply (serialize_of ex_channel 0 (replicate 100 0%Z) 0 200); [lia|lia|vm_compute; reflexivity].
  - lia.
  - vm_compute. lia.
  - vm_compute. lia.
  - vm_compute. lia.
  - vm_compute. lia.
  - vm_compute. reflexivity.
Defined.
