(* ===== verification/Buffers.v ===== *)
(** * Buffer memory and buffer queues
    ([volga/streaming/runtime/network_deprecated/buffer/buffer_memory_tracker.py],
     [buffering_policy.py], [buffer_queues.py])

    [BufferQueues] packs the messages of a channel into numbered buffers, hands
    them out for sending one after the other and drops them when they were
    acknowledged.  What it needs of the wire format is a type class; the
    serializer of [Codec.v] is an instance. *)

From S2P Require Import Prelude PyDict Codec.
From Stdlib Require Import Ascii.

(** ** [BufferMemoryTracker] *)

(** The shared dictionary of remaining capacities and the lock around it.  The dictionary of the code lives in a shared
    memory block of 1024 bytes; here it has no such limit. *)
Record Tracker := mkTracker {
  _capacity_per_in_channel : Z;
  _capacity_per_out : Z;
  _shared_dict : dict string Z;
  t_locked : bool;
}.
Definition new_tracker (cap_in cap_out : Z) : Tracker := mkTracker cap_in cap_out [] false.

Definition set_remaining (key : string) (n : Z) (t : Tracker) : Tracker :=
  mkTracker (_capacity_per_in_channel t) (_capacity_per_out t) (dset (_shared_dict t) key n) (t_locked t).
Definition set_locked (b : bool) (t : Tracker) : Tracker :=
  mkTracker (_capacity_per_in_channel t) (_capacity_per_out t) (_shared_dict t) b.

Definition t_acquire : M Tracker () := λ t,
  if t_locked t then (Raise Blocked, t) else (Ok (), set_locked true t).

(** What is left for [key]; a key that was never used has its full capacity. *)
Definition remaining_of (key : string) (_in : bool) (t : Tracker) : Z :=
  match dget (_shared_dict t) key with
  | Some v => v
  | None => if _in then _capacity_per_in_channel t else _capacity_per_out t
  end.

Definition try_acquire (key : string) (_in : bool) : M Tracker bool :=
  t_acquire ≫= λ _, (λ t,
  let remaining := remaining_of key _in t in
  let res := bool_decide (1 ≤ remaining)%Z in
  let t := if res then set_remaining key (remaining - 1) t else t in
  (Ok res, set_locked false t)) : M Tracker bool.

(** The exception leaves with the lock held. *)
Definition release (key : string) : M Tracker () :=
  t_acquire ≫= λ _, (λ t,
  match dget (_shared_dict t) key with
  | None => (Raise (RuntimeError "Releasing non-existing key"), t)
  | Some remaining => (Ok (), set_locked false (set_remaining key (remaining + 1) t))
  end) : M Tracker ().

(** ** The wire format, as the queues and the protocol use it *)

Class BufferFormat (Buf Payload Msg : Type) := {
  bf_new : list ascii → Z → Msg → Z → nat → res Buf;            (* [serialize_msg(with_header=True)] *)
  bf_frame : Msg → Z → res Payload;                             (* [serialize_msg(with_header=False)] *)
  bf_append : Buf → Payload → nat → res Buf;                    (* [append_msg_bytes] *)
  bf_len : Buf → nat;
  bf_plen : Payload → nat;
  bf_id : Buf → res Z;                                          (* [get_buffer_id] *)
  bf_deser : Buf → res (list Msg);                              (* [deser] *)
}.

(** The laws: [bf_of c i ms b] says that [b] is the buffer of channel [c] with id [i] and the numbered
    messages [ms]. *)
Class BufferFormatOk {Buf Payload Msg} (BF : BufferFormat Buf Payload Msg) := {
  bf_of : list ascii → Z → list (Z * Msg) → Buf → Prop;
  bf_of_new c i m n size b : (0 ≤ i)%Z → (0 ≤ n)%Z → bf_new c i m n size = Ok b → bf_of c i [(n, m)] b;
  bf_of_append c i ms b m n size p b' : (0 ≤ n)%Z →
    bf_of c i ms b → bf_frame m n = Ok p → bf_append b p size = Ok b' → bf_of c i (ms ++ [(n, m)]) b';
  bf_append_fits c i ms b m n size p : (0 ≤ n)%Z →
    bf_of c i ms b → bf_frame m n = Ok p → bf_len b + bf_plen p ≤ size → is_ok (bf_append b p size) = true;
  bf_of_id c i ms b : bf_of c i ms b → bf_id b = Ok i;
  bf_of_deser c i ms b : bf_of c i ms b → bf_deser b = Ok (map snd ms);
}.

(** ** [BufferQueues] *)

Inductive BufferingPolicy := BufferPerMessagePolicy | PeriodicPartialFlushPolicy (flush_period_s : Z).
#[global] Instance BufferingPolicy_eq_dec : EqDecision BufferingPolicy.
Proof. solve_decision. Defined.

Section queues.
Context {Buf Payload Msg : Type} `{BF : BufferFormat Buf Payload Msg}.

(** The entries of one channel in the dictionaries of [BufferQueues]. *)
Record chan := mkChan {
  _msg_id_seq : Z;
  _buffer_id_seq : Z;
  _buffer_queue : list Buf;
  _last_update_ts : option Z;
  _schedule_index : Z;
  _should_cut_buffer : bool;
  _pops : dict Z bool;
}.
Definition new_chan : chan := mkChan 0 0 [] None 0 false [].

(** [self._buffer_size], [self._buffering_policy], and whether there is a memory tracker. *)
Context (buffer_size : nat) (policy : BufferingPolicy) (channel_id : list ascii).

Definition channel_key : string := String.string_of_list_ascii channel_id.

Definition is_per_message (p : BufferingPolicy) : bool :=
  match p with BufferPerMessagePolicy => true | PeriodicPartialFlushPolicy _ => false end.

(** The state: the channel and the memory tracker, if there is one. *)
Abbreviation qstate := (chan * option Tracker)%type.

Definition on_tracker {A} (none : A) (m : M Tracker A) : M qstate A := λ s,
  match s.2 with
  | None => (Ok none, s)
  | Some t => let '(r, t') := m t in (r, (s.1, Some t'))
  end.

Definition needs_new_buffer (c : chan) (payload : Payload) : bool :=
  match last (_buffer_queue c) with
  | None => true
  | Some b => is_per_message policy || bool_decide (Z.of_nat buffer_size - Z.of_nat (bf_len b) < Z.of_nat (bf_plen payload))%Z
  end.

(** [append_msg] at time [now]. *)
Definition append_to_last (payload : Payload) (now : Z) : M qstate (option (Z * Z)) := λ s,
  let '(c, t) := s in
  match last (_buffer_queue c) with
  | None => (Raise IndexError, s)
  | Some last_buffer =>
      match bf_append last_buffer payload buffer_size with
      | Raise e => (Raise e, s)
      | Ok updated =>
          (Ok (Some (_msg_id_seq c, _buffer_id_seq c)),
           (mkChan (_msg_id_seq c + 1) (_buffer_id_seq c) (removelast (_buffer_queue c) ++ [updated]) (Some now)
              (_schedule_index c) (_should_cut_buffer c) (_pops c), t))
      end
  end.

Definition append_new (message : Msg) (now : Z) : M qstate (option (Z * Z)) := λ s,
  let '(c, t) := s in
  match bf_new channel_id (_buffer_id_seq c) message (_msg_id_seq c) buffer_size with
  | Raise e => (Raise e, s)
  | Ok b =>
      (Ok (Some (_msg_id_seq c, _buffer_id_seq c)),
       (mkChan (_msg_id_seq c + 1) (_buffer_id_seq c + 1) (_buffer_queue c ++ [b]) (Some now)
          (_schedule_index c) false (_pops c), t))
  end.

Definition append_msg (message : Msg) (now : Z) : M qstate (option (Z * Z)) := λ s,
  match bf_frame message (_msg_id_seq s.1) with
  | Raise e => (Raise e, s)
  | Ok payload =>
      if negb (needs_new_buffer s.1 payload) && negb (_should_cut_buffer s.1) then append_to_last payload now s
      else
        (on_tracker true (try_acquire channel_key true) ≫= λ has_mem : bool,
         if has_mem then append_new message now else mret None) s
  end.

(** [schedule_next] at time [now] *)
Definition scheduled (cut : bool) : M qstate (option Buf) := λ s,
  let '(c, t) := s in
  match py_index (_buffer_queue c) (_schedule_index c) with
  | Raise e => (Raise e, s)
  | Ok b =>
      (Ok (Some b), (mkChan (_msg_id_seq c) (_buffer_id_seq c) (_buffer_queue c) (_last_update_ts c)
                       (_schedule_index c + 1) (cut || _should_cut_buffer c) (_pops c), t))
  end.

Definition schedule_next (now : Z) : M qstate (option Buf) := λ s,
  let c := s.1 in
  let num_schedulable := (Z.of_nat (length (_buffer_queue c)) - _schedule_index c)%Z in
  if decide (num_schedulable < 0)%Z then (Raise (RuntimeError "schedule index can not be > queue length"), s)
  else if decide (num_schedulable = 0)%Z then (Ok None, s)
  else match policy with
       | PeriodicPartialFlushPolicy flush_period_s =>
           if decide (num_schedulable = 1)%Z then
             match _last_update_ts c with
             | None => (Raise TypeError, s)
             | Some ts => if decide (flush_period_s ≤ now - ts)%Z then scheduled true s else (Ok None, s)
             end
           else scheduled false s
       | BufferPerMessagePolicy => scheduled false s
       end.

(** [pop]: the loop removes acknowledged buffers from the head of the queue; the queue bounds its
    rounds. *)
Definition drop_head (b : Buf) (q : list Buf) (bid : Z) : M qstate () := λ s,
  let '(c, t) := s in
  let c := mkChan (_msg_id_seq c) (_buffer_id_seq c) q (_last_update_ts c)
             (_schedule_index c - 1) (_should_cut_buffer c) (_pops c) in
  if decide (_schedule_index c < 0)%Z then (Raise (RuntimeError "schedule index can not be < 1"), (c, t))
  else
    (on_tracker () (release channel_key) ≫= λ _,
     modS (λ s : qstate, (mkChan (_msg_id_seq s.1) (_buffer_id_seq s.1) (_buffer_queue s.1) (_last_update_ts s.1)
                            (_schedule_index s.1) (_should_cut_buffer s.1) (ddel (_pops s.1) bid), s.2))) (c, t).

Fixpoint pop_loop (fuel : nat) : M qstate () :=
  match fuel with
  | O => mret ()
  | S fuel' => λ s,
      match _buffer_queue s.1 with
      | [] => (Ok (), s)
      | b :: q =>
          match bf_id b with
          | Raise e => (Raise e, s)
          | Ok bid => if dmem bid (_pops s.1) then (drop_head b q bid ≫= λ _, pop_loop fuel') s else (Ok (), s)
          end
      end
  end.

Definition pop (buffer_id : Z) : M qstate () := λ s,
  let c := s.1 in
  let c := mkChan (_msg_id_seq c) (_buffer_id_seq c) (_buffer_queue c) (_last_update_ts c)
             (_schedule_index c) (_should_cut_buffer c) (dset (_pops c) buffer_id true) in
  if decide (_buffer_queue c = []) then (Raise (RuntimeError "Can not pop empty queue"), (c, s.2))
  else pop_loop (length (_buffer_queue c)) (c, s.2).
End queues.

Arguments chan : clear implicits.

(** ** The serializer as an instance *)

Section codec_instance.
Context {Msg : Type} (dumps : Msg → res bytes) (loads : bytes → res Msg).

#[global] Instance codec_format : BufferFormat bytes bytes Msg := {
  bf_new c i m n size := serialize_msg dumps c i m n size true;
  bf_frame m n := serialize_msg dumps [] 0 m n 0 false;
  bf_append := append_msg_bytes;
  bf_len b := length b;
  bf_plen p := length p;
  bf_id := get_buffer_id;
  bf_deser := deser loads;
}.

(** The JSON library decodes what it encoded. *)
Definition json_ok : Prop := ∀ m b, dumps m = Ok b → loads b = Ok m.

Lemma frame_inv m n p : bf_frame m n = Ok p → ∃ d, dumps m = Ok d ∧ p = msg_frame n d.
Proof.
  cbn. unfold serialize_msg. destruct (dumps m) as [d|]; [|done]. cbn [mbind res_bind serialize_msg_bytes].
  intros <-%Ok_inj. by exists d.
Qed.

Definition codec_format_ok (Hjson : json_ok) : BufferFormatOk codec_format.
Proof.
  refine {| bf_of c i ms b := ∃ data, buffer_of c i data b ∧
              Forall2 (λ (m : Z * Msg) d, d.1 = m.1 ∧ dumps m.2 = Ok d.2) ms data |}.
  - intros c i m n size b Hi Hn E. cbn in E. unfold serialize_msg in E. destruct (dumps m) as [d|] eqn:Ed; [|done].
    apply serialize_of in E as [Hb _]; [|done|done]. exists [(n, d)]. split; [done|]. by repeat constructor.
  - intros c i ms b m n size p b' Hn (data & Hb & Hall) Ep E. apply frame_inv in Ep as (d & Ed & ->).
    change (append_msg_bytes b (msg_frame n d) size = Ok b') in E.
    assert (length b + length (msg_frame n d) ≤ size) as Hs.
    { unfold append_msg_bytes in E. by case_decide; [|lia]. }
    destruct (append_of _ _ _ _ Hb n d size Hn Hs) as (b2 & E2 & Hb2). rewrite E2 in E. apply Ok_inj in E as <-.
    exists (data ++ [(n, d)]). split; [done|]. apply Forall2_app; [done|]. by repeat constructor.
  - intros c i ms b m n size p Hn (data & Hb & _) Ep Hs. apply frame_inv in Ep as (d & Ed & ->).
    change (is_ok (append_msg_bytes b (msg_frame n d) size) = true). cbn [bf_len bf_plen codec_format] in Hs.
    by destruct (append_of _ _ _ _ Hb n d size Hn Hs) as (b2 & -> & _).
  - intros c i ms b (data & Hb & _). by eapply buffer_id_of.
  - intros c i ms b (data & Hb & Hall). change (deser loads b = Ok (map snd ms)). unfold deser. rewrite (payload_of _ _ _ _ Hb). cbn [mbind res_bind].
    by apply (decoded dumps loads).
Defined.
End codec_instance.

(** ** What the queues keep *)

Section queue_lemmas.
Context {Buf Payload Msg : Type} `{BF : BufferFormat Buf Payload Msg} `{!BufferFormatOk BF}.
Context (buffer_size : nat) (policy : BufferingPolicy) (ch : list ascii).
Local Abbreviation key := (channel_key ch).
Local Abbreviation group := (list (Z * Msg)).

(** Buffers created so far, by their messages; the queue holds those not dropped yet. *)
Definition base (G : list group) (c : chan Buf) : Z := (Z.of_nat (length G) - Z.of_nat (length (_buffer_queue c)))%Z.
(** The next buffer to schedule. *)
Definition next_id (G : list group) (c : chan Buf) : Z := (base G c + _schedule_index c)%Z.

Definition group_at (G : list group) (i : Z) : option group := G !! Z.to_nat i.

Record chan_core (G : list group) (c : chan Buf) : Prop := {
  ci_buffer_seq : _buffer_id_seq c = Z.of_nat (length G);
  ci_msg_seq : _msg_id_seq c = Z.of_nat (length (concat G));
  ci_base : (0 ≤ base G c)%Z;
  ci_queue : ∀ j b, _buffer_queue c !! j = Some b →
    ∃ ms, group_at G (base G c + Z.of_nat j) = Some ms ∧ bf_of ch (base G c + Z.of_nat j) ms b;
  ci_index : (0 ≤ _schedule_index c ≤ Z.of_nat (length (_buffer_queue c)))%Z;
  ci_frozen : _schedule_index c = Z.of_nat (length (_buffer_queue c)) → _buffer_queue c ≠ [] →
    _should_cut_buffer c = true ∨ policy = BufferPerMessagePolicy;
  ci_update : _buffer_queue c ≠ [] → is_Some (_last_update_ts c);
  ci_pops_wf : dict_wf (_pops c);
  ci_pops : ∀ i, i ∈ dkeys (_pops c) → (base G c ≤ i < next_id G c)%Z;
}.

(** The oldest buffer of the queue is not acknowledged. *)
Record chan_inv (G : list group) (c : chan Buf) : Prop := {
  ci_core :> chan_core G c;
  ci_head : base G c ∉ dkeys (_pops c);
}.

(** The memory of the channel: the queue never uses more than the capacity.  (It is less when a
    message that was too big has taken memory that is never released.) *)
Record mem_ok (c : chan Buf) (t : option Tracker) : Prop := {
  mo_free : ∀ t0, t = Some t0 → t_locked t0 = false;
  mo_sum : ∀ t0, t = Some t0 → (0 ≤ remaining_of key true t0)%Z ∧
    (remaining_of key true t0 + Z.of_nat (length (_buffer_queue c)) ≤ _capacity_per_in_channel t0)%Z;
  mo_key : ∀ t0, t = Some t0 → _buffer_queue c ≠ [] → is_Some (dget (_shared_dict t0) key);
}.

Lemma new_chan_inv : chan_inv [] new_chan.
Proof.
  split; [split|]; unfold base, next_id; cbn; try done; try lia; [by constructor| |apply not_elem_of_nil].
  intros i Hi. by apply elem_of_nil in Hi.
Qed.

Lemma group_at_app G g i ms : group_at G i = Some ms → group_at (G ++ g) i = Some ms.
Proof. unfold group_at. apply lookup_app_l_Some. Qed.

(** [try_acquire] and [release] on a free tracker. *)
Lemma try_acquire_run t k _in : t_locked t = false →
  ∃ t', try_acquire k _in t = (Ok (bool_decide (1 ≤ remaining_of k _in t)%Z), t') ∧ t_locked t' = false ∧
    ((1 ≤ remaining_of k _in t)%Z → dget (_shared_dict t') k = Some (remaining_of k _in t - 1)%Z) ∧
    (¬ (1 ≤ remaining_of k _in t)%Z → t' = t) ∧
    _capacity_per_in_channel t' = _capacity_per_in_channel t ∧ _capacity_per_out t' = _capacity_per_out t.
Proof.
  intros Hl. unfold try_acquire, t_acquire, mbind, M_bind. rewrite Hl.
  assert (∀ t, t_locked t = false → set_locked false (set_locked true t) = t) as Hset.
  { intros [] H; cbn in *. by rewrite <- H. }
  assert (remaining_of k _in (set_locked true t) = remaining_of k _in t) as Hr by done. rewrite Hr.
  case_bool_decide as Hd; eexists; (split; [reflexivity|]).
  - split_and!; [done| |done|done|done]. intros _. cbn. apply dget_dset_eq.
  - rewrite Hset by done. by split_and!.
Qed.

Lemma release_run t k v : t_locked t = false → dget (_shared_dict t) k = Some v →
  ∃ t', release k t = (Ok (), t') ∧ t_locked t' = false ∧ dget (_shared_dict t') k = Some (v + 1)%Z ∧
    _capacity_per_in_channel t' = _capacity_per_in_channel t ∧ _capacity_per_out t' = _capacity_per_out t.
Proof.
  intros Hl Hv. unfold release, t_acquire, mbind, M_bind. rewrite Hl. cbn [_shared_dict set_locked]. rewrite Hv.
  eexists. split; [reflexivity|]. split_and!; [done| |done..]. cbn. apply dget_dset_eq.
Qed.

(** A message was added behind all others, and no scheduled buffer has changed. *)
Record grows (G : list group) (c : chan Buf) (m : Msg) (G' : list group) (c' : chan Buf) : Prop := {
  gr_concat : concat G' = concat G ++ [(_msg_id_seq c, m)];
  gr_base : base G' c' = base G c;
  gr_next : next_id G' c' = next_id G c;
  gr_frozen : ∀ i, (0 ≤ i < next_id G c)%Z → group_at G' i = group_at G i;
  gr_pops : _pops c' = _pops c;
}.

Lemma list_snoc {A} (l : list A) x : last l = Some x → l = removelast l ++ [x].
Proof.
  intros H. apply last_Some in H as [l' ->]. by rewrite removelast_last.
Qed.

(** The last buffer of the queue is the last one created. *)
Lemma last_buffer G c b :
  chan_inv G c → last (_buffer_queue c) = Some b →
  ∃ q0 G0 g, _buffer_queue c = q0 ++ [b] ∧ G = G0 ++ [g] ∧ length G0 = length G - 1 ∧
    (base G c + Z.of_nat (length q0))%Z = Z.of_nat (length G - 1) ∧
    bf_of ch (Z.of_nat (length G - 1)) g b ∧ length (_buffer_queue c) = S (length q0).
Proof.
  intros Hc El. pose proof (list_snoc _ _ El) as Eq. set (q0 := removelast (_buffer_queue c)) in *.
  pose proof (ci_base _ _ Hc) as Hb0. unfold base in Hb0.
  assert (length (_buffer_queue c) = S (length q0)) as Elen by (rewrite Eq, length_app; cbn; lia).
  destruct (ci_queue _ _ Hc (length q0) b) as (g & Eg & Hof).
  { rewrite Eq, lookup_app_r, Nat.sub_diag; [done|lia]. }
  assert (Hlast : (base G c + Z.of_nat (length q0))%Z = Z.of_nat (length G - 1)) by (unfold base; lia).
  rewrite Hlast in *. unfold group_at in Eg. rewrite Nat2Z.id in Eg.
  exists q0, (take (length G - 1) G), g. split_and!; [done| |rewrite length_take; lia|done..].
  rewrite <- (take_drop (length G - 1) G) at 1. f_equal.
  rewrite (drop_S G g (length G - 1)) by done. rewrite drop_ge by lia. done.
Qed.

(** The groups of the queue when its last buffer is replaced. *)
Lemma replace_last_groups G c q0 b b' G0 g g' :
  chan_inv G c → _buffer_queue c = q0 ++ [b] → G = G0 ++ [g] → length G0 = length G - 1 →
  (base G c + Z.of_nat (length q0))%Z = Z.of_nat (length G - 1) → bf_of ch (Z.of_nat (length G - 1)) g' b' →
  ∀ j x, (q0 ++ [b']) !! j = Some x →
    ∃ ms, group_at (G0 ++ [g']) (base G c + Z.of_nat j) = Some ms ∧ bf_of ch (base G c + Z.of_nat j) ms x.
Proof.
  intros Hc Eq EG HG0 Hlast Hof' j x Hj. pose proof (ci_base _ _ Hc) as Hb0. unfold base in Hb0.
  destruct (decide (j = length q0)) as [->|Hne].
  - rewrite lookup_app_r, Nat.sub_diag in Hj by lia. injection Hj as <-. rewrite Hlast. unfold group_at.
    rewrite Nat2Z.id. exists g'. split; [|done]. by rewrite lookup_app_r, HG0, Nat.sub_diag by lia.
  - assert (j < length q0) by (apply lookup_lt_Some in Hj; rewrite length_app in Hj; cbn in Hj; lia).
    rewrite lookup_app_l in Hj by lia. destruct (ci_queue _ _ Hc j x) as (ms & Ems & Hx).
    { rewrite Eq. by apply lookup_app_l_Some. }
    exists ms. split; [|done]. rewrite <- Ems. unfold group_at, base in *. rewrite EG in *.
    rewrite !lookup_app_l; [done|..]; rewrite ?length_app in *; cbn [length] in *; lia.
Qed.

Lemma append_to_last_ok G c t m payload now :
  chan_inv G c → mem_ok c t → bf_frame m (_msg_id_seq c) = Ok payload →
  needs_new_buffer buffer_size policy c payload = false → _should_cut_buffer c = false →
  ∃ r G' c', append_to_last buffer_size payload now (c, t) = (Ok (Some r), (c', t)) ∧
    chan_inv G' c' ∧ mem_ok c' t ∧ grows G c m G' c'.
Proof.
  intros Hc Ht Ep Hn Hcut. unfold needs_new_buffer in Hn. unfold append_to_last.
  destruct (last (_buffer_queue c)) as [b|] eqn:El; [|done].
  apply orb_false_iff in Hn as [Hp Hfit]. apply bool_decide_eq_false in Hfit.
  destruct (last_buffer G c b Hc El) as (q0 & G0 & g & Eq & EG & HG0 & Hlast & Hof & Elen).
  rewrite Eq, removelast_last.
  assert (0 ≤ _msg_id_seq c)%Z as Hseq by (rewrite (ci_msg_seq _ _ Hc); lia).
  pose proof (ci_base _ _ Hc) as Hb0. pose proof (ci_index _ _ Hc) as Hidx. unfold base in Hb0.
  pose proof (bf_append_fits ch _ g b m (_msg_id_seq c) buffer_size payload Hseq Hof Ep ltac:(lia)) as Hok.
  destruct (bf_append b payload buffer_size) as [b'|] eqn:Eb; [|done].
  pose proof (bf_of_append ch _ g b m (_msg_id_seq c) buffer_size payload b' Hseq Hof Ep Eb) as Hof'.
  assert (_schedule_index c < Z.of_nat (length (_buffer_queue c)))%Z as Hlt.
  { destruct (decide (_schedule_index c = Z.of_nat (length (_buffer_queue c)))) as [E|]; [|lia].
    destruct (ci_frozen _ _ Hc E) as [?|Ep']; [by rewrite Eq; destruct q0|congruence|]. by rewrite Ep' in Hp. }
  set (G' := G0 ++ [g ++ [(_msg_id_seq c, m)]]).
  assert (length G' = length G) as HG' by (unfold G'; rewrite EG, !length_app; cbn; lia).
  assert (length (q0 ++ [b']) = length (_buffer_queue c)) as Hq' by (rewrite Eq, !length_app; cbn; lia).
  eexists _, G', _. split; [reflexivity|].
  assert (∀ i, (0 ≤ i < next_id G c)%Z → group_at G' i = group_at G i) as Hfr.
  { intros i Hi. unfold next_id, base in Hi. unfold group_at, G'. rewrite EG. rewrite !lookup_app_l by lia. done. }
  assert (base G' (mkChan (_msg_id_seq c + 1) (_buffer_id_seq c) (q0 ++ [b']) (Some now)
            (_schedule_index c) (_should_cut_buffer c) (_pops c)) = base G c) as Eb'.
  { unfold base. cbn [_buffer_queue]. by rewrite HG', Hq'. }
  assert (concat G' = concat G ++ [(_msg_id_seq c, m)]) as Econc.
  { unfold G'. rewrite EG, !concat_app. cbn [concat]. by rewrite !app_nil_r, <- app_assoc. }
  split_and!.
  - split; [split|]; cbn [_buffer_id_seq _msg_id_seq _buffer_queue _schedule_index _should_cut_buffer _last_update_ts _pops].
    + by rewrite HG', (ci_buffer_seq _ _ Hc).
    + rewrite Econc, length_app, (ci_msg_seq _ _ Hc). cbn [length]. lia.
    + rewrite Eb'. apply (ci_base _ _ Hc).
    + rewrite Eb'. by eapply replace_last_groups.
    + rewrite Hq'. apply (ci_index _ _ Hc).
    + rewrite Hq'. lia.
    + done.
    + apply (ci_pops_wf _ _ Hc).
    + intros i Hi. unfold next_id. rewrite Eb'. by apply (ci_pops _ _ Hc).
    + rewrite Eb'. apply (ci_head _ _ Hc).
  - destruct Ht as [T1 T2 T3]. split; cbn [_buffer_queue].
    + done.
    + intros t0 Et. rewrite Hq'. by apply T2.
    + intros t0 Et _. apply T3; [done|]. rewrite Eq. by destruct q0.
  - split; [done|done|unfold next_id; by rewrite Eb'|done|done].
Qed.

Lemma append_new_ok G c t m now :
  chan_inv G c →
  match append_new buffer_size ch m now (c, t) with
  | (Ok None, _) => False
  | (Ok (Some _), (c', t')) => ∃ G', chan_inv G' c' ∧ grows G c m G' c' ∧ t' = t ∧
      length (_buffer_queue c') = S (length (_buffer_queue c))
  | (Raise _, (c', t')) => c' = c ∧ t' = t
  end.
Proof.
  intros Hc. unfold append_new. destruct (bf_new ch _ m _ buffer_size) as [b|] eqn:Eb; [|done].
  apply bf_of_new in Eb; [|rewrite (ci_buffer_seq _ _ Hc); lia|rewrite (ci_msg_seq _ _ Hc); lia].
  pose proof (ci_base _ _ Hc) as Hb0. pose proof (ci_index _ _ Hc) as Hidx.
  exists (G ++ [[(_msg_id_seq c, m)]]). set (c' := mkChan _ _ _ _ _ _ _).
  assert (base (G ++ [[(_msg_id_seq c, m)]]) c' = base G c) as Ebase.
  { unfold base. cbn. rewrite !length_app. cbn. lia. }
  split_and!; [| |done|cbn; rewrite length_app; cbn; lia].
  - split; [split|]; cbn [c' _buffer_id_seq _msg_id_seq _buffer_queue _schedule_index _should_cut_buffer _last_update_ts _pops].
    + rewrite length_app, (ci_buffer_seq _ _ Hc). cbn [length]. lia.
    + rewrite concat_app, length_app, (ci_msg_seq _ _ Hc). cbn. lia.
    + by rewrite Ebase.
    + intros j x Hj. rewrite Ebase. destruct (decide (j = length (_buffer_queue c))) as [->|Hne].
      * rewrite lookup_app_r, Nat.sub_diag in Hj by lia. injection Hj as <-. rewrite (ci_buffer_seq _ _ Hc) in Eb.
        assert (base G c + Z.of_nat (length (_buffer_queue c)) = Z.of_nat (length G))%Z as -> by (unfold base; lia).
        eexists. split; [|exact Eb]. unfold group_at. by rewrite Nat2Z.id, lookup_app_r, Nat.sub_diag by lia.
      * assert (j < length (_buffer_queue c)) by (apply lookup_lt_Some in Hj; rewrite length_app in Hj; cbn in Hj; lia).
        rewrite lookup_app_l in Hj by lia. destruct (ci_queue _ _ Hc j x Hj) as (ms & Ems & Hx).
        exists ms. split; [|done]. by apply group_at_app.
    + rewrite length_app. cbn [length]. lia.
    + rewrite length_app. cbn [length]. lia.
    + done.
    + apply (ci_pops_wf _ _ Hc).
    + intros i Hi. unfold next_id. rewrite Ebase. by apply (ci_pops _ _ Hc).
    + rewrite Ebase. apply (ci_head _ _ Hc).
  - split; [|done|unfold next_id; by rewrite Ebase| |done].
    + rewrite concat_app. by cbn.
    + intros i Hi. unfold group_at. apply lookup_app_l. unfold next_id, base in Hi. lia.
Qed.

(** What [append_msg] does: the message joins the open buffer, gets a new one, is refused for lack of
    memory, or is too big for a buffer. *)
Lemma append_msg_ok G c t m now :
  chan_inv G c → mem_ok c t →
  match append_msg buffer_size policy ch m now (c, t) with
  | (Ok None, (c', t')) => c' = c ∧ mem_ok c t'
  | (Ok (Some _), (c', t')) => ∃ G', chan_inv G' c' ∧ mem_ok c' t' ∧ grows G c m G' c'
  | (Raise _, (c', t')) => c' = c ∧ mem_ok c t'
  end.
Proof.
  intros Hc Ht. unfold append_msg. cbn [fst].
  destruct (bf_frame m (_msg_id_seq c)) as [p|] eqn:Ep; [|by split].
  destruct (negb (needs_new_buffer buffer_size policy c p) && negb (_should_cut_buffer c)) eqn:En.
  { apply andb_true_iff in En as [H1%negb_true_iff H2%negb_true_iff].
    destruct (append_to_last_ok G c t m p now Hc Ht Ep H1 H2) as (r & G' & c' & -> & H). eauto. }
  unfold mbind, M_bind, on_tracker. cbn [snd fst]. destruct t as [t|].
  - destruct (try_acquire_run t key true (mo_free _ _ Ht t eq_refl)) as (t' & -> & Hl & Hcase & Hno & Hcap & _).
    case_bool_decide as Hd.
    + pose proof (Hcase Hd) as Hget. destruct (mo_sum _ _ Ht t eq_refl) as [_ Hsum]. pose proof (append_new_ok G c (Some t') m now Hc) as Hn.
      destruct (append_new buffer_size ch m now (c, Some t')) as [[[r|]|e] [c' t'']]; [|done|].
      * destruct Hn as (G' & Hc' & Hg & -> & Hlen). exists G'. split_and!; [done| |done].
        split; intros t0 [= <-]; [done| |by rewrite Hget].
        unfold remaining_of at 1 2. rewrite Hget, Hlen, Hcap. lia.
      * destruct Hn as [-> ->]. split; [done|]. split; intros t0 [= <-]; [done| |by rewrite Hget].
        unfold remaining_of at 1 2. rewrite Hget, Hcap. lia.
    + rewrite (Hno Hd). cbn. done.
  - pose proof (append_new_ok G c None m now Hc) as Hn.
    destruct (append_new buffer_size ch m now (c, None)) as [[[r|]|e] [c' t'']]; [|done|].
    + destruct Hn as (G' & Hc' & Hg & -> & Hlen). exists G'. by split_and!.
    + destruct Hn as [-> ->]. by split.
Qed.

Lemma scheduled_ok G c t cut :
  chan_inv G c → (_schedule_index c < Z.of_nat (length (_buffer_queue c)))%Z →
  (cut = true ∨ policy = BufferPerMessagePolicy ∨ _schedule_index c + 1 < Z.of_nat (length (_buffer_queue c)))%Z →
  ∃ b c', scheduled cut (c, t) = (Ok (Some b), (c', t)) ∧ chan_inv G c' ∧
    _buffer_queue c' = _buffer_queue c ∧ _pops c' = _pops c ∧ next_id G c' = (next_id G c + 1)%Z ∧
    ∃ ms, group_at G (next_id G c) = Some ms ∧ bf_of ch (next_id G c) ms b.
Proof.
  intros Hc Hlt Hcut. pose proof (ci_index _ _ Hc) as Hidx.
  destruct (lookup_lt_is_Some_2 (_buffer_queue c) (Z.to_nat (_schedule_index c))) as [b Hb]; [lia|].
  unfold scheduled, py_index. rewrite bool_decide_eq_true_2 by lia. rewrite Hb. cbn [from_option_exn].
  destruct (ci_queue _ _ Hc _ _ Hb) as (ms & Ems & Hof). rewrite Z2Nat.id in Ems, Hof by lia.
  fold (next_id G c) in Ems, Hof. eexists b, _. split; [reflexivity|]. split_and!; [|done|done|unfold next_id; cbn; unfold base; cbn; lia|eauto].
  destruct Hc as [[C1 C2 C3 C4 C5 C6 C7 C8 C9] C10]. split; [split|]; cbn; try done.
  - lia.
  - intros E _. destruct Hcut as [->|[?|?]]; [by left|by right|lia].
  - intros i Hi. specialize (C9 i Hi). unfold next_id, base in *. cbn. lia.
Qed.

Lemma schedule_next_ok G c t now :
  chan_inv G c →
  match schedule_next policy now (c, t) with
  | (Ok None, s) => s = (c, t)
  | (Ok (Some b), (c', t')) => t' = t ∧ chan_inv G c' ∧
      _buffer_queue c' = _buffer_queue c ∧ _pops c' = _pops c ∧ next_id G c' = (next_id G c + 1)%Z ∧
      ∃ ms, group_at G (next_id G c) = Some ms ∧ bf_of ch (next_id G c) ms b
  | (Raise _, _) => False
  end.
Proof.
  intros Hc. pose proof (ci_index _ _ Hc) as Hidx. unfold schedule_next. cbn [fst].
  rewrite decide_False by lia. case_decide as H0; [done|].
  destruct policy as [|period] eqn:Ep.
  - destruct (scheduled_ok G c t false Hc) as (b & c' & -> & H); [lia|by right; left|]. done.
  - case_decide as H1.
    + destruct (ci_update _ _ Hc) as [ts ->]; [by destruct (_buffer_queue c); [cbn in H1; lia|]|].
      case_decide; [|done]. destruct (scheduled_ok G c t true Hc) as (b & c' & -> & H'); [lia|by left|]. done.
    + destruct (scheduled_ok G c t false Hc) as (b & c' & -> & H'); [lia|by right; right; lia|]. done.
Qed.

(** Buffers that were acknowledged: dropped from the queue, or waiting behind an older one. *)
Definition acked (G : list group) (c : chan Buf) (i : Z) : Prop :=
  (0 ≤ i < base G c)%Z ∨ i ∈ dkeys (_pops c).

Lemma drop_head_ok G c t b q :
  chan_core G c → mem_ok c t → _buffer_queue c = b :: q → base G c ∈ dkeys (_pops c) →
  ∃ c' t', drop_head ch b q (base G c) (c, t) = (Ok (), (c', t')) ∧ chan_core G c' ∧ mem_ok c' t' ∧
    next_id G c' = next_id G c ∧ _buffer_queue c' = q ∧ (∀ i, acked G c' i ↔ acked G c i).
Proof.
  intros Hc Ht Eq Hin. pose proof (ci_pops _ _ Hc _ Hin) as Hr. pose proof (ci_index _ _ Hc) as Hidx.
  rewrite Eq in Hidx. cbn [length] in Hidx.
  assert (1 ≤ _schedule_index c)%Z as Hs by (unfold next_id in Hr; lia).
  unfold drop_head. cbn [_schedule_index]. rewrite decide_False by lia. unfold mbind, M_bind, on_tracker. cbn [snd fst].
  set (c1 := mkChan _ _ q _ _ _ (_pops c)).
  assert (∃ t', (match t with
     | Some t0 => let '(r, t') := release key t0 in (r, (c1, Some t'))
     | None => (Ok (), (c1, t)) end) = (Ok (), (c1, t')) ∧ mem_ok c1 t') as (t' & -> & Ht').
  { destruct t as [t0|]; [|by exists None].
    destruct Ht as [T1 T2 T3]. specialize (T1 t0 eq_refl). specialize (T2 t0 eq_refl). specialize (T3 t0 eq_refl).
    rewrite Eq in T2, T3. destruct T3 as [v Hv]; [done|].
    destruct (release_run t0 key v T1 Hv) as (t' & -> & Hl & Hv' & Hcap & _). exists (Some t'). split; [done|].
    unfold remaining_of in T2. rewrite Hv in T2.
    split; intros t2 [= <-]; cbn; [done| |by rewrite Hv'].
    unfold remaining_of. rewrite Hv', Hcap. cbn [length] in T2. lia. }
  unfold modS. cbn [fst snd]. eexists _, t'. split; [reflexivity|].
  set (c2 := mkChan _ _ _ _ _ _ _).
  assert (base G c2 = base G c + 1)%Z as Eb by (unfold base; cbn; rewrite Eq; cbn [length]; lia).
  assert (next_id G c2 = next_id G c) as En by (unfold next_id; rewrite Eb; cbn; lia).
  destruct Hc as [C1 C2 C3 C4 C5 C6 C7 C8 C9]. split_and!; [|destruct Ht' as [T1 T2 T3]; by split|done|done|].
  - split; [done|done|lia| |cbn; lia| | |cbn; auto with volga|].
    + intros j x Hj. cbn in Hj. rewrite Eb. destruct (C4 (S j) x) as (ms & ? & ?); [by rewrite Eq|].
      replace (base G c + 1 + Z.of_nat j)%Z with (base G c + Z.of_nat (S j))%Z by lia. eauto.
    + cbn. intros E Hq. apply C6; [rewrite Eq; cbn [length]; lia|by rewrite Eq].
    + cbn. intros Hq. apply C7. by rewrite Eq.
    + intros i Hi. cbn in Hi. apply elem_dkeys_ddel in Hi as [Hi Hne]; [|done]. specialize (C9 i Hi). rewrite Eb, En. lia.
  - intros i. unfold acked. rewrite Eb. cbn [c2 _pops]. rewrite elem_dkeys_ddel by done.
    destruct (decide (i = base G c)) as [->|Hne]; [|split; intros [?|?]; tauto || (left; lia)].
    split; [by right|]. intros _. left. lia.
Qed.

Lemma pop_loop_ok G fuel : ∀ c t,
  chan_core G c → mem_ok c t → length (_buffer_queue c) ≤ fuel →
  ∃ c' t', pop_loop ch fuel (c, t) = (Ok (), (c', t')) ∧ chan_inv G c' ∧ mem_ok c' t' ∧
    next_id G c' = next_id G c ∧ (∀ i, acked G c' i ↔ acked G c i).
Proof.
  induction fuel as [|fuel IH]; intros c t Hc Ht Hf.
  - exists c, t. split_and!; [done| |done..]. split; [done|]. intros Hin. apply (ci_pops _ _ Hc) in Hin.
    pose proof (ci_index _ _ Hc). unfold next_id in Hin. lia.
  - cbn [pop_loop fst]. destruct (_buffer_queue c) as [|b q] eqn:Eq.
    + exists c, t. split_and!; [done| |done..]. split; [done|]. intros Hin. apply (ci_pops _ _ Hc) in Hin.
      pose proof (ci_index _ _ Hc) as Hi. unfold next_id in Hin. rewrite Eq in Hi. cbn in Hi. lia.
    + destruct (ci_queue _ _ Hc 0 b) as (ms & _ & Hof); [by rewrite Eq|]. rewrite Z.add_0_r in Hof.
      rewrite (bf_of_id _ _ _ _ Hof). destruct (dmem (base G c) (_pops c)) eqn:Ed.
      * apply dmem_elem in Ed. unfold mbind, M_bind.
        destruct (drop_head_ok G c t b q Hc Ht Eq Ed) as (c1 & t1 & -> & Hc1 & Ht1 & En & Eq1 & Ha).
        destruct (IH c1 t1 Hc1 Ht1) as (c' & t' & -> & Hc' & Ht' & En' & Ha').
        { rewrite Eq1. cbn [length] in Hf. lia. }
        exists c', t'. split_and!; [done..|congruence|]. intros i. by rewrite Ha', Ha.
      * exists c, t. split_and!; [done| |done..]. split; [done|]. by apply dmem_false.
Qed.

(** [pop] records the acknowledgement and drops what is acknowledged at the head. *)
Lemma pop_ok G c t i :
  chan_inv G c → mem_ok c t → (base G c ≤ i < next_id G c)%Z → i ∉ dkeys (_pops c) →
  ∃ c' t', pop ch i (c, t) = (Ok (), (c', t')) ∧ chan_inv G c' ∧ mem_ok c' t' ∧
    next_id G c' = next_id G c ∧ (∀ j, acked G c' j ↔ acked G c j ∨ j = i).
Proof.
  intros [Hc _] Ht Hi Hn. pose proof (ci_index _ _ Hc) as Hidx. unfold pop. cbn [fst snd].
  set (c1 := mkChan _ _ _ _ _ _ (dset (_pops c) i true)).
  assert (∀ j, j ∈ dkeys (dset (_pops c) i true) ↔ j ∈ dkeys (_pops c) ∨ j = i) as Hk.
  { intros j. rewrite dkeys_dset, (proj2 (dmem_false _ _) Hn). set_solver. }
  assert (_buffer_queue c ≠ []) as Hq by (intros E; rewrite E in Hidx; cbn in Hidx; unfold next_id in Hi; lia).
  rewrite decide_False by done.
  destruct (pop_loop_ok G (length (_buffer_queue c)) c1 t) as (c' & t' & E & Hc' & Ht' & En & Ha).
  - destruct Hc as [C1 C2 C3 C4 C5 C6 C7 C8 C9]. split; cbn; try done; [auto with volga|].
    intros j [Hj| ->]%Hk; [by apply C9|done].
  - destruct Ht as [T1 T2 T3]. by split.
  - done.
  - exists c', t'. split_and!; [done..|]. intros j. rewrite Ha. unfold acked. cbn [c1 _pops].
    change (base G c1) with (base G c). rewrite Hk. tauto.
Qed.
End queue_lemmas.
