(* ===== verification/Reliable.v ===== *)
(** * The acknowledged transfer of buffers
    ([volga/streaming/runtime/network_deprecated/transfer/local/data_writer.py],
     [data_reader.py])

    The writer sends the buffers of its queues and keeps them in flight until
    they are acknowledged; the reader puts them in order by their ids.  A call
    of [send] or [rcv] works on one channel: the writer's state is that of one
    channel, the reader's has an entry per channel and the shared output queue.
    What [send_no_block] does with a message, and what arrives when, is up to
    the network: it may lose, repeat and reorder.  The metrics and statistics
    counters are left out; they raise only for a name with the key delimiter of
    [Metrics.v] in it. *)

From S2P Require Import Prelude PyDict Codec Buffers.
From Stdlib Require Import Ascii.

Definition IN_FLIGHT_LIMIT_PER_CHANNEL : nat := 1000.
Definition IN_FLIGHT_TIMEOUT_S : Z := 5.

Section transfer.
Context {Buf Payload Msg : Type} `{BF : BufferFormat Buf Payload Msg}.

(** ** [DataWriter], one channel *)

Record Writer := mkWriter {
  w_chan : chan Buf;
  w_tracker : option Tracker;
  _in_flight : dict Z (Z * Buf);
}.

Section writer.
Context (buffer_size : nat) (policy : BufferingPolicy) (channel_id : list ascii).

Definition on_queues {A} (m : M (chan Buf * option Tracker) A) : M Writer A := λ w,
  let '(r, (c, t)) := m (w_chan w, w_tracker w) in (r, mkWriter c t (_in_flight w)).
Definition set_in_flight (i : Z) (tb : Z * Buf) : M Writer () :=
  modS (λ w, mkWriter (w_chan w) (w_tracker w) (dset (_in_flight w) i tb)).
Definition del_in_flight (i : Z) : M Writer () :=
  modS (λ w, mkWriter (w_chan w) (w_tracker w) (ddel (_in_flight w) i)).

(** The retries of [_write_message]; [times] are the readings of the clock, one per round. *)
Fixpoint retry (message : Msg) (t timeout : Z) (times : list Z) : M Writer bool :=
  match times with
  | [] => mret false
  | now :: times' =>
      if decide (timeout < now - t)%Z then mret false
      else on_queues (append_msg buffer_size policy channel_id message now) ≫= λ r,
           match r with Some _ => mret true | None => retry message t timeout times' end
  end.

(** [_write_message] *)
Definition _write_message (running block : bool) (message : Msg) (timeout now : Z) (times : list Z)
    : M Writer bool :=
  if running then
    on_queues (append_msg buffer_size policy channel_id message now) ≫= λ r,
    match r with
    | Some _ => mret true
    | None => if block then retry message now timeout times else mret false
    end
  else raise (RuntimeError "DataWriter did not start").

(** [send] at time [t]; [now] is [time.time()] in [schedule_next], [t2] the second reading of the clock.
    The result is the buffer handed to the socket. *)
Definition timed_out (t : Z) : dict Z (Z * Buf) → option (Z * Buf) :=
  fix find (d : dict Z (Z * Buf)) :=
    match d with
    | [] => None
    | (i, (ts, b)) :: d' => if decide (IN_FLIGHT_TIMEOUT_S < t - ts)%Z then Some (i, b) else find d'
    end.

Definition send_new (now t2 : Z) : M Writer (option Buf) :=
  on_queues (schedule_next policy now) ≫= λ r,
  match r with
  | None => mret None
  | Some buffer =>
      liftR (bf_id buffer) ≫= λ buffer_id,
      getS ≫= λ w,
      if dmem buffer_id (_in_flight w) then raise (RuntimeError "duplicate buffer_id scheduled")
      else set_in_flight buffer_id (t2, buffer) ≫= λ _, mret (Some buffer)
  end.

Definition writer_send (t now t2 : Z) : M Writer (option Buf) :=
  getS ≫= λ w,
  match timed_out t (_in_flight w) with
  | Some (i, buffer) => set_in_flight i (t, buffer) ≫= λ _, mret (Some buffer)
  | None => if decide (IN_FLIGHT_LIMIT_PER_CHANNEL < length (_in_flight w)) then mret None
            else send_new now t2
  end.

(** [rcv]: a batch of acknowledgements *)
Definition rcv_ack (buffer_id : Z) : M Writer () :=
  getS ≫= λ w,
  match dget (_in_flight w) buffer_id with
  | None => mret ()
  | Some (ts, buffer) =>
      liftR (bf_id buffer) ≫= λ i,
      if decide (buffer_id ≠ i) then raise (RuntimeError "buffer_id missmatch")
      else del_in_flight buffer_id ≫= λ _, on_queues (pop channel_id buffer_id)
  end.
Definition writer_rcv (acks : list Z) : M Writer () := for_each acks rcv_ack.
End writer.

(** ** [DataReader] *)

Record rchan := mkRChan {
  _watermark : Z;
  _out_of_order : dict Z Buf;
  _acks_queue : list Z;
}.
Definition new_rchan : rchan := mkRChan (-1) [] [].

Record Reader := mkReader {
  r_chans : dict string rchan;
  _output_queue : list Buf;
  r_tracker : Tracker;
}.

Section reader.
Context (name : string).

Definition on_rtracker {A} (m : M Tracker A) : M Reader A := λ r,
  let '(x, t) := m (r_tracker r) in (x, mkReader (r_chans r) (_output_queue r) t).
Definition get_rchan (ch : string) : M Reader rchan := λ r, (dgetitem (r_chans r) ch, r).
Definition set_rchan (ch : string) (c : rchan) : M Reader () :=
  modS (λ r, mkReader (dset (r_chans r) ch c) (_output_queue r) (r_tracker r)).
Definition put_output (b : Buf) : M Reader () :=
  modS (λ r, mkReader (r_chans r) (_output_queue r ++ [b]) (r_tracker r)).

Definition add_ack (ch : string) (i : Z) : M Reader () :=
  get_rchan ch ≫= λ c, set_rchan ch (mkRChan (_watermark c) (_out_of_order c) (_acks_queue c ++ [i])).

(** The loop that puts buffers in order; every round takes another buffer of [out_of_order], whose
    size bounds the rounds.  The result is [next_wm] after the loop and the buffers put out. *)
Fixpoint drain (fuel : nat) (ch : string) (buffer_id next_wm : Z) : M Reader (Z * list Buf) :=
  match fuel with
  | O => mret (next_wm, [])
  | S fuel' =>
      get_rchan ch ≫= λ c,
      match dget (_out_of_order c) next_wm with
      | None => mret (next_wm, [])
      | Some b =>
          on_rtracker (try_acquire name false) ≫= λ succ : bool,
          if succ then
            put_output b ≫= λ _, add_ack ch buffer_id ≫= λ _,
            drain fuel' ch buffer_id (next_wm + 1) ≫= λ r, mret (r.1, b :: r.2)
          else mret (next_wm, [])
      end
  end.

Definition has_memory : M Reader bool :=
  on_rtracker (try_acquire name false) ≫= λ has_mem : bool,
  if has_mem then on_rtracker (release name) ≫= λ _, mret true else mret false.

(** The part of [rcv] after a buffer was read from the socket; the result is what it put out. *)
Definition rcv_buffer (ch : string) (buffer : Buf) : M Reader (list Buf) :=
  liftR (bf_id buffer) ≫= λ buffer_id,
  get_rchan ch ≫= λ c,
  if decide (buffer_id ≤ _watermark c)%Z then add_ack ch buffer_id ≫= λ _, mret []
  else if dmem buffer_id (_out_of_order c) then add_ack ch buffer_id ≫= λ _, mret []
  else
    set_rchan ch (mkRChan (_watermark c) (dset (_out_of_order c) buffer_id buffer) (_acks_queue c)) ≫= λ _,
    drain (S (length (_out_of_order c))) ch buffer_id (_watermark c + 1) ≫= λ r,
    get_rchan ch ≫= λ c',
    let to_del := seqZ (_watermark c + 1) (r.1 - (_watermark c + 1)) in
    set_rchan ch (mkRChan (r.1 - 1) (foldl ddel (_out_of_order c') to_del) (_acks_queue c')) ≫= λ _,
    mret r.2.

(** [rcv]; [incoming] is what the socket would give. *)
Definition reader_rcv (ch : string) (incoming : option Buf) : M Reader (list Buf) :=
  has_memory ≫= λ has_mem,
  get_rchan ch ≫= λ c,
  if (bool_decide (_out_of_order c = []) || dmem (_watermark c + 1)%Z (_out_of_order c)) && negb has_mem then mret []
  else match incoming with
       | None => mret []
       | Some buffer => rcv_buffer ch buffer
       end.

(** [send]: the batch of acknowledgements handed to the socket; when it was not taken the queue is as
    before. *)
Definition reader_send (ack_batch_size : nat) (ch : string) (sent : bool) : M Reader (option (list Z)) :=
  get_rchan ch ≫= λ c,
  if decide (length (_acks_queue c) < ack_batch_size) then mret None
  else if sent then set_rchan ch (mkRChan (_watermark c) (_out_of_order c) []) ≫= λ _, mret (Some (_acks_queue c))
       else mret None.

Definition read_message : M Reader (list Msg) := λ r,
  match _output_queue r with
  | [] => (Ok [], r)
  | buffer :: q =>
      (on_rtracker (release name) ≫= λ _, liftR (bf_deser buffer)) (mkReader (r_chans r) q (r_tracker r))
  end.
End reader.

(** ** A channel with its two ends and the network *)

(** [s_data] and [s_acks] are the messages ever handed to the network; each may arrive any number of
    times, in any order.  [s_accepted] and [s_out] record the messages [_write_message] accepted and the
    buffers of this channel the reader has put out. *)
Record sys := mkSys {
  s_writer : Writer;
  s_reader : Reader;
  s_data : list Buf;
  s_acks : list (list Z);
  s_accepted : list Msg;
  s_out : list Buf;
}.

Inductive event :=
| EWrite (message : Msg) (now : Z)
| ESend (t now t2 : Z)
| EDeliver (k : option nat)
| EAckSend (sent : bool)
| EAckDeliver (k : nat)
| ERead
| EOther (ch : string) (incoming : option Buf).

Context (buffer_size : nat) (policy : BufferingPolicy) (channel_id : list ascii) (name : string)
  (ack_batch_size : nat).
Definition chkey : string := channel_key channel_id.

Definition set_writer (w : Writer) (s : sys) : sys :=
  mkSys w (s_reader s) (s_data s) (s_acks s) (s_accepted s) (s_out s).
Definition set_reader (r : Reader) (s : sys) : sys :=
  mkSys (s_writer s) r (s_data s) (s_acks s) (s_accepted s) (s_out s).
Definition accept (m : Msg) (s : sys) : sys :=
  mkSys (s_writer s) (s_reader s) (s_data s) (s_acks s) (s_accepted s ++ [m]) (s_out s).
Definition transmit (o : option Buf) (s : sys) : sys :=
  mkSys (s_writer s) (s_reader s) (s_data s ++ option_list o) (s_acks s) (s_accepted s) (s_out s).
Definition transmit_acks (o : option (list Z)) (s : sys) : sys :=
  mkSys (s_writer s) (s_reader s) (s_data s) (s_acks s ++ option_list o) (s_accepted s) (s_out s).
Definition put_out (bs : list Buf) (s : sys) : sys :=
  mkSys (s_writer s) (s_reader s) (s_data s) (s_acks s) (s_accepted s) (s_out s ++ bs).

Definition sys_step (e : event) : M sys () := λ s,
  match e with
  | EWrite m now =>
      let '(r, w) := on_queues (append_msg buffer_size policy channel_id m now) (s_writer s) in
      let s := set_writer w s in
      match r with
      | Ok (Some _) => (Ok (), accept m s)
      | Ok None => (Ok (), s)
      | Raise x => (Raise x, s)
      end
  | ESend t now t2 =>
      let '(r, w) := writer_send policy t now t2 (s_writer s) in
      let s := set_writer w s in
      match r with Ok o => (Ok (), transmit o s) | Raise x => (Raise x, s) end
  | EDeliver k =>
      let '(r, rd) := reader_rcv name chkey (k ≫= λ k, s_data s !! k) (s_reader s) in
      let s := set_reader rd s in
      match r with Ok bs => (Ok (), put_out bs s) | Raise x => (Raise x, s) end
  | EAckSend sent =>
      let '(r, rd) := reader_send ack_batch_size chkey sent (s_reader s) in
      let s := set_reader rd s in
      match r with Ok o => (Ok (), transmit_acks o s) | Raise x => (Raise x, s) end
  | EAckDeliver k =>
      match s_acks s !! k with
      | None => (Ok (), s)
      | Some acks => let '(r, w) := writer_rcv channel_id acks (s_writer s) in (r, set_writer w s)
      end
  | ERead =>
      let '(r, rd) := read_message name (s_reader s) in
      (match r with Ok _ => Ok () | Raise x => Raise x end, set_reader rd s)
  | EOther ch incoming =>
      if decide (ch = chkey) then (Ok (), s) else
      let '(r, rd) := reader_rcv name ch incoming (s_reader s) in
      (match r with Ok _ => Ok () | Raise x => Raise x end, set_reader rd s)
  end.

(** A run goes on after an exception, as the threads do that catch it. *)
Definition run (es : list event) (s : sys) : sys := foldl (λ s e, (sys_step e s).2) s es.

Definition new_sys (w_tracker : option Tracker) (r_tracker : Tracker) (channels : list string) : sys :=
  mkSys (mkWriter new_chan w_tracker []) (mkReader (dict_of (map (λ ch, (ch, new_rchan)) channels)) [] r_tracker)
    [] [] [] [].
End transfer.

Arguments Writer : clear implicits.
Arguments rchan : clear implicits.
Arguments Reader : clear implicits.
Arguments sys : clear implicits.
Arguments event : clear implicits.

(** ** Invariant *)

Section reliable.
Context {Buf Payload Msg : Type} `{BF : BufferFormat Buf Payload Msg} `{!BufferFormatOk BF}.
Context (buffer_size : nat) (policy : BufferingPolicy) (ch : list ascii) (name : string) (ack_batch_size : nat).
Local Abbreviation key := (chkey ch).
Local Abbreviation group := (list (Z * Msg)).

(** [b] is buffer [i] of the channel, one of the first [hi]. *)
Definition is_buf (G : list group) (hi i : Z) (b : Buf) : Prop :=
  (0 ≤ i < hi)%Z ∧ ∃ ms, group_at G i = Some ms ∧ bf_of ch i ms b.

(** The reader has the buffer: in order, or still out of order. *)
Definition received (c : rchan Buf) (i : Z) : Prop := (0 ≤ i ≤ _watermark c)%Z ∨ i ∈ dkeys (_out_of_order c).

Record reader_ok (G : list group) (hi : Z) (c : rchan Buf) (out : list Buf) : Prop := {
  ro_wf : dict_wf (_out_of_order c);
  ro_ooo : ∀ i b, dget (_out_of_order c) i = Some b → (_watermark c < i)%Z ∧ is_buf G hi i b;
  ro_length : (Z.of_nat (length out) = _watermark c + 1)%Z;
  ro_out : ∀ j b, out !! j = Some b → is_buf G hi (Z.of_nat j) b;
}.

Definition tracker_ok (r : Reader Buf) : Prop :=
  t_locked (r_tracker r) = false ∧
  (_output_queue r ≠ [] → is_Some (dget (_shared_dict (r_tracker r)) name)).

Record writer_ok (G : list group) (w : Writer Buf) : Prop := {
  wo_chan : chan_inv policy ch G (w_chan w);
  wo_mem : mem_ok ch (w_chan w) (w_tracker w);
  wo_flight_wf : dict_wf (_in_flight w);
  wo_flight : ∀ i, i ∈ dkeys (_in_flight w) ↔ (0 ≤ i < next_id G (w_chan w))%Z ∧ ¬ acked G (w_chan w) i;
  wo_buf : ∀ i ts b, dget (_in_flight w) i = Some (ts, b) → is_buf G (next_id G (w_chan w)) i b;
}.

Record sys_inv (G : list group) (c : rchan Buf) (s : sys Buf Msg) : Prop := {
  si_writer : writer_ok G (s_writer s);
  si_accepted : s_accepted s = map snd (concat G);
  si_data : ∀ b, b ∈ s_data s → ∃ i, is_buf G (next_id G (w_chan (s_writer s))) i b;
  si_rchan : dget (r_chans (s_reader s)) key = Some c;
  si_reader : reader_ok G (next_id G (w_chan (s_writer s))) c (s_out s);
  si_acked : ∀ i, acked G (w_chan (s_writer s)) i → received c i;
  si_acks : ∀ i, i ∈ _acks_queue c ++ concat (s_acks s) → received c i;
  si_tracker : tracker_ok (s_reader s);
}.

Lemma is_buf_mono G hi hi' i b : (hi ≤ hi')%Z → is_buf G hi i b → is_buf G hi' i b.
Proof. intros H [Hi Hm]. split; [lia|done]. Qed.

Lemma reader_ok_mono G hi hi' c out : (hi ≤ hi')%Z → reader_ok G hi c out → reader_ok G hi' c out.
Proof.
  intros H [R1 R2 R3 R4]. split; [done| |done|].
  - intros i b Hb. destruct (R2 i b Hb). split; [done|by eapply is_buf_mono].
  - intros j b Hb. eapply is_buf_mono; [done|by apply R4].
Qed.

(** A write leaves the scheduled buffers as they are. *)
Lemma is_buf_grows G (c : chan Buf) m G' c' i b :
  grows G c m G' c' → is_buf G (next_id G c) i b → is_buf G' (next_id G' c') i b.
Proof.
  intros Hg [Hi (ms & E & Hof)]. rewrite (gr_next _ _ _ _ _ Hg). split; [done|]. exists ms. split; [|done].
  by rewrite (gr_frozen _ _ _ _ _ Hg).
Qed.

Lemma acked_grows (G G' : list group) (c c' : chan Buf) m i : grows G c m G' c' → acked G' c' i ↔ acked G c i.
Proof. intros Hg. unfold acked. by rewrite (gr_base _ _ _ _ _ Hg), (gr_pops _ _ _ _ _ Hg). Qed.

Lemma write_inv G c s m now :
  sys_inv G c s → ∃ G', sys_inv G' c (sys_step buffer_size policy ch name ack_batch_size (EWrite m now) s).2 ∧
    s_out (sys_step buffer_size policy ch name ack_batch_size (EWrite m now) s).2 = s_out s.
Proof.
  intros [W A D R1 R2 K1 K2 T]. cbn [sys_step]. unfold on_queues.
  pose proof (append_msg_ok buffer_size policy ch G _ _ m now (wo_chan _ _ W) (wo_mem _ _ W)) as H.
  destruct (append_msg buffer_size policy ch m now _) as [[[r|]|x] [c' t']].
  - destruct H as (G' & Hc' & Hm' & Hg). exists G'. split; [|done]. cbn. split; cbn; [split; cbn [w_chan w_tracker _in_flight]|..].
    + done.
    + done.
    + apply (wo_flight_wf _ _ W).
    + intros i. rewrite (wo_flight _ _ W), (gr_next _ _ _ _ _ Hg), (acked_grows G G' _ _ m i Hg). done.
    + intros i ts b Hb. eapply is_buf_grows; [done|]. by eapply (wo_buf _ _ W).
    + by rewrite (gr_concat _ _ _ _ _ Hg), map_app, A.
    + intros b Hb. destruct (D b Hb) as [i ?]. exists i. by eapply is_buf_grows.
    + done.
    + destruct R2 as [Q1 Q2 Q3 Q4]. split; [done| |done|].
      * intros i b Hb. destruct (Q2 i b Hb). split; [done|]. by eapply is_buf_grows.
      * intros j b Hb. eapply is_buf_grows; [done|]. by apply Q4.
    + intros i Hi. apply K1. by apply (acked_grows G G' _ _ m i Hg).
    + done.
    + done.
  - destruct H as [-> Hm]. exists G. split; [|done]. destruct W as [W1 W2 W3 W4 W5]. by split.
  - destruct H as [-> Hm]. exists G. split; [|done]. destruct W as [W1 W2 W3 W4 W5]. by split.
Qed.

Local Abbreviation step := (sys_step buffer_size policy ch name ack_batch_size).

Lemma timed_out_Some t (d : dict Z (Z * Buf)) i b : dict_wf d → timed_out t d = Some (i, b) → ∃ ts, dget d i = Some (ts, b).
Proof.
  intros Hd E. assert (∃ ts, (i, (ts, b)) ∈ d) as [ts Hin].
  { clear Hd. induction d as [|[j [ts b']] d IH]; [done|]. cbn in E. case_decide.
    - injection E as -> ->. exists ts. by left.
    - destruct (IH E) as [ts' ?]. exists ts'. by right. }
  exists ts. by apply dget_elem_wf.
Qed.

(** [DataWriter.send] hands out a buffer that is in flight, an old or a new one, and never raises. *)
Lemma writer_send_ok G w t now t2 :
  writer_ok G w →
  ∃ o w', writer_send policy t now t2 w = (Ok o, w') ∧ writer_ok G w' ∧
    (next_id G (w_chan w) ≤ next_id G (w_chan w'))%Z ∧
    (∀ i, acked G (w_chan w') i ↔ acked G (w_chan w) i) ∧
    (∀ b, o = Some b → ∃ i, is_buf G (next_id G (w_chan w')) i b).
Proof.
  intros [W1 W2 W3 W4 W5]. unfold writer_send, getS, mbind, M_bind.
  destruct (timed_out t (_in_flight w)) as [[i b]|] eqn:Et.
  { apply timed_out_Some in Et as [ts Hts]; [|done]. unfold set_in_flight, modS, mret, M_ret.
    eexists _, _. split; [reflexivity|]. split_and!; [split; cbn [w_chan w_tracker _in_flight]|done|done|].
    - done.
    - done.
    - auto with volga.
    - intros j. rewrite dkeys_dset. unfold dmem. rewrite Hts. apply W4.
    - intros j ts' b'. rewrite dget_dset. case_decide; [|apply W5]. intros [= <- <-]. subst. by eapply W5.
    - intros b' [= <-]. exists i. by eapply W5. }
  case_decide; [by exists None, w; split_and!; [done|by split|..]|].
  unfold send_new, on_queues, mbind, M_bind.
  pose proof (schedule_next_ok policy ch G (w_chan w) (w_tracker w) now W1) as H0.
  destruct (schedule_next policy now _) as [[[b|]|x] [c' t']]; [|..|done].
  - destruct H0 as (-> & Hc' & Eq & Ep & En & (ms & Ems & Hof)).
    unfold liftR. rewrite (bf_of_id _ _ _ _ Hof). unfold getS. cbn [_in_flight w_chan w_tracker].
    set (hi := next_id G (w_chan w)) in *.
    assert (base G c' = base G (w_chan w)) as Eb by (unfold base; by rewrite Eq).
    pose proof (ci_base _ _ _ _ W1). pose proof (ci_index _ _ _ _ W1).
    assert (0 ≤ hi)%Z as Hhi by (unfold hi, next_id; lia).
    assert (∀ i, acked G c' i ↔ acked G (w_chan w) i) as Ha by (intros i; unfold acked; by rewrite Eb, Ep).
    assert (¬ acked G (w_chan w) hi) as Hna.
    { intros [?|Hp]; [unfold hi, next_id in *; lia|]. apply (ci_pops _ _ _ _ W1) in Hp. fold hi in Hp. lia. }
    assert (hi ∉ dkeys (_in_flight w)) as Hnf by (rewrite W4; fold hi; lia).
    rewrite (proj2 (dmem_false _ _) Hnf). unfold set_in_flight, modS, mret, M_ret. cbn [_in_flight w_chan w_tracker].
    eexists _, _. split; [reflexivity|]. cbn [w_chan]. split_and!; [split; cbn [w_chan w_tracker _in_flight]|lia|done|].
    + done.
    + destruct W2 as [T1 T2 T3]. split; rewrite ?Eq; done.
    + auto with volga.
    + intros i. rewrite dkeys_dset, (proj2 (dmem_false _ _) Hnf), elem_of_app, list_elem_of_singleton, W4, En, Ha.
      fold hi. destruct (decide (i = hi)) as [->|]; [split; [intros _; split; [lia|done]|by right]|].
      split; [intros [?|?]|]; [split; [lia|tauto]|done|]. intros [??]. left. split; [lia|done].
    + intros i ts b'. rewrite dget_dset. case_decide as Hd.
      * intros [= <- <-]. subst i. split; [lia|]. eauto.
      * intros Hb. eapply is_buf_mono; [|by eapply W5]. fold hi. lia.
    + intros b' [= <-]. exists hi. split; [lia|]. eauto.
  - injection H0 as -> ->. exists None. eexists. split; [reflexivity|]. cbn. split_and!; [by split|done..].
Qed.

Lemma send_inv G c s t now t2 :
  sys_inv G c s → ∃ s', step (ESend t now t2) s = (Ok (), s') ∧ sys_inv G c s' ∧ s_out s' = s_out s.
Proof.
  intros [W A D R1 R2 K1 K2 T]. cbn [sys_step].
  destruct (writer_send_ok G (s_writer s) t now t2 W) as (o & w' & -> & W' & Hn & Ha & Hb).
  eexists. split; [reflexivity|]. split; [|done]. split; cbn; [done|done| |done| | |done|done].
  - intros b [Hd|Hd]%elem_of_app.
    + destruct (D b Hd) as [i ?]. exists i. by eapply is_buf_mono.
    + destruct o as [b'|]; [|by apply elem_of_nil in Hd]. apply list_elem_of_singleton in Hd as ->. by apply Hb.
  - by eapply reader_ok_mono.
  - intros i Hi. apply K1, Ha, Hi.
Qed.

(** [DataWriter.rcv]: an acknowledgement of a buffer in flight drops it. *)
Lemma rcv_ack_ok G w i :
  writer_ok G w →
  ∃ w', rcv_ack ch i w = (Ok (), w') ∧ writer_ok G w' ∧ next_id G (w_chan w') = next_id G (w_chan w) ∧
    (∀ j, acked G (w_chan w') j → acked G (w_chan w) j ∨ j = i).
Proof.
  intros [W1 W2 W3 W4 W5]. unfold rcv_ack, getS, mbind, M_bind.
  destruct (dget (_in_flight w) i) as [[ts b]|] eqn:Ei; [|by exists w; split_and!; [|split| |left]].
  destruct (W5 _ _ _ Ei) as [Hi (ms & Ems & Hof)]. unfold liftR. rewrite (bf_of_id _ _ _ _ Hof).
  rewrite decide_False by tauto. unfold del_in_flight, modS, on_queues. cbn [w_chan w_tracker _in_flight].
  assert (i ∈ dkeys (_in_flight w)) as Hin by (apply dmem_elem; unfold dmem; by rewrite Ei).
  apply W4 in Hin as [_ Hna].
  destruct (pop_ok policy ch G (w_chan w) (w_tracker w) i W1 W2) as (c' & t' & -> & Hc' & Hm' & En & Ha).
  { split; [|lia]. destruct (decide (i < base G (w_chan w))%Z); [|lia]. destruct Hna. left. lia. }
  { intros Hp. apply Hna. by right. }
  eexists. split; [reflexivity|]. cbn [w_chan]. split_and!; [split; cbn [w_chan w_tracker _in_flight]|done|intros j; rewrite Ha; tauto].
  - done.
  - done.
  - auto with volga.
  - intros j. rewrite En, Ha. rewrite elem_dkeys_ddel, W4 by done. tauto.
  - intros j ts' b'. rewrite dget_ddel by done. case_decide; [done|]. rewrite En. apply W5.
Qed.

Lemma writer_rcv_ok G acks : ∀ w,
  writer_ok G w →
  ∃ w', writer_rcv ch acks w = (Ok (), w') ∧ writer_ok G w' ∧ next_id G (w_chan w') = next_id G (w_chan w) ∧
    (∀ j, acked G (w_chan w') j → acked G (w_chan w) j ∨ j ∈ acks).
Proof.
  induction acks as [|i acks IH]; intros w Hw; [by exists w; split_and!; [..|left]|].
  destruct (rcv_ack_ok G w i Hw) as (w1 & E1 & Hw1 & En1 & Ha1).
  destruct (IH w1 Hw1) as (w2 & E2 & Hw2 & En2 & Ha2). exists w2. split_and!; [|done|congruence|].
  - unfold writer_rcv in *. cbn [for_each]. unfold mbind, M_bind. by rewrite E1.
  - intros j Hj. apply Ha2 in Hj as [Hj|?]; [|right; by right]. apply Ha1 in Hj as [?| ->]; [by left|right; by left].
Qed.

Lemma ack_deliver_inv G c s k :
  sys_inv G c s → ∃ s', step (EAckDeliver k) s = (Ok (), s') ∧ sys_inv G c s' ∧ s_out s' = s_out s.
Proof.
  intros H. pose proof H as [W A D R1 R2 K1 K2 T]. cbn [sys_step].
  destruct (s_acks s !! k) as [acks|] eqn:Ek; [|by exists s].
  destruct (writer_rcv_ok G acks _ W) as (w' & -> & W' & En & Ha). eexists. split; [reflexivity|].
  split; [|done]. split; cbn; rewrite ?En; try done. intros i Hi. apply Ha in Hi as [?|Hin]; [by apply K1|].
  apply K2, elem_of_app. right. apply elem_of_concat. exists acks. split; [done|]. by eapply list_elem_of_lookup_2.
Qed.

(** ** The reader *)

Lemma dget_foldl_ddel (l : list Z) : ∀ (d : dict Z Buf) j,
  dict_wf d → dget (foldl ddel d l) j = if decide (j ∈ l) then None else dget d j.
Proof.
  induction l as [|i l IH]; intros d j Hd; [by rewrite decide_False by apply not_elem_of_nil|].
  cbn [foldl]. rewrite IH by auto with volga. rewrite dget_ddel by done.
  repeat case_decide; set_solver.
Qed.

Lemma foldl_ddel_wf (l : list Z) : ∀ d : dict Z Buf, dict_wf d → dict_wf (foldl ddel d l).
Proof. induction l as [|i l IH]; intros d Hd; [done|]. cbn [foldl]. apply IH. auto with volga. Qed.

Lemma acquire_reader r :
  tracker_ok r →
  ∃ res r', on_rtracker (try_acquire name false) r = (Ok res, r') ∧
    res = bool_decide (1 ≤ remaining_of name false (r_tracker r))%Z ∧
    r_chans r' = r_chans r ∧ _output_queue r' = _output_queue r ∧ tracker_ok r' ∧
    (res = true → is_Some (dget (_shared_dict (r_tracker r')) name)) ∧ (res = false → r' = r).
Proof.
  intros [Hl Hk]. destruct (try_acquire_run (r_tracker r) name false Hl) as (t' & E & Hl' & Hyes & Hno & _).
  unfold on_rtracker. rewrite E. eexists _, _. split; [reflexivity|]. split_and!; [done..| | |]; cbn.
  - split; [done|]. cbn. intros Hq. destruct (decide (1 ≤ remaining_of name false (r_tracker r))%Z) as [Hd|Hd].
    + by rewrite (Hyes Hd).
    + rewrite (Hno Hd). by apply Hk.
  - intros Hd%bool_decide_eq_true. by rewrite (Hyes Hd).
  - intros Hd%bool_decide_eq_false. rewrite (Hno Hd). by destruct r.
Qed.

Lemma has_memory_ok r :
  tracker_ok r →
  ∃ res r', has_memory name r = (Ok res, r') ∧ r_chans r' = r_chans r ∧ _output_queue r' = _output_queue r ∧ tracker_ok r'.
Proof.
  intros Hr. unfold has_memory, mbind, M_bind.
  destruct (acquire_reader r Hr) as (res & r1 & -> & _ & Ec & Eq & Hr1 & Hs & _).
  destruct res; [|by exists false, r1]. destruct (Hs eq_refl) as [v Hv].
  destruct (release_run (r_tracker r1) name v (proj1 Hr1) Hv) as (t' & E & Hl & Hv' & _).
  unfold on_rtracker. rewrite E. eexists true, _. split; [reflexivity|]. cbn. split_and!; [done..|].
  split; [done|]. cbn. by rewrite Hv'.
Qed.

(** The loop that puts buffers in order, in one step. *)
Lemma drain_ok k bid fuel : ∀ r (c : rchan Buf) next,
  tracker_ok r → dget (r_chans r) k = Some c →
  ∃ bs r', drain name fuel k bid next r = (Ok (next + Z.of_nat (length bs), bs)%Z, r') ∧
    dget (r_chans r') k = Some (mkRChan (_watermark c) (_out_of_order c) (_acks_queue c ++ replicate (length bs) bid)) ∧
    (∀ k', k' ≠ k → dget (r_chans r') k' = dget (r_chans r) k') ∧
    _output_queue r' = _output_queue r ++ bs ∧ tracker_ok r' ∧
    (∀ j b, bs !! j = Some b → dget (_out_of_order c) (next + Z.of_nat j)%Z = Some b) ∧
    (length bs = fuel ∨ dget (_out_of_order c) (next + Z.of_nat (length bs))%Z = None ∨
     (remaining_of name false (r_tracker r') < 1)%Z).
Proof.
  assert (∀ (c : rchan Buf), mkRChan (_watermark c) (_out_of_order c) (_acks_queue c ++ replicate 0 bid) = c) as Hc0.
  { intros []. cbn. by rewrite app_nil_r. }
  induction fuel as [|fuel IH]; intros r c next Hr Hc.
  - exists [], r. cbn [drain length]. rewrite Hc0, Z.add_0_r, app_nil_r. split_and!; try done. by left.
  - cbn [drain]. unfold get_rchan, mbind, M_bind, dgetitem. rewrite Hc. cbn [from_option_exn].
    destruct (dget (_out_of_order c) next) as [b|] eqn:Eb.
    2:{ exists [], r. cbn [length]. rewrite Hc0, Z.add_0_r, app_nil_r. split_and!; try done. right. by left. }
    destruct (acquire_reader r Hr) as (res & r1 & -> & Eres & Ec & Eq & Hr1 & Hs & Hn).
    destruct res.
    2:{ rewrite (Hn eq_refl). exists [], r. cbn [length]. rewrite Hc0, Z.add_0_r, app_nil_r. split_and!; try done.
        right. right. symmetry in Eres. apply bool_decide_eq_false in Eres. lia. }
    unfold put_output, add_ack, get_rchan, set_rchan, modS, mbind, M_bind, dgetitem. cbn [r_chans _output_queue r_tracker].
    rewrite Ec, Hc. cbn [from_option_exn r_chans _output_queue r_tracker].
    set (c1 := mkRChan _ _ (_acks_queue c ++ [bid])). set (r2 := mkReader _ _ _).
    destruct (IH r2 c1 (next + 1)%Z) as (bs & r' & -> & Hk & Ho & Hq & Ht & Hbs & Hend).
    { split; [apply Hr1|]. cbn. intros _. by apply Hs. }
    { cbn. apply dget_dset_eq. }
    exists (b :: bs), r'. unfold mret, M_ret. cbn [fst snd length]. split_and!.
    + by replace (next + Z.of_nat (S (length bs)))%Z with (next + 1 + Z.of_nat (length bs))%Z by lia.
    + rewrite Hk. cbn [c1 _watermark _out_of_order _acks_queue replicate]. by rewrite <- app_assoc.
    + intros k' Hne. rewrite Ho by done. cbn. by apply dget_dset_ne.
    + rewrite Hq. cbn. by rewrite Eq, <- app_assoc.
    + done.
    + intros [|j] b'; cbn [lookup list_lookup]; [intros [= <-]; by rewrite Z.add_0_r|].
      intros Hj. rewrite <- (Hbs j b' Hj). cbn. f_equal. lia.
    + destruct Hend as [->|[Hend|?]]; [by left| |by right; right]. right. left. rewrite <- Hend. cbn. f_equal. lia.
Qed.

(** As many consecutive keys as the dictionary has entries leave no room for another one. *)
Lemma consecutive_keys (d : dict Z Buf) lo :
  dict_wf d → (∀ j, j < length d → is_Some (dget d (lo + Z.of_nat j)%Z)) → dget d (lo + Z.of_nat (length d))%Z = None.
Proof.
  intros Hd Hall. destruct (dget d (lo + Z.of_nat (length d))%Z) as [b|] eqn:E; [|done]. exfalso.
  assert (seqZ lo (Z.of_nat (S (length d))) ⊆+ dkeys d) as Hsub.
  { apply NoDup_submseteq; [apply NoDup_seqZ|]. intros i [Hlo Hhi]%elem_of_seqZ. apply dmem_elem. unfold dmem.
    destruct (decide (i = lo + Z.of_nat (length d))%Z) as [->|Hne]; [by rewrite E|].
    destruct (Hall (Z.to_nat (i - lo))) as [x Hx]; [lia|]. rewrite Z2Nat.id in Hx by lia.
    replace (lo + (i - lo))%Z with i in Hx by lia. by rewrite Hx. }
  apply submseteq_length in Hsub. rewrite length_seqZ in Hsub. unfold dkeys in Hsub. rewrite length_fmap in Hsub. lia.
Qed.

(** A buffer the reader already has is only acknowledged. *)
Lemma rcv_known k r (c : rchan Buf) b i :
  dget (r_chans r) k = Some c → bf_id b = Ok i → (i ≤ _watermark c)%Z ∨ i ∈ dkeys (_out_of_order c) →
  rcv_buffer name k b r =
    (Ok [], mkReader (dset (r_chans r) k (mkRChan (_watermark c) (_out_of_order c) (_acks_queue c ++ [i])))
              (_output_queue r) (r_tracker r)).
Proof.
  intros Hc Hi Hk. unfold rcv_buffer, add_ack, get_rchan, set_rchan, modS, liftR, mbind, M_bind, dgetitem.
  rewrite Hi, Hc. cbn [from_option_exn]. case_decide as Hd; [by rewrite Hc|].
  destruct Hk as [?|Hin]; [done|]. apply dmem_elem in Hin as ->. by rewrite Hc.
Qed.

(** A new buffer is stored, and the buffers that are now in order are put out as far as the memory
    allows. *)
Lemma rcv_new k r (c : rchan Buf) b i :
  tracker_ok r → dget (r_chans r) k = Some c → dict_wf (_out_of_order c) → bf_id b = Ok i →
  (_watermark c < i)%Z → i ∉ dkeys (_out_of_order c) →
  let ooo := dset (_out_of_order c) i b in
  ∃ bs r', rcv_buffer name k b r = (Ok bs, r') ∧
    dget (r_chans r') k = Some (mkRChan (_watermark c + Z.of_nat (length bs))
      (foldl ddel ooo (seqZ (_watermark c + 1) (Z.of_nat (length bs)))) (_acks_queue c ++ replicate (length bs) i)) ∧
    (∀ k', k' ≠ k → dget (r_chans r') k' = dget (r_chans r) k') ∧
    _output_queue r' = _output_queue r ++ bs ∧ tracker_ok r' ∧
    (∀ j x, bs !! j = Some x → dget ooo (_watermark c + 1 + Z.of_nat j)%Z = Some x) ∧
    (dget ooo (_watermark c + 1 + Z.of_nat (length bs))%Z = None ∨ (remaining_of name false (r_tracker r') < 1)%Z).
Proof.
  intros Hr Hc Hwf Hi Hwm Hnew ooo. unfold rcv_buffer, get_rchan, set_rchan, modS, liftR, mbind, M_bind, dgetitem.
  rewrite Hi. cbv beta iota. rewrite Hc. cbn [from_option_exn]. rewrite decide_False by lia.
  rewrite (proj2 (dmem_false _ _) Hnew). fold ooo. set (c1 := mkRChan (_watermark c) ooo _). set (r1 := mkReader _ _ _).
  assert (length ooo = S (length (_out_of_order c))) as Hlen.
  { unfold ooo. rewrite dset_length, (proj2 (dmem_false _ _) Hnew). lia. }
  destruct (drain_ok k i (S (length (_out_of_order c))) r1 c1 (_watermark c + 1)%Z) as (bs & r2 & E & Hk & Ho & Hq & Ht & Hbs & Hend).
  { destruct Hr as [Hl Hs]. by split. }
  { cbn. apply dget_dset_eq. }
  rewrite E. cbn [fst snd]. rewrite Hk. cbn [from_option_exn _out_of_order _acks_queue _watermark c1].
  replace (_watermark c + 1 + Z.of_nat (length bs) - (_watermark c + 1))%Z with (Z.of_nat (length bs)) by lia.
  replace (_watermark c + 1 + Z.of_nat (length bs) - 1)%Z with (_watermark c + Z.of_nat (length bs))%Z by lia.
  eexists bs, _. split; [reflexivity|]. cbn [r_chans _output_queue r_tracker]. split_and!.
  - apply dget_dset_eq.
  - intros k' Hne. rewrite dget_dset_ne, Ho by done. cbn. by apply dget_dset_ne.
  - rewrite Hq. done.
  - destruct Ht as [Hl Hs]. by split.
  - done.
  - destruct Hend as [Hf|[?|?]]; [|by left|by right]. left. rewrite Hf, <- Hlen. apply consecutive_keys; [by apply dset_wf|].
    intros j Hj. rewrite Hlen, <- Hf in Hj. destruct (lookup_lt_is_Some_2 bs j Hj) as [x Hx]. exists x. by apply Hbs.
Qed.

(** The reader has one more buffer, wherever the loop has moved it. *)
Lemma received_new (c : rchan Buf) b i bs acks :
  dict_wf (_out_of_order c) → (-1 ≤ _watermark c < i)%Z → i ∉ dkeys (_out_of_order c) →
  (∀ j x, bs !! j = Some x → dget (dset (_out_of_order c) i b) (_watermark c + 1 + Z.of_nat j)%Z = Some x) →
  ∀ j, received (mkRChan (_watermark c + Z.of_nat (length bs))
         (foldl ddel (dset (_out_of_order c) i b) (seqZ (_watermark c + 1) (Z.of_nat (length bs)))) acks) j ↔
       received c j ∨ j = i.
Proof.
  intros Hwf Hwm Hi Hbs j. unfold received. cbn [_watermark _out_of_order].
  assert (∀ l, l ∈ dkeys (dset (_out_of_order c) i b) ↔ l ∈ dkeys (_out_of_order c) ∨ l = i) as Hk.
  { intros l. rewrite dkeys_dset, (proj2 (dmem_false _ _) Hi), elem_of_app, list_elem_of_singleton. done. }
  rewrite elem_dkeys_dget, dget_foldl_ddel by auto with volga. case_decide as Hd.
  - apply elem_of_seqZ in Hd. destruct (lookup_lt_is_Some_2 bs (Z.to_nat (j - (_watermark c + 1)))) as [x Hx]; [lia|].
    pose proof (Hbs _ _ Hx) as Hg. rewrite Z2Nat.id in Hg by lia.
    replace (_watermark c + 1 + (j - (_watermark c + 1)))%Z with j in Hg by lia.
    split; [|intros _; left; lia]. intros _. assert (j ∈ dkeys (dset (_out_of_order c) i b)) as Hin%Hk by by (rewrite elem_dkeys_dget, Hg).
    tauto.
  - rewrite elem_of_seqZ in Hd. rewrite <- elem_dkeys_dget, Hk. split; [intros [?|?]; [left; left; lia|tauto]|].
    intros [[?|?]|?]; [left; lia|tauto..].
Qed.

Lemma reader_new_ok G hi (c : rchan Buf) b i bs acks out :
  reader_ok G hi c out → is_buf G hi i b → (_watermark c < i)%Z → i ∉ dkeys (_out_of_order c) →
  (∀ j x, bs !! j = Some x → dget (dset (_out_of_order c) i b) (_watermark c + 1 + Z.of_nat j)%Z = Some x) →
  reader_ok G hi (mkRChan (_watermark c + Z.of_nat (length bs))
    (foldl ddel (dset (_out_of_order c) i b) (seqZ (_watermark c + 1) (Z.of_nat (length bs)))) acks) (out ++ bs).
Proof.
  intros [Q1 Q2 Q3 Q4] Hb Hwm Hi Hbs.
  assert (∀ j x, dget (dset (_out_of_order c) i b) j = Some x → (_watermark c < j)%Z ∧ is_buf G hi j x) as Hall.
  { intros j x. rewrite dget_dset. case_decide; [|apply Q2]. intros [= <-]. by subst. }
  split; cbn [_watermark _out_of_order].
  - apply foldl_ddel_wf. auto with volga.
  - intros j x. rewrite dget_foldl_ddel by auto with volga. case_decide as Hd; [done|]. intros Hx.
    rewrite elem_of_seqZ in Hd. destruct (Hall _ _ Hx). split; [lia|done].
  - rewrite length_app. lia.
  - intros j x [Hj|[Hle Hj]]%lookup_app_Some; [by apply Q4|].
    destruct (Hall _ _ (Hbs _ _ Hj)) as [_ H]. by replace (_watermark c + 1 + Z.of_nat (j - length out))%Z with (Z.of_nat j) in H by lia.
Qed.

(** [DataReader.rcv] on the channel. *)
Lemma reader_rcv_ok G hi r (c : rchan Buf) out incoming :
  tracker_ok r → dget (r_chans r) key = Some c → reader_ok G hi c out →
  (∀ b, incoming = Some b → ∃ i, is_buf G hi i b) →
  ∃ bs r' c', reader_rcv name key incoming r = (Ok bs, r') ∧ tracker_ok r' ∧ dget (r_chans r') key = Some c' ∧
    reader_ok G hi c' (out ++ bs) ∧ (∀ i, received c i → received c' i) ∧
    (∀ i, i ∈ _acks_queue c' → i ∈ _acks_queue c ∨ received c' i) ∧
    ((∀ i b, is_buf G hi i b → received c i) → bs = []).
Proof.
  intros Hr Hc Hok Hin. unfold reader_rcv, mbind, M_bind.
  destruct (has_memory_ok r Hr) as (has & r1 & -> & Ec & Eq & Hr1). unfold get_rchan, dgetitem. rewrite Ec, Hc. cbn [from_option_exn].
  assert (dget (r_chans r1) key = Some c) as Hc1 by by rewrite Ec.
  case_match.
  { exists [], r1, c. rewrite app_nil_r. split_and!; auto. }
  destruct incoming as [b|]; [|exists [], r1, c; rewrite app_nil_r; split_and!; by auto].
  destruct (Hin b eq_refl) as [i Hb]. destruct Hb as [Hi (ms & Ems & Hof)].
  pose proof (bf_of_id _ _ _ _ Hof) as Hid. assert (is_buf G hi i b) as Hb by (split; eauto).
  destruct (decide ((i ≤ _watermark c)%Z ∨ i ∈ dkeys (_out_of_order c))) as [Hd|Hd].
  - rewrite (rcv_known key r1 c b i Hc1 Hid Hd). eexists [], _, _. split; [reflexivity|]. cbn [r_chans]. rewrite dget_dset_eq, app_nil_r.
    split_and!; [destruct Hr1; by split|reflexivity|destruct Hok; by split|done| |done]. cbn [_acks_queue].
    intros j [?|Hj%list_elem_of_singleton]%elem_of_app; [by left|right]. subst j. destruct Hd; [left; cbn; lia|by right].
  - pose proof (ro_length _ _ _ _ Hok).
    destruct (rcv_new key r1 c b i Hr1 Hc1 (ro_wf _ _ _ _ Hok) Hid) as (bs & r' & E & Hk & Ho & Hq & Ht & Hbs & _); [lia|tauto|].
    pose proof (received_new c b i bs (_acks_queue c ++ replicate (length bs) i) (ro_wf _ _ _ _ Hok)) as Hrec.
    eexists bs, r', _. split_and!; [done|done|done|apply reader_new_ok; [done|done|lia|tauto|done]|..].
    + intros j Hj. apply Hrec; [lia|tauto|done|by left].
    + intros j [?|Hj]%elem_of_app; [by left|right]. apply elem_of_replicate in Hj as [-> _]. apply Hrec; [lia|tauto|done|by right].
    + intros Hall. destruct (Hall i b Hb) as [?|?]; [lia|tauto].
Qed.

Lemma deliver_inv G c s k :
  sys_inv G c s →
  ∃ s' c' bs, step (EDeliver k) s = (Ok (), s') ∧ sys_inv G c' s' ∧ s_out s' = s_out s ++ bs ∧
    (∀ i, received c i → received c' i) ∧
    ((∀ i b, is_buf G (next_id G (w_chan (s_writer s))) i b → received c i) → bs = []).
Proof.
  intros [W A D R1 R2 K1 K2 T]. cbn [sys_step].
  destruct (reader_rcv_ok G _ (s_reader s) c (s_out s) (k ≫= λ k, s_data s !! k) T R1 R2) as
    (bs & r' & c' & -> & T' & R1' & R2' & Hrec & Hack & Hnone).
  { intros b Hb. destruct k as [k|]; [|done]. apply D. by eapply list_elem_of_lookup_2. }
  eexists _, c', bs. split; [reflexivity|]. split_and!; [|done..]. split; cbn; auto.
  intros i [Hi|Hi]%elem_of_app; [|apply Hrec, K2, elem_of_app; by right].
  destruct (Hack i Hi); [|done]. apply Hrec, K2, elem_of_app. by left.
Qed.

Lemma ack_send_inv G c s sent :
  sys_inv G c s →
  ∃ s' c', step (EAckSend sent) s = (Ok (), s') ∧ sys_inv G c' s' ∧ s_out s' = s_out s ∧
    (∀ i, received c i → received c' i).
Proof.
  intros H. pose proof H as [W A D R1 R2 K1 K2 T]. cbn [sys_step].
  unfold reader_send, get_rchan, set_rchan, modS, mbind, M_bind, dgetitem. rewrite R1. cbn [from_option_exn].
  assert (∀ s', s' = transmit_acks None (set_reader (s_reader s) s) → s' = s) as Hnone.
  { intros s' ->. destruct s. cbn. unfold transmit_acks, set_reader. cbn. by rewrite app_nil_r. }
  case_decide; [|destruct sent].
  - eexists _, c. split; [reflexivity|]. by rewrite (Hnone _ eq_refl).
  - eexists _, (mkRChan (_watermark c) (_out_of_order c) []). split; [reflexivity|]. split_and!; [|done..].
    split; cbn; try done.
    + apply dget_dset_eq.
    + destruct R2. by split.
    + intros i Hi. rewrite concat_app in Hi. cbn in Hi. rewrite app_nil_r in Hi. apply K2. set_solver.
  - eexists _, c. split; [reflexivity|]. by rewrite (Hnone _ eq_refl).
Qed.

Lemma read_inv G c s : sys_inv G c s → sys_inv G c (step ERead s).2 ∧ s_out (step ERead s).2 = s_out s.
Proof.
  intros H. pose proof H as [W A D R1 R2 K1 K2 T]. cbn [sys_step]. unfold read_message.
  destruct (_output_queue (s_reader s)) as [|b q] eqn:Eq; [by split|].
  unfold on_rtracker, mbind, M_bind. cbn [r_tracker r_chans _output_queue].
  destruct T as [Tl Ts]. destruct Ts as [v Hv]; [by rewrite Eq|].
  destruct (release_run (r_tracker (s_reader s)) name v Tl Hv) as (t' & -> & Hl & Hv' & _).
  unfold liftR. cbn. split; [|done]. split; cbn; try done.
Qed.

(** What a computation on another channel keeps. *)
Definition framed {A} (m : M (Reader Buf) A) : Prop := ∀ r,
  tracker_ok r → tracker_ok (m r).2 ∧ dget (r_chans (m r).2) key = dget (r_chans r) key.

Lemma framed_bind {A B} (m : M (Reader Buf) A) (f : A → M (Reader Buf) B) :
  framed m → (∀ a, framed (f a)) → framed (m ≫= f).
Proof.
  intros Hm Hf r Hr. unfold mbind, M_bind. destruct (Hm r Hr) as [H1 H2]. destruct (m r) as [[a|e] r1]; cbn in *; [|done].
  destruct (Hf a r1 H1) as [H3 H4]. split; [done|congruence].
Qed.

Lemma framed_pure {A} (x : res A) : framed (λ r, (x, r)).
Proof. by intros r Hr. Qed.

Lemma framed_set_rchan k c : k ≠ key → framed (set_rchan k c).
Proof. intros Hk r [H1 H2]. cbn. split; [by split|]. by apply dget_dset_ne. Qed.

Lemma framed_get_rchan k : framed (get_rchan k).
Proof. by intros r Hr. Qed.

Lemma framed_drain fuel k bid next : k ≠ key → framed (drain name fuel k bid next).
Proof.
  intros Hk r Hr. destruct (dget (r_chans r) k) as [c|] eqn:Ec.
  - destruct (drain_ok k bid fuel r c next Hr Ec) as (bs & r' & -> & _ & Ho & _ & Ht & _). split; [done|]. apply Ho. congruence.
  - destruct fuel as [|fuel]; [done|]. cbn [drain]. unfold get_rchan, mbind, M_bind, dgetitem. by rewrite Ec.
Qed.

Lemma framed_reader_rcv k incoming : k ≠ key → framed (reader_rcv name k incoming).
Proof.
  intros Hk. apply framed_bind.
  { intros r Hr. destruct (has_memory_ok r Hr) as (x & r' & -> & Ec & _ & Ht). cbn. by rewrite Ec. }
  intros has. apply framed_bind; [apply framed_get_rchan|]. intros c. case_match; [apply framed_pure|].
  destruct incoming as [b|]; [|apply framed_pure].
  assert (∀ i, framed (add_ack k i)) as Hadd.
  { intros i. apply framed_bind; [apply framed_get_rchan|]. intros. by apply framed_set_rchan. }
  apply framed_bind; [apply framed_pure|]. intros i. apply framed_bind; [apply framed_get_rchan|]. intros c1.
  repeat case_match; try (apply framed_bind; [apply Hadd|intros; apply framed_pure]).
  apply framed_bind; [by apply framed_set_rchan|]. intros _. apply framed_bind; [by apply framed_drain|]. intros x.
  apply framed_bind; [apply framed_get_rchan|]. intros c2. apply framed_bind; [by apply framed_set_rchan|].
  intros _. apply framed_pure.
Qed.

Lemma other_inv G c s k incoming :
  sys_inv G c s → sys_inv G c (step (EOther k incoming) s).2 ∧ s_out (step (EOther k incoming) s).2 = s_out s.
Proof.
  intros H. pose proof H as [W A D R1 R2 K1 K2 T]. cbn [sys_step]. case_decide as Hk; [done|].
  destruct (framed_reader_rcv k incoming Hk (s_reader s) T) as [H1 H2].
  destruct (reader_rcv name k incoming (s_reader s)) as [x r']. split; [|done]. split; cbn in *; congruence || done.
Qed.

(** Every step keeps the invariant and only adds to what was put out. *)
Lemma step_inv G c s e :
  sys_inv G c s → ∃ G' c' bs, sys_inv G' c' (step e s).2 ∧ s_out (step e s).2 = s_out s ++ bs.
Proof.
  intros H. destruct e as [m now|t now t2|k|sent|k| |k inc].
  - destruct (write_inv G c s m now H) as (G' & H1 & H2). exists G', c, []. by rewrite app_nil_r.
  - destruct (send_inv G c s t now t2 H) as (s' & -> & H1 & H2). exists G, c, []. by rewrite app_nil_r.
  - destruct (deliver_inv G c s k H) as (s' & c' & bs & -> & H1 & H2 & _). by exists G, c', bs.
  - destruct (ack_send_inv G c s sent H) as (s' & c' & -> & H1 & H2 & _). exists G, c', []. by rewrite app_nil_r.
  - destruct (ack_deliver_inv G c s k H) as (s' & -> & H1 & H2). exists G, c, []. by rewrite app_nil_r.
  - destruct (read_inv G c s H) as [H1 H2]. exists G, c, []. by rewrite app_nil_r.
  - destruct (other_inv G c s k inc H) as [H1 H2]. exists G, c, []. by rewrite app_nil_r.
Qed.

Lemma run_inv es : ∀ G c s, sys_inv G c s → ∃ G' c', sys_inv G' c' (run buffer_size policy ch name ack_batch_size es s).
Proof.
  induction es as [|e es IH]; intros G c s H; [eauto|]. cbn. destruct (step_inv G c s e H) as (G' & c' & bs & H' & _).
  by eapply IH.
Qed.

(** The channel starts with both ends empty, free trackers and a reader that knows it. *)
Record start_ok (wt : option Tracker) (rt : Tracker) (channels : list string) : Prop := {
  st_writer : ∀ t, wt = Some t → t_locked t = false ∧
    (0 ≤ remaining_of (channel_key ch) true t ≤ _capacity_per_in_channel t)%Z;
  st_reader : t_locked rt = false;
  st_channel : key ∈ channels;
}.

Lemma new_sys_inv wt rt channels : start_ok wt rt channels → sys_inv [] new_rchan (new_sys wt rt channels).
Proof.
  intros [S1 S2 S3].
  split; cbn; [split; cbn|..]; try done.
  - apply new_chan_inv.
  - split; intros t Ht; destruct (S1 t Ht); cbn; [done|lia|done].
  - auto with volga.
  - intros i. split; [intros Hi; by apply elem_of_nil in Hi|]. unfold next_id, base. cbn. lia.
  - intros b Hb. by apply elem_of_nil in Hb.
  - by apply dget_dict_of_const.
  - by split; cbn; [auto with volga|..].
  - intros i [Hi|Hi]; [unfold base in Hi; cbn in Hi; lia|by apply elem_of_nil in Hi].
  - intros i Hi. by apply elem_of_nil in Hi.
Qed.

(** What was put out are the first buffers, each with its messages. *)
Lemma out_messages G c s :
  sys_inv G c s → mapR bf_deser (s_out s) = Ok (map (map snd) (take (length (s_out s)) G)) ∧ length (s_out s) ≤ length G.
Proof.
  intros [W _ _ _ [_ _ _ Hout] _ _ _]. generalize (next_id G (w_chan (s_writer s))), Hout. clear. intros hi.
  generalize (s_out s). intros out. induction out as [|b out IH] using rev_ind; intros Hout; [split; [done|cbn; lia]|].
  destruct IH as [IH1 IH2].
  { intros j x Hj. apply Hout. by apply lookup_app_l_Some. }
  destruct (Hout (length out) b) as [_ (ms & Ems & Hof)]; [by apply list_lookup_middle|].
  unfold group_at in Ems. rewrite Nat2Z.id in Ems. rewrite length_app. cbn [length]. rewrite Nat.add_1_r. split.
  - rewrite mapR_app, IH1. cbn [mapR mbind res_bind]. rewrite (bf_of_deser _ _ _ _ Hof). cbn.
    by rewrite (take_S_r _ _ _ Ems), map_app.
  - apply lookup_lt_Some in Ems. lia.
Qed.

Definition is_write (e : event Buf Msg) : bool := match e with EWrite _ _ => true | _ => false end.

(** Without writes, once the reader has every buffer, nothing more is put out. *)
Lemma quiet_step G c s e :
  sys_inv G c s → (∀ i, (0 ≤ i < Z.of_nat (length G))%Z → received c i) → is_write e = false →
  ∃ c', sys_inv G c' (step e s).2 ∧ s_out (step e s).2 = s_out s ∧ (∀ i, (0 ≤ i < Z.of_nat (length G))%Z → received c' i).
Proof.
  intros H Hall He. destruct e as [m now|t now t2|k|sent|k| |k inc]; [done|..].
  - destruct (send_inv G c s t now t2 H) as (s' & -> & H1 & H2). by exists c.
  - destruct (deliver_inv G c s k H) as (s' & c' & bs & -> & H1 & H2 & Hrec & Hnone). exists c'. split_and!; [done| |auto].
    cbn [snd]. rewrite H2, Hnone, app_nil_r; [done|]. intros i b [Hi (ms & Ems & _)].
    apply lookup_lt_Some in Ems. apply Hall. lia.
  - destruct (ack_send_inv G c s sent H) as (s' & c' & -> & H1 & H2 & H3). exists c'. split_and!; auto.
  - destruct (ack_deliver_inv G c s k H) as (s' & -> & H1 & H2). by exists c.
  - destruct (read_inv G c s H) as [H1 H2]. by exists c.
  - destruct (other_inv G c s k inc H) as [H1 H2]. by exists c.
Qed.

Lemma quiet_run es : ∀ G c s,
  sys_inv G c s → (∀ i, (0 ≤ i < Z.of_nat (length G))%Z → received c i) → forallb (negb ∘ is_write) es = true →
  s_out (run buffer_size policy ch name ack_batch_size es s) = s_out s.
Proof.
  induction es as [|e es IH]; intros G c s H Hall; [done|]. cbn. intros [He%negb_true_iff Hes]%andb_true_iff.
  destruct (quiet_step G c s e H Hall He) as (c' & H' & <- & Hall'). by eapply IH.
Qed.

(** ** [_write_message]: one message, at most one copy *)

Lemma append_writer_ok G w m now :
  writer_ok G w →
  match on_queues (append_msg buffer_size policy ch m now) w with
  | (Ok (Some _), w') => ∃ G', writer_ok G' w' ∧ map snd (concat G') = map snd (concat G) ++ [m]
  | (_, w') => writer_ok G w'
  end.
Proof.
  intros W. unfold on_queues.
  pose proof (append_msg_ok buffer_size policy ch G _ _ m now (wo_chan _ _ W) (wo_mem _ _ W)) as H.
  destruct (append_msg buffer_size policy ch m now _) as [[[r|]|x] [c' t']].
  - destruct H as (G' & Hc' & Hm' & Hg). exists G'. split; [|by rewrite (gr_concat _ _ _ _ _ Hg), map_app].
    split; cbn [w_chan w_tracker _in_flight]; [done|done|apply (wo_flight_wf _ _ W)|..].
    + intros i. rewrite (wo_flight _ _ W), (gr_next _ _ _ _ _ Hg), (acked_grows G G' _ _ m i Hg). done.
    + intros i ts b Hb. eapply is_buf_grows; [done|]. by eapply (wo_buf _ _ W).
  - destruct H as [-> Hm]. destruct W. by split.
  - destruct H as [-> Hm]. destruct W. by split.
Qed.

Lemma retry_ok m t timeout times : ∀ G w,
  writer_ok G w →
  match retry buffer_size policy ch m t timeout times w with
  | (Ok true, w') => ∃ G', writer_ok G' w' ∧ map snd (concat G') = map snd (concat G) ++ [m]
  | (_, w') => writer_ok G w'
  end.
Proof.
  induction times as [|now times IH]; intros G w W; [done|]. cbn [retry]. case_decide; [done|].
  unfold mbind, M_bind. pose proof (append_writer_ok G w m now W) as H0.
  destruct (on_queues _ w) as [[[r|]|x] w1]; [done|by apply IH|done].
Qed.

(** [_write_message] adds the message exactly once when it returns true, and not at all when it
    returns false or raises. *)
Lemma write_message_once G w running block m timeout now times :
  writer_ok G w →
  match _write_message buffer_size policy ch running block m timeout now times w with
  | (Ok true, w') => ∃ G', writer_ok G' w' ∧ map snd (concat G') = map snd (concat G) ++ [m]
  | (_, w') => writer_ok G w'
  end.
Proof.
  intros W. unfold _write_message. destruct running; [|done].
  unfold mbind, M_bind. pose proof (append_writer_ok G w m now W) as H0.
  destruct (on_queues _ w) as [[[r|]|x] w1]; [done| |done]. destruct block; [by apply retry_ok|done].
Qed.

(** ** Theorems *)

Local Abbreviation reach es wt rt channels :=
  (run buffer_size policy ch name ack_batch_size es (new_sys wt rt channels)).

(** C12. Exactly once and in order: however the network loses, repeats and reorders the buffers and the
    acknowledgements, and however the calls interleave, the buffers the reader has put out decode to a
    prefix of the messages the writer has accepted. *)
Theorem reliable_in_order (wt : option Tracker) (rt : Tracker) (channels : list string) (es : list (event Buf Msg)) :
  start_ok wt rt channels →
  ∃ msgs, mapR bf_deser (s_out (reach es wt rt channels)) = Ok msgs ∧
    concat msgs `prefix_of` s_accepted (reach es wt rt channels).
Proof.
  intros H0. destruct (run_inv es _ _ _ (new_sys_inv wt rt channels H0)) as (G & c & H). set (s := reach _ _ _ _) in *.
  destruct (out_messages G c s H) as [E Hle]. eexists. split; [done|]. rewrite (si_accepted _ _ _ H), List.concat_map.
  rewrite <- (take_drop (length (s_out s)) G) at 2. rewrite map_app, concat_app. by apply prefix_app_r.
Qed.

(** C13. No accepted message is lost: the writer's queue stays within the memory of its channel, and once
    it is empty and the reader holds nothing back, the messages put out are exactly those accepted. *)
Theorem reliable_no_loss (wt : option Tracker) (rt : Tracker) (channels : list string) (es : list (event Buf Msg)) :
  start_ok wt rt channels →
  let s := reach es wt rt channels in
  (∀ t, w_tracker (s_writer s) = Some t →
     (Z.of_nat (length (_buffer_queue (w_chan (s_writer s)))) ≤ _capacity_per_in_channel t)%Z) ∧
  (_buffer_queue (w_chan (s_writer s)) = [] →
   (∀ c, dget (r_chans (s_reader s)) key = Some c → _out_of_order c = []) →
   ∃ msgs, mapR bf_deser (s_out s) = Ok msgs ∧ concat msgs = s_accepted s).
Proof.
  intros H0 s. destruct (run_inv es _ _ _ (new_sys_inv wt rt channels H0)) as (G & c & H). fold s in H.
  destruct (out_messages G c s H) as [E Hle]. destruct H as [W A D R1 R2 K1 K2 T]. split.
  - intros t Ht. destruct (mo_sum _ _ _ (wo_mem _ _ W) t Ht). lia.
  - intros Hq Hooo. specialize (Hooo c R1). eexists. split; [done|].
    assert (length G ≤ length (s_out s)) as Hge.
    { destruct (decide (length G = 0)) as [|Hne]; [lia|]. pose proof (ro_length _ _ _ _ R2).
      destruct (K1 (Z.of_nat (length G) - 1)%Z) as [Hr|Hr]; [left; unfold base; rewrite Hq; cbn; lia|lia|].
      rewrite Hooo in Hr. by apply elem_of_nil in Hr. }
    by rewrite A, take_ge, List.concat_map.
Qed.

(** C26. The transfer itself never raises: sending, receiving, and handling acknowledgements always
    return, so that none of the internal errors (a duplicate id scheduled, a mismatch of ids, a schedule
    index out of range, a pop on an empty queue, a release of an unknown key) can happen. *)
Theorem transfer_never_raises (wt : option Tracker) (rt : Tracker) (channels : list string) (es : list (event Buf Msg))
    (t now t2 : Z) (k : option nat) (sent : bool) (n : nat) :
  start_ok wt rt channels →
  Forall (λ e, (step e (reach es wt rt channels)).1 = Ok ()) [ESend t now t2; EDeliver k; EAckSend sent; EAckDeliver n].
Proof.
  intros H0. destruct (run_inv es _ _ _ (new_sys_inv wt rt channels H0)) as (G & c & H). repeat constructor.
  - by destruct (send_inv G c _ t now t2 H) as (s' & -> & _).
  - by destruct (deliver_inv G c _ k H) as (s' & c' & bs & -> & _).
  - by destruct (ack_send_inv G c _ sent H) as (s' & c' & -> & _).
  - by destruct (ack_deliver_inv G c _ n H) as (s' & -> & _).
Qed.

(** C35. The reader puts buffers in order only when it receives one it has not seen: once it has every
    buffer of the writer, in order or not, then without further writes it never puts out another one,
    whatever memory is free and however often the held back buffers are sent again. *)
Theorem reader_holds_back (wt : option Tracker) (rt : Tracker) (channels : list string) (es es' : list (event Buf Msg))
    (c : rchan Buf) :
  start_ok wt rt channels →
  let s := reach es wt rt channels in
  dget (r_chans (s_reader s)) key = Some c →
  (∀ i, (0 ≤ i < _buffer_id_seq (w_chan (s_writer s)))%Z → received c i) →
  forallb (negb ∘ is_write) es' = true →
  s_out (run buffer_size policy ch name ack_batch_size es' s) = s_out s.
Proof.
  intros H0 s Hc Hall. destruct (run_inv es _ _ _ (new_sys_inv wt rt channels H0)) as (G & c' & H). fold s in H.
  pose proof (si_rchan _ _ _ H) as Hc'. rewrite Hc in Hc'. injection Hc' as ->. eapply quiet_run; [done|].
  intros i Hi. apply Hall. by rewrite (ci_buffer_seq _ _ _ _ (wo_chan _ _ (si_writer _ _ _ H))).
Qed.
End reliable.

(** ** Witnesses: two messages of one byte, a reader with room for one buffer *)

Module Demo.
Definition dumps (m : bytes) : res bytes := Ok m.
Definition loads (b : bytes) : res bytes := Ok b.
Definition fmt : BufferFormat bytes bytes bytes := codec_format dumps loads.
Definition chan_name : list ascii := ["c"%char].
Definition writer_tracker : option Tracker := Some (new_tracker 2 1).
Definition reader_tracker : Tracker := new_tracker 2 1.
Definition es : list (event bytes bytes) :=
  [EWrite [65%Z] 0; EWrite [66%Z] 0; ESend 0 0 0; ESend 0 0 0; EDeliver (Some 1); EDeliver (Some 0); ERead].
Definition more : list (event bytes bytes) :=
  [ESend 6 6 6; ESend 6 6 6; EDeliver (Some 3); EDeliver (Some 2); EAckSend true; EAckDeliver 0; EAckSend true; ERead; EDeliver None].
Definition go (l : list (event bytes bytes)) (s : sys bytes bytes) : sys bytes bytes :=
  run (BF := fmt) 64 BufferPerMessagePolicy chan_name "reader" 1 l s.
Definition start : sys bytes bytes := new_sys writer_tracker reader_tracker ["c"; "d"].
Definition held : rchan bytes :=
  default new_rchan (dget (r_chans (s_reader (go es start))) "c").
End Demo.

Lemma demo_json_ok : json_ok Demo.dumps Demo.loads.
Proof. by intros m b ->%Ok_inj. Qed.

Lemma demo_start_ok : start_ok Demo.chan_name Demo.writer_tracker Demo.reader_tracker ["c"; "d"].
Proof. split; [|done|by left]. intros t <-%(inj Some). by vm_compute. Qed.

Lemma reliable_in_order_witness :
  let s := Demo.go Demo.es Demo.start in
  start_ok Demo.chan_name Demo.writer_tracker Demo.reader_tracker ["c"; "d"] ∧
  (∃ msgs, mapR (deser Demo.loads) (s_out s) = Ok msgs ∧ concat msgs `prefix_of` s_accepted s) ∧
  s_accepted s = [[65%Z]; [66%Z]] ∧ mapR (deser Demo.loads) (s_out s) = Ok [[[65%Z]]].
Proof.
  split; [apply demo_start_ok|]. split; [|by vm_compute].
  apply (reliable_in_order (BF := Demo.fmt) (BufferFormatOk0 := codec_format_ok _ _ demo_json_ok) 64 BufferPerMessagePolicy
    Demo.chan_name "reader" 1 Demo.writer_tracker Demo.reader_tracker ["c"; "d"] Demo.es). apply demo_start_ok.
Defined.

(** The same two messages with the buffers delivered in order. *)
Definition demo_es_in_order : list (event bytes bytes) :=
  [EWrite [65%Z] 0; EWrite [66%Z] 0; ESend 0 0 0; ESend 0 0 0; EDeliver (Some 0); ERead; EDeliver (Some 1); EAckSend true; EAckDeliver 0].

Lemma reliable_no_loss_witness :
  let s := Demo.go demo_es_in_order Demo.start in
  _buffer_queue (w_chan (s_writer s)) = [] ∧
  (∃ msgs, mapR (deser Demo.loads) (s_out s) = Ok msgs ∧ concat msgs = s_accepted s) ∧ s_accepted s = [[65%Z]; [66%Z]].
Proof.
  intros s. split; [by vm_compute|]. split; [|by vm_compute].
  destruct (reliable_no_loss (BF := Demo.fmt) (BufferFormatOk0 := codec_format_ok _ _ demo_json_ok) 64 BufferPerMessagePolicy
    Demo.chan_name "reader" 1 Demo.writer_tracker Demo.reader_tracker ["c"; "d"] demo_es_in_order demo_start_ok) as [_ H].
  apply H; [by vm_compute|]. intros c. vm_compute. by intros <-%(inj Some).
Defined.

Lemma transfer_never_raises_witness :
  Forall (λ e, (sys_step (BF := Demo.fmt) 64 BufferPerMessagePolicy Demo.chan_name "reader" 1 e (Demo.go Demo.es Demo.start)).1 = Ok ())
    [ESend 6 6 6; EDeliver (Some 1); EAckSend true; EAckDeliver 0].
Proof.
  apply (transfer_never_raises (BF := Demo.fmt) (BufferFormatOk0 := codec_format_ok _ _ demo_json_ok) 64 BufferPerMessagePolicy
    Demo.chan_name "reader" 1 Demo.writer_tracker Demo.reader_tracker ["c"; "d"] Demo.es 6 6 6 (Some 1) true 0 demo_start_ok).
Defined.

(** Buffer 1 came first and waits behind buffer 0, for which the only memory went; then the memory is
    free, everything is acknowledged, and buffer 1 stays where it is. *)
Lemma reader_holds_back_witness :
  let s := Demo.go Demo.es Demo.start in
  let s' := Demo.go Demo.more s in
  s_accepted s' = [[65%Z]; [66%Z]] ∧ mapR (deser Demo.loads) (s_out s') = Ok [[[65%Z]]] ∧
  _buffer_queue (w_chan (s_writer s')) = [] ∧ _in_flight (s_writer s') = [] ∧
  _output_queue (s_reader s') = [] ∧ dget (_shared_dict (r_tracker (s_reader s'))) "reader" = Some 1%Z ∧
  s_out s' = s_out s.
Proof.
  do 6 (split; [by vm_compute|]).
  apply (reader_holds_back (BF := Demo.fmt) (BufferFormatOk0 := codec_format_ok _ _ demo_json_ok) 64 BufferPerMessagePolicy
    Demo.chan_name "reader" 1 Demo.writer_tracker Demo.reader_tracker ["c"; "d"] Demo.es Demo.more Demo.held demo_start_ok).
  - by vm_compute.
  - intros i Hi. change (_buffer_id_seq _) with 2%Z in Hi. assert (i = 0 ∨ i = 1)%Z as [->| ->] by lia.
    + left. by vm_compute.
    + right. apply (bool_decide_unpack _). by vm_compute.
  - by vm_compute.
Defined.
