(* ===== verification/Metrics.v ===== *)
(** * Metrics
    ([volga/streaming/runtime/network_deprecated/metrics.py],
     [volga/streaming/runtime/network/metrics.py])

    The handlers count buffers and records under composite keys; a flusher thread
    reports the counts to Ray's counters, which are here a log of increments.  The
    locks make [inc] and the swap of the buffers atomic. *)

From S2P Require Import Prelude PyDict.
From Stdlib Require Import Ascii.

(** ** Composite keys *)

Definition METRIC_KEY_DELIMITER : ascii := ";"%char.

Definition contains (c : ascii) (s : string) : bool :=
  existsb (λ x, bool_decide (x = c)) (String.list_ascii_of_string s).

(** [str.split] at one character. *)
Fixpoint split_list (c : ascii) (l : list ascii) : list (list ascii) :=
  match l with
  | [] => [[]]
  | x :: l' =>
      if decide (x = c) then [] :: split_list c l'
      else match split_list c l' with
           | [] => [[x]]
           | w :: ws => (x :: w) :: ws
           end
  end.
Definition split (c : ascii) (s : string) : list string :=
  map String.string_of_list_ascii (split_list c (String.list_ascii_of_string s)).

Definition delimiter : string := String.String METRIC_KEY_DELIMITER "".

(** [_metric_key]; [in] on [None] raises [TypeError]. *)
Definition _metric_key (handler_name handler_type : string) (channel_id : option string) : res string :=
  if contains METRIC_KEY_DELIMITER handler_name || contains METRIC_KEY_DELIMITER handler_type then
    Raise (RuntimeError "metric tags should not contain delimiter")
  else match channel_id with
       | None => Raise TypeError
       | Some channel_id =>
           if contains METRIC_KEY_DELIMITER channel_id then Raise (RuntimeError "metric tags should not contain delimiter")
           else Ok (handler_name +:+ delimiter +:+ handler_type +:+ delimiter +:+ channel_id)
       end.

Definition _parse_metric_key (key : string) : res (string * string * string) :=
  let s := split METRIC_KEY_DELIMITER key in
  a ← from_option_exn IndexError (s !! 0); b ← from_option_exn IndexError (s !! 1); c ← from_option_exn IndexError (s !! 2);
  Ok (a, b, c).

(** ** [MetricsRecorder] of the deprecated network layer *)

Definition NUM_BUFFERS_SENT : string := "volga_num_buffers_sent".
Definition NUM_BUFFERS_RCVD : string := "volga_num_buffers_rcvd".
Definition NUM_BUFFERS_DELIVERED : string := "volga_num_buffers_delivered".
Definition NUM_BUFFERS_RESENT : string := "volga_num_buffers_resent".
Definition NUM_RECORDS_SENT : string := "volga_num_records_sent".
Definition NUM_RECORDS_RCVD : string := "volga_num_records_rcvd".
Definition NUM_RECORDS_DELIVERED : string := "volga_num_records_delivered".
Definition metric_names : list string :=
  [NUM_BUFFERS_SENT; NUM_BUFFERS_RESENT; NUM_BUFFERS_RCVD; NUM_BUFFERS_DELIVERED; NUM_RECORDS_SENT; NUM_RECORDS_RCVD;
   NUM_RECORDS_DELIVERED].

Abbreviation tags := (string * string * string)%type.

Record MetricsRecorder := mkRecorder {
  buffered_counters : dict string (dict string Z);
  reports : list (string * tags * Z);            (* [Counter.inc(value, tags)] *)
}.
Definition empty_buffers : dict string (dict string Z) := map (λ n, (n, [])) metric_names.
Definition new_recorder : MetricsRecorder := mkRecorder empty_buffers [].

(** The body of [inc] under the lock. *)
Definition bump (key : string) (value : Z) (d : dict string Z) : dict string Z :=
  match dget d key with
  | Some v => dset d key (v + value)%Z
  | None => dset d key value
  end.

Definition inc (metric handler_name handler_type : string) (channel_id : option string) (value : Z) : M MetricsRecorder () :=
  liftR (_metric_key handler_name handler_type channel_id) ≫= λ key,
  (λ r, match dget (buffered_counters r) metric with
        | None => (Raise KeyError, r)
        | Some d => (Ok (), mkRecorder (dset (buffered_counters r) metric (bump key value d)) (reports r))
        end) : M MetricsRecorder ().

Definition _flush_inc (metric key : string) (value : Z) : M MetricsRecorder () :=
  if decide (value = 0%Z) then mret ()
  else liftR (_parse_metric_key key) ≫= λ t,
       modS (λ r, mkRecorder (buffered_counters r) (reports r ++ [(metric, t, value)])).

Definition _flush_metrics : M MetricsRecorder () := λ r,
  let to_flush := buffered_counters r in
  let r := mkRecorder (map (λ e, (e.1, [])) to_flush) (reports r) in
  for_each to_flush (λ e, for_each e.2 (λ kv, _flush_inc e.1 kv.1 kv.2)) r.

(** A run: increments and flushes, one after the other. *)
Inductive metric_op := OInc (metric handler_name handler_type : string) (channel_id : option string) (value : Z) | OFlush.
Definition metric_step (o : metric_op) : M MetricsRecorder () :=
  match o with
  | OInc metric h t c v => inc metric h t c v
  | OFlush => _flush_metrics
  end.
(** An exception of [inc] is the caller's; the recorder goes on. *)
Definition metric_run (os : list metric_op) (r : MetricsRecorder) : MetricsRecorder :=
  foldl (λ r o, (metric_step o r).2) r os.

(** What was reported, is buffered, and was counted under a metric and its tags. *)
Definition reported (r : MetricsRecorder) (metric : string) (t : tags) : Z :=
  foldr (λ e acc, if decide (e.1 = (metric, t)) then (e.2 + acc)%Z else acc) 0%Z (reports r).
Definition buffered (r : MetricsRecorder) (metric key : string) : Z :=
  default 0%Z (dget (buffered_counters r) metric ≫= λ d, dget d key).
Definition counted (os : list metric_op) (metric : string) (t : tags) : Z :=
  foldr (λ o acc, match o with
                  | OInc m h ty (Some c) v => if decide ((m, (h, ty, c)) = (metric, t)) then (v + acc)%Z else acc
                  | _ => acc
                  end) 0%Z os.

(** ** [MetricsRecorder] of the network layer *)

(** [parse_metric_key] and [_record_metrics_to_prom]; the result is the log of [Counter.inc]. *)
Definition prom_names : list string :=
  [NUM_BUFFERS_SENT; NUM_BUFFERS_RESENT; "volga_num_buffers_recvd"; "volga_num_bytes_sent"; "volga_num_bytes_recvd"].

Definition parse_metric_key (metric_key : string) : res (string * string) :=
  let s := split METRIC_KEY_DELIMITER metric_key in
  a ← from_option_exn IndexError (s !! 0); b ← from_option_exn IndexError (s !! 1); Ok (a, b).

Definition record_one (kv : string * Z) : M (list (string * string * Z)) () :=
  liftR (parse_metric_key kv.1) ≫= λ nc,
  if decide (nc.1 ∉ prom_names) then raise (RuntimeError "Unknown metric")
  else if decide (kv.2 = 0%Z) then mret () else modS (λ log, log ++ [(nc.1, nc.2, kv.2)]).
Definition _record_metrics_to_prom (metrics : dict string Z) : M (list (string * string * Z)) () := for_each metrics record_one.

(** [_read_and_flush]: the state is the content of the file, if there is any, and the log.  The file is
    emptied before its content is recorded. *)
Definition _read_and_flush : M (option (dict string Z) * list (string * string * Z)) () := λ '(file, log),
  match file with
  | None => (Ok (), (None, log))
  | Some metrics => let '(r, log') := _record_metrics_to_prom metrics log in (r, (None, log'))
  end.

(** ** Keys *)

Lemma split_list_none c l : c ∉ l → split_list c l = [l].
Proof.
  induction l as [|x l IH]; intros Hc; [done|]. cbn. rewrite decide_False by (intros ->; apply Hc; by left).
  rewrite IH; [done|]. intros Hin. apply Hc. by right.
Qed.
Lemma split_list_app c l1 l2 : c ∉ l1 → split_list c (l1 ++ c :: l2) = l1 :: split_list c l2.
Proof.
  induction l1 as [|x l1 IH]; intros Hc; cbn; [by rewrite decide_True by done|].
  rewrite decide_False by (intros ->; apply Hc; by left). rewrite IH; [done|]. intros Hin. apply Hc. by right.
Qed.

Lemma contains_false c s : contains c s = false ↔ c ∉ String.list_ascii_of_string s.
Proof.
  unfold contains. rewrite <- not_true_iff_false, existsb_exists. split.
  - intros H Hin. apply H. exists c. split; [by apply list_elem_of_In|by apply bool_decide_eq_true].
  - intros H (x & Hx%list_elem_of_In & ->%bool_decide_eq_true). done.
Qed.

Lemma list_ascii_app s1 s2 :
  String.list_ascii_of_string (s1 +:+ s2) = String.list_ascii_of_string s1 ++ String.list_ascii_of_string s2.
Proof. induction s1 as [|x s1 IH]; [done|]. change (x :: String.list_ascii_of_string (s1 +:+ s2) = x :: String.list_ascii_of_string s1 ++ String.list_ascii_of_string s2). by rewrite IH. Qed.

Lemma contains_app c s1 s2 : contains c (s1 +:+ s2) = contains c s1 || contains c s2.
Proof. unfold contains. by rewrite list_ascii_app, existsb_app. Qed.

Lemma split_app s1 s2 : contains METRIC_KEY_DELIMITER s1 = false →
  split METRIC_KEY_DELIMITER (s1 +:+ delimiter +:+ s2) = s1 :: split METRIC_KEY_DELIMITER s2.
Proof.
  intros H%contains_false. unfold split. rewrite !list_ascii_app.
  change (String.list_ascii_of_string delimiter ++ String.list_ascii_of_string s2) with (METRIC_KEY_DELIMITER :: String.list_ascii_of_string s2).
  rewrite split_list_app by done. cbn [map]. by rewrite String.string_of_list_ascii_of_string.
Qed.
Lemma split_none s : contains METRIC_KEY_DELIMITER s = false → split METRIC_KEY_DELIMITER s = [s].
Proof.
  intros H%contains_false. unfold split. rewrite split_list_none by done. cbn [map]. by rewrite String.string_of_list_ascii_of_string.
Qed.

Lemma metric_key_parse h t c key : _metric_key h t (Some c) = Ok key → _parse_metric_key key = Ok (h, t, c).
Proof.
  unfold _metric_key. destruct (contains _ h) eqn:Eh; [done|]. destruct (contains _ t) eqn:Et; [done|].
  destruct (contains _ c) eqn:Ec; [done|]. cbn [orb]. intros <-%Ok_inj. unfold _parse_metric_key.
  by rewrite !split_app, split_none by done.
Qed.

(** ** Counts *)

(** Every buffered key comes from tags. *)
Definition key_ok (key : string) : Prop := ∃ h t c, _metric_key h t (Some c) = Ok key.
Definition tags_of (key : string) : tags := match _parse_metric_key key with Ok t => t | Raise _ => ("", "", "") end.

Record recorder_ok (r : MetricsRecorder) : Prop := {
  rk_names : dkeys (buffered_counters r) = metric_names;
  rk_inner : ∀ m d, dget (buffered_counters r) m = Some d → dict_wf d ∧ ∀ k, k ∈ dkeys d → key_ok k;
}.

Definition reports_of (m : string) (d : dict string Z) : list (string * tags * Z) :=
  omap (λ kv, if decide (kv.2 = 0%Z) then None else Some (m, tags_of kv.1, kv.2)) d.
Definition sum_of (l : list (string * tags * Z)) (m : string) (t : tags) : Z :=
  foldr (λ e acc, if decide (e.1 = (m, t)) then (e.2 + acc)%Z else acc) 0%Z l.

Lemma sum_of_app l1 l2 m t : sum_of (l1 ++ l2) m t = (sum_of l1 m t + sum_of l2 m t)%Z.
Proof. unfold sum_of. induction l1 as [|e l1 IH]; cbn; [lia|]. rewrite IH. case_decide; lia. Qed.

Lemma flush_inner m d : ∀ r, (∀ k, k ∈ dkeys d → key_ok k) →
  for_each d (λ kv, _flush_inc m kv.1 kv.2) r = (Ok (), mkRecorder (buffered_counters r) (reports r ++ reports_of m d)).
Proof.
  induction d as [|[k v] d IH]; intros r Hk; [cbn; rewrite app_nil_r; by destruct r|].
  cbn [for_each]. unfold mbind, M_bind. unfold _flush_inc at 1. cbn [fst snd].
  assert (∀ k', k' ∈ dkeys d → key_ok k') as Hk' by (intros k' Hin; apply Hk; by right).
  change (reports_of m ((k, v) :: d)) with (reports_of m ([(k, v)] ++ d)). unfold reports_of at 1. rewrite omap_app. cbn [omap list_omap fst snd].
  case_decide; [unfold mret, M_ret; by rewrite IH|]. destruct (Hk k) as (h & t & c & E); [by left|]. pose proof (metric_key_parse _ _ _ _ E) as Ep.
  unfold liftR, modS, mbind, M_bind. rewrite Ep, IH by done. cbn [buffered_counters reports]. unfold tags_of. by rewrite Ep, <- app_assoc.
Qed.

Lemma flush_outer l : ∀ r, (∀ e k, e ∈ l → k ∈ dkeys e.2 → key_ok k) →
  for_each l (λ e, for_each e.2 (λ kv, _flush_inc e.1 kv.1 kv.2)) r =
    (Ok (), mkRecorder (buffered_counters r) (reports r ++ concat (map (λ e, reports_of e.1 e.2) l))).
Proof.
  induction l as [|[m d] l IH]; intros r Hk; [cbn; rewrite app_nil_r; by destruct r|].
  cbn [for_each fst snd map concat]. unfold mbind, M_bind. rewrite flush_inner by (intros k; apply (Hk (m, d)); by left).
  rewrite IH by (intros e k He; apply Hk; by right). cbn [buffered_counters reports]. by rewrite <- app_assoc.
Qed.

Lemma tags_of_key k h t c key : key_ok k → _metric_key h t (Some c) = Ok key → tags_of k = (h, t, c) ↔ k = key.
Proof.
  intros (h' & t' & c' & E') E. unfold tags_of. rewrite (metric_key_parse _ _ _ _ E'). split; [|intros ->].
  - intros [= -> -> ->]. by rewrite E' in E; apply Ok_inj in E.
  - apply metric_key_parse in E, E'. rewrite E in E'. by apply Ok_inj in E'.
Qed.

Section sums.
Context (m h t c key : string) (Hkey : _metric_key h t (Some c) = Ok key).

Lemma sum_reports_of m' d : dict_wf d → (∀ k, k ∈ dkeys d → key_ok k) →
  sum_of (reports_of m' d) m (h, t, c) = if decide (m' = m) then default 0%Z (dget d key) else 0%Z.
Proof.
  induction d as [|[k v] d IH]; intros Hd Hk; [by case_decide|].
  apply NoDup_cons in Hd as [Hnk Hd]. fold (dkeys d) in Hnk. specialize (IH Hd ltac:(intros k' Hin; apply Hk; by right)).
  pose proof (tags_of_key k h t c key ltac:(apply Hk; by left) Hkey) as Htag.
  change (reports_of m' ((k, v) :: d)) with (omap (λ kv : string * Z, if decide (kv.2 = 0%Z) then None else Some (m', tags_of kv.1, kv.2)) ([(k, v)] ++ d)).
  rewrite omap_app, sum_of_app. fold (reports_of m' d). rewrite IH. cbn [omap list_omap fst snd dget].
  destruct (decide (k = key)) as [->|Hne].
  - rewrite (decide_True (P := key = key)) by done. assert (dget d key = None) as -> by by apply dget_None.
    destruct (decide (v = 0%Z)) as [->|]; cbn [sum_of foldr fst snd]; [case_decide; done|].
    rewrite (proj2 Htag eq_refl). destruct (decide (m' = m)) as [->|Hm]; [rewrite decide_True by done; cbn; lia|].
    rewrite decide_False by congruence. done.
  - rewrite (decide_False (P := key = k)) by congruence.
    destruct (decide (v = 0%Z)); cbn [sum_of foldr fst snd]; [case_decide; lia|].
    rewrite decide_False; [case_decide; lia|]. intros [= _ Ht]. by apply Hne, Htag.
Qed.

Lemma sum_flush l : dict_wf l → (∀ e, e ∈ l → dict_wf e.2 ∧ ∀ k, k ∈ dkeys e.2 → key_ok k) →
  sum_of (concat (map (λ e, reports_of e.1 e.2) l)) m (h, t, c) = default 0%Z (dget l m ≫= λ d, dget d key).
Proof.
  induction l as [|[m' d] l IH]; intros Hl Hk; [done|]. apply NoDup_cons in Hl as [Hnm Hl]. fold (dkeys l) in Hnm.
  cbn [map concat fst snd]. destruct (Hk (m', d) ltac:(by left)) as [Hd Hkeys].
  rewrite sum_of_app, sum_reports_of, IH by (done || by intros e He; apply Hk; right). cbn [dget].
  destruct (decide (m = m')) as [<-|Hne].
  - rewrite decide_True by done. assert (dget l m = None) as -> by by apply dget_None. cbn. lia.
  - rewrite decide_False by congruence. done.
Qed.
End sums.

Lemma new_recorder_ok : recorder_ok new_recorder.
Proof.
  split; [done|]. intros m d Hd%dget_Some_elem. apply (list_elem_of_fmap_1 (λ n, (n, []))) in Hd as (n & [= -> ->] & _).
  split; [apply dict_wf_nil|]. intros k Hk. by apply elem_of_nil in Hk.
Qed.

Lemma metric_names_nodup : NoDup metric_names.
Proof. apply (bool_decide_unpack _). by vm_compute. Qed.

Lemma recorder_wf r : recorder_ok r → dict_wf (buffered_counters r) ∧
  ∀ e, e ∈ buffered_counters r → dict_wf e.2 ∧ ∀ k, k ∈ dkeys e.2 → key_ok k.
Proof.
  intros [R1 R2]. assert (dict_wf (buffered_counters r)) as Hwf by (unfold dict_wf; rewrite R1; apply metric_names_nodup).
  split; [done|]. intros [m d] He. by apply (R2 m), dget_elem_wf.
Qed.

Lemma dget_bump key value d k :
  dget (bump key value d) k = if decide (k = key) then Some (default 0 (dget d key) + value)%Z else dget d k.
Proof.
  unfold bump. destruct (dget d key) as [v|] eqn:E; rewrite dget_dset; case_decide; done.
Qed.
Lemma bump_wf key value d : dict_wf d → dict_wf (bump key value d).
Proof. unfold bump. destruct (dget d key); auto with volga. Qed.
Lemma dkeys_bump key value d k : k ∈ dkeys (bump key value d) ↔ k ∈ dkeys d ∨ k = key.
Proof.
  rewrite !elem_dkeys_dget, dget_bump. case_decide; [subst; split; eauto|]. split; [by left|]. intros [?|?]; done.
Qed.

(** An increment adds to the buffer of its key, or raises and changes nothing. *)
Lemma inc_ok r metric h t c v :
  recorder_ok r → recorder_ok (inc metric h t c v r).2 ∧ reports (inc metric h t c v r).2 = reports r ∧
  (∀ key, _metric_key h t c = Ok key → metric ∈ metric_names → (inc metric h t c v r).1 = Ok ()) ∧
  (∀ m k, m ∈ metric_names → buffered (inc metric h t c v r).2 m k =
     (buffered r m k + if decide (m = metric ∧ _metric_key h t c = Ok k) then v else 0)%Z).
Proof.
  intros Hr. pose proof Hr as [R1 R2]. destruct (recorder_wf r Hr) as [Hwf _]. unfold inc, liftR, mbind, M_bind.
  destruct (_metric_key h t c) as [key|e] eqn:Ek.
  2:{ split_and!; [done|done|done|]. intros m k _. rewrite decide_False by (intros [_ ?]; done). cbn. lia. }
  destruct (dget (buffered_counters r) metric) as [d|] eqn:Ed.
  2:{ apply dget_None in Ed. rewrite R1 in Ed. split_and!; [done|done|done|]. intros m k Hm. rewrite decide_False by (intros [-> _]; done). cbn. lia. }
  cbn [fst snd reports]. split_and!; [|done|done|].
  - split; cbn [buffered_counters].
    + rewrite dkeys_dset. unfold dmem. by rewrite Ed.
    + intros m d'. rewrite dget_dset. case_decide; [|apply R2]. intros [= <-]. destruct (R2 _ _ Ed) as [H1 H2].
      split; [by apply bump_wf|]. intros k [Hk| ->]%dkeys_bump; [auto|]. destruct c as [c|]; [by exists h, t, c|].
      unfold _metric_key in Ek. by destruct (_ || _).
  - intros m k Hm. unfold buffered. cbn [buffered_counters]. rewrite dget_dset. destruct (decide (m = metric)) as [->|Hne].
    + rewrite Ed. cbn. rewrite dget_bump. case_decide.
      * subst. rewrite decide_True by done. cbn. lia.
      * rewrite decide_False by (intros [_ [= ->]]; done). lia.
    + rewrite decide_False by tauto. lia.
Qed.

(** A flush reports what is buffered. *)
Lemma recorder_flush_ok r : recorder_ok r →
  ∃ r', _flush_metrics r = (Ok (), r') ∧ recorder_ok r' ∧ (∀ m k, buffered r' m k = 0%Z) ∧
    ∀ m h t c key, _metric_key h t (Some c) = Ok key → reported r' m (h, t, c) = (reported r m (h, t, c) + buffered r m key)%Z.
Proof.
  intros Hr. pose proof Hr as [R1 R2]. destruct (recorder_wf r Hr) as [Hwf Hin]. unfold _flush_metrics.
  rewrite flush_outer by (intros e k He Hk; by apply (Hin e He)). eexists. split; [reflexivity|]. cbn [buffered_counters reports].
  assert (∀ m d, dget (map (λ e, (e.1, [])) (buffered_counters r)) m = Some d → d = ([] : dict string Z)) as Hnil.
  { intros m d Hd%dget_Some_elem. by apply (list_elem_of_fmap_1 (λ e : string * dict string Z, (e.1, []))) in Hd as (e & [= _ ->] & _). }
  split_and!.
  - split; cbn [buffered_counters].
    + rewrite <- R1. unfold dkeys. rewrite <- list_fmap_compose. by apply list_fmap_ext.
    + intros m d Hd. rewrite (Hnil m d Hd). split; [apply dict_wf_nil|]. intros k Hk. by apply elem_of_nil in Hk.
  - intros m k. unfold buffered. cbn [buffered_counters]. destruct (dget _ m) as [d|] eqn:Ed; [|done]. by rewrite (Hnil m d Ed).
  - intros m h t c key Hkey. unfold reported, buffered. cbn [reports]. fold (sum_of (reports r) m (h, t, c)).
    rewrite <- (sum_flush m h t c key Hkey (buffered_counters r) Hwf Hin). apply sum_of_app.
Qed.

(** ** Theorems *)

(** No count is lost or reported twice: whatever increments and flushes happen, what was reported under
    a metric and its tags and what is still buffered add up to what was counted, and after a flush all of
    it is reported. *)
Theorem metrics_conserved (os : list metric_op) (m h t c key : string) :
  _metric_key h t (Some c) = Ok key → m ∈ metric_names →
  (reported (metric_run os new_recorder) m (h, t, c) + buffered (metric_run os new_recorder) m key)%Z = counted os m (h, t, c) ∧
  reported (metric_run (os ++ [OFlush]) new_recorder) m (h, t, c) = counted os m (h, t, c).
Proof.
  intros Hkey Hm.
  assert (∀ r, recorder_ok r → recorder_ok (metric_run os r) ∧
    (reported (metric_run os r) m (h, t, c) + buffered (metric_run os r) m key =
     reported r m (h, t, c) + buffered r m key + counted os m (h, t, c))%Z) as Hrun.
  { induction os as [|o os IH]; intros r Hr; [split; [done|cbn; lia]|]. cbn [metric_run foldl]. fold (metric_run os (metric_step o r).2).
    destruct o as [m' h' t' c' v|]; cbn [metric_step counted foldr].
    - destruct (inc_ok r m' h' t' c' v Hr) as (Hr1 & Erep & _ & Hbuf). destruct (IH _ Hr1) as [Hr2 E]. split; [done|].
      rewrite E, Hbuf by done. unfold reported at 1. rewrite Erep. fold (reported r m (h, t, c)). fold (counted os m (h, t, c)).
      destruct c' as [c'|]; [|rewrite decide_False; [lia|]; intros [_ Hx]; unfold _metric_key in Hx; by destruct (_ || _)].
      destruct (decide ((m', (h', t', c')) = (m, (h, t, c)))) as [[= -> -> -> ->]|Hne].
      + rewrite decide_True by done. lia.
      + rewrite decide_False; [lia|]. intros [-> Hx]. apply Hne. apply metric_key_parse in Hx, Hkey. congruence.
    - destruct (recorder_flush_ok r Hr) as (r' & -> & Hr' & Hzero & Hrep). cbn [snd]. destruct (IH _ Hr') as [Hr2 E]. split; [done|].
      rewrite E, Hzero, (Hrep m h t c key Hkey). fold (counted os m (h, t, c)). lia. }
  destruct (Hrun _ new_recorder_ok) as [Hr E].
  assert (reported new_recorder m (h, t, c) + buffered new_recorder m key = 0)%Z as E0.
  { unfold buffered. destruct (dget (buffered_counters new_recorder) m) as [d|] eqn:Ed; [|done].
    apply dget_Some_elem, (list_elem_of_fmap_1 (λ n, (n, []))) in Ed as (n & [= _ ->] & _). done. }
  split; [lia|]. unfold metric_run at 1. rewrite foldl_app. fold (metric_run os new_recorder). cbn [foldl metric_step].
  destruct (recorder_flush_ok _ Hr) as (r' & -> & _ & _ & Hrep). cbn [snd]. rewrite (Hrep m h t c key Hkey). lia.
Qed.

Lemma metrics_conserved_witness :
  let os := [OInc NUM_BUFFERS_SENT "w" "data_writer" (Some "c") 1; OFlush; OInc NUM_BUFFERS_SENT "w" "data_writer" (Some "c") 2;
             OInc NUM_BUFFERS_SENT "w" "data_writer" (Some "d") 5] in
  (reported (metric_run os new_recorder) NUM_BUFFERS_SENT ("w", "data_writer", "c") +
   buffered (metric_run os new_recorder) NUM_BUFFERS_SENT "w;data_writer;c")%Z = 3%Z.
Proof.
  intros os. apply (metrics_conserved os NUM_BUFFERS_SENT "w" "data_writer" "c" "w;data_writer;c"); [by vm_compute|by left].
Defined.

(** The metrics file is emptied before it is recorded: when every key names a known metric all non-zero
    values are recorded, but an unknown one ends the flush and the values after it are lost. *)
Theorem prom_flush (metrics : dict string Z) (log : list (string * string * Z)) :
  (∀ k v, (k, v) ∈ metrics → ∃ n c, parse_metric_key k = Ok (n, c) ∧ n ∈ prom_names) →
  ∀ bad n c rest, parse_metric_key bad.1 = Ok (n, c) → n ∉ prom_names →
  let recorded := omap (λ kv : string * Z, match parse_metric_key kv.1 with
                          | Ok nc => if decide (kv.2 = 0%Z) then None else Some (nc.1, nc.2, kv.2)
                          | Raise _ => None end) metrics in
  _read_and_flush (Some metrics, log) = (Ok (), (None, log ++ recorded)) ∧
  _read_and_flush (Some (metrics ++ bad :: rest), log) = (Raise (RuntimeError "Unknown metric"), (None, log ++ recorded)).
Proof.
  intros Hall bad n c rest Hbad Hn recorded.
  assert (∀ l, record_one bad l = (Raise (RuntimeError "Unknown metric"), l)) as Eb.
  { intros l. unfold record_one, liftR, mbind, M_bind. rewrite Hbad. cbn [fst snd]. by rewrite decide_True. }
  assert (∀ l, for_each metrics record_one l = (Ok (), l ++ recorded)) as Eall.
  { unfold recorded. clear recorded. induction metrics as [|[k v] d IH]; intros l; [cbn; by rewrite app_nil_r|].
    destruct (Hall k v ltac:(by left)) as (n1 & c1 & E1 & Hn1). specialize (IH ltac:(intros k' v' Hin; apply (Hall k' v'); by right)).
    cbn [for_each omap list_omap fst snd]. unfold mbind, M_bind. unfold record_one at 1, liftR, mbind, M_bind. cbn [fst snd].
    rewrite E1. cbn [fst snd]. rewrite decide_False by tauto. case_decide; [apply IH|]. unfold modS. rewrite IH. by rewrite <- app_assoc. }
  unfold _read_and_flush, _record_metrics_to_prom. split; [by rewrite Eall|].
  rewrite for_each_app, Eall. cbn [for_each]. unfold mbind, M_bind. by rewrite Eb.
Qed.

(** ** Event counters ([volga/streaming/runtime/network_deprecated/stats.py]) *)

Inductive StatsEvent := MSG_SENT | MSG_RCVD | ACK_SENT | ACK_RCVD.
#[global] Instance StatsEvent_eq_dec : EqDecision StatsEvent.
Proof. solve_decision. Defined.

Abbreviation EventStats := (dict StatsEvent (dict string Z)).
Definition new_EventStats : EventStats := [(MSG_SENT, []); (MSG_RCVD, []); (ACK_SENT, []); (ACK_RCVD, [])].
Definition get_counter_for_event (event_type : StatsEvent) (self : EventStats) : res (dict string Z) := dgetitem self event_type.

(** [Stats.inc] *)
Definition stats_inc (event_type : StatsEvent) (key : string) (num : option Z) : M EventStats () := λ self,
  match get_counter_for_event event_type self with
  | Raise e => (Raise e, self)
  | Ok stats =>
      let stats := if dmem key stats then stats else dset stats key 0%Z in
      (Ok (), dset self event_type (bump key (default 1%Z num) stats))
  end.

Definition event_count (self : EventStats) (e : StatsEvent) (key : string) : Z := default 0%Z (dget (default [] (dget self e)) key).
Definition incs_of (l : list (StatsEvent * string * option Z)) (e : StatsEvent) (key : string) : Z :=
  foldr Z.add 0%Z (map (λ x, if decide (x.1 = (e, key)) then default 1%Z x.2 else 0%Z) l).

(** A counter is the sum of the increments of its event and key, and counting never raises. *)
Theorem event_counts (l : list (StatsEvent * string * option Z)) : ∃ s,
  for_each l (λ x, stats_inc x.1.1 x.1.2 x.2) new_EventStats = (Ok (), s) ∧ ∀ e key, event_count s e key = incs_of l e key.
Proof.
  assert (∀ s, (∀ e, is_Some (dget s e)) → ∃ s', for_each l (λ x, stats_inc x.1.1 x.1.2 x.2) s = (Ok (), s') ∧
    ∀ e key, event_count s' e key = (event_count s e key + incs_of l e key)%Z) as Hrun.
  { induction l as [|[[e k] n] l IH]; intros s Hs.
    - exists s. split; [done|]. intros e key. unfold incs_of. cbn. lia.
    - cbn [for_each fst snd]. unfold mbind, M_bind, stats_inc at 1, get_counter_for_event, dgetitem.
      destruct (Hs e) as [d Ed]. rewrite Ed. cbn [from_option_exn].
      set (d' := bump k (default 1%Z n) (if dmem k d then d else dset d k 0%Z)).
      destruct (IH (dset s e d')) as (s' & E & Hc).
      { intros e'. rewrite dget_dset. case_decide; [by eexists|apply Hs]. }
      exists s'. split; [exact E|]. intros e' k'. rewrite Hc. unfold incs_of. cbn [map foldr fst snd].
      unfold event_count. rewrite dget_dset. destruct (decide (e' = e)) as [->|Hne]; cbn [default from_option].
      + rewrite Ed. cbn [from_option id]. unfold d'. rewrite dget_bump.
        assert (∀ x, default 0%Z (dget (if dmem k d then d else dset d k 0%Z) x) = default 0%Z (dget d x)) as Hd.
        { intros x. unfold dmem. destruct (dget d k) eqn:Ek; [done|]. rewrite dget_dset. case_decide as Hx; [|done]. subst. by rewrite Ek. }
        destruct (decide (k' = k)) as [->|Hk].
        * rewrite decide_True by done. cbn. rewrite Hd. lia.
        * rewrite (decide_False (P := (e, k) = (e, k'))) by congruence. rewrite Hd. lia.
      + rewrite (decide_False (P := (e, k) = (e', k'))) by congruence. lia. }
  destruct (Hrun new_EventStats) as (s & E & Hc); [intros []; by eexists|]. exists s. split; [done|]. intros e key. rewrite Hc.
  by destruct e.
Qed.
