(* ===== verification/Transfer.v ===== *)
(** * Sockets and the relay between nodes
    ([volga/streaming/runtime/network_deprecated/socket_utils.py],
     [transfer/local/local_data_handler.py], [transfer/remote/remote_transfer_handler.py])

    A channel between two nodes has three hops: writer to the node's sender, sender
    to the receiver of the other node, receiver to the reader.  Sender and receiver
    multiplex all channels between two nodes over one connection; the channel id in
    the header of a buffer says where it goes.  ZeroMQ is not modelled: a context
    hands out sockets, here numbers, and what [rcv_no_block] and [send_no_block]
    answer is an argument.  Of the metrics only that they can raise matters here. *)

From S2P Require Import Prelude PyDict Operators JobGraph Execution Workers Codec Metrics.
From Stdlib Require Import Ascii.

(** ** Sockets *)

Inductive SocketOwner := TRANSFER_LOCAL | TRANSFER_REMOTE | CLIENT.
Inductive SocketKind := BIND | CONNECT.
Record SocketMetadata := mkMeta {
  sm_owner : SocketOwner;
  sm_kind : SocketKind;
  sm_channel_id : string;
  sm_addr : string;
}.
#[global] Instance SocketOwner_eq_dec : EqDecision SocketOwner.
Proof. solve_decision. Defined.
#[global] Instance SocketKind_eq_dec : EqDecision SocketKind.
Proof. solve_decision. Defined.
#[global] Instance SocketMetadata_eq_dec : EqDecision SocketMetadata.
Proof. solve_decision. Defined.

(** The state of [create_sockets]: the context, the handler and the list [sockets]. *)
Record creation (H : Type) := mkCr {
  cr_next : nat;
  cr_handler : H;
  cr_sockets : list (SocketMetadata * nat);
}.
Arguments mkCr {H} _ _ _.
Arguments cr_next {H} _.
Arguments cr_handler {H} _.
Arguments cr_sockets {H} _.

(** ** [LocalDataHandler] *)

Record LocalHandler := mkLocal {
  l_is_reader : bool;
  l_channels : list Channel;
  l_ch_to_socket : dict string nat;
  l_socket_to_ch : dict nat string;
  l_sockets_meta : dict SocketMetadata nat;
}.
Definition new_LocalHandler (is_reader : bool) (channels : list Channel) : LocalHandler :=
  mkLocal is_reader channels [] [] [].

Definition client_meta (is_reader : bool) (c : Channel) : SocketMetadata :=
  let kind := if is_reader then CONNECT else BIND in
  match c with
  | LocalChannel id ipc_addr => mkMeta CLIENT kind id ipc_addr
  | RemoteChannel id i =>
      mkMeta CLIENT kind id (if is_reader then target_local_ipc_addr i else source_local_ipc_addr i)
  end.

Definition local_create_one (st : creation LocalHandler) (c : Channel) : res (creation LocalHandler) :=
  let h := cr_handler st in
  let s := cr_next st in
  if dmem (channel_id c) (l_ch_to_socket h) then Raise (RuntimeError "duplicate channel ids")
  else
    let meta := client_meta (l_is_reader h) c in
    Ok (mkCr (S s)
          (mkLocal (l_is_reader h) (l_channels h) (dset (l_ch_to_socket h) (channel_id c) s)
             (dset (l_socket_to_ch h) s (channel_id c)) (dset (l_sockets_meta h) meta s))
          (cr_sockets st ++ [(meta, s)])).

Definition local_create_sockets (next : nat) (h : LocalHandler) : res (creation LocalHandler) :=
  foldR local_create_one (mkCr next h []) (l_channels h).

(** ** [RemoteTransferHandler] *)

Record RemoteHandler := mkRH {
  h_name : string;
  _is_sender : bool;
  h_channels : list (string * RemoteInfo);
  _local_socket_to_ch : dict nat string;
  _local_ch_to_socket : dict string nat;
  _remote_socket_to_node : dict nat string;
  _remote_node_to_sock : dict string nat;
  _local_queues : dict string (list bytes);
  _remote_queues : dict string (list bytes);
  _ch_id_to_node_id : dict string string;
  h_node_id : string;
  h_sockets_meta : dict SocketMetadata nat;
}.

Definition peer_node (is_sender : bool) (i : RemoteInfo) : string :=
  if is_sender then target_node_id i else source_node_id i.
Definition own_node (is_sender : bool) (i : RemoteInfo) : string :=
  if is_sender then source_node_id i else target_node_id i.

(** [_get_node_id]: the set of own nodes must have one element. *)
Definition _get_node_id (is_sender : bool) (channels : list (string * RemoteInfo)) : res string :=
  match remove_dups (map (λ c, own_node is_sender c.2) channels) with
  | [n] => Ok n
  | _ => Raise (RuntimeError "Misconfigured node ids on channels")
  end.

Definition new_RemoteHandler (name : string) (is_sender : bool) (channels : list (string * RemoteInfo)) : res RemoteHandler :=
  n ← _get_node_id is_sender channels;
  Ok (mkRH name is_sender channels [] [] [] [] (dict_of (map (λ c, (c.1, [])) channels)) []
        (dict_of (map (λ c, (c.1, peer_node is_sender c.2)) channels)) n []).

Definition local_meta (is_sender : bool) (id : string) (i : RemoteInfo) : SocketMetadata :=
  if is_sender then mkMeta TRANSFER_LOCAL CONNECT id (source_local_ipc_addr i)
  else mkMeta TRANSFER_LOCAL BIND id (target_local_ipc_addr i).
Definition remote_meta (is_sender : bool) (id : string) (i : RemoteInfo) : SocketMetadata :=
  if is_sender then mkMeta TRANSFER_REMOTE CONNECT id ("tcp://" +:+ target_node_ip i +:+ ":" +:+ str (port i))
  else mkMeta TRANSFER_REMOTE BIND id ("tcp://0.0.0.0:" +:+ str (port i)).

(** The socket to the client of a channel. *)
Definition add_local_socket (id : string) (meta : SocketMetadata) (st : creation RemoteHandler) : creation RemoteHandler :=
  let h := cr_handler st in
  let s := cr_next st in
  mkCr (S s)
    (mkRH (h_name h) (_is_sender h) (h_channels h) (dset (_local_socket_to_ch h) s id) (dset (_local_ch_to_socket h) id s)
       (_remote_socket_to_node h) (_remote_node_to_sock h) (_local_queues h) (_remote_queues h)
       (_ch_id_to_node_id h) (h_node_id h) (dset (h_sockets_meta h) meta s))
    (cr_sockets st ++ [(meta, s)]).

(** The socket to a peer node. *)
Definition add_remote_socket (peer : string) (meta : SocketMetadata) (st : creation RemoteHandler) : creation RemoteHandler :=
  let h := cr_handler st in
  let s := cr_next st in
  mkCr (S s)
    (mkRH (h_name h) (_is_sender h) (h_channels h) (_local_socket_to_ch h) (_local_ch_to_socket h)
       (dset (_remote_socket_to_node h) s peer) (dset (_remote_node_to_sock h) peer s) (_local_queues h)
       (dset (_remote_queues h) peer []) (_ch_id_to_node_id h) (h_node_id h) (dset (h_sockets_meta h) meta s))
    (cr_sockets st ++ [(meta, s)]).

(** The bare [raise] of the source is itself an error. *)
Definition bare_raise {A} : res A := Raise (RuntimeError "No active exception to reraise").

Definition remote_create_one (st : creation RemoteHandler) (c : string * RemoteInfo) : res (creation RemoteHandler) :=
  let is_sender := _is_sender (cr_handler st) in
  let '(id, i) := c in
  if dmem id (_local_ch_to_socket (cr_handler st)) then Raise (RuntimeError "duplicate channel ids")
  else if dmem (local_meta is_sender id i) (h_sockets_meta (cr_handler st)) then bare_raise
  else
    let st := add_local_socket id (local_meta is_sender id i) st in
    let peer := peer_node is_sender i in
    if dmem peer (_remote_node_to_sock (cr_handler st)) then Ok st
    else if dmem (remote_meta is_sender id i) (h_sockets_meta (cr_handler st)) then bare_raise
    else Ok (add_remote_socket peer (remote_meta is_sender id i) st).

Definition remote_create_sockets (next : nat) (h : RemoteHandler) : res (creation RemoteHandler) :=
  foldR remote_create_one (mkCr next h []) (h_channels h).

Definition set_queues (lq rq : dict string (list bytes)) (h : RemoteHandler) : RemoteHandler :=
  mkRH (h_name h) (_is_sender h) (h_channels h) (_local_socket_to_ch h) (_local_ch_to_socket h) (_remote_socket_to_node h)
    (_remote_node_to_sock h) lq rq (_ch_id_to_node_id h) (h_node_id h) (h_sockets_meta h).

(** Where a queue leads: to the client of a channel or to a peer node. *)
Inductive dest := ToChannel (ch : string) | ToNode (node : string).
#[global] Instance dest_eq_dec : EqDecision dest.
Proof. solve_decision. Defined.

Definition queue_of (h : RemoteHandler) (d : dest) : res (list bytes) :=
  match d with
  | ToChannel ch => dgetitem (_local_queues h) ch
  | ToNode n => dgetitem (_remote_queues h) n
  end.
Definition set_queue (d : dest) (q : list bytes) (h : RemoteHandler) : RemoteHandler :=
  match d with
  | ToChannel ch => set_queues (dset (_local_queues h) ch q) (_remote_queues h) h
  | ToNode n => set_queues (_local_queues h) (dset (_remote_queues h) n q) h
  end.

Definition socket_dest (h : RemoteHandler) (s : nat) : option dest :=
  match dget (_local_socket_to_ch h) s with
  | Some ch => Some (ToChannel ch)
  | None => ToNode <$> dget (_remote_socket_to_node h) s
  end.

(** [metrics_recorder.inc] under the key of a pair of nodes, or under [None]. *)
Definition handler_type (is_sender : bool) : string := if is_sender then "transfer_sender" else "transfer_receiver".
Definition count (h : RemoteHandler) (metric_key : option string) : res () :=
  _ ← _metric_key (h_name h) (handler_type (_is_sender h)) metric_key; Ok ().
Definition node_key (h : RemoteHandler) (d : dest) : option string :=
  match d with ToChannel _ => None | ToNode n => Some (h_node_id h +:+ "-" +:+ n) end.

(** [send]; [sent] is the answer of [send_no_block].  The result is what went out.  A failed send puts
    the data back and counts it, also for a local socket, whose key is [None]. *)
Definition remote_send (s : nat) (sent : bool) : M RemoteHandler (option bytes) := λ h,
  match socket_dest h s with
  | None => (Raise (RuntimeError "Unregistered socket"), h)
  | Some d =>
      match queue_of h d with
      | Raise e => (Raise e, h)
      | Ok [] => (Ok None, h)
      | Ok (data :: q) =>
          if sent then
            match d, count h (node_key h d) with
            | ToNode _, Raise e => (Raise e, set_queue d q h)
            | _, _ => (Ok (Some data), set_queue d q h)
            end
          else
            match count h (node_key h d) with
            | Raise e => (Raise e, h)
            | Ok _ => (Ok None, h)
            end
      end
  end.

Definition data_channel (data : bytes) : string := String.string_of_list_ascii (get_channel_id data).

(** [rcv]: where what came in on a socket goes, and the key it is counted under. *)
Definition route (h : RemoteHandler) (s : nat) (data : bytes) : res (dest * option string) :=
  match dget (_local_socket_to_ch h) s with
  | Some ch => n ← dgetitem (_ch_id_to_node_id h) ch; Ok (ToNode n, None)
  | None =>
      match dget (_remote_socket_to_node h) s with
      | Some _ =>
          peer ← dgetitem (_ch_id_to_node_id h) (data_channel data);
          Ok (ToChannel (data_channel data), node_key h (ToNode peer))
      | None => Raise (RuntimeError "Unregistered socket")
      end
  end.

Definition remote_rcv (s : nat) (data : option bytes) : M RemoteHandler () := λ h,
  match data with
  | None => (Ok (), h)
  | Some data =>
      match d ← route h s data; q ← queue_of h d.1; Ok (d, q) with
      | Raise e => (Raise e, h)
      | Ok (d, q) =>
          (match d.2 with None => Ok () | Some key => count h (Some key) end, set_queue d.1 (q ++ [data]) h)
      end
  end.

(** [close_sockets] of both handlers: the sockets that are closed, in order. *)
Definition local_close_sockets (h : LocalHandler) : res (list nat) := mapR (λ c, dgetitem (l_ch_to_socket h) (channel_id c)) (l_channels h).
Definition remote_close_sockets (h : RemoteHandler) : list nat := dkeys (_local_socket_to_ch h) ++ dkeys (_remote_socket_to_node h).

(** ** Creating the sockets *)

(** What [create_sockets] has done when it has made sockets for the channels [ids] and the peers
    [nodes], starting from handler [h0] and socket [s0]. *)
Record created (h0 : RemoteHandler) (s0 : nat) (ids nodes : list string) (st : creation RemoteHandler) : Prop := {
  cd_sender : _is_sender (cr_handler st) = _is_sender h0;
  cd_names : h_name (cr_handler st) = h_name h0 ∧ h_node_id (cr_handler st) = h_node_id h0;
  cd_local_queues : _local_queues (cr_handler st) = _local_queues h0;
  cd_route : _ch_id_to_node_id (cr_handler st) = _ch_id_to_node_id h0;
  cd_ids : dkeys (_local_ch_to_socket (cr_handler st)) = ids;
  cd_nodes : dkeys (_remote_node_to_sock (cr_handler st)) = nodes;
  cd_queues : ∀ n, n ∈ nodes → dget (_remote_queues (cr_handler st)) n = Some [];
  cd_local : ∀ s ch, dget (_local_socket_to_ch (cr_handler st)) s = Some ch ↔ dget (_local_ch_to_socket (cr_handler st)) ch = Some s;
  cd_remote : ∀ s n, dget (_remote_socket_to_node (cr_handler st)) s = Some n ↔ dget (_remote_node_to_sock (cr_handler st)) n = Some s;
  cd_fresh : ∀ s, is_Some (socket_dest (cr_handler st) s) → s < cr_next st;
  cd_sides : ∀ s ch n, dget (_local_socket_to_ch (cr_handler st)) s = Some ch → dget (_remote_socket_to_node (cr_handler st)) s ≠ Some n;
  cd_meta : cr_sockets st = h_sockets_meta (cr_handler st);
  cd_meta_ids : ∀ m, m ∈ dkeys (h_sockets_meta (cr_handler st)) → sm_channel_id m ∈ ids;
  cd_local_meta : ∀ id, id ∈ ids → ∃ i s, (id, i) ∈ h_channels h0 ∧
    (local_meta (_is_sender h0) id i, s) ∈ cr_sockets st ∧ dget (_local_socket_to_ch (cr_handler st)) s = Some id;
  cd_remote_meta : ∀ n, n ∈ nodes → ∃ id i s, (id, i) ∈ h_channels h0 ∧ n = peer_node (_is_sender h0) i ∧
    (remote_meta (_is_sender h0) id i, s) ∈ cr_sockets st ∧ dget (_remote_socket_to_node (cr_handler st)) s = Some n;
  cd_empty : ∀ n q, dget (_remote_queues (cr_handler st)) n = Some q → q = [];
  cd_numbers : (cr_sockets st).*2 = seq s0 (length ids + length nodes) ∧ cr_next st = s0 + (length ids + length nodes);
}.

Lemma socket_dest_fresh h s : socket_dest h s = None → dget (_local_socket_to_ch h) s = None ∧ dget (_remote_socket_to_node h) s = None.
Proof. unfold socket_dest. destruct (dget (_local_socket_to_ch h) s); [done|]. destruct (dget (_remote_socket_to_node h) s); [done|]. done. Qed.

Lemma cd_next_fresh h0 s0 ids nodes st s : created h0 s0 ids nodes st → cr_next st ≤ s →
  dget (_local_socket_to_ch (cr_handler st)) s = None ∧ dget (_remote_socket_to_node (cr_handler st)) s = None.
Proof.
  intros H Hs. apply socket_dest_fresh. destruct (socket_dest (cr_handler st) s) as [d|] eqn:E; [|done].
  assert (s < cr_next st); [|lia]. apply (cd_fresh _ _ _ _ _ H). by rewrite E.
Qed.

(** Adding a pair to two dictionaries that are inverse to each other. *)
Lemma dset_inverse {K V} `{!EqDecision K, !EqDecision V} (f : dict K V) (g : dict V K) k v :
  (∀ a b, dget f a = Some b ↔ dget g b = Some a) → dget f k = None → dget g v = None →
  ∀ a b, dget (dset f k v) a = Some b ↔ dget (dset g v k) b = Some a.
Proof.
  intros Hfg Hk Hv a b. rewrite !dget_dset. repeat case_decide; subst; [done|..].
  - split; [intros [= <-]; done|]. intros Hb. apply Hfg in Hb. congruence.
  - split; [|intros [= <-]; done]. intros Ha. apply Hfg in Ha. congruence.
  - apply Hfg.
Qed.

Local Ltac red_h := cbn [add_local_socket add_remote_socket cr_handler cr_next cr_sockets h_name h_node_id _is_sender _local_socket_to_ch
  _local_ch_to_socket _remote_socket_to_node _remote_node_to_sock _local_queues _remote_queues _ch_id_to_node_id h_sockets_meta].

Lemma created_local h0 s0 ids nodes st id i (m := local_meta (_is_sender h0) id i) :
  created h0 s0 ids nodes st → id ∉ ids → (id, i) ∈ h_channels h0 →
  created h0 s0 (ids ++ [id]) nodes (add_local_socket id m st) ∧ m ∉ dkeys (h_sockets_meta (cr_handler st)).
Proof.
  intros H Hid Hin. destruct (cd_next_fresh _ _ _ _ _ (cr_next st) H (le_n _)) as [N1 N2].
  pose proof H as [A1 A0 A2 A3 A4 A5 A6 A7 A8 A9 A10 A11 A12 B1 B2 B3 [A13 A14]]. subst ids.
  assert (sm_channel_id m = id) as Em by by (unfold m, local_meta; case_match).
  assert (m ∉ dkeys (h_sockets_meta (cr_handler st))) as Hm by (intros Hm%A12; by rewrite Em in Hm).
  assert (dget (_local_ch_to_socket (cr_handler st)) id = None) as Hc by by apply dget_None.
  split; [|done]. split; red_h; try done.
  - by apply dkeys_dset_new.
  - by apply dset_inverse.
  - intros s. unfold socket_dest. red_h. rewrite dget_dset. case_decide; [subst s; lia|].
    intros Hs. specialize (A9 s Hs). lia.
  - intros s ch n. rewrite dget_dset. case_decide; [subst s; intros _; by rewrite N2|apply A10].
  - by rewrite A11, dset_app_new.
  - intros m'. rewrite dkeys_dset_new by done. intros [?|Hx%list_elem_of_singleton]%elem_of_app; apply elem_of_app; [left; auto|].
    right. subst m'. rewrite Em. by left.
  - intros x [Hx|Hx%list_elem_of_singleton]%elem_of_app.
    + destruct (B1 x Hx) as (j & s & ? & ? & Hs). exists j, s. split_and!; [done|apply elem_of_app; by left|].
      rewrite dget_dset_ne; [done|]. intros ->. congruence.
    + subst x. exists i, (cr_next st). split_and!; [done|apply elem_of_app; right; by left|apply dget_dset_eq].
  - intros n Hn. destruct (B2 n Hn) as (x & j & s & ? & ? & ? & ?). exists x, j, s. split_and!; [done..|apply elem_of_app; by left|done].
  - rewrite fmap_app, length_app, A13, A14. cbn. replace (length _ + 1 + length nodes) with (S (length (dkeys (_local_ch_to_socket (cr_handler st))) + length nodes)) by lia.
    split; [by rewrite seq_S|lia].
Qed.

Lemma created_remote h0 s0 ids nodes st id i (n := peer_node (_is_sender h0) i) (m := remote_meta (_is_sender h0) id i) :
  created h0 s0 ids nodes st → n ∉ nodes → m ∉ dkeys (h_sockets_meta (cr_handler st)) → id ∈ ids → (id, i) ∈ h_channels h0 →
  created h0 s0 ids (nodes ++ [n]) (add_remote_socket n m st).
Proof.
  intros H Hn Hm Hid Hin. destruct (cd_next_fresh _ _ _ _ _ (cr_next st) H (le_n _)) as [N1 N2].
  pose proof H as [A1 A0 A2 A3 A4 A5 A6 A7 A8 A9 A10 A11 A12 B1 B2 B3 [A13 A14]]. subst nodes.
  assert (dget (_remote_node_to_sock (cr_handler st)) n = None) as Hc by by apply dget_None.
  split; red_h; try done.
  - by apply dkeys_dset_new.
  - intros n'. rewrite dget_dset. case_decide; [done|]. intros [?|Hx%list_elem_of_singleton]%elem_of_app; [by apply A6|done].
  - by apply dset_inverse.
  - intros s. unfold socket_dest. red_h. rewrite dget_dset. case_decide; [subst s; lia|].
    intros Hs. specialize (A9 s Hs). lia.
  - intros s ch n'. rewrite dget_dset. case_decide; [subst s; intros Hs; congruence|apply A10].
  - by rewrite A11, dset_app_new.
  - intros m'. rewrite dkeys_dset_new by done. intros [?|Hx%list_elem_of_singleton]%elem_of_app; [auto|subst m'].
    by unfold m, remote_meta; case_match.
  - intros x Hx. destruct (B1 x Hx) as (j & s & ? & ? & ?). exists j, s. split_and!; [done|apply elem_of_app; by left|done].
  - intros x [Hx|Hx%list_elem_of_singleton]%elem_of_app.
    + destruct (B2 x Hx) as (y & j & s & ? & ? & ? & Hs). exists y, j, s. split_and!; [done..|apply elem_of_app; by left|].
      rewrite dget_dset_ne; [done|]. intros ->. congruence.
    + subst x. exists id, i, (cr_next st). split_and!; [done..|apply elem_of_app; right; by left|apply dget_dset_eq].
  - intros x q. rewrite dget_dset. case_decide; [by intros [= <-]|apply B3].
  - rewrite fmap_app, length_app, A13, A14. cbn. replace (length ids + (length _ + 1)) with (S (length ids + length (dkeys (_remote_node_to_sock (cr_handler st))))) by lia.
    split; [by rewrite seq_S|lia].
Qed.

Lemma remote_create_one_ok h0 s0 ids nodes st id i :
  created h0 s0 ids nodes st → id ∉ ids → (id, i) ∈ h_channels h0 → NoDup nodes →
  ∃ st' nodes', remote_create_one st (id, i) = Ok st' ∧ created h0 s0 (ids ++ [id]) nodes' st' ∧ NoDup nodes' ∧
    (∀ n, n ∈ nodes' ↔ n ∈ nodes ∨ n = peer_node (_is_sender h0) i).
Proof.
  intros H Hid Hin Hnd. destruct (created_local _ _ _ _ _ _ i H Hid Hin) as [H1 Hm].
  unfold remote_create_one. rewrite (cd_sender _ _ _ _ _ H).
  rewrite (proj2 (dmem_false _ _)) by by rewrite (cd_ids _ _ _ _ _ H).
  rewrite (proj2 (dmem_false _ _) Hm). set (st1 := add_local_socket _ _ _) in *.
  destruct (dmem (peer_node (_is_sender h0) i) (_remote_node_to_sock (cr_handler st1))) eqn:Ep.
  - exists st1, nodes. split_and!; [done..|]. apply dmem_elem in Ep. rewrite (cd_nodes _ _ _ _ _ H1) in Ep.
    intros n. split; [by left|]. intros [?| ->]; done.
  - apply dmem_false in Ep. rewrite (cd_nodes _ _ _ _ _ H1) in Ep.
    assert (remote_meta (_is_sender h0) id i ∉ dkeys (h_sockets_meta (cr_handler st1))) as Hr.
    { unfold st1. red_h. rewrite dkeys_dset_new by done. rewrite elem_of_app, list_elem_of_singleton. intros [Hx|Hx].
      - apply (cd_meta_ids _ _ _ _ _ H) in Hx. by unfold remote_meta in Hx; case_match.
      - by unfold remote_meta, local_meta in Hx; case_match. }
    rewrite (proj2 (dmem_false _ _) Hr). eexists _, (nodes ++ [_]). split_and!; [done|apply created_remote; try done|..].
    + apply elem_of_app. right. by left.
    + apply NoDup_app. split_and!; [done| |apply NoDup_singleton]. by intros x Hx ->%list_elem_of_singleton.
    + intros n. by rewrite elem_of_app, list_elem_of_singleton.
Qed.

Lemma remote_create_loop h0 s0 chans : ∀ ids nodes st,
  created h0 s0 ids nodes st → NoDup (ids ++ chans.*1) → (∀ c, c ∈ chans → c ∈ h_channels h0) → NoDup nodes →
  ∃ st' nodes', foldR remote_create_one st chans = Ok st' ∧ created h0 s0 (ids ++ chans.*1) nodes' st' ∧ NoDup nodes' ∧
    (∀ n, n ∈ nodes' ↔ n ∈ nodes ∨ n ∈ map (λ c, peer_node (_is_sender h0) c.2) chans).
Proof.
  induction chans as [|[id i] chans IH]; intros ids nodes st H Hnd Hin Hn.
  - exists st, nodes. rewrite app_nil_r. split_and!; [done..|]. intros n. cbn. split; [by left|]. intros [?|Hx]; [done|by apply elem_of_nil in Hx].
  - cbn [fmap list_fmap fst] in Hnd. change (ids ++ id :: chans.*1) with (ids ++ [id] ++ chans.*1) in Hnd. rewrite app_assoc in Hnd.
    destruct (remote_create_one_ok h0 s0 ids nodes st id i H) as (st1 & nodes1 & E1 & H1 & Hn1 & Hel1); [|apply Hin; by left|done|].
    { apply NoDup_app in Hnd as [Hnd _]. apply NoDup_app in Hnd as (_ & Hd & _). intros Hid. apply (Hd id Hid). by left. }
    destruct (IH (ids ++ [id]) nodes1 st1 H1 Hnd) as (st' & nodes' & E & H' & Hn' & Hel'); [by intros c Hc; apply Hin; right|done|].
    exists st', nodes'. cbn [foldR]. rewrite E1. cbn [mbind res_bind]. split_and!; [done| |done|].
    + by rewrite <- app_assoc in H'.
    + intros n. rewrite Hel', Hel1. cbn [map snd]. rewrite elem_of_cons. tauto.
Qed.

(** ** The relay *)

Inductive relay_event := RRcv (s : nat) (data : option bytes) | RSend (s : nat) (sent : bool).

(** One call of the loop; the result is what was sent, with where it went. *)
Definition relay_step (e : relay_event) : M RemoteHandler (list (dest * bytes)) :=
  match e with
  | RRcv s data => remote_rcv s data ≫= λ _, mret []
  | RSend s sent =>
      remote_send s sent ≫= λ o, getS ≫= λ h,
      mret (match o, socket_dest h s with Some data, Some d => [(d, data)] | _, _ => [] end)
  end.
Fixpoint relay (es : list relay_event) : M RemoteHandler (list (dest * bytes)) :=
  match es with
  | [] => mret []
  | e :: es' => relay_step e ≫= λ o, relay es' ≫= λ os, mret (o ++ os)
  end.

(** What a handler can deal with: its own sockets, data whose channel it knows, and clients that take
    what they are sent. *)
Definition accepted (h : RemoteHandler) (e : relay_event) : bool :=
  match e with
  | RRcv s (Some data) => is_ok (route h s data)
  | RRcv _ None => true
  | RSend s sent => match socket_dest h s with Some (ToNode _) => true | Some (ToChannel _) => sent | None => false end
  end.

(** What came in, with where it has to go. *)
Definition inputs (h : RemoteHandler) (es : list relay_event) : list (dest * bytes) :=
  omap (λ e, match e with
             | RRcv s (Some data) => match route h s data with Ok d => Some (d.1, data) | Raise _ => None end
             | _ => None
             end) es.
Definition on (d : dest) (l : list (dest * bytes)) : list bytes := map snd (filter (λ x, x.1 = d) l).

Definition queue (h : RemoteHandler) (d : dest) : list bytes :=
  match queue_of h d with Ok q => q | Raise _ => [] end.

Record ready (h : RemoteHandler) : Prop := {
  rd_local : ∀ s ch, dget (_local_socket_to_ch h) s = Some ch →
    is_Some (dget (_local_queues h) ch) ∧ is_Some (dget (_ch_id_to_node_id h) ch);
  rd_remote : ∀ s n, dget (_remote_socket_to_node h) s = Some n → is_Some (dget (_remote_queues h) n);
  rd_known : ∀ ch n, dget (_ch_id_to_node_id h) ch = Some n →
    is_Some (dget (_local_queues h) ch) ∧ is_Some (dget (_remote_queues h) n);
}.

(** The keys it counts under have no delimiter in them. *)
Definition plain (h : RemoteHandler) : Prop := ∀ n,
  (∃ s, dget (_remote_socket_to_node h) s = Some n) ∨ (∃ ch, dget (_ch_id_to_node_id h) ch = Some n) →
  count h (node_key h (ToNode n)) = Ok ().

Definition plain_names (name : string) (chans : list (string * RemoteInfo)) : bool :=
  negb (contains METRIC_KEY_DELIMITER name) &&
  forallb (λ c, negb (contains METRIC_KEY_DELIMITER (source_node_id c.2)) && negb (contains METRIC_KEY_DELIMITER (target_node_id c.2))) chans.

Definition wiring (h : RemoteHandler) :=
  (_local_socket_to_ch h, _remote_socket_to_node h, _ch_id_to_node_id h, (h_name h, _is_sender h, h_node_id h)).

Lemma wiring_set_queue d q h : wiring (set_queue d q h) = wiring h.
Proof. by destruct d. Qed.
Lemma route_wiring h h' s data : wiring h = wiring h' → route h s data = route h' s data.
Proof. unfold wiring, route, node_key. by intros [= -> -> -> _ _ ->]. Qed.
Lemma socket_dest_wiring h h' s : wiring h = wiring h' → socket_dest h s = socket_dest h' s.
Proof. unfold wiring, socket_dest. by intros [= -> -> _ _ _ _]. Qed.
Lemma plain_wiring h h' : wiring h = wiring h' → plain h → plain h'.
Proof. unfold wiring, plain, count, node_key. by intros [= _ -> -> -> -> ->]. Qed.
Lemma inputs_wiring h h' es : wiring h = wiring h' → inputs h es = inputs h' es.
Proof.
  intros E. unfold inputs. apply list_omap_ext. apply Forall_Forall2_diag, Forall_true. intros [s [data|]|s b]; [|done..].
  by rewrite (route_wiring h h' s data E).
Qed.
Lemma accepted_wiring h h' e : wiring h = wiring h' → accepted h e = accepted h' e.
Proof.
  intros E. destruct e as [s [data|]|s b]; cbn; [by rewrite (route_wiring h h' s data E)|done|].
  by rewrite (socket_dest_wiring h h' s E).
Qed.

Lemma ready_set_queue d q h : ready h → ready (set_queue d q h).
Proof.
  intros [H1 H2 H3]. destruct d; split; cbn [set_queue set_queues _local_socket_to_ch _remote_socket_to_node _ch_id_to_node_id
    _local_queues _remote_queues]; intros; try (destruct (H1 _ _ ltac:(eassumption))); try (destruct (H3 _ _ ltac:(eassumption)));
    try split; eauto using is_Some_dset.
Qed.

Lemma queue_set_queue d q h d' : queue (set_queue d q h) d' = if decide (d' = d) then q else queue h d'.
Proof.
  unfold queue, queue_of, dgetitem. destruct d as [ch|n], d' as [ch'|n']; cbn [set_queue set_queues _local_queues _remote_queues].
  - rewrite dget_dset. repeat case_decide; congruence || done.
  - by rewrite decide_False by done.
  - by rewrite decide_False by done.
  - rewrite dget_dset. repeat case_decide; congruence || done.
Qed.

Lemma queue_of_dest h s d : ready h → socket_dest h s = Some d → queue_of h d = Ok (queue h d).
Proof.
  intros Hr. unfold socket_dest, queue. destruct (dget (_local_socket_to_ch h) s) as [ch|] eqn:E1.
  - intros [= <-]. cbn [queue_of]. unfold dgetitem. destruct (rd_local _ Hr _ _ E1) as [[q ->] _]. done.
  - destruct (dget (_remote_socket_to_node h) s) as [n|] eqn:E2; [|done]. intros [= <-]. cbn [queue_of]. unfold dgetitem.
    by destruct (rd_remote _ Hr _ _ E2) as [q ->].
Qed.

Lemma queue_of_route h s data d : ready h → route h s data = Ok d → queue_of h d.1 = Ok (queue h d.1).
Proof.
  intros Hr. unfold route, queue, dgetitem. destruct (dget (_local_socket_to_ch h) s) as [ch|] eqn:E1.
  - destruct (dget (_ch_id_to_node_id h) ch) as [n|] eqn:E2; [|done]. intros [= <-]. cbn [queue_of fst]. unfold dgetitem.
    by destruct (rd_known _ Hr _ _ E2) as [_ [q ->]].
  - destruct (dget (_remote_socket_to_node h) s) as [n|]; [|done].
    destruct (dget (_ch_id_to_node_id h) (data_channel data)) as [n'|] eqn:E2; [|done]. intros [= <-]. cbn [queue_of fst]. unfold dgetitem.
    by destruct (rd_known _ Hr _ _ E2) as [[q ->] _].
Qed.

Lemma route_counts h s data d key : plain h → route h s data = Ok (d, Some key) → count h (Some key) = Ok ().
Proof.
  intros Hp. unfold route, dgetitem. destruct (dget (_local_socket_to_ch h) s) as [ch|]; [by destruct (dget _ ch)|].
  destruct (dget (_remote_socket_to_node h) s) as [n|]; [|done].
  destruct (dget (_ch_id_to_node_id h) (data_channel data)) as [n'|] eqn:E2; [|done]. intros [= _ <-]. apply (Hp n'). right. eauto.
Qed.

Lemma on_app d l1 l2 : on d (l1 ++ l2) = on d l1 ++ on d l2.
Proof. unfold on. by rewrite filter_app, map_app. Qed.
Lemma on_one d d' x : on d [(d', x)] = if decide (d = d') then [x] else [].
Proof. unfold on. rewrite filter_cons, filter_nil. cbn. repeat case_decide; subst; done. Qed.

Lemma on_cons d d' x l : on d ((d', x) :: l) = if decide (d = d') then x :: on d l else on d l.
Proof. unfold on. rewrite filter_cons. cbn. repeat case_decide; subst; done. Qed.

Lemma relay_step_ok h e :
  ready h → plain h → accepted h e = true →
  ∃ o h', relay_step e h = (Ok o, h') ∧ ready h' ∧ wiring h' = wiring h ∧
    ∀ d, queue h d ++ on d (inputs h [e]) = on d o ++ queue h' d.
Proof.
  intros Hr Hp He. destruct e as [s [data|]|s sent].
  - cbn in He. destruct (route h s data) as [d0|] eqn:Ed; [|done]. exists [], (set_queue d0.1 (queue h d0.1 ++ [data]) h).
    unfold relay_step, remote_rcv, mbind, M_bind. rewrite Ed. cbn [mbind res_bind]. rewrite (queue_of_route h s data d0 Hr Ed). cbn [mbind res_bind].
    assert (match d0.2 with None => Ok () | Some key => count h (Some key) end = Ok ()) as ->.
    { destruct d0 as [d0 [key|]]; [|done]. by apply (route_counts h s data d0). }
    split_and!; [done|by apply ready_set_queue|by apply wiring_set_queue|].
    intros d. rewrite queue_set_queue. cbn [inputs omap list_omap]. rewrite Ed, on_one. case_decide; subst; [done|by rewrite app_nil_r].
  - exists [], h. split_and!; [done..|]. intros d. by rewrite app_nil_r.
  - cbn in He. destruct (socket_dest h s) as [d0|] eqn:Ed; [|done].
    assert (∀ d, queue h d ++ on d (inputs h [RSend s sent]) = queue h d) as Hin by (intros d; apply app_nil_r).
    assert (∀ n, d0 = ToNode n → count h (node_key h d0) = Ok ()) as Hc.
    { intros n ->. apply Hp. left. exists s. unfold socket_dest in Ed. destruct (dget (_local_socket_to_ch h) s); [done|].
      destruct (dget (_remote_socket_to_node h) s); [|done]. by injection Ed as ->. }
    unfold relay_step, mbind, M_bind, getS, mret, M_ret. pose proof (queue_of_dest h s d0 Hr Ed) as Eq0.
    destruct (queue h d0) as [|x q] eqn:Eq.
    { exists [], h. unfold remote_send. rewrite Ed, Eq0. by split_and!. }
    destruct sent.
    2:{ destruct d0 as [|n]; [done|]. exists [], h. unfold remote_send. rewrite Ed, Eq0, (Hc n eq_refl). by split_and!. }
    exists [(d0, x)], (set_queue d0 q h).
    assert (remote_send s true h = (Ok (Some x), set_queue d0 q h)) as ->.
    { unfold remote_send. rewrite Ed, Eq0. destruct d0 as [|n]; [done|]. by rewrite (Hc n eq_refl). }
    rewrite (socket_dest_wiring _ h s (wiring_set_queue d0 q h)), Ed.
    split_and!; [done|by apply ready_set_queue|by apply wiring_set_queue|].
    intros d. rewrite Hin, queue_set_queue, on_one. case_decide; subst; [by rewrite Eq|done].
Qed.

Lemma relay_ok es : ∀ h,
  ready h → plain h → forallb (accepted h) es = true →
  ∃ outs h', relay es h = (Ok outs, h') ∧ ready h' ∧ wiring h' = wiring h ∧
    ∀ d, queue h d ++ on d (inputs h es) = on d outs ++ queue h' d.
Proof.
  induction es as [|e es IH]; intros h Hr Hp; [intros _; exists [], h; split_and!; [done..|]; intros d; apply app_nil_r|].
  cbn [forallb]. intros [He Hes]%andb_true_iff. destruct (relay_step_ok h e Hr Hp He) as (o & h1 & E1 & Hr1 & Ew1 & Hq1).
  destruct (IH h1 Hr1 (plain_wiring h h1 (eq_sym Ew1) Hp)) as (outs & h' & E & Hr' & Ew & Hq).
  { rewrite <- Hes. clear -Ew1. induction es as [|e es IH]; [done|]. cbn [forallb]. by rewrite (accepted_wiring h1 h e Ew1), IH. }
  exists (o ++ outs), h'. cbn [relay]. unfold mbind, M_bind. rewrite E1, E. split_and!; [done|done|congruence|].
  intros d. change (inputs h (e :: es)) with (inputs h ([e] ++ es)). unfold inputs at 1. rewrite omap_app, !on_app.
  fold (inputs h [e]) (inputs h es). rewrite (app_assoc (queue h d)), Hq1, <- !app_assoc, <- Hq.
  by rewrite (inputs_wiring h h1 es).
Qed.

(** ** A handler as the loop starts it *)

Lemma dget_dict_of_map {V} (f : string * RemoteInfo → V) (l : list (string * RemoteInfo)) c :
  NoDup l.*1 → c ∈ l → dget (dict_of (map (λ c, (c.1, f c)) l)) c.1 = Some (f c).
Proof.
  intros Hn Hc. assert (dkeys (map (λ c, (c.1, f c)) l) = l.*1) as Ek.
  { unfold dkeys. rewrite <- list_fmap_compose. by apply list_fmap_ext. }
  rewrite dict_of_id by by (unfold dict_wf; rewrite Ek).
  apply dget_elem_wf; [by unfold dict_wf; rewrite Ek|]. by apply (list_elem_of_fmap_2 (λ c, (c.1, f c))).
Qed.

Lemma dget_dict_of_map_inv {V} (f : string * RemoteInfo → V) (l : list (string * RemoteInfo)) k v :
  NoDup l.*1 → dget (dict_of (map (λ c, (c.1, f c)) l)) k = Some v → ∃ c, c ∈ l ∧ k = c.1 ∧ v = f c.
Proof.
  intros Hn. assert (dkeys (map (λ c, (c.1, f c)) l) = l.*1) as Ek.
  { unfold dkeys. rewrite <- list_fmap_compose. by apply list_fmap_ext. }
  rewrite dict_of_id by by (unfold dict_wf; rewrite Ek). intros H%dget_Some_elem.
  apply (list_elem_of_fmap_1 (λ c, (c.1, f c))) in H as (c & [= -> ->] & Hc). eauto.
Qed.

Record started (is_sender : bool) (chans : list (string * RemoteInfo)) (s0 : nat) (st : creation RemoteHandler) : Prop := {
  sd_ready : ready (cr_handler st);
  sd_numbers : (cr_sockets st).*2 = seq s0 (length chans + length (remove_dups (map (λ c, peer_node is_sender c.2) chans)));
  sd_local : ∀ c, c ∈ chans → ∃ s, (local_meta is_sender c.1 c.2, s) ∈ cr_sockets st ∧
    ∀ s', socket_dest (cr_handler st) s' = Some (ToChannel c.1) ↔ s' = s;
  sd_remote : ∀ n, n ∈ map (λ c, peer_node is_sender c.2) chans → ∃ c s, c ∈ chans ∧ peer_node is_sender c.2 = n ∧
    (remote_meta is_sender c.1 c.2, s) ∈ cr_sockets st ∧ ∀ s', socket_dest (cr_handler st) s' = Some (ToNode n) ↔ s' = s;
  sd_plain : plain_names (h_name (cr_handler st)) chans = true → plain (cr_handler st);
  sd_empty : ∀ d, queue (cr_handler st) d = [];
  sd_route : ∀ c, c ∈ chans → dget (_ch_id_to_node_id (cr_handler st)) c.1 = Some (peer_node is_sender c.2);
}.

Lemma plain_peers is_sender chans h :
  (∀ n, (∃ s, dget (_remote_socket_to_node h) s = Some n) ∨ (∃ ch, dget (_ch_id_to_node_id h) ch = Some n) →
     n ∈ map (λ c, peer_node is_sender c.2) chans) →
  h_node_id h ∈ map (λ c, own_node is_sender c.2) chans → plain_names (h_name h) chans = true → plain h.
Proof.
  intros Hpeers Hown [Hname Hall]%andb_true_iff n Hn. apply Hpeers in Hn.
  assert (∀ c, c ∈ chans → contains METRIC_KEY_DELIMITER (source_node_id c.2) = false ∧ contains METRIC_KEY_DELIMITER (target_node_id c.2) = false) as Hc.
  { intros c Hin. pose proof (proj1 (forallb_forall _ _) Hall c (proj1 (list_elem_of_In _ _) Hin)) as H.
    by apply andb_true_iff in H as [?%negb_true_iff ?%negb_true_iff]. }
  assert (contains METRIC_KEY_DELIMITER n = false) as En.
  { apply list_elem_of_fmap_1 in Hn as (c & -> & Hin). unfold peer_node. by case_match; apply Hc. }
  assert (contains METRIC_KEY_DELIMITER (h_node_id h) = false) as Eo.
  { apply list_elem_of_fmap_1 in Hown as (c & -> & Hin). unfold own_node. by case_match; apply Hc. }
  unfold count, node_key, _metric_key. rewrite (proj1 (negb_true_iff _) Hname), !contains_app, En, Eo. by destruct (_is_sender h).
Qed.

(** The channel of a handler is determined by its id. *)
Lemma channel_by_id (chans : list (string * RemoteInfo)) id i i' : NoDup chans.*1 → (id, i) ∈ chans → (id, i') ∈ chans → i = i'.
Proof.
  intros Hn Hi Hi'. assert (dict_wf chans) as Hwf by done.
  pose proof (dget_elem_wf chans id i Hwf Hi) as E1. pose proof (dget_elem_wf chans id i' Hwf Hi') as E2. congruence.
Qed.

Lemma new_handler_created name is_sender chans h0 s0 :
  new_RemoteHandler name is_sender chans = Ok h0 →
  h_channels h0 = chans ∧ _is_sender h0 = is_sender ∧ created h0 s0 [] [] (mkCr s0 h0 []).
Proof.
  unfold new_RemoteHandler. destruct (_get_node_id is_sender chans); [|done]. cbn [mbind res_bind]. intros <-%Ok_inj.
  split_and!; [done..|]. split; cbn; try done; try (intros x Hx; by apply elem_of_nil in Hx). all: by intros s [].
Qed.

(** A socket is found by its channel or its node alone. *)
Lemma created_client h0 s0 ids nodes st s id : created h0 s0 ids nodes st → dget (_local_socket_to_ch (cr_handler st)) s = Some id →
  ∀ s', socket_dest (cr_handler st) s' = Some (ToChannel id) ↔ s' = s.
Proof.
  intros H Hs s'. unfold socket_dest. split; [|intros ->; by rewrite Hs].
  destruct (dget (_local_socket_to_ch (cr_handler st)) s') as [ch|] eqn:Es'; [|by destruct (dget (_remote_socket_to_node (cr_handler st)) s')].
  intros [= ->]. apply (cd_local _ _ _ _ _ H) in Es', Hs. congruence.
Qed.
Lemma created_peer h0 s0 ids nodes st s n : created h0 s0 ids nodes st → dget (_remote_socket_to_node (cr_handler st)) s = Some n →
  ∀ s', socket_dest (cr_handler st) s' = Some (ToNode n) ↔ s' = s.
Proof.
  intros H Hs s'. unfold socket_dest. split.
  - destruct (dget (_local_socket_to_ch (cr_handler st)) s') as [ch|]; [done|].
    destruct (dget (_remote_socket_to_node (cr_handler st)) s') as [n'|] eqn:En; [|done]. intros [= ->].
    apply (cd_remote _ _ _ _ _ H) in En, Hs. congruence.
  - intros ->. destruct (dget (_local_socket_to_ch (cr_handler st)) s) as [ch|] eqn:Es'; [|by rewrite Hs].
    by edestruct (cd_sides _ _ _ _ _ H).
Qed.

Lemma start_remote name is_sender chans h0 s0 :
  new_RemoteHandler name is_sender chans = Ok h0 → NoDup chans.*1 →
  ∃ st, remote_create_sockets s0 h0 = Ok st ∧ started is_sender chans s0 st.
Proof.
  intros E Hn. destruct (new_handler_created name is_sender chans h0 s0 E) as (Ec & Es & H0).
  unfold new_RemoteHandler in E. destruct (_get_node_id is_sender chans) as [n0|] eqn:En0; [|done]. cbn [mbind res_bind] in E. apply Ok_inj in E. set (peers := map (λ c, peer_node is_sender c.2) chans).
  destruct (remote_create_loop h0 s0 chans [] [] (mkCr s0 h0 [])) as (st & nodes & E' & H & Hnd & Hel); try done.
  { by subst h0. }
  { by apply NoDup_nil. }
  exists st. split; [by subst h0|]. cbn [app] in H. pose proof H as [A1 A0 A2 A3 A4 A5 A6 A7 A8 A9 A10 A11 A12 B1 B2 B3 [A13 A14]].
  rewrite Es, Ec in *.
  assert (∀ n, n ∈ nodes ↔ n ∈ peers) as Hnodes by (intros n; rewrite Hel, elem_of_nil; unfold peers; tauto).
  assert (∀ c, c ∈ chans → dget (_local_queues (cr_handler st)) c.1 = Some []) as Hlq.
  { intros c Hc. rewrite A2. subst h0. cbn [_local_queues]. by apply (dget_dict_of_map (λ _, [])). }
  assert (∀ c, c ∈ chans → dget (_ch_id_to_node_id (cr_handler st)) c.1 = Some (peer_node is_sender c.2)) as Hroute.
  { intros c Hc. rewrite A3. subst h0. cbn [_ch_id_to_node_id]. by apply (dget_dict_of_map (λ c, peer_node is_sender c.2)). }
  split.
  - split.
    + intros s ch Hs. apply A7, mk_is_Some, elem_dkeys_dget in Hs. rewrite A4 in Hs. apply list_elem_of_fmap_1 in Hs as (c & -> & Hc). rewrite (Hlq c Hc), (Hroute c Hc). split; eauto.
    + intros s n Hs. apply A8, mk_is_Some, elem_dkeys_dget in Hs. rewrite A5 in Hs. rewrite (A6 n Hs). eauto.
    + intros ch n Hn'. rewrite A3 in Hn'. subst h0. cbn [_ch_id_to_node_id] in Hn'.
      apply (dget_dict_of_map_inv (λ c, peer_node is_sender c.2)) in Hn' as (c & Hc & -> & ->); [|done].
      rewrite (Hlq c Hc), A6; [split; eauto|]. apply Hnodes. by apply (list_elem_of_fmap_2 (λ c, peer_node is_sender c.2)).
  - rewrite A13. f_equal. rewrite length_fmap. f_equal. apply Permutation_length, NoDup_Permutation; [done|apply NoDup_remove_dups|].
    intros n. rewrite elem_of_remove_dups. apply Hnodes.
  - intros [id i] Hc. destruct (B1 id) as (i' & s & Hi' & Hm & Hs); [by apply (list_elem_of_fmap_2 fst _ _ Hc)|].
    rewrite (channel_by_id chans id i' i Hn Hi' Hc) in Hm. exists s. split; [done|]. by eapply created_client.
  - intros n Hx. apply Hnodes in Hx. destruct (B2 n Hx) as (id & i & s & Hi & -> & Hm & Hs). exists (id, i), s. split_and!; [done..|].
    by eapply created_peer.
  - apply (plain_peers is_sender).
    + intros n [[s Hs]|[ch Hs]].
      * apply A8, mk_is_Some, elem_dkeys_dget in Hs. rewrite A5 in Hs. by apply Hnodes.
      * rewrite A3 in Hs. subst h0. cbn [_ch_id_to_node_id] in Hs.
        apply (dget_dict_of_map_inv (λ c, peer_node is_sender c.2)) in Hs as (c & Hc & _ & ->); [|done].
        by apply (list_elem_of_fmap_2 (λ c, peer_node is_sender c.2)).
    + rewrite (proj2 A0). subst h0. cbn [h_node_id]. unfold _get_node_id in En0. apply elem_of_remove_dups.
      destruct (remove_dups _) as [|x [|]]; [done| |done]. apply Ok_inj in En0 as ->. by left.
  - intros [ch|n]; unfold queue, queue_of, dgetitem.
    + destruct (dget (_local_queues (cr_handler st)) ch) as [q|] eqn:Eq; [|done]. rewrite A2 in Eq. subst h0. cbn [_local_queues] in Eq.
      by apply (dget_dict_of_map_inv (λ _, [])) in Eq as (c & _ & _ & ->).
    + destruct (dget (_remote_queues (cr_handler st)) n) as [q|] eqn:Eq; [|done]. by eapply B3.
  - done.
Qed.

(** ** Multiplexing *)

(** What arrived on one socket. *)
Definition received_on (s : nat) (es : list relay_event) : list bytes :=
  omap (λ e, match e with
             | RRcv s' (Some data) => if decide (s' = s) then Some data else None
             | _ => None
             end) es.

Lemma prefix_filter {A} (P : A → Prop) `{!∀ x, Decision (P x)} (l1 l2 : list A) :
  l1 `prefix_of` l2 → filter P l1 `prefix_of` filter P l2.
Proof. intros [k ->]. rewrite filter_app. by apply prefix_app_r. Qed.

Local Abbreviation for_channel ch := (filter (λ data, data_channel data = ch)).

(** On the way in, the header picks out what arrived from the one peer that carries the channel. *)
Lemma inputs_to_channel h ch s es :
  forallb (accepted h) es = true → dget (_local_socket_to_ch h) s = None →
  (∀ s' data, RRcv s' (Some data) ∈ es → dget (_local_socket_to_ch h) s' = None → data_channel data = ch → s' = s) →
  on (ToChannel ch) (inputs h es) = for_channel ch (received_on s es).
Proof.
  intros Hacc Hs. induction es as [|e es IH]; intros Hone; [done|]. cbn [forallb] in Hacc. apply andb_true_iff in Hacc as [He Hes].
  specialize (IH Hes ltac:(intros s' data Hin; apply Hone; by right)).
  destruct e as [s' [data|]|]; cbn [inputs received_on omap list_omap]; [|done..]. fold (inputs h es) (received_on s es).
  specialize (Hone s' data). cbn in He. unfold route in *. destruct (dget (_local_socket_to_ch h) s') as [ch'|] eqn:Es'.
  - rewrite (decide_False (P := s' = s)) by congruence. destruct (dgetitem _ ch'); [|done]. cbn [mbind res_bind fst].
    rewrite on_cons, decide_False by done. done.
  - destruct (dget (_remote_socket_to_node h) s'); [|done]. destruct (dgetitem _ _); [|done]. cbn [mbind res_bind fst].
    rewrite on_cons. destruct (decide (data_channel data = ch)) as [<-|Hne].
    + rewrite decide_True by done. rewrite (decide_True (P := s' = s)) by (apply Hone; [by left|done..]).
      rewrite filter_cons_True by done. by rewrite IH.
    + rewrite decide_False by congruence. rewrite IH. case_decide; [by rewrite filter_cons_False|done].
Qed.

(** On the way out, what is labelled with a channel came from the socket of that channel. *)
Lemma inputs_to_node h ch n s es :
  dget (_ch_id_to_node_id h) ch = Some n → (∀ s', dget (_local_socket_to_ch h) s' = Some ch ↔ s' = s) →
  (∀ s' ch' data, RRcv s' (Some data) ∈ es → dget (_local_socket_to_ch h) s' = Some ch' → data_channel data = ch') →
  for_channel ch (on (ToNode n) (inputs h es)) = received_on s es.
Proof.
  intros Hn Hs. induction es as [|e es IH]; intros Hlab; [done|].
  specialize (IH ltac:(intros s' ch' data Hin; apply Hlab; by right)).
  destruct e as [s' [data|]|]; cbn [inputs received_on omap list_omap]; [|done..]. fold (inputs h es) (received_on s es).
  specialize (Hlab s'). unfold route. destruct (dget (_local_socket_to_ch h) s') as [ch'|] eqn:Es'.
  - specialize (Hlab ch' data ltac:(by left) eq_refl). unfold dgetitem.
    destruct (decide (s' = s)) as [->|Hne].
    + assert (dget (_local_socket_to_ch h) s = Some ch) as Es by by apply Hs. rewrite Es' in Es. injection Es as ->. rewrite Hn. cbn [from_option_exn mbind res_bind fst].
      rewrite on_cons, decide_True by done. by rewrite filter_cons_True, IH.
    + assert (ch' ≠ ch) as Hch by (intros ->; by apply Hne, Hs). destruct (dget (_ch_id_to_node_id h) ch') as [n'|]; cbn [from_option_exn mbind res_bind fst]; [|done].
      rewrite on_cons. case_decide; [by rewrite filter_cons_False by congruence|done].
  - rewrite (decide_False (P := s' = s)) by (intros ->; by rewrite (proj2 (Hs s) eq_refl) in Es').
    destruct (dget (_remote_socket_to_node h) s'); [|done]. destruct (dgetitem _ _); [|done]. cbn [mbind res_bind fst].
    by rewrite on_cons, decide_False by done.
Qed.

(** A handler made and given its sockets, as [TransferActor] and the loop do. *)
Definition start_handler (name : string) (is_sender : bool) (chans : list (string * RemoteInfo)) (s0 : nat) : res (creation RemoteHandler) :=
  h ← new_RemoteHandler name is_sender chans; remote_create_sockets s0 h.

Lemma remote_create_no_dup h0 s0 chans : ∀ ids nodes st,
  created h0 s0 ids nodes st → NoDup ids → (∀ c, c ∈ chans → c ∈ h_channels h0) → NoDup nodes →
  is_ok (foldR remote_create_one st chans) = true → NoDup (ids ++ chans.*1).
Proof.
  induction chans as [|[id i] chans IH]; intros ids nodes st H Hnd Hin Hn; [by rewrite app_nil_r|].
  cbn [foldR fmap list_fmap fst]. destruct (decide (id ∈ ids)) as [Hid|Hid].
  { unfold remote_create_one. rewrite (proj2 (dmem_elem _ _)) by by rewrite (cd_ids _ _ _ _ _ H). done. }
  destruct (remote_create_one_ok h0 s0 ids nodes st id i H Hid) as (st1 & nodes1 & -> & H1 & Hn1 & _); [apply Hin; by left|done|].
  cbn [mbind res_bind]. intros Hok. change (ids ++ id :: chans.*1) with (ids ++ [id] ++ chans.*1). rewrite app_assoc.
  eapply IH; [done| |by intros c Hc; apply Hin; right|done|done].
  apply NoDup_app. split_and!; [done| |apply NoDup_singleton]. by intros x Hx ->%list_elem_of_singleton.
Qed.

Lemma started_no_dup name is_sender chans s0 : is_ok (start_handler name is_sender chans s0) = true → NoDup chans.*1.
Proof.
  unfold start_handler, remote_create_sockets. destruct (new_RemoteHandler name is_sender chans) as [h0|] eqn:E; [|done]. cbn [mbind res_bind].
  destruct (new_handler_created name is_sender chans h0 s0 E) as (Ec & _ & H0). rewrite Ec. intros Hok.
  by apply (remote_create_no_dup h0 s0 chans [] [] _ H0); [apply NoDup_nil|rewrite Ec|apply NoDup_nil|].
Qed.

Lemma started_ok name is_sender chans s0 st : start_handler name is_sender chans s0 = Ok st → started is_sender chans s0 st.
Proof.
  intros Hst. assert (NoDup chans.*1) as Hnd by by (apply (started_no_dup name is_sender chans s0); rewrite Hst).
  unfold start_handler in Hst. destruct (new_RemoteHandler name is_sender chans) as [h0|] eqn:E; [|done]. cbn [mbind res_bind] in Hst.
  destruct (start_remote name is_sender chans h0 s0 E Hnd) as (st' & E' & H). by rewrite E' in Hst; apply Ok_inj in Hst as <-.
Qed.

Lemma dest_local h s ch : socket_dest h s = Some (ToChannel ch) ↔ dget (_local_socket_to_ch h) s = Some ch.
Proof.
  unfold socket_dest. destruct (dget (_local_socket_to_ch h) s) as [ch'|]; [split; congruence|].
  by destruct (dget (_remote_socket_to_node h) s).
Qed.
Lemma dest_remote h s n : socket_dest h s = Some (ToNode n) → dget (_local_socket_to_ch h) s = None.
Proof. unfold socket_dest. by destruct (dget (_local_socket_to_ch h) s). Qed.

(** ** Theorems *)

(** [create_sockets] of a transfer handler succeeds exactly when the channels have distinct ids and
    share their own node; it then makes consecutive sockets, one to the client of every channel and one
    to every peer node, each found again by [send]. *)
Theorem transfer_sockets_complete (name : string) (is_sender : bool) (chans : list (string * RemoteInfo)) (s0 : nat) :
  (is_ok (start_handler name is_sender chans s0) = true ↔
     NoDup chans.*1 ∧ ∃ n, remove_dups (map (λ c, own_node is_sender c.2) chans) = [n]) ∧
  ∀ st, start_handler name is_sender chans s0 = Ok st →
    (cr_sockets st).*2 = seq s0 (length chans + length (remove_dups (map (λ c, peer_node is_sender c.2) chans))) ∧
    (∀ c, c ∈ chans → ∃ s, (local_meta is_sender c.1 c.2, s) ∈ cr_sockets st ∧
       ∀ s', socket_dest (cr_handler st) s' = Some (ToChannel c.1) ↔ s' = s) ∧
    (∀ n, n ∈ map (λ c, peer_node is_sender c.2) chans → ∃ c s, c ∈ chans ∧ peer_node is_sender c.2 = n ∧
       (remote_meta is_sender c.1 c.2, s) ∈ cr_sockets st ∧ ∀ s', socket_dest (cr_handler st) s' = Some (ToNode n) ↔ s' = s).
Proof.
  split; [|by intros st Hst%started_ok; destruct Hst]. split.
  - intros H. split; [by eapply started_no_dup|]. unfold start_handler, new_RemoteHandler, _get_node_id in H.
    destruct (remove_dups _) as [|n [|]]; [done| |done]. by exists n.
  - intros [Hnd [n Hn]]. unfold start_handler.
    destruct (new_RemoteHandler name is_sender chans) as [h0|] eqn:E; [|by unfold new_RemoteHandler, _get_node_id in E; rewrite Hn in E].
    cbn [mbind res_bind]. by destruct (start_remote name is_sender chans h0 s0 E Hnd) as (st & -> & _).
Qed.

(** A started handler relays without loss, repetition or reordering: as long as it is called on its
    sockets and the incoming data belong to its channels, nothing raises, and for every destination the
    data that had to go there are, in order, those sent there followed by those still queued. *)
Theorem relay_fifo (name : string) (is_sender : bool) (chans : list (string * RemoteInfo)) (s0 : nat) (st : creation RemoteHandler) (es : list relay_event) :
  start_handler name is_sender chans s0 = Ok st → plain_names (h_name (cr_handler st)) chans = true →
  forallb (accepted (cr_handler st)) es = true →
  ∃ outs h', relay es (cr_handler st) = (Ok outs, h') ∧
    ∀ d, on d (inputs (cr_handler st) es) = on d outs ++ queue h' d.
Proof.
  intros Hst%started_ok Hp Hacc. destruct (relay_ok es _ (sd_ready _ _ _ _ Hst) (sd_plain _ _ _ _ Hst Hp) Hacc) as (outs & h' & E & _ & _ & H).
  exists outs, h'. split; [done|]. intros d. by rewrite <- H, (sd_empty _ _ _ _ Hst).
Qed.

(** C14. Two handlers share one connection for all channels between their nodes, and the header keeps the
    channels apart: if what arrives over the connection is a prefix of what was sent over it, and the
    clients of the first handler label their data with their channel, then what the second handler hands
    to the client of a channel is a prefix of what the first got on that channel. *)
Theorem channel_multiplexing (nameU nameD : string) (up down : bool) (chansU chansD : list (string * RemoteInfo)) (sU sD : nat)
    (stU stD : creation RemoteHandler) (esU esD : list relay_event) (outsU outsD : list (dest * bytes))
    (hU' hD' : RemoteHandler) (c : string * RemoteInfo) (client link : nat) :
  start_handler nameU up chansU sU = Ok stU → start_handler nameD down chansD sD = Ok stD → c ∈ chansU →
  plain_names (h_name (cr_handler stU)) chansU = true → plain_names (h_name (cr_handler stD)) chansD = true →
  socket_dest (cr_handler stU) client = Some (ToChannel c.1) →
  socket_dest (cr_handler stD) link = Some (ToNode (peer_node down c.2)) →
  forallb (accepted (cr_handler stU)) esU = true → forallb (accepted (cr_handler stD)) esD = true →
  relay esU (cr_handler stU) = (Ok outsU, hU') → relay esD (cr_handler stD) = (Ok outsD, hD') →
  (∀ s ch data, RRcv s (Some data) ∈ esU → socket_dest (cr_handler stU) s = Some (ToChannel ch) → data_channel data = ch) →
  (∀ s n data, RRcv s (Some data) ∈ esD → socket_dest (cr_handler stD) s = Some (ToNode n) → data_channel data = c.1 → s = link) →
  received_on link esD `prefix_of` on (ToNode (peer_node up c.2)) outsU →
  on (ToChannel c.1) outsD `prefix_of` received_on client esU.
Proof.
  intros HU%started_ok HD%started_ok Hc PU PD Hcl Hlink AU AD EU ED Hlab Hone Htcp.
  destruct (relay_ok esU _ (sd_ready _ _ _ _ HU) (sd_plain _ _ _ _ HU PU) AU) as (oU & h1 & EU' & _ & _ & QU). rewrite EU in EU'. injection EU' as <- <-.
  destruct (relay_ok esD _ (sd_ready _ _ _ _ HD) (sd_plain _ _ _ _ HD PD) AD) as (oD & h2 & ED' & _ & _ & QD). rewrite ED in ED'. injection ED' as <- <-.
  specialize (QU (ToNode (peer_node up c.2))). specialize (QD (ToChannel c.1)).
  rewrite (sd_empty _ _ _ _ HU) in QU. rewrite (sd_empty _ _ _ _ HD) in QD. cbn [app] in QU, QD.
  etrans; [by eapply prefix_app_r|]. rewrite <- QD.
  rewrite (inputs_to_channel _ c.1 link esD AD (dest_remote _ _ _ Hlink)).
  2:{ intros s data Hin Hl Hd.
      pose proof (proj1 (forallb_forall _ _) AD _ (proj1 (list_elem_of_In _ _) Hin)) as Ha. cbn in Ha. unfold route in Ha. rewrite Hl in Ha.
      destruct (dget (_remote_socket_to_node (cr_handler stD)) s) as [n|] eqn:En; [|done].
      apply (Hone s n data Hin); [|done]. unfold socket_dest. by rewrite Hl, En. }
  etrans; [by apply prefix_filter|]. destruct (sd_local _ _ _ _ HU c Hc) as (s & _ & Hs).
  rewrite <- (inputs_to_node (cr_handler stU) c.1 (peer_node up c.2) client esU (sd_route _ _ _ _ HU c Hc)).
  - rewrite QU. apply prefix_filter. by apply prefix_app_r.
  - intros s'. rewrite <- dest_local, Hs. apply Hs in Hcl as ->. done.
  - intros s' ch' data Hin Hl. apply (Hlab s' ch' data Hin). by apply dest_local.
Qed.

(** A failed send to the client of a channel is counted under the key [None]: [TypeError] escapes into
    the I/O loop, whose thread ends with it. *)
Theorem failed_local_send_raises (h : RemoteHandler) (s : nat) (ch : string) (data : bytes) (q : list bytes) :
  contains METRIC_KEY_DELIMITER (h_name h) = false → socket_dest h s = Some (ToChannel ch) →
  dget (_local_queues h) ch = Some (data :: q) →
  remote_send s false h = (Raise TypeError, h).
Proof.
  intros Hn Hs Hq. unfold remote_send. rewrite Hs. cbn [queue_of]. unfold dgetitem. rewrite Hq. cbn [from_option_exn].
  unfold count, node_key, _metric_key. rewrite Hn. by destruct (_is_sender h).
Qed.

(** [LocalDataHandler.create_sockets]: a socket per channel. *)
Lemma local_create_loop chans : ∀ st,
  NoDup (dkeys (l_ch_to_socket (cr_handler st)) ++ map channel_id chans) →
  ∃ st', foldR local_create_one st chans = Ok st' ∧
    cr_sockets st' = cr_sockets st ++ zip (map (client_meta (l_is_reader (cr_handler st))) chans) (seq (cr_next st) (length chans)).
Proof.
  induction chans as [|c chans IH]; intros st Hnd; [exists st; by rewrite app_nil_r|].
  cbn [map] in Hnd. assert (channel_id c ∉ dkeys (l_ch_to_socket (cr_handler st))) as Hc.
  { intros Hin. apply NoDup_app in Hnd as (_ & Hd & _). apply (Hd _ Hin). by left. }
  cbn [foldR]. unfold local_create_one at 2. cbv zeta. rewrite (proj2 (dmem_false _ _) Hc). cbn [mbind res_bind].
  set (st1 := mkCr _ _ _). destruct (IH st1) as (st' & E & Es).
  { cbn [st1 cr_handler l_ch_to_socket]. by rewrite dkeys_dset_new, <- app_assoc. }
  exists st'. split; [done|]. rewrite Es. cbn [st1 cr_sockets cr_handler cr_next l_is_reader map length seq zip zip_with].
  by rewrite <- app_assoc.
Qed.

Lemma local_socket_of is_reader chans s0 st c :
  NoDup (map channel_id chans) → local_create_sockets s0 (new_LocalHandler is_reader chans) = Ok st → c ∈ chans →
  ∃ s, (client_meta is_reader c, s) ∈ cr_sockets st.
Proof.
  intros Hnd E Hc. destruct (local_create_loop chans (mkCr s0 (new_LocalHandler is_reader chans) []) Hnd) as (st' & E' & Es).
  unfold local_create_sockets in E. cbn [new_LocalHandler l_channels] in E.
  rewrite E in E'. apply Ok_inj in E' as <-. rewrite Es. cbn [app cr_sockets cr_handler cr_next new_LocalHandler l_is_reader].
  apply list_elem_of_lookup in Hc as [j Hj]. exists (s0 + j). apply list_elem_of_lookup. exists j.
  apply lookup_zip_with_Some. eexists _, _. split_and!; [reflexivity|by rewrite list_lookup_fmap, Hj|].
  apply lookup_seq. apply lookup_lt_Some in Hj. lia.
Qed.

(** The three hops of a channel between two nodes meet: writer and sender, and receiver and reader,
    have a bound and a connecting socket with the same address, and the sender connects to the port the
    receiver has bound when all channels between the two nodes carry the same port. *)
Theorem channel_hops_paired (nameS nameV : string) (writer_chans reader_chans : list Channel) (out_chans in_chans : list (string * RemoteInfo))
    (s1 s2 s3 s4 : nat) (stW stR : creation LocalHandler) (stS stV : creation RemoteHandler) (id : string) (i : RemoteInfo) :
  NoDup (map channel_id writer_chans) → NoDup (map channel_id reader_chans) →
  local_create_sockets s1 (new_LocalHandler false writer_chans) = Ok stW → start_handler nameS true out_chans s2 = Ok stS →
  start_handler nameV false in_chans s3 = Ok stV → local_create_sockets s4 (new_LocalHandler true reader_chans) = Ok stR →
  RemoteChannel id i ∈ writer_chans → (id, i) ∈ out_chans → (id, i) ∈ in_chans → RemoteChannel id i ∈ reader_chans →
  (∀ c, c ∈ out_chans → target_node_id c.2 = target_node_id i → port c.2 = port i ∧ target_node_ip c.2 = target_node_ip i) →
  (∀ c, c ∈ in_chans → source_node_id c.2 = source_node_id i → port c.2 = port i) →
  (∃ a b, (mkMeta CLIENT BIND id (source_local_ipc_addr i), a) ∈ cr_sockets stW ∧
          (mkMeta TRANSFER_LOCAL CONNECT id (source_local_ipc_addr i), b) ∈ cr_sockets stS) ∧
  (∃ a b x y, (mkMeta TRANSFER_REMOTE CONNECT x ("tcp://" +:+ target_node_ip i +:+ ":" +:+ str (port i)), a) ∈ cr_sockets stS ∧
          (mkMeta TRANSFER_REMOTE BIND y ("tcp://0.0.0.0:" +:+ str (port i)), b) ∈ cr_sockets stV ∧
          socket_dest (cr_handler stS) a = Some (ToNode (target_node_id i)) ∧
          socket_dest (cr_handler stV) b = Some (ToNode (source_node_id i))) ∧
  (∃ a b, (mkMeta TRANSFER_LOCAL BIND id (target_local_ipc_addr i), a) ∈ cr_sockets stV ∧
          (mkMeta CLIENT CONNECT id (target_local_ipc_addr i), b) ∈ cr_sockets stR).
Proof.
  intros NW NR EW HS%started_ok HV%started_ok ER IW IS IV IR Hout Hin.
  destruct (local_socket_of false writer_chans s1 stW _ NW EW IW) as [a Ha].
  destruct (local_socket_of true reader_chans s4 stR _ NR ER IR) as [b Hb].
  destruct (sd_local _ _ _ _ HS _ IS) as (c & Hc & _). destruct (sd_local _ _ _ _ HV _ IV) as (d & Hd & _).
  destruct (sd_remote _ _ _ _ HS (target_node_id i)) as (cS & e & IcS & EcS & He & He').
  { by apply (list_elem_of_fmap_2 (λ c, peer_node true c.2)) in IS. }
  destruct (sd_remote _ _ _ _ HV (source_node_id i)) as (cV & f & IcV & EcV & Hf & Hf').
  { by apply (list_elem_of_fmap_2 (λ c, peer_node false c.2)) in IV. }
  destruct (Hout cS IcS EcS) as [Ep Ei]. pose proof (Hin cV IcV EcV) as Ep'.
  unfold local_meta, remote_meta, client_meta in *. cbn [fst snd] in *. rewrite Ep, Ei in He. rewrite Ep' in Hf.
  split_and!; [by exists a, c| |by exists d, b]. exists e, f, cS.1, cV.1. split_and!; [done..|by apply He'|by apply Hf'].
Qed.

(** ** Witnesses: two channels from node A to node B *)

Definition ex_info (id : string) : RemoteInfo :=
  mkRemote (gen_ipc_addr "job" id (Some "A")) "1.1.1.1" "A" (gen_ipc_addr "job" id (Some "B")) "2.2.2.2" "B" 1234.
Definition ex_chans : list (string * RemoteInfo) := [("a", ex_info "a"); ("b", ex_info "b")].
Definition ex_data (ch : ascii) (id : Z) : bytes :=
  match serialize_msg_bytes [ch] id [65%Z] id 64 true with Ok b => b | Raise _ => [] end.
Definition ex_start (is_sender : bool) : creation RemoteHandler :=
  match start_handler "t" is_sender ex_chans 0 with
  | Ok st => st
  | Raise _ => mkCr 0 (mkRH "" is_sender [] [] [] [] [] [] [] [] "" []) []
  end.
Definition ex_up : list relay_event :=
  [RRcv 0 (Some (ex_data "a" 0)); RRcv 2 (Some (ex_data "b" 0)); RRcv 0 (Some (ex_data "a" 1));
   RSend 1 true; RSend 1 false; RSend 1 true; RSend 1 true; RRcv 1 None].
Definition ex_down : list relay_event :=
  [RRcv 1 (Some (ex_data "a" 0)); RRcv 1 (Some (ex_data "b" 0)); RSend 2 true; RRcv 1 (Some (ex_data "a" 1)); RSend 0 true].

Lemma transfer_sockets_complete_witness :
  is_ok (start_handler "t" true ex_chans 0) = true ∧ (cr_sockets (ex_start true)).*2 = [0; 1; 2] ∧
  ∃ s, (local_meta true "b" (ex_info "b"), s) ∈ cr_sockets (ex_start true).
Proof.
  destruct (transfer_sockets_complete "t" true ex_chans 0) as [H1 H2]. split; [|destruct (H2 (ex_start true)) as (E & Hl & _); [by vm_compute|]].
  - apply H1. split; [apply (bool_decide_unpack _); by vm_compute|exists "A"; by vm_compute].
  - split; [by rewrite E|]. destruct (Hl ("b", ex_info "b")) as (s & Hs & _); [right; by left|]. by exists s.
Defined.

Lemma relay_fifo_witness :
  ∃ outs h', relay ex_up (cr_handler (ex_start true)) = (Ok outs, h') ∧
    (∀ d, on d (inputs (cr_handler (ex_start true)) ex_up) = on d outs ++ queue h' d) ∧
    on (ToNode "B") (inputs (cr_handler (ex_start true)) ex_up) = [ex_data "a" 0; ex_data "b" 0; ex_data "a" 1].
Proof.
  destruct (relay_fifo "t" true ex_chans 0 (ex_start true) ex_up) as (outs & h' & E & H); [by vm_compute..|].
  exists outs, h'. split_and!; [done|done|by vm_compute].
Defined.

(** The receiver of node B with a buffer for a client that takes nothing. *)
Lemma failed_local_send_raises_witness :
  let h := (remote_rcv 1 (Some (ex_data "a" 0)) (cr_handler (ex_start false))).2 in
  remote_send 0 false h = (Raise TypeError, h).
Proof.
  intros h. apply (failed_local_send_raises h 0 "a" (ex_data "a" 0) []); by vm_compute.
Defined.

Lemma channel_multiplexing_witness :
  on (ToChannel "a") [(ToChannel "b", ex_data "b" 0); (ToChannel "a", ex_data "a" 0)] `prefix_of` received_on 0 ex_up ∧
  received_on 0 ex_up = [ex_data "a" 0; ex_data "a" 1].
Proof.
  split; [|by vm_compute].
  apply (channel_multiplexing "t" "t" true false ex_chans ex_chans 0 0 (ex_start true) (ex_start false) ex_up ex_down
    [(ToNode "B", ex_data "a" 0); (ToNode "B", ex_data "b" 0); (ToNode "B", ex_data "a" 1)] _
    (relay ex_up (cr_handler (ex_start true))).2 (relay ex_down (cr_handler (ex_start false))).2 ("a", ex_info "a") 0 1);
    try by vm_compute.
  - by left.
  - intros s ch data Hin. repeat (apply elem_of_cons in Hin as [[= -> ->]|Hin]; [vm_compute; congruence|]).
    repeat (apply elem_of_cons in Hin as [Hin|Hin]; [done|]). by apply elem_of_nil in Hin.
  - intros s n data Hin. repeat (apply elem_of_cons in Hin as [Hin|Hin]; [try done; injection Hin as -> ->; done|]).
    by apply elem_of_nil in Hin.
  - exists []. by vm_compute.
Defined.

Definition ex_client (is_reader : bool) : creation LocalHandler :=
  match local_create_sockets 0 (new_LocalHandler is_reader (map (λ c, RemoteChannel c.1 c.2) ex_chans)) with
  | Ok st => st
  | Raise _ => mkCr 0 (new_LocalHandler is_reader []) []
  end.

Lemma channel_hops_paired_witness :
  ∃ a b, (mkMeta CLIENT BIND "a" "ipc:///tmp/volga_ipc/job/ipc_a_A", a) ∈ cr_sockets (ex_client false) ∧
    (mkMeta TRANSFER_LOCAL CONNECT "a" "ipc:///tmp/volga_ipc/job/ipc_a_A", b) ∈ cr_sockets (ex_start true).
Proof.
  destruct (channel_hops_paired "t" "t" (map (λ c, RemoteChannel c.1 c.2) ex_chans) (map (λ c, RemoteChannel c.1 c.2) ex_chans) ex_chans ex_chans
    0 0 0 0 (ex_client false) (ex_client true) (ex_start true) (ex_start false) "a" (ex_info "a")) as [H _]; try by vm_compute.
  - apply (bool_decide_unpack _). by vm_compute.
  - apply (bool_decide_unpack _). by vm_compute.
  - by left.
  - by left.
  - by left.
  - by left.
  - intros c Hc _. repeat (apply elem_of_cons in Hc as [->|Hc]; [done|]). by apply elem_of_nil in Hc.
  - intros c Hc _. repeat (apply elem_of_cons in Hc as [->|Hc]; [done|]). by apply elem_of_nil in Hc.
Defined.

(** ** The directory of a local address ([ipc_path_from_addr] of [volga/streaming/runtime/network_deprecated/channel.py]) *)

Definition slash : ascii := "/"%char.

(** The part after the last slash goes, and the six characters of [ipc://]. *)
Definition ipc_path_from_addr (ipc_addr : string) : string :=
  let l := String.list_ascii_of_string ipc_addr in
  let suff := default [] (last (split_list slash l)) in
  String.string_of_list_ascii (drop 6 (take (length l - length suff) l)).

Lemma last_split c l1 l2 : c ∉ l2 → last (split_list c (l1 ++ c :: l2)) = Some l2.
Proof.
  intros Hc. cut (∃ w ws, split_list c (l1 ++ c :: l2) = (w :: ws) ++ [l2]); [intros (w & ws & ->); apply last_snoc|].
  induction l1 as [|a l1 (w & ws & E)]; cbn [app split_list].
  - exists [], []. rewrite decide_True by done. by rewrite split_list_none by done.
  - rewrite E. case_decide; [by exists [], (w :: ws)|by exists (a :: w), ws].
Qed.

(** The directory made for an address is the one of the job, the same for all its channels. *)
Theorem ipc_path_of_addr (job_name channel_id : string) (node_id : option string) :
  contains slash channel_id = false → (∀ n, node_id = Some n → contains slash n = false) →
  ipc_path_from_addr (gen_ipc_addr job_name channel_id node_id) = IPC_DIR +:+ "/" +:+ job_name +:+ "/".
Proof.
  intros Hc Hn. set (suff := "ipc_" +:+ channel_id +:+ match node_id with None => "" | Some n => "_" +:+ n end).
  assert (contains slash suff = false) as Hs.
  { unfold suff. rewrite !contains_app, Hc. destruct node_id as [n|]; [|done]. rewrite contains_app. by rewrite (Hn n). }
  assert (String.list_ascii_of_string (gen_ipc_addr job_name channel_id node_id) =
    String.list_ascii_of_string ("ipc://" +:+ IPC_DIR +:+ "/" +:+ job_name) ++ slash :: String.list_ascii_of_string suff) as E.
  { unfold gen_ipc_addr, suff. destruct node_id as [n|]; rewrite !list_ascii_app; cbn [String.list_ascii_of_string];
      rewrite <- ?app_assoc; cbn [app]; by rewrite ?app_nil_r. }
  unfold ipc_path_from_addr. rewrite E, last_split by by apply contains_false. cbn [from_option id].
  set (pre := String.list_ascii_of_string ("ipc://" +:+ IPC_DIR +:+ "/" +:+ job_name)).
  change (slash :: String.list_ascii_of_string suff) with ([slash] ++ String.list_ascii_of_string suff). rewrite (assoc_L (++)), length_app.
  replace (length (pre ++ [slash]) + _ - _) with (length (pre ++ [slash])) by lia. rewrite take_app_length.
  unfold pre. rewrite !list_ascii_app. change (String.string_of_list_ascii ((String.list_ascii_of_string IPC_DIR ++
    String.list_ascii_of_string "/" ++ String.list_ascii_of_string job_name) ++ String.list_ascii_of_string "/") = IPC_DIR +:+ "/" +:+ job_name +:+ "/").
  rewrite <- !app_assoc, <- !list_ascii_app. by rewrite String.string_of_list_ascii_of_string.
Qed.

(** ** Closing *)

(** The tables of the remote handler hold exactly the sockets it made. *)
Definition holds_made (st : creation RemoteHandler) : Prop :=
  (remote_close_sockets (cr_handler st) ≡ₚ ((cr_sockets st).*2)) ∧ Forall (λ s, s < cr_next st) ((cr_sockets st).*2).

Lemma holds_made_fresh st : holds_made st →
  (cr_next st ∉ dkeys (_local_socket_to_ch (cr_handler st))) ∧ (cr_next st ∉ dkeys (_remote_socket_to_node (cr_handler st))).
Proof.
  intros [Hp Hlt]. rewrite Forall_forall in Hlt.
  assert (cr_next st ∉ remote_close_sockets (cr_handler st)) as Hn by (rewrite Hp; intros Hx%Hlt; lia).
  unfold remote_close_sockets in Hn. rewrite elem_of_app in Hn. tauto.
Qed.

Lemma made_lt n m (l : list nat) : n ≤ m → Forall (λ s, s < n) l → Forall (λ s, s < S m) (l ++ [m]).
Proof.
  intros Hm Hl. apply Forall_app. split; [|apply Forall_singleton; lia]. apply (Forall_impl _ _ _ Hl). intros s Hs. lia.
Qed.

Lemma holds_made_local id m st : holds_made st → holds_made (add_local_socket id m st).
Proof.
  intros H. destruct (holds_made_fresh st H) as [N _]. destruct H as [Hp Hlt]. unfold holds_made, remote_close_sockets in *. red_h.
  rewrite fmap_app, dkeys_dset_new by done. split; [|by apply (made_lt (cr_next st))]. rewrite <- Hp. cbn [fmap list_fmap snd].
  rewrite <- !app_assoc. by rewrite (Permutation_app_comm [_]).
Qed.

Lemma holds_made_remote peer m st : holds_made st → holds_made (add_remote_socket peer m st).
Proof.
  intros H. destruct (holds_made_fresh st H) as [_ N]. destruct H as [Hp Hlt]. unfold holds_made, remote_close_sockets in *. red_h.
  rewrite fmap_app, dkeys_dset_new by done. split; [|by apply (made_lt (cr_next st))]. by rewrite app_assoc, Hp.
Qed.

Lemma remote_create_holds chans : ∀ st st', holds_made st → foldR remote_create_one st chans = Ok st' → holds_made st'.
Proof.
  induction chans as [|[id i] chans IH]; intros st st' H; cbn [foldR]; [by intros <-%Ok_inj|].
  destruct (remote_create_one st (id, i)) as [st1|] eqn:E; [|done]. cbn [mbind res_bind]. apply IH. revert E. unfold remote_create_one.
  destruct (dmem id _); [done|]. destruct (dmem (local_meta _ _ _) _); [done|].
  destruct (dmem (peer_node _ _) _); [intros <-%Ok_inj; by apply holds_made_local|].
  destruct (dmem (remote_meta _ _ _) _); [done|]. intros <-%Ok_inj. by apply holds_made_remote, holds_made_local.
Qed.

(** The local handler walks its channels instead. *)
Lemma local_create_closes chans : ∀ st st', foldR local_create_one st chans = Ok st' →
  ∃ ss, (cr_sockets st').*2 = (cr_sockets st).*2 ++ ss ∧ length ss = length chans ∧
    (∀ k, k ∈ dkeys (l_ch_to_socket (cr_handler st)) → dget (l_ch_to_socket (cr_handler st')) k = dget (l_ch_to_socket (cr_handler st)) k) ∧
    mapR (λ c, dgetitem (l_ch_to_socket (cr_handler st')) (channel_id c)) chans = Ok ss ∧ l_channels (cr_handler st') = l_channels (cr_handler st).
Proof.
  induction chans as [|c chans IH]; intros st st'; cbn [foldR].
  { intros <-%Ok_inj. exists []. rewrite app_nil_r. by split_and!. }
  unfold local_create_one at 2. destruct (dmem (channel_id c) (l_ch_to_socket (cr_handler st))) eqn:Ec; [done|]. apply dmem_false in Ec.
  cbn [mbind res_bind]. intros (ss & Es & El & Hk & Em & Ech)%IH. cbn [cr_handler cr_sockets l_ch_to_socket l_channels] in *.
  exists (cr_next st :: ss). rewrite fmap_app, <- app_assoc in Es. split_and!; [done|cbn; by rewrite El| | |done].
  - intros k Hin. rewrite Hk by (rewrite dkeys_dset_new by done; apply elem_of_app; by left). apply dget_dset_ne. by intros ->.
  - cbn [mapR]. replace (dgetitem (l_ch_to_socket (cr_handler st')) (channel_id c)) with (Ok (A := nat) (cr_next st)); [cbn [mbind res_bind]; by rewrite Em|].
    unfold dgetitem. rewrite Hk by (rewrite dkeys_dset_new by done; apply elem_of_app; right; by left).
    by rewrite dget_dset_eq.
Qed.

(** Whatever sockets a handler made, closing it closes exactly those, each once; a local handler that is closed before it has made
    them raises instead. *)
Theorem sockets_closed name is_sender chans lchans is_reader s0 st lst :
  start_handler name is_sender chans s0 = Ok st → local_create_sockets s0 (new_LocalHandler is_reader lchans) = Ok lst →
  remote_close_sockets (cr_handler st) ≡ₚ ((cr_sockets st).*2) ∧ local_close_sockets (cr_handler lst) = Ok (cr_sockets lst).*2 ∧
  (lchans ≠ [] → local_close_sockets (new_LocalHandler is_reader lchans) = Raise KeyError).
Proof.
  unfold start_handler, new_RemoteHandler. destruct (_get_node_id is_sender chans) as [n|]; [|done]. cbn [mbind res_bind].
  intros Hst Hl. split_and!.
  - eapply remote_create_holds; [|exact Hst]. split; [done|apply Forall_nil_2].
  - apply local_create_closes in Hl as (ss & Es & _ & _ & Em & Ech). cbn in Es. rewrite Es. unfold local_close_sockets. by rewrite Ech.
  - by destruct lchans.
Qed.

