(* ===== verification/IoLoop.v ===== *)
(** * The I/O loop
    ([volga/streaming/runtime/network_deprecated/transfer/io_loop.py],
     [transfer/remote/transfer_actor.py])

    One thread polls the sockets of all registered handlers and calls their [send]
    and [rcv].  What the loop needs of a handler is a type class; the transfer
    handlers of [Transfer.v] are an instance.  What [poll] reports is an argument. *)

From S2P Require Import Prelude PyDict Operators JobGraph Execution Workers Codec Metrics Transfer.
From Stdlib Require Import Ascii.

(** ** Handlers *)

(** [W] is the world behind the sockets. *)
Class IOHandler (H W : Type) := {
  io_create : nat → H → res (creation H);        (* [create_sockets] *)
  io_sockets_meta : H → dict SocketMetadata nat; (* [_sockets_meta] *)
  io_send : nat → M (H * W) ();
  io_rcv : nat → M (H * W) ();
}.

Inductive Event := CONNECTED | OtherEvent (code : Z).
#[global] Instance Event_eq_dec : EqDecision Event.
Proof. solve_decision. Defined.

(** A socket or the monitor of a socket. *)
Inductive polled :=
| Data (socket : nat) (flag : Z)
| Monitor (socket : nat) (event : Event).

Definition POLLIN : Z := 1.
Definition POLLOUT : Z := 2.

(** ** [IOLoop] *)

Section loop.
Context {H W : Type} `{!IOHandler H W}.

Record IOLoop := mkLoop {
  running : bool;
  _registered_handlers : list H;
  _socket_to_handler : dict nat nat;             (* position of the handler *)
  _monitor_sockets : dict nat SocketMetadata;
  _to_be_connected : dict SocketMetadata (bool * option Event);
  _all_connected_event : bool;
}.
Definition new_IOLoop : IOLoop := mkLoop false [] [] [] [] false.

Definition register (io_handler : H) (l : IOLoop) : res IOLoop :=
  if running l then Raise (RuntimeError "Can not register new handlers when loop is running")
  else Ok (mkLoop (running l) (_registered_handlers l ++ [io_handler]) (_socket_to_handler l) (_monitor_sockets l)
             (_to_be_connected l) (_all_connected_event l)).

(** [_start_loop] until the loop runs; [next] counts the sockets of the context. *)
Definition add_socket (k : nat) (l : IOLoop) (ms : SocketMetadata * nat) : res IOLoop :=
  let '(meta, s) := ms in
  if dmem s (_socket_to_handler l) then Raise (RuntimeError "Duplicate socket")
  else Ok (mkLoop (running l) (_registered_handlers l) (dset (_socket_to_handler l) s k) (dset (_monitor_sockets l) s meta)
             (if decide (sm_kind meta = CONNECT) then dset (_to_be_connected l) meta (false, None) else _to_be_connected l)
             (_all_connected_event l)).

Definition set_handler (k : nat) (h : H) (l : IOLoop) : IOLoop :=
  mkLoop (running l) (<[k := h]> (_registered_handlers l)) (_socket_to_handler l) (_monitor_sockets l)
    (_to_be_connected l) (_all_connected_event l).

Definition start_handler_k (sl : nat * IOLoop) (kh : nat * H) : res (nat * IOLoop) :=
  cr ← io_create sl.1 kh.2;
  l ← foldR (add_socket kh.1) sl.2 (cr_sockets cr);
  (* [bind_and_connect] *)
  if decide (io_sockets_meta (cr_handler cr) = []) then Raise (RuntimeError "No sockets to bind/connect")
  else Ok (cr_next cr, set_handler kh.1 (cr_handler cr) l).

Definition _start_loop (next : nat) (l : IOLoop) : res (nat * IOLoop) :=
  r ← foldR start_handler_k (next, l) (imap pair (_registered_handlers l));
  Ok (r.1, mkLoop true (_registered_handlers r.2) (_socket_to_handler r.2) (_monitor_sockets r.2) (_to_be_connected r.2)
             (_all_connected_event r.2 || bool_decide (_to_be_connected r.2 = []))).

(** [_on_monitor_event] *)
Definition _on_monitor_event (meta : SocketMetadata) (event : Event) (l : IOLoop) : res IOLoop :=
  if decide (sm_kind meta = CONNECT) then
    con ← (if decide (event = CONNECTED) then Ok true else r ← dgetitem (_to_be_connected l) meta; Ok r.1);
    let tbc := dset (_to_be_connected l) meta (con, Some event) in
    let all_con := forallb (λ e : SocketMetadata * (bool * option Event), e.2.1) tbc in
    Ok (mkLoop (running l) (_registered_handlers l) (_socket_to_handler l) (_monitor_sockets l) tbc
          (_all_connected_event l || all_con))
  else Ok l.

(** A call of the handler of a socket. *)
Definition on_handler (s : nat) (m : nat → M (H * W) ()) : M (IOLoop * W) () := λ lw,
  match dget (_socket_to_handler lw.1) s with
  | None => (Raise KeyError, lw)
  | Some k =>
      match _registered_handlers lw.1 !! k with
      | None => (Raise IndexError, lw)
      | Some h => let '(r, (h', w')) := m s (h, lw.2) in (r, (set_handler k h' lw.1, w'))
      end
  end.

(** The body of [_loop] for one entry of what [poll] returned. *)
Definition loop_entry (p : polled) : M (IOLoop * W) () := λ lw,
  match p with
  | Monitor s event =>
      match dget (_monitor_sockets lw.1) s with
      | None => (Raise KeyError, lw)
      | Some meta =>
          match _on_monitor_event meta event lw.1 with
          | Ok l => (Ok (), (l, lw.2))
          | Raise e => (Raise e, lw)
          end
      end
  | Data s flag =>
      if _all_connected_event lw.1 then
        if decide (flag = POLLIN) then on_handler s io_rcv lw
        else if decide (flag = POLLOUT) then on_handler s io_send lw
        else if decide (flag = Z.lor POLLOUT POLLIN) then (on_handler s io_send ≫= λ _, on_handler s io_rcv) lw
        else if dmem s (_socket_to_handler lw.1) then (Raise (RuntimeError "Unknown flag"), lw) else (Raise KeyError, lw)
      else (Ok (), lw)
  end.

(** [_loop]: the entries of the successive polls; an exception ends the thread. *)
Definition _loop (entries : list polled) : M (IOLoop * W) () := for_each entries loop_entry.
End loop.
Arguments IOLoop : clear implicits.

(** ** The transfer handlers as an instance *)

(** What waits on each socket, which sockets take no more data, and what was sent. *)
Record World := mkWorld {
  w_in : dict nat (list bytes);
  w_full : list nat;
  w_sent : list (nat * bytes);
}.

#[global] Instance remote_io : IOHandler RemoteHandler World := {
  io_create := remote_create_sockets;
  io_sockets_meta := h_sockets_meta;
  io_send s := λ '(h, w),
    let '(r, h') := remote_send s (bool_decide (s ∉ w_full w)) h in
    match r with
    | Ok (Some data) => (Ok (), (h', mkWorld (w_in w) (w_full w) (w_sent w ++ [(s, data)])))
    | Ok None => (Ok (), (h', w))
    | Raise e => (Raise e, (h', w))
    end;
  io_rcv s := λ '(h, w),
    match dget (w_in w) s with
    | Some (data :: rest) =>
        let '(r, h') := remote_rcv s (Some data) h in (r, (h', mkWorld (dset (w_in w) s rest) (w_full w) (w_sent w)))
    | _ => let '(r, h') := remote_rcv s None h in (r, (h', w))
    end;
}.

(** [TransferActor.__init__]: the sender is registered before the receiver. *)
Definition new_TransferActor (name : string) (in_channels out_channels : option (list (string * RemoteInfo))) : res (IOLoop RemoteHandler) :=
  match in_channels, out_channels with
  | None, None => Raise (ValueError "Transfer actor should have at least one of in_channels or out_channels")
  | _, _ =>
      l ← match out_channels with
          | None => Ok new_IOLoop
          | Some cs => h ← new_RemoteHandler name true cs; register h new_IOLoop
          end;
      match in_channels with
      | None => Ok l
      | Some cs => h ← new_RemoteHandler name false cs; register h l
      end
  end.

(** ** Lemmas *)

Section lemmas.
Context {H W : Type} `{!IOHandler H W}.

(** The metadata of the sockets that connect. *)
Definition awaited (l : IOLoop H) (meta : SocketMetadata) : Prop :=
  ∃ s, dget (_monitor_sockets l) s = Some meta ∧ sm_kind meta = CONNECT.

(** The loop while it collects its sockets. *)
Record collecting (l : IOLoop H) : Prop := {
  co_wf : dict_wf (_to_be_connected l);
  co_keys : dkeys (_socket_to_handler l) = dkeys (_monitor_sockets l);
  co_awaited : ∀ meta, meta ∈ dkeys (_to_be_connected l) ↔ awaited l meta;
  co_false : ∀ meta v, dget (_to_be_connected l) meta = Some v → v = (false, None);
  co_event : _all_connected_event l = false;
}.

Lemma collecting_add k l ms l' : collecting l → add_socket k l ms = Ok l' → collecting l'.
Proof.
  intros [C1 C2 C3 C4 C5]. destruct ms as [meta s]. unfold add_socket. destruct (dmem s (_socket_to_handler l)) eqn:Es; [done|].
  intros <-%Ok_inj. apply dmem_false in Es. assert (dget (_monitor_sockets l) s = None) as Em by (apply dget_None; by rewrite <- C2).
  split; cbn [_to_be_connected _socket_to_handler _monitor_sockets _all_connected_event]; [|..|done].
  - case_decide; auto with volga.
  - rewrite !dkeys_dset_new, C2 by (done || by rewrite <- C2). done.
  - intros m. unfold awaited. cbn [_monitor_sockets].
    assert ((∃ x, dget (dset (_monitor_sockets l) s meta) x = Some m ∧ sm_kind m = CONNECT) ↔ awaited l m ∨ (m = meta ∧ sm_kind m = CONNECT)) as ->.
    { split.
      - intros (x & Hx & Hk). rewrite dget_dset in Hx. case_decide; [right; split; congruence|left; by exists x].
      - intros [(x & Hx & Hk)|[-> Hk]]; [|exists s; by rewrite dget_dset_eq].
        exists x. split; [|done]. rewrite dget_dset_ne; [done|]. intros ->. congruence. }
    case_decide as Hk.
    + rewrite elem_dkeys_dget, dget_dset. case_decide; [subst; split; eauto|]. rewrite <- elem_dkeys_dget, C3. tauto.
    + rewrite C3. split; [by left|]. intros [?|[-> ?]]; done.
  - intros m v. case_decide; [|apply C4]. rewrite dget_dset. case_decide; [congruence|apply C4].
Qed.

Lemma collecting_adds k mss : ∀ l l', collecting l → foldR (add_socket k) l mss = Ok l' → collecting l'.
Proof.
  induction mss as [|ms mss IH]; intros l l' Hc; cbn [foldR]; [by intros <-%Ok_inj|].
  destruct (add_socket k l ms) as [l1|] eqn:E; [|done]. cbn [mbind res_bind]. apply IH. by eapply collecting_add.
Qed.

Lemma collecting_handlers khs : ∀ sl sl', collecting sl.2 → foldR start_handler_k sl khs = Ok sl' → collecting sl'.2.
Proof.
  induction khs as [|[k h] khs IH]; intros sl sl' Hc; cbn [foldR]; [by intros <-%Ok_inj|].
  destruct (start_handler_k sl (k, h)) as [sl1|] eqn:E; [|done]. cbn [mbind res_bind]. apply IH.
  unfold start_handler_k in E. destruct (io_create sl.1 (k, h).2) as [cr|]; [|done]. cbn [mbind res_bind] in E.
  destruct (foldR (add_socket (k, h).1) sl.2 (cr_sockets cr)) as [l|] eqn:El; [|done]. cbn [mbind res_bind] in E.
  case_decide; [done|]. apply Ok_inj in E as <-. destruct (collecting_adds _ _ _ _ Hc El) as [C1 C2 C3 C4 C5]. by split.
Qed.

(** ** The loop as it runs *)

(** [l0] is the loop as it started and [es] are the entries it has processed. *)
Record looping (l0 : IOLoop H) (es : list polled) (l : IOLoop H) : Prop := {
  lo_monitor : _monitor_sockets l = _monitor_sockets l0;
  lo_wf : dict_wf (_to_be_connected l);
  lo_awaited : ∀ meta, meta ∈ dkeys (_to_be_connected l) ↔ awaited l0 meta;
  lo_connected : ∀ meta v, dget (_to_be_connected l) meta = Some v →
    v.1 = true ↔ ∃ s, dget (_monitor_sockets l0) s = Some meta ∧ Monitor s CONNECTED ∈ es;
  lo_event : _all_connected_event l = forallb (λ e : SocketMetadata * (bool * option Event), e.2.1) (_to_be_connected l);
}.

Lemma forallb_dict (d : dict SocketMetadata (bool * option Event)) :
  dict_wf d → forallb (λ e : SocketMetadata * (bool * option Event), e.2.1) d = true ↔ ∀ k v, dget d k = Some v → v.1 = true.
Proof.
  intros Hd. rewrite forallb_forall. split.
  - intros Hall k v Hk. apply (Hall (k, v)). apply list_elem_of_In. by apply dget_Some_elem.
  - intros Hall [k v] Hin%list_elem_of_In. apply (Hall k v). by apply dget_elem_wf.
Qed.

Lemma started_looping next l0 n l :
  collecting l0 → _start_loop next l0 = Ok (n, l) → looping l [] l ∧ running l = true.
Proof.
  intros Hc. unfold _start_loop. destruct (foldR _ _ _) as [r|] eqn:E; [|done]. cbn [mbind res_bind].
  apply collecting_handlers in E as [C1 C2 C3 C4 C5]; [|done]. intros [= _ <-]. split; [|done].
  split; cbn [_monitor_sockets _to_be_connected _all_connected_event]; [done|done|apply C3| |].
  - intros meta v Hv. rewrite (C4 meta v Hv). split; [done|]. intros (s & _ & Hin). by apply elem_of_nil in Hin.
  - rewrite C5. cbn [orb]. apply eq_bool_prop_intro. rewrite bool_decide_spec, Is_true_true, forallb_dict by done. split; [by intros ->|].
    intros Hall. destruct (_to_be_connected r.2) as [|[k v] d] eqn:Ed; [done|]. assert (dget ((k, v) :: d) k = Some v) as Hk.
    { apply dget_elem_wf; [done|by left]. }
    pose proof (Hall k v Hk) as Ht. by rewrite (C4 k v Hk) in Ht.
Qed.

(** A monitor event is recorded, and the event that all are connected is set exactly when it is true. *)
Lemma monitor_looping l0 es l s meta event :
  looping l0 es l → dget (_monitor_sockets l0) s = Some meta →
  ∃ l', _on_monitor_event meta event l = Ok l' ∧ looping l0 (es ++ [Monitor s event]) l' ∧
    _registered_handlers l' = _registered_handlers l.
Proof.
  intros [L1 L2 L3 L4 L5] Hs. unfold _on_monitor_event.
  assert (∀ m, (∃ x, dget (_monitor_sockets l0) x = Some m ∧ Monitor x CONNECTED ∈ es ++ [Monitor s event]) ↔
    (∃ x, dget (_monitor_sockets l0) x = Some m ∧ Monitor x CONNECTED ∈ es) ∨ (m = meta ∧ event = CONNECTED)) as Hev.
  { intros m. split.
    - intros (x & Hx & [?|Hy%list_elem_of_singleton]%elem_of_app); [left; eauto|]. injection Hy as -> <-. right. split; congruence.
    - intros [(x & Hx & ?)|[-> ->]]; [exists x; split; [done|apply elem_of_app; by left]|].
      exists s. split; [done|apply elem_of_app; right; by left]. }
  case_decide as Hk.
  - assert (meta ∈ dkeys (_to_be_connected l)) as Hin by (apply L3; by exists s).
    pose proof Hin as [[con e] Hc]%elem_dkeys_dget. unfold dgetitem. rewrite Hc. cbn [from_option_exn mbind res_bind fst].
    set (con' := if decide (event = CONNECTED) then true else con).
    assert ((if decide (event = CONNECTED) then Ok true else Ok con) = Ok con') as -> by by (unfold con'; case_decide).
    cbn [mbind res_bind]. eexists. split; [reflexivity|]. split; [|done].
    assert (dict_wf (dset (_to_be_connected l) meta (con', Some event))) as Hwf by auto with volga.
    split; cbn [_monitor_sockets _to_be_connected _all_connected_event]; [done|done|..].
    + intros m. rewrite dkeys_dset, (proj2 (dmem_elem _ _) Hin). apply L3.
    + intros m v. rewrite dget_dset, Hev. case_decide as Hm.
      * intros [= <-]. subst m. cbn [fst]. rewrite <- (L4 meta _ Hc). unfold con'. cbn [fst]. case_decide; tauto.
      * intros Hv. rewrite (L4 m v Hv). tauto.
    + apply eq_bool_prop_intro. rewrite orb_True, !Is_true_true, L5, !forallb_dict by done. split; [|by right].
      intros [Hall|?]; [|done]. intros k v. rewrite dget_dset. case_decide; [|apply Hall]. intros [= <-]. cbn.
      unfold con'. case_decide; [done|]. apply (Hall meta _ Hc).
  - exists l. split; [done|]. split; [|done]. split; try done. intros m v Hv. rewrite (L4 m v Hv), Hev.
    split; [by left|]. intros [?|[-> _]]; [done|]. destruct Hk. destruct (proj1 (L3 meta)) as (x & _ & ?); [|done].
    apply elem_dkeys_dget. eauto.
Qed.

Lemma looping_data l0 es l s flag : looping l0 es l → looping l0 (es ++ [Data s flag]) l.
Proof.
  intros [L1 L2 L3 L4 L5]. split; try done. intros m v Hv. rewrite (L4 m v Hv). split; intros (x & Hx & Hin); exists x; (split; [done|]).
  - apply elem_of_app. by left.
  - apply elem_of_app in Hin as [?|Hin%list_elem_of_singleton]; done.
Qed.

Lemma on_handler_looping l0 es s m (lw : IOLoop H * W) : looping l0 es lw.1 → looping l0 es (on_handler s m lw).2.1.
Proof.
  intros Hl. unfold on_handler. destruct (dget _ s) as [k|]; [|done]. destruct (_ !! k) as [h|]; [|done].
  destruct (m s (h, lw.2)) as [r [h' w']]. destruct Hl as [L1 L2 L3 L4 L5]. by split.
Qed.

Lemma entry_looping l0 es p (lw : IOLoop H * W) :
  looping l0 es lw.1 → looping l0 (es ++ [p]) (loop_entry p lw).2.1.
Proof.
  intros Hl. destruct p as [s flag|s event]; cbn [loop_entry].
  - apply (looping_data l0 es _ s flag) in Hl. destruct (_all_connected_event lw.1); [|done].
    repeat case_decide; [by apply on_handler_looping..| |by case_match].
    unfold mbind, M_bind. pose proof (on_handler_looping l0 _ s io_send lw Hl) as Hs1.
    destruct (on_handler s io_send lw) as [[|] lw1]; [by apply on_handler_looping|done].
  - rewrite (lo_monitor _ _ _ Hl). destruct (dget (_monitor_sockets l0) s) as [meta|] eqn:Es.
    + destruct (monitor_looping l0 es lw.1 s meta event Hl Es) as (l' & -> & Hl' & _). done.
    + cbn. destruct Hl as [L1 L2 L3 L4 L5]. split; try done. intros m v Hv. rewrite (L4 m v Hv). split; intros (x & Hx & Hin); exists x; (split; [done|]).
      * apply elem_of_app. by left.
      * apply elem_of_app in Hin as [?|[= -> _]%list_elem_of_singleton]; [done|congruence].
Qed.

(** Every socket that connects has reported so. *)
Definition all_connected (l0 : IOLoop H) (es : list polled) : Prop :=
  ∀ meta, awaited l0 meta → ∃ s, dget (_monitor_sockets l0) s = Some meta ∧ Monitor s CONNECTED ∈ es.

Lemma event_all_connected l0 es l : looping l0 es l → _all_connected_event l = true ↔ all_connected l0 es.
Proof.
  intros [L1 L2 L3 L4 L5]. rewrite L5, forallb_dict by done. split.
  - intros Hall meta [[v e] Hv]%L3%elem_dkeys_dget. apply (L4 meta _ Hv). by apply (Hall meta).
  - intros Hall meta v Hv. apply (L4 meta v Hv), Hall, L3, elem_dkeys_dget. eauto.
Qed.

(** Before the event is set an entry leaves the handlers and the world as they are. *)
Lemma entry_quiet l0 es p (lw : IOLoop H * W) :
  looping l0 es lw.1 → _all_connected_event lw.1 = false →
  (loop_entry p lw).2.2 = lw.2 ∧ _registered_handlers (loop_entry p lw).2.1 = _registered_handlers lw.1.
Proof.
  intros Hl He. destruct p as [s flag|s event]; cbn [loop_entry]; [by rewrite He|].
  destruct (dget (_monitor_sockets lw.1) s) as [meta|] eqn:Es; [|done]. rewrite (lo_monitor _ _ _ Hl) in Es.
  by destruct (monitor_looping l0 es lw.1 s meta event Hl Es) as (l' & -> & _ & Hh).
Qed.

Lemma loop_looping l0 es' : ∀ es (lw : IOLoop H * W),
  looping l0 es lw.1 →
  (∃ used, used `prefix_of` es' ∧ looping l0 (es ++ used) (_loop es' lw).2.1 ∧ ((_loop es' lw).1 = Ok () → used = es')) ∧
  (¬ all_connected l0 (es ++ es') →
     (_loop es' lw).2.2 = lw.2 ∧ _registered_handlers (_loop es' lw).2.1 = _registered_handlers lw.1).
Proof.
  induction es' as [|p es' IH]; intros es lw Hl.
  - split; [|done]. exists []. by rewrite app_nil_r.
  - pose proof (entry_looping l0 es p lw Hl) as Hl1. pose proof (entry_quiet l0 es p lw Hl) as Hq.
    unfold _loop in *. cbn [for_each]. unfold mbind, M_bind.
    assert (¬ all_connected l0 (es ++ p :: es') → _all_connected_event lw.1 = false) as Hno.
    { intros Hn. apply not_true_is_false. intros He. apply Hn. intros meta Hm.
      apply (event_all_connected _ _ _ Hl) in He. destruct (He meta Hm) as (s & ? & ?). exists s. split; [done|]. apply elem_of_app. by left. }
    destruct (loop_entry p lw) as [[[]|e] lw1]; cbn [fst snd] in *.
    + destruct (IH (es ++ [p]) lw1 Hl1) as [(used & Hu & Hl' & Hr) Hquiet]. rewrite <- !app_assoc in Hl', Hquiet. split.
      * exists (p :: used). split_and!; [by apply prefix_cons|done|]. intros Hr'. by rewrite (Hr Hr').
      * intros Hn. destruct (Hquiet Hn) as [E1 E2]. destruct (Hq (Hno Hn)) as [E3 E4]. split; congruence.
    + split; [|intros Hn; by apply Hq, Hno]. exists [p]. split_and!; [by apply prefix_cons, prefix_nil|done|done].
Qed.

(** ** Theorems *)

(** C25. The loop lets no handler send or receive before every connecting socket has reported that it is
    connected, and from then on it does: after any polls the event [start] waits for is set exactly when
    all of them have, and until then handlers and sockets are untouched. *)
Theorem loop_waits_for_connections (next n : nat) (l0 l : IOLoop H) (w : W) (es : list polled) :
  collecting l0 → _start_loop next l0 = Ok (n, l) →
  ((_loop es (l, w)).1 = Ok () → _all_connected_event (_loop es (l, w)).2.1 = true ↔ all_connected l es) ∧
  (¬ all_connected l es → (_loop es (l, w)).2.2 = w ∧ _registered_handlers (_loop es (l, w)).2.1 = _registered_handlers l).
Proof.
  intros Hc E. destruct (started_looping next l0 n l Hc E) as [Hl _].
  destruct (loop_looping l es [] (l, w) Hl) as [(used & _ & Hl' & Hr) Hq]. split; [|apply Hq].
  intros Hok. rewrite (Hr Hok) in Hl'. by apply event_all_connected.
Qed.
End lemmas.

(** ** Starting and closing *)

(** The two threads of [start]: the caller waits, and on a time-out calls [close]; the loop thread
    creates the sockets, sets [running] and polls while [running] holds. *)
Inductive loop_pc := Creating | Polling | Exited.
Record threads := mkThreads { th_running : bool; th_loop : loop_pc; th_closed : bool }.
Definition after_start : threads := mkThreads true Creating false.

Inductive thread_step : threads → threads → Prop :=
| loop_ready r c : thread_step (mkThreads r Creating c) (mkThreads true Polling c)
| loop_poll c : thread_step (mkThreads true Polling c) (mkThreads true Polling c)
| loop_exit c : thread_step (mkThreads false Polling c) (mkThreads false Exited c)
| close_loop r pc : thread_step (mkThreads r pc false) (mkThreads false pc true).

(** When [close] runs before the sockets are there, [_start_loop] sets [running] again and nobody ever
    stops the thread. *)
Theorem close_during_setup_is_lost (t : threads) :
  rtc thread_step (mkThreads false Creating true) t → th_loop t ≠ Exited ∧ (th_loop t = Polling → th_running t = true).
Proof.
  intros Hr. remember (mkThreads false Creating true) as t0 eqn:E0.
  assert (t0 = mkThreads false Creating true ∨ t0 = mkThreads true Polling true) as Ht by by left. clear E0.
  induction Hr as [t|t1 t2 t3 Hs Hr IH]; [by destruct Ht as [-> | ->]|].
  apply IH. destruct Ht as [-> | ->]; inversion Hs; subst; by right.
Qed.

(** Otherwise the thread can end. *)
Lemma close_after_setup : rtc thread_step after_start (mkThreads false Exited true).
Proof.
  eapply rtc_l; [apply loop_ready|]. eapply rtc_l; [apply close_loop|]. eapply rtc_l; [apply loop_exit|]. done.
Qed.

(** ** Transfer actors *)

Lemma collecting_new {H} : collecting (@new_IOLoop H).
Proof. split; [apply dict_wf_nil|done| |done..]. intros meta. split; [intros Hx; by apply elem_of_nil in Hx|by intros (s & Hs & _)]. Qed.
Lemma collecting_register {H} (h : H) l l' : collecting l → register h l = Ok l' → collecting l'.
Proof. unfold register. destruct (running l); [done|]. intros [C1 C2 C3 C4 C5] <-%Ok_inj. by split. Qed.

Lemma transfer_actor_collecting name ins outs l : new_TransferActor name ins outs = Ok l → collecting l.
Proof.
  unfold new_TransferActor. intros E.
  assert ((l1 ← match outs with None => Ok new_IOLoop | Some cs => h ← new_RemoteHandler name true cs; register h new_IOLoop end;
           match ins with None => Ok l1 | Some cs => h ← new_RemoteHandler name false cs; register h l1 end) = Ok l) as E'.
  { by destruct ins, outs. }
  clear E. destruct (match outs with None => _ | Some cs => _ end) as [l1|] eqn:E1; [|done]. cbn [mbind res_bind] in E'.
  assert (collecting l1) as H1.
  { destruct outs as [cs|]; [|apply Ok_inj in E1 as <-; apply collecting_new]. destruct (new_RemoteHandler name true cs); [|done].
    eapply collecting_register; [apply collecting_new|done]. }
  destruct ins as [cs|]; [|by apply Ok_inj in E' as <-]. destruct (new_RemoteHandler name false cs); [|done].
  by eapply collecting_register.
Qed.

(** ** Witness: the transfer actor of node A *)

Definition ex_loop0 : IOLoop RemoteHandler :=
  match new_TransferActor "t" None (Some ex_chans) with Ok l => l | Raise _ => new_IOLoop end.
Definition ex_loop : IOLoop RemoteHandler :=
  match _start_loop 0 ex_loop0 with Ok r => r.2 | Raise _ => new_IOLoop end.
Definition ex_world : World := mkWorld [(0, [ex_data "a"%char 0])] [] [].
Definition ex_entries : list polled :=
  [Data 0 1; Monitor 0 CONNECTED; Monitor 2 CONNECTED; Data 0 1; Monitor 1 CONNECTED; Data 0 3; Data 1 2].

Lemma loop_waits_for_connections_witness :
  (_loop (take 4 ex_entries) (ex_loop, ex_world)).2.2 = ex_world ∧
  (_all_connected_event (_loop ex_entries (ex_loop, ex_world)).2.1 = true ↔ all_connected ex_loop ex_entries) ∧
  w_sent (_loop ex_entries (ex_loop, ex_world)).2.2 = [(1, ex_data "a"%char 0)].
Proof.
  assert (collecting ex_loop0) as Hc by (apply (transfer_actor_collecting "t" None (Some ex_chans)); by vm_compute).
  split_and!.
  - apply (loop_waits_for_connections 0 3 ex_loop0 ex_loop ex_world (take 4 ex_entries) Hc); [by vm_compute|].
    intros Hall. destruct (Hall (remote_meta true "a" (ex_info "a"))) as (s & Hs & Hin).
    { exists 1. by vm_compute. }
    repeat (apply elem_of_cons in Hin as [Hin|Hin]; [try done; injection Hin as ->; by vm_compute in Hs|]).
    by apply elem_of_nil in Hin.
  - apply (loop_waits_for_connections 0 3 ex_loop0 ex_loop ex_world ex_entries Hc); by vm_compute.
  - by vm_compute.
Defined.
