(* ===== verification/Legacy.v ===== *)
(** * The first data writer and reader, and socket helpers
    ([volga/streaming/runtime/network_deprecated/deprecated/data_writer.py], [data_reader.py] and [channel.py] there,
     [network_deprecated/socket_utils.py], [network_deprecated/config.py], [network_deprecated/channel.py])

    Before buffers there was a writer with one ZeroMQ socket per channel that sends a record as
    a JSON text, and a reader that polls its sockets in turn.  The sockets are numbered in the
    order they are made; what was done to them is a trace, and whether an address can be bound
    and what arrives is decided by the environment. *)

From S2P Require Import Prelude PyDict PyDecimal Message Execution Workers.
From Stdlib Require String.

(** ** Sockets *)

Inductive zmq_event :=
| EOption (s : nat) (name : string) (value : Z)
| EBind (s : nat) (addr : string)
| EConnect (s : nat) (addr : string)
| ESend (s : nat) (text : string)
| EClose (s : nat).
#[global] Instance zmq_event_eq_dec : EqDecision zmq_event.
Proof. solve_decision. Defined.

(** The sockets made so far and what was done to them. *)
Record zmq := mkZmq { next_socket : nat; trace : list zmq_event }.
Definition no_sockets : zmq := mkZmq 0 [].
Definition new_socket : M zmq nat := λ z, (Ok (next_socket z), mkZmq (S (next_socket z)) (trace z)).
Definition emit (e : zmq_event) : M zmq () := λ z, (Ok (), mkZmq (next_socket z) (trace z ++ [e])).

(** [ZMQConfig] and [NetworkConfig] *)
Record ZMQConfig := mkZC { LINGER : option Z; SNDHWM : option Z; RCVHWM : option Z; SNDBUF : option Z; RCVBUF : option Z }.
Definition DEFAULT_ZMQ_CONFIG : ZMQConfig := mkZC (Some 0%Z) (Some 1000%Z) (Some 1000%Z) (Some (32 * 1024)%Z) (Some (32 * 1024)%Z).
Record NetworkConfig := mkNC { nc_zmq : option ZMQConfig; ack_batch_size : Z }.
Definition DEFAULT_NETWORK_CONFIG : NetworkConfig := mkNC (Some DEFAULT_ZMQ_CONFIG) 1.

(** [configure_socket] *)
Definition set_option (s : nat) (name : string) (value : option Z) : M zmq () :=
  match value with Some v => emit (EOption s name v) | None => mret () end.
Definition configure_socket (s : nat) (c : ZMQConfig) : M zmq () :=
  set_option s "LINGER" (LINGER c) ≫= λ _, set_option s "SNDHWM" (SNDHWM c) ≫= λ _, set_option s "RCVHWM" (RCVHWM c) ≫= λ _,
  set_option s "SNDBUF" (SNDBUF c) ≫= λ _, set_option s "RCVBUF" (RCVBUF c) ≫= λ _, emit (EOption s "CONNECT_TIMEOUT" 4).

(** [rcv_no_block] and [send_no_block]: every exception of the socket counts as nothing received, or not sent. *)
Definition rcv_no_block {W A} (recv : M W A) : W → option A * W := λ w,
  match recv w with (Ok data, w') => (Some data, w') | (Raise _, w') => (None, w') end.
Definition send_no_block {W} (send : M W ()) : W → bool * W := λ w,
  match send w with (Ok _, w') => (true, w') | (Raise _, w') => (false, w') end.

(** *** Who owns a port *)

(** A connection as psutil lists it: the ports of its two addresses, where it has them, and its process. *)
Record connection := mkConn { raddr : option Z; laddr : option Z; c_pid : option Z; c_status : string }.

Definition uses_port (port : Z) (c : connection) : bool := bool_decide (raddr c = Some port) || bool_decide (laddr c = Some port).
Fixpoint get_port_owner_pid (port : Z) (connections : list connection) : option (option Z * string) :=
  match connections with
  | [] => None
  | con :: rest => if uses_port port con then Some (c_pid con, c_status con) else get_port_owner_pid port rest
  end.

(** [_try_tcp_bind]: what the first and the second attempt to bind answer, the connections of the host, and the
    processes killed.  An answer is [None], or the text of the error. *)
Definition address_in_use (strerror : string) : bool :=
  match String.index 0 "Address already in use" strerror with Some _ => true | None => false end.
Definition _try_tcp_bind (bind1 bind2 : option string) (connections : list connection) (port : Z) : M (list Z) () := λ killed,
  match bind1 with
  | None => (Ok (), killed)
  | Some err =>
      if address_in_use err then
        match get_port_owner_pid port connections with
        | None => (Raise (RuntimeError "Unable to bind and find a port owner"), killed)
        | Some (None, _) => (Raise TypeError, killed)
        | Some (Some pid, _) =>
            (match bind2 with None => Ok () | Some err' => Raise (Exception err') end, killed ++ [pid])
        end
      else (Raise (Exception err), killed)
  end.

(** ** Channels *)

(** [gen_ipc_addr] of the deprecated channels *)
Definition gen_ipc_addr (job_name channel_id : string) (node_id : option string) : string :=
  ("ipc:///tmp/volga_ipc/" +:+ job_name +:+ "/ipc_" +:+ channel_id +:+ match node_id with None => "" | Some n => "_" +:+ n end)%string.

(** What a writer or a reader is given: a [Channel_DEP] or a channel of the later classes. *)
Inductive channel_object :=
| Channel_DEP (channel_id source_ip : string) (source_port : Z)
| LaterChannel (c : Channel).
Definition obj_channel_id (c : channel_object) : string :=
  match c with Channel_DEP i _ _ => i | LaterChannel c => channel_id c end.
(** Only [Channel_DEP] has these attributes. *)
Definition attr_source (c : channel_object) : res (string * Z) :=
  match c with Channel_DEP _ ip port => Ok (ip, port) | LaterChannel _ => Raise AttributeError end.
Definition is_remote_channel (c : channel_object) : bool :=
  match c with LaterChannel (RemoteChannel _ _) => true | _ => false end.

Inductive TransportType := ZMQ_PUSH_PULL | ZMQ_PUB_SUB | RAY_SHARED_MEM.
#[global] Instance TransportType_eq_dec : EqDecision TransportType.
Proof. solve_decision. Defined.

Section legacy.
Context {K V : Type}.
Local Abbreviation rc := (rec K V).
Local Abbreviation Msg := (dict string (field K V)).
(** [simplejson], and whether an address can be bound. *)
Context (dumps : Msg → res string) (loads : string → res Msg) (can_bind : string → bool).

Definition bind (s : nat) (addr : string) : M zmq () := λ z,
  if can_bind addr then emit (EBind s addr) z else (Raise (Exception "ZMQError"), z).

(** ** [DataWriter_DEPR] *)

Record DataWriter_DEPR := mkDW { source_stream_name : string; sockets : dict string nat }.

Definition open_writer_channel (d : dict string nat) (c : channel_object) : M zmq (dict string nat) :=
  if dmem (obj_channel_id c) d then raise (RuntimeError "duplicate channel ids")
  else new_socket ≫= λ s, emit (EOption s "LINGER" 0) ≫= λ _,
       match attr_source c with
       | Raise e => raise e
       | Ok (_, port) => bind s ("tcp://127.0.0.1:" +:+ str port) ≫= λ _, mret (dset d (obj_channel_id c) s)
       end.
Fixpoint open_writer_channels (d : dict string nat) (cs : list channel_object) : M zmq (dict string nat) :=
  match cs with
  | [] => mret d
  | c :: cs' => open_writer_channel d c ≫= λ d', open_writer_channels d' cs'
  end.
Definition new_DataWriter_DEPR (stream : string) (channels : list channel_object) (transport : TransportType) : M zmq DataWriter_DEPR :=
  if decide (transport = ZMQ_PUSH_PULL) then open_writer_channels [] channels ≫= λ d, mret (mkDW stream d)
  else raise (RuntimeError "Unsupported transport").

Definition lift {A} (r : res A) : M zmq A := λ z, (r, z).
Definition _write_message (self : DataWriter_DEPR) (ch : string) (message : Msg) : M zmq () :=
  lift (dumps message) ≫= λ json_str, lift (dgetitem (sockets self) ch) ≫= λ s, emit (ESend s json_str).
Definition write_record (self : DataWriter_DEPR) (ch : string) (record : rc) : M zmq () :=
  _write_message self ch (to_channel_message (set_stream_name (Some (source_stream_name self)) record)).
Definition close_sockets (d : dict string nat) : M zmq () := for_each (dvalues d) (λ s, emit (EClose s)).
Definition close_writer (self : DataWriter_DEPR) : M zmq () := close_sockets (sockets self).

(** ** [DataReader_DEPR] *)

Record DataReader_DEPR := mkDR { input_channels : list channel_object; cur_read_id : nat; running : bool; r_sockets : dict string nat }.

Definition open_reader_channel (d : dict string nat) (c : channel_object) : M zmq (dict string nat) :=
  if is_remote_channel c then
    new_socket ≫= λ s, emit (EOption s "LINGER" 0) ≫= λ _,
    match attr_source c with
    | Raise e => raise e
    | Ok (ip, port) => emit (EConnect s ("tcp://" +:+ ip +:+ ":" +:+ str port)) ≫= λ _, mret (dset d (obj_channel_id c) s)
    end
  else raise AssertionError.
Fixpoint open_reader_channels (d : dict string nat) (cs : list channel_object) : M zmq (dict string nat) :=
  match cs with
  | [] => mret d
  | c :: cs' => open_reader_channel d c ≫= λ d', open_reader_channels d' cs'
  end.
Definition new_DataReader_DEPR (channels : list channel_object) (transport : TransportType) : M zmq DataReader_DEPR :=
  if decide (transport = ZMQ_PUSH_PULL) then open_reader_channels [] channels ≫= λ d, mret (mkDR channels 0 true d)
  else raise (RuntimeError "Unsupported transport").

(** One round of [read_message]: the socket of the next channel is asked for a text; [recv] is what it has, [None] when
    [recv_string] raises. *)
Definition read_round (recv : nat → option string) (self : DataReader_DEPR) : res (option string * DataReader_DEPR) :=
  c ← from_option_exn IndexError (input_channels self !! cur_read_id self);
  s ← dgetitem (r_sockets self) (obj_channel_id c);
  Ok (recv s, mkDR (input_channels self) ((cur_read_id self + 1) mod length (input_channels self)) (running self) (r_sockets self)).

(** [read_message]: what the sockets have in each round, and before which round another thread closes the reader. *)
Definition stop_if (b : bool) (self : DataReader_DEPR) : DataReader_DEPR :=
  mkDR (input_channels self) (cur_read_id self) (running self && negb b) (r_sockets self).
Fixpoint read_message (rounds : list ((nat → option string) * bool)) (self : DataReader_DEPR) : option (res (option Msg) * DataReader_DEPR) :=
  if running self then
    match rounds with
    | [] => None
    | (recv, stop) :: rounds' =>
        match read_round recv self with
        | Raise e => Some (Raise e, self)
        | Ok (Some json_str, self') => Some (msg ← loads json_str; Ok (Some msg), self')
        | Ok (None, self') => read_message rounds' (stop_if stop self')
        end
    end
  else Some (Ok None, self).

Definition close_reader (self : DataReader_DEPR) : M zmq DataReader_DEPR :=
  close_sockets (r_sockets self) ≫= λ _, mret (mkDR (input_channels self) (cur_read_id self) false (r_sockets self)).
End legacy.

(** ** Properties *)

Section properties.
Context {K V : Type} (dumps : dict string (field K V) → res string) (loads : string → res (dict string (field K V))) (can_bind : string → bool).

(** No reader ever reads.  The reader asserts that its channels are [RemoteChannel]s and then asks them for an address only
    [Channel_DEP]s have: with any channel it cannot be made, and without channels the first read raises. *)
Theorem legacy_reader_never_reads channels transport z :
  match new_DataReader_DEPR channels transport z with
  | (Raise e, _) => channels ≠ [] ∨ transport ≠ ZMQ_PUSH_PULL
  | (Ok r, _) => channels = [] ∧ ∀ rounds, rounds ≠ [] → read_message loads rounds r = Some (Raise IndexError, r)
  end.
Proof.
  unfold new_DataReader_DEPR. case_decide as Ht; [|by right]. destruct channels as [|c cs]; cbn.
  - split; [done|]. by intros [|[recv stop] rounds] Hne.
  - unfold mbind, M_bind, open_reader_channel. destruct c as [i ip port|[i a|i info]]; cbn; by left.
Qed.

(** *** The writer *)

(** Channels a writer can bind. *)
Definition bindable (c : channel_object) : Prop :=
  match c with Channel_DEP _ _ port => can_bind ("tcp://127.0.0.1:" +:+ str port) = true | LaterChannel _ => False end.
Definition opened (s : nat) (c : channel_object) : list zmq_event :=
  [EOption s "LINGER" 0; EBind s ("tcp://127.0.0.1:" +:+ match c with Channel_DEP _ _ port => str port | LaterChannel _ => "" end)].

Lemma open_writer_ok cs : Forall bindable cs → ∀ d z, NoDup (dkeys d ++ map obj_channel_id cs) →
  open_writer_channels can_bind d cs z =
    (Ok (d ++ zip (map obj_channel_id cs) (seq (next_socket z) (length cs))),
     mkZmq (next_socket z + length cs) (trace z ++ concat (zip_with opened (seq (next_socket z) (length cs)) cs))).
Proof.
  induction 1 as [|c cs Hc _ IH]; intros d z Hnd; cbn.
  { unfold mret, M_ret. rewrite !app_nil_r, Nat.add_0_r. by destruct z. }
  rewrite NoDup_app in Hnd. destruct Hnd as (Hd & Hdis & [Hc1 Hcs]%NoDup_cons).
  assert (obj_channel_id c ∉ dkeys d) as Hnew by (intros Hin; apply (Hdis _ Hin); by left).
  pose proof Hnew as Hn%dmem_false. destruct c as [i ip port|c]; [|done]. cbn in Hc, Hn, Hnew. unfold open_writer_channel. cbn [obj_channel_id attr_source]. rewrite Hn.
  unfold bind, mbind, M_bind, new_socket, emit, mret, M_ret. cbn. rewrite Hc. rewrite IH; cycle 1.
  { rewrite dkeys_dset_new by done. rewrite <- (assoc_L (++)). apply NoDup_app. split_and!; [done| |].
    - intros x Hx. cbn. apply not_elem_of_cons. split; [|intros Hx'; apply (Hdis x Hx); by right]. intros ->. apply (Hdis i Hx). by left.
    - by apply NoDup_cons. }
  cbn. rewrite dset_app_new by done. rewrite <- !(assoc_L (++)). cbn. by rewrite Nat.add_succ_r.
Qed.

(** A repeated channel id is found when its turn comes. *)
Lemma open_writer_duplicate cs : Forall bindable cs → ∀ d z, NoDup (dkeys d) → ¬ NoDup (dkeys d ++ map obj_channel_id cs) →
  (open_writer_channels can_bind d cs z).1 = Raise (RuntimeError "duplicate channel ids").
Proof.
  induction 1 as [|c cs Hc _ IH]; intros d z Hd Hnd; [cbn in Hnd; by rewrite app_nil_r in Hnd|]. cbn [open_writer_channels]. unfold mbind, M_bind.
  unfold open_writer_channel. destruct (dmem (obj_channel_id c) d) eqn:Hm; [done|]. apply dmem_false in Hm.
  destruct c as [i ip port|c]; [|done]. cbn in Hc, Hm. cbn [obj_channel_id attr_source].
  unfold bind, mbind, M_bind, new_socket, emit, mret, M_ret. cbn. rewrite Hc. apply IH.
  - rewrite dkeys_dset_new by done. apply NoDup_app. split_and!; [done| |apply NoDup_singleton]. intros x Hx ->%list_elem_of_singleton. done.
  - rewrite dkeys_dset_new by done. by rewrite <- (assoc_L (++)).
Qed.

(** Writes go out in order on the sockets of their channels. *)
Definition sent_text (d : dict string nat) (stream : string) (w : string * rec K V) (e : zmq_event) : Prop :=
  ∃ s text, dget d w.1 = Some s ∧ dumps (to_channel_message (set_stream_name (Some stream) w.2)) = Ok text ∧ e = ESend s text.

Lemma writes_sent self ws : Forall (λ w, w.1 ∈ dkeys (sockets self) ∧ is_ok (dumps (to_channel_message (set_stream_name (Some (source_stream_name self)) w.2))) = true) ws →
  ∀ z, ∃ es, for_each ws (λ w, write_record dumps self w.1 w.2) z = (Ok (), mkZmq (next_socket z) (trace z ++ es)) ∧
    Forall2 (sent_text (sockets self) (source_stream_name self)) ws es.
Proof.
  induction 1 as [|[ch r] ws [Hch Hr] _ IH]; intros z; [exists []; rewrite app_nil_r; by destruct z|]. cbn [fst snd] in *.
  apply elem_dkeys_dget in Hch as [s Es]. destruct (dumps _) as [text|] eqn:Et; [|done].
  destruct (IH (mkZmq (next_socket z) (trace z ++ [ESend s text]))) as (es & E & HF). exists (ESend s text :: es). split.
  - cbn [for_each fst snd]. unfold mbind at 1, M_bind at 1. cbn [fst snd].
    assert (write_record dumps self ch r z = (Ok (), mkZmq (next_socket z) (trace z ++ [ESend s text]))) as ->
      by (unfold write_record, _write_message, lift, mbind, M_bind, dgetitem; by rewrite Et, Es).
    rewrite E. cbn. by rewrite <- (assoc_L (++)).
  - constructor; [|exact HF]. by exists s, text.
Qed.

(** The writer.  Given channels it can bind, it is made exactly when their ids are distinct: then every channel has its own
    socket, bound to its port, and the records written go out in order, each on the socket of its channel and named
    after the stream.  A repeated id is refused; another transport is refused before any socket is made. *)
Theorem legacy_writer stream channels (z : zmq) : Forall bindable channels →
  (NoDup (map obj_channel_id channels) →
   ∃ self z', new_DataWriter_DEPR can_bind stream channels ZMQ_PUSH_PULL z = (Ok self, z') ∧
     dkeys (sockets self) = map obj_channel_id channels ∧ NoDup (dvalues (sockets self)) ∧
     trace z' = trace z ++ concat (zip_with opened (dvalues (sockets self)) channels) ∧
     ∀ ws, Forall (λ w, w.1 ∈ map obj_channel_id channels ∧ is_ok (dumps (to_channel_message (set_stream_name (Some stream) w.2))) = true) ws →
       ∃ es, for_each ws (λ w, write_record dumps self w.1 w.2) z' = (Ok (), mkZmq (next_socket z') (trace z' ++ es)) ∧
         Forall2 (sent_text (sockets self) stream) ws es) ∧
  (¬ NoDup (map obj_channel_id channels) →
   (new_DataWriter_DEPR can_bind stream channels ZMQ_PUSH_PULL z).1 = Raise (RuntimeError "duplicate channel ids")) ∧
  ∀ t, t ≠ ZMQ_PUSH_PULL → new_DataWriter_DEPR can_bind stream channels t z = (Raise (RuntimeError "Unsupported transport"), z).
Proof.
  intros Hb. split_and!.
  - intros Hnd. unfold new_DataWriter_DEPR. rewrite decide_True by done. unfold mbind, M_bind. rewrite (open_writer_ok channels Hb [] z Hnd). cbn.
    assert (length (map obj_channel_id channels) = length (seq (next_socket z) (length channels))) as Hl by by rewrite length_map, length_seq.
    eexists _, _. split; [done|]. cbn [sockets source_stream_name trace].
    assert (dkeys (zip (map obj_channel_id channels) (seq (next_socket z) (length channels))) = map obj_channel_id channels) as Hk
      by (apply fst_zip; lia).
    assert (dvalues (zip (map obj_channel_id channels) (seq (next_socket z) (length channels))) = seq (next_socket z) (length channels)) as Hv
      by (apply snd_zip; lia).
    rewrite Hk, Hv. split_and!; [done|apply NoDup_seq|done|]. intros ws Hws. apply (writes_sent (mkDW stream _) ws). cbn [sockets source_stream_name]. by rewrite Hk.
  - intros Hnd. unfold new_DataWriter_DEPR. rewrite decide_True by done. unfold mbind, M_bind.
    pose proof (open_writer_duplicate channels Hb [] z (NoDup_nil_2) Hnd) as E. by destruct (open_writer_channels can_bind [] channels z) as [[d|e] z']; cbn in E |- *; simplify_eq.
  - intros t Ht. unfold new_DataWriter_DEPR. by rewrite decide_False.
Qed.
End properties.

(** [_try_tcp_bind] may kill a bystander: it takes for the owner of a port the first process with any connection that has
    the port at either end, so one that is only connected to the same port of another host is killed. *)
Theorem tcp_bind_kills_bystander port other pid status rest killed : other ≠ port →
  let con := mkConn (Some port) (Some other) (Some pid) status in
  laddr con ≠ Some port ∧ _try_tcp_bind (Some "Address already in use") None (con :: rest) port killed = (Ok (), killed ++ [pid]).
Proof.
  intros Hne con. split; [cbn; congruence|]. unfold _try_tcp_bind. replace (address_in_use _) with true by reflexivity. cbn [get_port_owner_pid].
  unfold uses_port. rewrite (bool_decide_eq_true_2 (raddr con = Some port)) by done. done.
Qed.

(** [configure_socket] sets exactly the options that are given, and a connection timeout. *)
Theorem configure_socket_options s c z :
  configure_socket s c z = (Ok (), mkZmq (next_socket z) (trace z ++
    omap (λ o, EOption s o.1 <$> o.2) [("LINGER", LINGER c); ("SNDHWM", SNDHWM c); ("RCVHWM", RCVHWM c); ("SNDBUF", SNDBUF c); ("RCVBUF", RCVBUF c);
      ("CONNECT_TIMEOUT", Some 4%Z)])).
Proof.
  destruct c as [[] [] [] [] []], z; unfold configure_socket, set_option, emit, mbind, M_bind, mret, M_ret; cbn; by rewrite <- ?(assoc_L (++)).
Qed.

(** ** Witnesses *)

Definition ex_legacy : list channel_object := [Channel_DEP "a" "10.0.0.1" 4321; Channel_DEP "b" "10.0.0.1" 4322].

Lemma legacy_writer_witness : ∃ self z', new_DataWriter_DEPR (λ _, true) "src" ex_legacy ZMQ_PUSH_PULL no_sockets = (Ok self, z') ∧
  sockets self = [("a", 0); ("b", 1)] ∧ length (trace z') = 4.
Proof.
  destruct (legacy_writer (K := Z) (V := Z) (λ _, Ok "text") (λ _, true) "src" ex_legacy no_sockets) as [Hok _].
  - repeat constructor.
  - destruct Hok as (self & z' & E & _ & _ & Et & _); [apply (bool_decide_unpack _); reflexivity|].
    exists self, z'. split; [exact E|]. vm_compute in E. injection E as <- <-. split; reflexivity.
Defined.

Lemma tcp_bind_kills_bystander_witness :
  _try_tcp_bind (Some "Address already in use") None [mkConn (Some 8000) (Some 51000) (Some 77) "ESTABLISHED"; mkConn None (Some 8000) (Some 12) "LISTEN"]%Z 8000 []
  = (Ok (), [77]%Z).
Proof. apply (tcp_bind_kills_bystander 8000 51000 77 "ESTABLISHED" [mkConn None (Some 8000) (Some 12) "LISTEN"] [])%Z. lia. Defined.
