(* ===== verification/Singletons.v ===== *)
(** * Process-wide instances
    ([BufferMemoryTracker.instance] of [network_deprecated/buffer/buffer_memory_tracker.py],
     [MetricsRecorder.instance] of [network_deprecated/metrics.py], and the flusher threads of both
     metrics recorders)

    Memory trackers and metrics recorders are class attributes: the first caller in a process
    creates the object, later callers get it back.  A tracker is found by the name of its node
    and job, a recorder by nothing at all. *)

From S2P Require Import Prelude PyDict Codec Buffers Metrics.

(** ** [BufferMemoryTracker] *)

Definition DEFAULT_CAPACITY_PER_IN_CHANNEL : Z := 30.
Definition DEFAULT_CAPACITY_PER_OUT : Z := 20.
Definition LOCKET_LOCK_DIR : string := "/tmp/volga_locks".

(** The name of the instance, and of the shared memory it keeps its dictionary in. *)
Definition tracker_key (node_id job_name : string) : string := node_id +:+ "-" +:+ job_name.
(** [_get_lock]: the lock file. *)
Definition _get_lock (node_id job_name : string) : string := LOCKET_LOCK_DIR +:+ "/" +:+ job_name +:+ "/" +:+ node_id.

(** A tracker of the process: its state, and whether its shared memory was closed. *)
Record tracker_object := mkObj { to_tracker : Tracker; to_closed : bool }.
(** [_instances], and the lock files held by this or another process. *)
Record process := mkProcess { _instances : dict string tracker_object; held : list string }.
Definition new_process : process := mkProcess [] [].

(** [instance] returns a reference into [_instances]; a lock that is held blocks. *)
Definition instance (node_id job_name : string) (capacity_per_in_channel capacity_per_out : Z) : M process string := λ p,
  let key := tracker_key node_id job_name in
  if decide (_get_lock node_id job_name ∈ held p) then (Raise Blocked, p)
  else if dmem key (_instances p) then (Ok key, p)
  else (Ok key, mkProcess (dset (_instances p) key (mkObj (new_tracker capacity_per_in_channel capacity_per_out) false)) (held p)).

(** A method of the instance [key]; [closed_error] is what the dictionary raises once its memory is closed. *)
Definition on_instance (closed_error : exn) {A} (key : string) (m : M Tracker A) : M process A := λ p,
  match dget (_instances p) key with
  | None => (Raise KeyError, p)
  | Some o => if to_closed o then (Raise closed_error, p)
              else let '(r, t) := m (to_tracker o) in (r, mkProcess (dset (_instances p) key (mkObj t false)) (held p))
  end.

(** [get_capacity] and [close] *)
Definition get_capacity (key : string) : M Tracker (option Z) :=
  t_acquire ≫= λ _, (λ t, (Ok (dget (_shared_dict t) key), set_locked false t)) : M Tracker (option Z).
Definition close_tracker (key : string) : M process () := λ p,
  match dget (_instances p) key with
  | None => (Raise KeyError, p)
  | Some o => (Ok (), mkProcess (dset (_instances p) key (mkObj (to_tracker o) true)) (held p))
  end.

(** [_short_hash]: [hexdigest] is the SHA-256 of the text in hexadecimal digits. *)
Definition _short_hash (hexdigest : string → string) (s : string) (len : nat) : res string :=
  let h := String.list_ascii_of_string (hexdigest s) in
  if decide (len < length h) then Ok (String.string_of_list_ascii (take len h)) else Raise (Exception "Length too long").

(** ** [MetricsRecorder] *)

(** The recorder of the process with the job it was created for; [running] is the flag of its flusher thread. *)
Record recorder_object := mkRec { ro_job_name : string; ro_recorder : MetricsRecorder; ro_running : bool; ro_latencies : list (string * string * Z) }.
Definition new_recorder_object (job_name : string) : recorder_object := mkRec job_name new_recorder false [].

(** [start], and [stop], which nothing calls. *)
Definition start_recorder (o : recorder_object) : recorder_object := mkRec (ro_job_name o) (ro_recorder o) true (ro_latencies o).
Definition stop_recorder (o : recorder_object) : recorder_object := mkRec (ro_job_name o) (ro_recorder o) false (ro_latencies o).

(** [MetricsRecorder.instance] *)
Definition recorder_instance (job_name : string) (_instance : option recorder_object) : recorder_object * option recorder_object :=
  let o := match _instance with Some o => o | None => start_recorder (new_recorder_object job_name) end in (o, Some o).

(** [_flusher_loop]: its rounds until [running] is false. *)
Fixpoint _flusher_loop (rounds : nat) (o : recorder_object) : recorder_object :=
  match rounds with
  | O => o
  | S n => if ro_running o then _flusher_loop n (mkRec (ro_job_name o) (_flush_metrics (ro_recorder o)).2 true (ro_latencies o)) else o
  end.

(** [latency]: an observation of the histogram. *)
Definition latency_boundaries : list Z := map (λ i, Z.of_nat (i + 1)) (seq 0 1000).
Definition latency (value : Z) (handler_name channel_id : string) (o : recorder_object) : recorder_object :=
  mkRec (ro_job_name o) (ro_recorder o) (ro_running o) (ro_latencies o ++ [(handler_name, channel_id, value)]).

(** What Ray sees of a report: the tags of the counter and the default tag of the recorder. *)
Definition report_job (o : recorder_object) (e : string * tags * Z) : string * tags * string := (e.1.1, e.1.2, ro_job_name o).

(** [_metrics_filename] of the network layer *)
Definition METRICS_PATH_PREFIX : string := "/tmp/volga/rust/metrics".
Definition _metrics_filename (job_name handler_name : string) : string :=
  METRICS_PATH_PREFIX +:+ "/" +:+ job_name +:+ "/" +:+ handler_name +:+ "_metrics.metrics".

(** ** Lemmas *)

Lemma tracker_key_shared n m j : tracker_key (n +:+ "-" +:+ m) j = tracker_key n (m +:+ "-" +:+ j).
Proof. unfold tracker_key. by rewrite !string_app_assoc. Qed.

Lemma instance_found p node job cin cout key o : held p = [] → key = tracker_key node job → dget (_instances p) key = Some o →
  instance node job cin cout p = (Ok key, p).
Proof.
  intros Hh -> Hk. unfold instance. rewrite Hh, decide_False by (apply not_elem_of_nil). unfold dmem. by rewrite Hk.
Qed.

Lemma instance_new p node job cin cout : held p = [] → dget (_instances p) (tracker_key node job) = None →
  instance node job cin cout p = (Ok (tracker_key node job),
    mkProcess (dset (_instances p) (tracker_key node job) (mkObj (new_tracker cin cout) false)) []).
Proof. intros Hh Hk. unfold instance. rewrite Hh, decide_False by (apply not_elem_of_nil). unfold dmem. by rewrite Hk. Qed.

(** ** Properties *)

(** Trackers are shared by node and job.  The first call of [instance] decides the capacities: later calls for the same node
    and job return the same tracker whatever capacities they ask for, also after it was closed, when every use of it
    raises.  Names are joined with a dash, so different pairs of node and job can share a tracker. *)
Theorem tracker_instance node job cin cout cin' cout' p : held p = [] → dget (_instances p) (tracker_key node job) = None →
  ∃ key p', instance node job cin cout p = (Ok key, p') ∧ instance node job cin' cout' p' = (Ok key, p') ∧
    (dget (_instances p') key = Some (mkObj (new_tracker cin cout) false)) ∧
    (∃ p'', close_tracker key p' = (Ok (), p'') ∧ instance node job cin' cout' p'' = (Ok key, p'') ∧
       ∀ closed_error k _in, is_ok (on_instance closed_error key (try_acquire k _in) p'').1 = false) ∧
    ∀ n m suffix, node = n +:+ "-" +:+ m → job = suffix → instance n (m +:+ "-" +:+ suffix) cin' cout' p' = (Ok key, p').
Proof.
  intros Hh Hk. eexists _, _. split; [by apply instance_new|].
  assert (dget (dset (_instances p) (tracker_key node job) (mkObj (new_tracker cin cout) false)) (tracker_key node job) =
    Some (mkObj (new_tracker cin cout) false)) as Hg by by rewrite dget_dset_eq.
  split; [by eapply instance_found|]. split; [exact Hg|]. split.
  - eexists. split; [unfold close_tracker; cbn [_instances]; rewrite Hg; done|]. split.
    + eapply instance_found; [done..|]. cbn [_instances]. by rewrite dget_dset_eq.
    + intros closed_error k _in. unfold on_instance. cbn [_instances]. by rewrite dget_dset_eq.
  - intros n m suffix -> ->. eapply instance_found; [done| |exact Hg]. apply tracker_key_shared.
Qed.

(** Every job of a process reports under the name of the first one: the recorder is created once, and later calls for other
    jobs return it, so what their handlers count is reported with the first job's name. *)
Theorem recorder_keeps_first_job job1 job2 os : let '(o1, st) := recorder_instance job1 None in let '(o2, _) := recorder_instance job2 st in
  o2 = o1 ∧ ro_running o2 = true ∧
  Forall (λ e, (report_job o2 e).2 = job1) (reports (metric_run os (ro_recorder o2))).
Proof. cbn. split_and!; [done..|]. apply Forall_forall. by intros e _. Qed.

(** ** Witness *)

Lemma tracker_instance_witness : ∃ key p, instance "a-b" "job" 2 3 new_process = (Ok key, p) ∧ instance "a" "b-job" 7 7 p = (Ok key, p).
Proof.
  destruct (tracker_instance "a-b" "job" 2 3 7 7 new_process eq_refl eq_refl) as (key & p & E & _ & _ & _ & Hs).
  exists key, p. split; [exact E|]. exact (Hs "a" "b" "job" eq_refl eq_refl).
Defined.
